(** * schegen: page-type classifier, schema builders and safe mutation store

    A shallow embedding of the JavaScript sources of the schema generator
    (page-type detector, FAQ / Service / LocalBusiness / Article /
    BreadcrumbList builders, the AI post-processing pass and its text
    helpers, and the direct and the pooled database client) together with
    the properties that are settled against them.

    Conventions of the embedding.
    - A JavaScript string is a [string] whose characters are the UTF-16
      code units below 256; the empty string stands for an absent (falsy)
      string field.  White space and case mapping are those of JavaScript
      on these code units.
    - A JavaScript object is an association list that keeps insertion
      order; assigning to an existing key keeps the key's position.
    - Numbers are integers ([Z]).
    - Code that talks to MySQL, the file system, the clock or
      [Math.random] runs in a small state-and-exception monad over an
      explicit [world]. *)

From Stdlib Require Import String Ascii List Bool Arith ZArith Lia.
Import ListNotations.
Set Warnings "-register-all".
Local Open Scope list_scope.
Local Open Scope string_scope.

(* ===================================================================== *)
(** ** JavaScript strings *)
(* ===================================================================== *)

Module JsStr.

Definition chars (s : string) : list ascii := list_ascii_of_string s.
Definition str (l : list ascii) : string := string_of_list_ascii l.

Definition code (c : ascii) : nat := nat_of_ascii c.

Definition is_upper (c : ascii) : bool := Nat.leb 65 (code c) && Nat.leb (code c) 90.
Definition is_lower (c : ascii) : bool := Nat.leb 97 (code c) && Nat.leb (code c) 122.
Definition is_digit (c : ascii) : bool := Nat.leb 48 (code c) && Nat.leb (code c) 57.

(** White space as seen by [String.prototype.trim] and by [\s]: tab to
    carriage return, space and the no-break space U+00A0; the other white
    space of JavaScript lies above U+00FF. *)
Definition is_space (c : ascii) : bool :=
  let n := code c in
  Nat.eqb n 32 || (Nat.leb 9 n && Nat.leb n 13) || Nat.eqb n 160.

(** Word characters of [\w] and [\b]. *)
Definition is_word (c : ascii) : bool :=
  is_upper c || is_lower c || is_digit c || Nat.eqb (code c) 95.

(** The capital letters U+00C0 to U+00DE (the sign U+00D7 apart) and the
    small letters U+00E0 to U+00FE (the sign U+00F7 apart). *)
Definition is_upper_latin (c : ascii) : bool :=
  Nat.leb 192 (code c) && Nat.leb (code c) 222 && negb (Nat.eqb (code c) 215).
Definition is_lower_latin (c : ascii) : bool :=
  Nat.leb 224 (code c) && Nat.leb (code c) 254 && negb (Nat.eqb (code c) 247).

(** The case mapping of one code unit.  The capitals of U+00B5 and U+00FF
    lie above U+00FF and that of U+00DF is two letters: as single code
    units these three have no other case, which is how the [i] flag of a
    regular expression treats them. *)
Definition lower_char (c : ascii) : ascii :=
  if is_upper c || is_upper_latin c then ascii_of_nat (code c + 32) else c.
Definition upper_char (c : ascii) : ascii :=
  if is_lower c || is_lower_latin c then ascii_of_nat (code c - 32) else c.

Definition toLowerCase (s : string) : string := str (map lower_char (chars s)).

(** [s.toUpperCase()]: U+00DF becomes [SS]; U+00B5 and U+00FF, whose
    capitals are not code units below 256, stand for their capitals. *)
Definition toUpperCase (s : string) : string :=
  str (flat_map (fun c => if Nat.eqb (code c) 223 then [ "S"; "S" ]%char else [ upper_char c ])
         (chars s)).

Fixpoint drop_space (l : list ascii) : list ascii :=
  match l with
  | c :: l' => if is_space c then drop_space l' else l
  | [] => []
  end.

Definition trim_chars (l : list ascii) : list ascii :=
  rev (drop_space (rev (drop_space l))).

Definition trim (s : string) : string := str (trim_chars (chars s)).

(** [truthy s]: a string is truthy exactly when it is not empty. *)
Definition truthy (s : string) : bool :=
  match s with EmptyString => false | _ => true end.

(** [a || b] on strings. *)
Definition or_else (a b : string) : string := if truthy a then a else b.

(** [s.split(sep)] for a one-character separator. *)
Fixpoint split_chars (sep : ascii) (cur : list ascii) (l : list ascii)
  : list (list ascii) :=
  match l with
  | [] => [rev cur]
  | c :: l' =>
      if Ascii.eqb c sep then rev cur :: split_chars sep [] l'
      else split_chars sep (c :: cur) l'
  end.

Definition split (sep : ascii) (s : string) : list string :=
  map str (split_chars sep [] (chars s)).

(** [arr.join(sep)]. *)
Fixpoint join (sep : string) (l : list string) : string :=
  match l with
  | [] => ""
  | [x] => x
  | x :: l' => x ++ sep ++ join sep l'
  end.

Fixpoint prefix_chars (p l : list ascii) : bool :=
  match p, l with
  | [], _ => true
  | _ :: _, [] => false
  | a :: p', b :: l' => Ascii.eqb a b && prefix_chars p' l'
  end.

Definition startsWith (s p : string) : bool := prefix_chars (chars p) (chars s).

Fixpoint includes_chars (needle l : list ascii) : bool :=
  prefix_chars needle l ||
  match l with
  | [] => false
  | _ :: l' => includes_chars needle l'
  end.

(** [s.includes(needle)]. *)
Definition includes (s needle : string) : bool :=
  includes_chars (chars needle) (chars s).

(** [s.substring(0, n)]. *)
Definition substring0 (n : nat) (s : string) : string := str (firstn n (chars s)).

(** [truncate(str, maxLength)] of the schema templates. *)
Definition truncate (s : string) (maxLength : nat) : string :=
  if negb (truthy s) then ""
  else if Nat.leb (String.length s) maxLength then s
  else substring0 (maxLength - 3) s ++ "...".

(** The array idiom [s.split(',').map(a => a.trim()).filter(a => a)]. *)
Definition split_trim_filter (s : string) : list string :=
  filter truthy (map trim (split "," s)).

(** Decimal rendering of a natural number, as in string concatenation. *)
Fixpoint digits_fuel (fuel n : nat) (acc : list ascii) : list ascii :=
  match fuel with
  | 0 => acc
  | S fuel' =>
      let acc' := ascii_of_nat (48 + n mod 10) :: acc in
      if Nat.eqb (n / 10) 0 then acc' else digits_fuel fuel' (n / 10) acc'
  end.

Definition of_nat (n : nat) : string := str (digits_fuel (S n) n []).

Definition of_Z (z : Z) : string :=
  match z with
  | Z0 => "0"
  | Zpos _ => of_nat (Z.to_nat z)
  | Zneg _ => "-" ++ of_nat (Z.to_nat (Z.opp z))
  end.

End JsStr.

(* ===================================================================== *)
(** ** JavaScript values (JSON-shaped) *)
(* ===================================================================== *)

Module Json.

Inductive json : Type :=
| JUndef
| JNull
| JBool (b : bool)
| JNum (z : Z)
| JStr (s : string)
| JArr (elems : list json) (props : list (string * json))
| JObj (props : list (string * json)).

Definition fields := list (string * json).

(** JavaScript truthiness. *)
Definition truthy (v : json) : bool :=
  match v with
  | JUndef | JNull => false
  | JBool b => b
  | JNum z => negb (Z.eqb z 0)
  | JStr s => JsStr.truthy s
  | JArr _ _ | JObj _ => true
  end.

Fixpoint lookup (k : string) (ps : fields) : option json :=
  match ps with
  | [] => None
  | (k', v) :: ps' => if String.eqb k' k then Some v else lookup k ps'
  end.

(** Assignment [o[k] = v]: an existing key keeps its position, a new key
    goes last. *)
Fixpoint assign (k : string) (v : json) (ps : fields) : fields :=
  match ps with
  | [] => [(k, v)]
  | (k', v') :: ps' =>
      if String.eqb k' k then (k', v) :: ps' else (k', v') :: assign k v ps'
  end.

(** [delete o[k]]. *)
Fixpoint remove (k : string) (ps : fields) : fields :=
  match ps with
  | [] => []
  | (k', v') :: ps' =>
      if String.eqb k' k then ps' else (k', v') :: remove k ps'
  end.

(** Property read [v[k]] for a property name that is neither an index nor
    ["length"]: primitives have no such property. *)
Definition get (v : json) (k : string) : json :=
  match v with
  | JObj ps | JArr _ ps =>
      match lookup k ps with Some x => x | None => JUndef end
  | _ => JUndef
  end.

(** Property write [v[k] = x] in non-strict code: a write to a primitive is
    dropped. *)
Definition set (v : json) (k : string) (x : json) : json :=
  match v with
  | JObj ps => JObj (assign k x ps)
  | JArr es ps => JArr es (assign k x ps)
  | _ => v
  end.

Definition arr (l : list json) : json := JArr l [].

(** [Object.keys(v)] of an object. *)
Definition keys (ps : fields) : list string := map fst ps.

(** [typeof v === 'object'] (true of [null], arrays and objects). *)
Definition is_object_type (v : json) : bool :=
  match v with
  | JNull | JArr _ _ | JObj _ => true
  | _ => false
  end.

(** Strict equality [v === s] against a string literal. *)
Definition is_str (v : json) (s : string) : bool :=
  match v with
  | JStr s' => String.eqb s' s
  | _ => false
  end.

(** An optional string field of an object literal: present only when the
    guard [if (s)] passed. *)
Definition opt_field (k : string) (s : string) : fields :=
  if JsStr.truthy s then [(k, JStr s)] else [].

End Json.

(* ===================================================================== *)
(** ** Regular expressions

    The patterns of the sources are kept as their literal text and parsed
    into a small abstract syntax; matching follows the backtracking
    discipline of the JavaScript engine (leftmost start, alternatives in
    order, greedy quantifiers). *)
(* ===================================================================== *)

Module Regex.
Import JsStr.
Local Open Scope char_scope.

Inductive re : Type :=
| Eps
| Cls (neg : bool) (ranges : list (nat * nat))
| Seq (a b : re)
| Alt (a b : re)
| Star (a : re)
| Bol
| Eol
| WordB
| Group (n : nat) (a : re).

(** *** Parsing the pattern text *)

Definition single (c : ascii) : list (nat * nat) := [(code c, code c)].

Definition space_ranges : list (nat * nat) := [(32, 32); (9, 13); (160, 160)].
Definition digit_ranges : list (nat * nat) := [(48, 57)].
Definition word_ranges : list (nat * nat) := [(65, 90); (97, 122); (48, 57); (95, 95)].

(** The set denoted by [\c] inside or outside a class. *)
Definition escape_ranges (c : ascii) : list (nat * nat) :=
  match c with
  | "s" => space_ranges
  | "d" => digit_ranges
  | "w" => word_ranges
  | "n" => [(10, 10)]
  | "r" => [(13, 13)]
  | "t" => [(9, 9)]
  | _ => single c
  end.

(** Items of a bracket class up to the closing bracket. *)
Fixpoint class_items (l : list ascii) (acc : list (nat * nat))
  : option (list (nat * nat) * list ascii) :=
  match l with
  | [] => None
  | "]" :: rest => Some (acc, rest)
  | "\" :: c :: rest => class_items rest (acc ++ escape_ranges c)
  | "\" :: [] => None
  | lo :: rest =>
      match rest with
      | "-" :: "]" :: _ => class_items rest (acc ++ single lo)
      | "-" :: "\" :: _ => None
      | "-" :: hi :: rest' => class_items rest' (acc ++ [(code lo, code hi)])
      | _ => class_items rest (acc ++ single lo)
      end
  end.

Fixpoint read_nat (l : list ascii) (acc : nat) : nat * list ascii :=
  match l with
  | c :: rest => if is_digit c then read_nat rest (10 * acc + (code c - 48)) else (acc, l)
  | [] => (acc, l)
  end.

Fixpoint repeat_re (n : nat) (a : re) (tail : re) : re :=
  match n with
  | 0 => tail
  | S n' => Seq a (repeat_re n' a tail)
  end.

Fixpoint repeat_opt (n : nat) (a : re) : re :=
  match n with
  | 0 => Eps
  | S n' => Alt (Seq a (repeat_opt n' a)) Eps
  end.

(** A quantifier after an atom, if there is one.  Lazy quantifiers do not
    occur in the sources and are rejected. *)
Definition quantifier (a : re) (l : list ascii) : option (re * list ascii) :=
  let greedy (r : re) (rest : list ascii) :=
    match rest with
    | "?" :: _ => None
    | _ => Some (r, rest)
    end in
  match l with
  | "*" :: rest => greedy (Star a) rest
  | "+" :: rest => greedy (Seq a (Star a)) rest
  | "?" :: rest => greedy (Alt a Eps) rest
  | "{" :: rest =>
      let '(n, rest1) := read_nat rest 0 in
      match rest1 with
      | "}" :: rest2 => greedy (repeat_re n a Eps) rest2
      | "," :: "}" :: rest2 => greedy (repeat_re n a (Star a)) rest2
      | "," :: rest2 =>
          let '(m, rest3) := read_nat rest2 0 in
          match rest3 with
          | "}" :: rest4 => greedy (repeat_re n a (repeat_opt (m - n) a)) rest4
          | _ => None
          end
      | _ => None
      end
  | _ => Some (a, l)
  end.

Definition parsed := option (re * list ascii * nat).

Fixpoint p_alt (fuel : nat) (l : list ascii) (g : nat) {struct fuel} : parsed :=
  match fuel with
  | 0 => None
  | S f =>
      match p_seq f l g with
      | Some (a, "|" :: rest, g1) =>
          match p_alt f rest g1 with
          | Some (b, rest', g2) => Some (Alt a b, rest', g2)
          | None => None
          end
      | other => other
      end
  end
with p_seq (fuel : nat) (l : list ascii) (g : nat) {struct fuel} : parsed :=
  match fuel with
  | 0 => None
  | S f =>
      match l with
      | [] => Some (Eps, l, g)
      | "|" :: _ => Some (Eps, l, g)
      | ")" :: _ => Some (Eps, l, g)
      | _ =>
          match p_atom f l g with
          | Some (a, rest, g1) =>
              match quantifier a rest with
              | Some (a', rest') =>
                  match p_seq f rest' g1 with
                  | Some (Eps, rest'', g2) => Some (a', rest'', g2)
                  | Some (b, rest'', g2) => Some (Seq a' b, rest'', g2)
                  | None => None
                  end
              | None => None
              end
          | None => None
          end
      end
  end
with p_atom (fuel : nat) (l : list ascii) (g : nat) {struct fuel} : parsed :=
  match fuel with
  | 0 => None
  | S f =>
      match l with
      | "(" :: "?" :: ":" :: rest =>
          match p_alt f rest g with
          | Some (a, ")" :: rest', g1) => Some (a, rest', g1)
          | _ => None
          end
      | "(" :: "?" :: _ => None
      | "(" :: rest =>
          match p_alt f rest (S g) with
          | Some (a, ")" :: rest', g1) => Some (Group (S g) a, rest', g1)
          | _ => None
          end
      | "[" :: "^" :: rest =>
          match class_items rest [] with
          | Some (rs, rest') => Some (Cls true rs, rest', g)
          | None => None
          end
      | "[" :: rest =>
          match class_items rest [] with
          | Some (rs, rest') => Some (Cls false rs, rest', g)
          | None => None
          end
      | "\" :: "b" :: rest => Some (WordB, rest, g)
      | "\" :: "S" :: rest => Some (Cls true space_ranges, rest, g)
      | "\" :: "D" :: rest => Some (Cls true digit_ranges, rest, g)
      | "\" :: "W" :: rest => Some (Cls true word_ranges, rest, g)
      | "\" :: "B" :: rest => None
      | "\" :: c :: rest =>
          if is_digit c then None else Some (Cls false (escape_ranges c), rest, g)
      | "\" :: [] => None
      | "." :: rest => Some (Cls true [(10, 10); (13, 13)], rest, g)
      | "^" :: rest => Some (Bol, rest, g)
      | "$" :: rest => Some (Eol, rest, g)
      | "*" :: _ => None
      | "+" :: _ => None
      | "?" :: _ => None
      | c :: rest => Some (Cls false (single c), rest, g)
      | [] => None
      end
  end.

Definition parse (src : string) : option re :=
  let l := chars src in
  match p_alt (4 * List.length l + 8) l 0 with
  | Some (r, [], _) => Some r
  | _ => None
  end.

(** A compiled pattern: the literal's text and its [i] flag. *)
Record regexp : Type := mkRegexp { source : string; ignoreCase : bool }.

(** [/src/] and [/src/i]. *)
Definition rx (src : string) : regexp := mkRegexp src false.
Definition rxi (src : string) : regexp := mkRegexp src true.

(** A pattern that matches nothing stands in for text that does not parse;
    [well_formed] checks that this never happens for a table. *)
Definition ast (r : regexp) : re :=
  match parse (source r) with
  | Some a => a
  | None => Cls false []
  end.

Definition well_formed (r : regexp) : bool :=
  match parse (source r) with Some _ => true | None => false end.

(** *** Matching *)

Record pos : Type := mkPos { before : list ascii; after : list ascii }.

Definition captures := list (nat * list ascii).

Definition in_ranges (rs : list (nat * nat)) (c : ascii) : bool :=
  existsb (fun r => Nat.leb (fst r) (code c) && Nat.leb (code c) (snd r)) rs.

Definition in_class (ci neg : bool) (rs : list (nat * nat)) (c : ascii) : bool :=
  let hit :=
    if ci then in_ranges rs c || in_ranges rs (lower_char c) || in_ranges rs (upper_char c)
    else in_ranges rs c in
  xorb neg hit.

Definition at_boundary (p : pos) : bool :=
  let prev := match before p with c :: _ => is_word c | [] => false end in
  let next := match after p with c :: _ => is_word c | [] => false end in
  xorb prev next.

Definition result := option (pos * captures).

(** [run ci r p c k]: match [r] at [p], then continue with [k]. *)
Fixpoint run (ci : bool) (r : re) (p : pos) (c : captures)
  (k : pos -> captures -> result) {struct r} : result :=
  match r with
  | Eps => k p c
  | Cls neg rs =>
      match after p with
      | x :: xs =>
          if in_class ci neg rs x then k (mkPos (x :: before p) xs) c else None
      | [] => None
      end
  | Seq a b => run ci a p c (fun p' c' => run ci b p' c' k)
  | Alt a b =>
      match run ci a p c k with
      | Some x => Some x
      | None => run ci b p c k
      end
  | Star a =>
      (fix loop (n : nat) (p : pos) (c : captures) {struct n} : result :=
         match n with
         | 0 => k p c
         | S n' =>
             match run ci a p c
                     (fun p' c' =>
                        if Nat.ltb (List.length (after p')) (List.length (after p))
                        then loop n' p' c' else None) with
             | Some x => Some x
             | None => k p c
             end
         end) (List.length (after p)) p c
  | Bol => match before p with [] => k p c | _ => None end
  | Eol => match after p with [] => k p c | _ => None end
  | WordB => if at_boundary p then k p c else None
  | Group n a =>
      run ci a p c
        (fun p' c' =>
           let len := List.length (before p') - List.length (before p) in
           k p' ((n, rev (firstn len (before p'))) :: c'))
  end.

Definition run_at (r : regexp) (p : pos) : result :=
  run (ignoreCase r) (ast r) p [] (fun p' c' => Some (p', c')).

(** Leftmost match, scanning the start position from left to right. *)
Fixpoint search (r : regexp) (bef aft : list ascii) {struct aft}
  : option (pos * pos * captures) :=
  match run_at r (mkPos bef aft) with
  | Some (e, c) => Some (mkPos bef aft, e, c)
  | None =>
      match aft with
      | x :: xs => search r (x :: bef) xs
      | [] => None
      end
  end.

(** [pattern.test(s)]. *)
Definition test (r : regexp) (s : string) : bool :=
  match search r [] (chars s) with Some _ => true | None => false end.

(** [s.match(pattern)[n]] for a pattern without the [g] flag. *)
Definition match_group (r : regexp) (n : nat) (s : string) : option string :=
  match search r [] (chars s) with
  | Some (_, _, c) =>
      match find (fun e => Nat.eqb (fst e) n) c with
      | Some (_, txt) => Some (str txt)
      | None => None
      end
  | None => None
  end.

(** [s.replace(pattern, f)] for a pattern with the [g] flag. *)
Fixpoint replace_from (fuel : nat) (r : regexp) (f : list ascii -> list ascii)
  (bef aft : list ascii) {struct fuel} : list ascii :=
  match fuel with
  | 0 => aft
  | S fuel' =>
      let step :=
        match aft with
        | x :: xs => x :: replace_from fuel' r f (x :: bef) xs
        | [] => []
        end in
      match run_at r (mkPos bef aft) with
      | Some (e, _) =>
          let len := List.length aft - List.length (after e) in
          if Nat.eqb len 0 then (f [] ++ step)%list
          else (f (firstn len aft) ++ replace_from fuel' r f (before e) (after e))%list
      | None => step
      end
  end.

Definition replace_all (r : regexp) (f : string -> string) (s : string) : string :=
  str (replace_from (S (String.length s)) r (fun l => chars (f (str l))) [] (chars s)).

End Regex.

(* ===================================================================== *)
(** ** Input records: PageData, OrgInfo, Options *)
(* ===================================================================== *)

Module Heading.
Record t : Type := mk { level : nat; text : string }.
End Heading.

Module FaqPair.
Record t : Type := mk { question : string; answer : string }.
End FaqPair.

Module PageData.
Record t : Type := mk {
  url : string;
  title : string;
  description : string;
  content : string;
  headings : list Heading.t;
  author : string;
  publishDate : string;
  modifiedDate : string;
  featuredImage : string;
  categories : list string;
  tags : list string;
  faqs : list FaqPair.t;
  phone : string;
  serviceAreas : list string;
  (** [wordpressInfo.postType], when [wordpressInfo] is present. *)
  wordpressInfo : option string
}.

End PageData.

Module OrgInfo.
Record t : Type := mk {
  name : string;
  url : string;
  logo : string;
  phone : string;
  areaServed : string
}.
End OrgInfo.

Module Address.
Record t : Type := mk {
  streetAddress : string;
  addressLocality : string;
  addressRegion : string;
  postalCode : string;
  addressCountry : string
}.
End Address.

Module Options.
Record t : Type := mk {
  areaServed : string;
  businessType : string;
  phone : string;
  email : string;
  address : option Address.t;
  serviceAreas : list string;
  sameAs : list string;
  priceRange : string;
  openingHours : option Json.json;
  (** [rating.value] and [rating.count]. *)
  rating : option (Json.json * Json.json)
}.

(** [options = {}]. *)
Definition none : t := mk "" "" "" "" None [] [] "" None None.
End Options.

(* ===================================================================== *)
(** ** Page-type detector ([detect]) *)
(* ===================================================================== *)

Module PageTypeDetector.
Import JsStr Regex.

Definition BLOG_URL_PATTERNS : list regexp :=
  [ rxi "\/blog\/";
    rxi "\/post\/";
    rxi "\/posts\/";
    rxi "\/news\/";
    rxi "\/article\/";
    rxi "\/articles\/";
    rx "\/\d{4}\/\d{2}\/" ].

Definition SERVICE_URL_PATTERNS : list regexp :=
  [ rxi "\/service\/";
    rxi "\/services\/";
    rxi "\/our-services\/";
    rxi "\/what-we-do\/";
    rxi "\/solutions\/";
    rxi "\/ac-";
    rxi "\/air-conditioning";
    rxi "\/heating";
    rxi "\/hvac";
    rxi "\/furnace";
    rxi "\/heat-pump";
    rxi "\/duct";
    rxi "\/thermostat";
    rxi "\/mini-split";
    rxi "\/repair\/";
    rxi "\/installation\/";
    rxi "\/maintenance\/";
    rxi "\/tune-up";
    rxi "\/plumbing";
    rxi "\/electrical";
    rxi "\/roofing" ].

Definition LOCATION_URL_PATTERNS : list regexp :=
  [ rxi "\/locations?\/";
    rxi "\/service-area";
    rxi "\/areas?-(?:we-)?served?";
    rxi "\/cities\/";
    rxi "\/near-me";
    rxi "\/(?:ac|hvac|heating|cooling|air-conditioning)-[a-z]+-[a-z]+";
    rxi "\/[a-z]+-(?:ac|hvac|heating|cooling)-" ].

Definition SERVICE_KEYWORDS : list string :=
  [ "service"; "our services"; "what we offer"; "how we help"; "pricing";
    "get started"; "contact us"; "free consultation"; "request a quote";
    "free estimate"; "schedule service"; "book appointment";
    "ac repair"; "air conditioning"; "heating repair"; "hvac service";
    "furnace repair"; "furnace installation"; "heat pump"; "duct cleaning";
    "emergency service"; "24/7"; "licensed"; "certified technician";
    "same day service"; "tune-up"; "maintenance plan" ].

(** The [locationPatterns] table local to [detect]. *)
Definition locationPatterns : list regexp :=
  [ rx "(?:in|near|serving)\s+[A-Z][a-z]+";
    rx "[A-Z][a-z]+(?:\s+[A-Z][a-z]+)?\s+(?:AC|HVAC|Heating|Cooling)";
    rxi "service\s+area";
    rxi "areas?\s+we\s+serve";
    rxi "locations?\s+served";
    rxi "serving\s+the\s+[A-Z]" ].

Record Scores : Type := mkScores { article : nat; service : nat; location : nat }.

(** A [for ... if (pattern.test(url)) { score += w; break; }] loop. *)
Definition first_hit (pats : list regexp) (url : string) (w : nat) : nat :=
  if existsb (fun p => test p url) pats then w else 0.

Definition bonus (b : bool) (w : nat) : nat := if b then w else 0.

Definition any_includes (text : string) (needles : list string) : bool :=
  existsb (includes text) needles.

Definition heading_service (text : string) : bool :=
  any_includes text
    [ "service"; "solution"; "what we offer"; "repair"; "installation";
      "maintenance"; "hvac"; "air conditioning"; "heating"; "why choose";
      "our process"; "benefits" ].

Definition heading_article (text : string) : bool :=
  any_includes text [ "written by"; "posted by"; "author"; "published"; "read more" ].

Definition heading_location (text : string) : bool :=
  any_includes text [ "serving"; "service area"; "near you"; "in your area"; "local" ].

Definition sum_over {A : Type} (f : A -> nat) (l : list A) : nat :=
  fold_left (fun acc x => acc + f x) l 0.

(** The scoring part of [detect]: every signal adds to one of the three
    counters. *)
Definition scores (url : string) (pageData : PageData.t) : Scores :=
  let content := toLowerCase (PageData.content pageData) in
  let title := toLowerCase (PageData.title pageData) in
  let combinedText := content ++ " " ++ title in
  let headingTexts := map (fun h => toLowerCase (Heading.text h)) (PageData.headings pageData) in
  let hasDate := truthy (PageData.publishDate pageData) in
  let postType := PageData.wordpressInfo pageData in
  let is_type (t : string) :=
    match postType with Some p => String.eqb p t | None => false end in
  mkScores
    (* article *)
    (first_hit BLOG_URL_PATTERNS url 3
     + bonus (is_type "post") 3
     + bonus (truthy (PageData.author pageData)) 2
     + bonus hasDate 2
     + bonus (negb (Nat.eqb (List.length (PageData.categories pageData)) 0)) 2
     + bonus (negb (Nat.eqb (List.length (PageData.tags pageData)) 0)) 1
     + sum_over (fun t => bonus (heading_article t) 2) headingTexts)
    (* service *)
    (first_hit SERVICE_URL_PATTERNS url 3
     + bonus (negb (is_type "post") && is_type "page") 1
     + sum_over (fun k => bonus (includes combinedText (toLowerCase k)) 1) SERVICE_KEYWORDS
     + sum_over (fun t => bonus (heading_service t) 2) headingTexts
     + bonus (negb hasDate) 1)
    (* location *)
    (first_hit LOCATION_URL_PATTERNS url 4
     + sum_over (fun t => bonus (heading_location t) 2) headingTexts
     + sum_over
         (fun p => bonus (test p title || test p (substring0 1000 content)) 2)
         locationPatterns
     + bonus (negb hasDate) 1).

(** The floor a location score has to reach. *)
Definition LOCATION_FLOOR : nat := 4.

(** [detect(url, pageData)]. *)
Definition detect (url : string) (pageData : PageData.t) : string :=
  let s := scores url pageData in
  let maxScore := Nat.max (Nat.max (article s) (service s)) (location s) in
  if Nat.leb maxScore (location s) && Nat.leb LOCATION_FLOOR (location s)
  then "location"
  else if Nat.ltb (article s) (service s) then "service" else "article".

End PageTypeDetector.

(* ===================================================================== *)
(** ** FAQPage builder ([schemas/faq.js]) *)
(* ===================================================================== *)

Module Faq.
Import JsStr Regex Json.

(** [cleanText(text)]. *)
Definition cleanText (text : string) : string :=
  if negb (JsStr.truthy text) then ""
  else
    trim (replace_all (rx "[\r\n]+") (fun _ => " ")
            (replace_all (rx "\s+") (fun _ => " ") text)).

(** The filter predicate of [generate]. *)
Definition valid (faq : FaqPair.t) : bool :=
  JsStr.truthy (FaqPair.question faq) && JsStr.truthy (FaqPair.answer faq)
  && JsStr.truthy (trim (FaqPair.question faq))
  && JsStr.truthy (trim (FaqPair.answer faq)).

(** One entry of [mainEntity]. *)
Definition question_entity (faq : FaqPair.t) : json :=
  JObj [ ("@type", JStr "Question");
         ("name", JStr (cleanText (FaqPair.question faq)));
         ("acceptedAnswer",
          JObj [ ("@type", JStr "Answer");
                 ("text", JStr (cleanText (FaqPair.answer faq))) ]) ].

(** The cap on the number of questions. *)
Definition MAX_FAQS : nat := 10.

(** [generate(faqs)]; [None] is the JavaScript [null]. *)
Definition generate (faqs : list FaqPair.t) : option json :=
  match faqs with
  | [] => None
  | _ =>
      let validFaqs := firstn MAX_FAQS (filter valid faqs) in
      match validFaqs with
      | [] => None
      | _ =>
          Some (JObj [ ("@type", JStr "FAQPage");
                       ("mainEntity", arr (map question_entity validFaqs)) ])
      end
  end.

End Faq.

(* ===================================================================== *)
(** ** Service builder ([schemas/service.js]) *)
(* ===================================================================== *)

Module Service.
Import JsStr Regex Json.

Definition CANADIAN_PROVINCES : list string :=
  [ "ON"; "QC"; "BC"; "AB"; "MB"; "SK"; "NS"; "NB"; "NL"; "PE"; "NT"; "YT"; "NU" ].

Definition US_STATES : list string :=
  [ "AL"; "AK"; "AZ"; "AR"; "CA"; "CO"; "CT"; "DE"; "FL"; "GA"; "HI"; "ID"; "IL"; "IN"; "IA";
    "KS"; "KY"; "LA"; "ME"; "MD"; "MA"; "MI"; "MN"; "MS"; "MO"; "MT"; "NE"; "NV"; "NH"; "NJ";
    "NM"; "NY"; "NC"; "ND"; "OH"; "OK"; "OR"; "PA"; "RI"; "SC"; "SD"; "TN"; "TX"; "UT"; "VT";
    "VA"; "WA"; "WV"; "WI"; "WY"; "DC" ].

Definition CANADIAN_CITIES : list (string * list string) :=
  [ ("ON", [ "Hamilton"; "Toronto"; "Ottawa"; "Mississauga"; "Brampton"; "Burlington"; "Oakville";
             "Stoney Creek"; "Ancaster"; "Dundas"; "Waterdown"; "Grimsby"; "St. Catharines"; "St Catharines";
             "Niagara Falls"; "London"; "Kitchener"; "Waterloo"; "Cambridge"; "Guelph"; "Binbrook"; "Brantford" ]);
    ("BC", [ "Vancouver"; "Victoria"; "Burnaby"; "Surrey"; "Richmond"; "Kelowna" ]);
    ("AB", [ "Calgary"; "Edmonton"; "Red Deer"; "Lethbridge" ]);
    ("QC", [ "Montreal"; "Quebec City"; "Laval"; "Gatineau" ]) ].

Definition US_CITIES : list (string * list string) :=
  [ ("TX", [ "Houston"; "Dallas"; "Austin"; "San Antonio"; "Fort Worth"; "El Paso"; "Arlington"; "Plano" ]);
    ("CA", [ "Los Angeles"; "San Diego"; "San Jose"; "San Francisco"; "Sacramento"; "Long Beach"; "Oakland" ]);
    ("FL", [ "Miami"; "Tampa"; "Orlando"; "Jacksonville"; "Fort Lauderdale"; "St. Petersburg" ]);
    ("NY", [ "New York"; "Brooklyn"; "Buffalo"; "Rochester"; "Syracuse"; "Albany" ]);
    ("IL", [ "Chicago"; "Aurora"; "Naperville"; "Joliet"; "Rockford" ]);
    ("PA", [ "Philadelphia"; "Pittsburgh"; "Allentown"; "Erie" ]);
    ("AZ", [ "Phoenix"; "Tucson"; "Mesa"; "Chandler"; "Scottsdale" ]);
    ("GA", [ "Atlanta"; "Augusta"; "Columbus"; "Savannah" ]);
    ("NC", [ "Charlotte"; "Raleigh"; "Greensboro"; "Durham" ]);
    ("OH", [ "Columbus"; "Cleveland"; "Cincinnati"; "Toledo"; "Akron" ]);
    ("MI", [ "Detroit"; "Grand Rapids"; "Ann Arbor"; "Lansing" ]);
    ("TN", [ "Nashville"; "Memphis"; "Knoxville"; "Chattanooga" ]);
    ("WA", [ "Seattle"; "Spokane"; "Tacoma"; "Bellevue" ]);
    ("CO", [ "Denver"; "Colorado Springs"; "Aurora"; "Fort Collins" ]);
    ("MA", [ "Boston"; "Worcester"; "Springfield"; "Cambridge" ]);
    ("NV", [ "Las Vegas"; "Henderson"; "Reno" ]);
    ("IN", [ "Indianapolis"; "Fort Wayne"; "Evansville" ]);
    ("MO", [ "Kansas City"; "St. Louis"; "Springfield" ]);
    ("MD", [ "Baltimore"; "Frederick"; "Rockville" ]);
    ("VA", [ "Virginia Beach"; "Norfolk"; "Richmond"; "Alexandria" ]) ].

Definition mem (s : string) (l : list string) : bool := existsb (String.eqb s) l.

(** First region of a city table one of whose cities occurs in the text. *)
Definition region_of_text (table : list (string * list string)) (allText : string)
  : option string :=
  match find (fun e => existsb (fun city => includes allText (toLowerCase city)) (snd e)) table with
  | Some e => Some (fst e)
  | None => None
  end.

Definition CA_POSTAL : regexp := rxi "^[A-Z]\d[A-Z]\s?\d[A-Z]\d$".
Definition US_ZIP : regexp := rx "^\d{5}(-\d{4})?$".

(** What the address alone says about the country, if anything. *)
Definition country_of_address (provinces states : string -> bool) (a : Address.t)
  : option string :=
  if JsStr.truthy (Address.addressCountry a) then Some (Address.addressCountry a)
  else if JsStr.truthy (Address.postalCode a) && test CA_POSTAL (Address.postalCode a) then Some "CA"
  else if JsStr.truthy (Address.postalCode a) && test US_ZIP (Address.postalCode a) then Some "US"
  else if JsStr.truthy (Address.addressRegion a) then
    let region := toUpperCase (Address.addressRegion a) in
    if provinces region then Some "CA"
    else if states region then Some "US"
    else None
  else None.

(** The scan of the city tables that follows the address checks. *)
Definition country_of_text (ca us : list (string * list string)) (allText : string) : string :=
  match region_of_text ca allText with
  | Some _ => "CA"
  | None =>
      match region_of_text us allText with
      | Some _ => "US"
      | None => "US"
      end
  end.

(** [detectCountryFromAreas(address, areaServedArray)]. *)
Definition detectCountryFromAreas (address : option Address.t) (areaServedArray : list string)
  : string :=
  let fromAddress :=
    match address with
    | Some a => country_of_address (fun r => mem r CANADIAN_PROVINCES) (fun r => mem r US_STATES) a
    | None => None
    end in
  match fromAddress with
  | Some c => c
  | None => country_of_text CANADIAN_CITIES US_CITIES (toLowerCase (join " " areaServedArray))
  end.

Definition region_of_areas (ca us : list (string * list string)) (allText country : string)
  : string :=
  let fromCa := if String.eqb country "CA" then region_of_text ca allText else None in
  match fromCa with
  | Some r => r
  | None =>
      let fromUs := if String.eqb country "US" then region_of_text us allText else None in
      match fromUs with
      | Some r => r
      | None => ""
      end
  end.

(** [detectRegionFromAreas(address, areaServedArray, country)]. *)
Definition detectRegionFromAreas (address : option Address.t) (areaServedArray : list string)
  (country : string) : string :=
  match address with
  | Some a =>
      if JsStr.truthy (Address.addressRegion a) then Address.addressRegion a
      else region_of_areas CANADIAN_CITIES US_CITIES (toLowerCase (join " " areaServedArray)) country
  | None => region_of_areas CANADIAN_CITIES US_CITIES (toLowerCase (join " " areaServedArray)) country
  end.

Record ServiceInfo : Type := mkInfo { type : string; category : string; name : string }.

(** The [servicePatterns] table of [extractServiceType], every pattern
    with the [i] flag: pattern, type, category, name. *)
Definition servicePatterns : list (regexp * ServiceInfo) :=
  let row (p t c n : string) := (rxi p, mkInfo t c n) in
  [ row "ac\s*repair|air\s*condition(er|ing)\s*repair" "Air Conditioning Repair" "HVAC" "Air Conditioning Repair Service";
    row "ac\s*install|air\s*condition(er|ing)\s*install" "Air Conditioning Installation" "HVAC" "AC Installation Service";
    row "ac\s*maintenance|air\s*condition(er|ing)\s*maintenance" "Air Conditioning Maintenance" "HVAC" "AC Maintenance Service";
    row "ac\s*tune[\s-]*up|air\s*condition(er|ing)\s*tune[\s-]*up" "Air Conditioning Tune-Up" "HVAC" "AC Tune-Up Service";
    row "ac\s*replacement|air\s*condition(er|ing)\s*replacement" "Air Conditioning Replacement" "HVAC" "AC Replacement Service";
    row "central\s*air" "Central Air Conditioning Service" "HVAC" "Central Air Conditioning Service";
    row "heat(er|ing)\s*repair" "Heating Repair" "HVAC" "Heating Repair Service";
    row "heat(er|ing)\s*install" "Heating Installation" "HVAC" "Heating Installation Service";
    row "heat(er|ing)\s*maintenance" "Heating Maintenance" "HVAC" "Heating Maintenance Service";
    row "furnace\s*repair" "Furnace Repair" "HVAC" "Furnace Repair Service";
    row "furnace\s*install" "Furnace Installation" "HVAC" "Furnace Installation Service";
    row "furnace\s*maintenance|furnace\s*tune[\s-]*up" "Furnace Maintenance" "HVAC" "Furnace Maintenance Service";
    row "furnace\s*replacement" "Furnace Replacement" "HVAC" "Furnace Replacement Service";
    row "boiler\s*repair" "Boiler Repair" "HVAC" "Boiler Repair Service";
    row "boiler\s*install" "Boiler Installation" "HVAC" "Boiler Installation Service";
    row "heat\s*pump\s*repair" "Heat Pump Repair" "HVAC" "Heat Pump Repair Service";
    row "heat\s*pump\s*install" "Heat Pump Installation" "HVAC" "Heat Pump Installation Service";
    row "heat\s*pump\s*maintenance" "Heat Pump Maintenance" "HVAC" "Heat Pump Maintenance Service";
    row "heat\s*pump" "Heat Pump Service" "HVAC" "Heat Pump Service";
    row "duct\s*clean" "Duct Cleaning" "HVAC" "Air Duct Cleaning Service";
    row "duct\s*repair" "Duct Repair" "HVAC" "Ductwork Repair Service";
    row "duct\s*install|ductwork\s*install" "Duct Installation" "HVAC" "Ductwork Installation Service";
    row "duct\s*seal" "Duct Sealing" "HVAC" "Duct Sealing Service";
    row "indoor\s*air\s*quality|iaq" "Indoor Air Quality" "HVAC" "Indoor Air Quality Service";
    row "air\s*purif" "Air Purification" "HVAC" "Air Purification Service";
    row "air\s*filter" "Air Filtration" "HVAC" "Air Filtration Service";
    row "humidifier" "Humidifier Service" "HVAC" "Humidifier Installation & Service";
    row "dehumidifier" "Dehumidifier Service" "HVAC" "Dehumidifier Installation & Service";
    row "uv\s*light|uv\s*air" "UV Air Purification" "HVAC" "UV Air Purification Service";
    row "thermostat\s*install" "Thermostat Installation" "HVAC" "Thermostat Installation Service";
    row "smart\s*thermostat" "Smart Thermostat Installation" "HVAC" "Smart Thermostat Installation Service";
    row "thermostat" "Thermostat Service" "HVAC" "Thermostat Service";
    row "mini[\s-]*split\s*install" "Mini Split Installation" "HVAC" "Ductless Mini Split Installation";
    row "mini[\s-]*split\s*repair" "Mini Split Repair" "HVAC" "Ductless Mini Split Repair";
    row "mini[\s-]*split|ductless" "Ductless HVAC Service" "HVAC" "Ductless Mini Split Service";
    row "emergency\s*(hvac|ac|heat|air)" "Emergency HVAC Service" "HVAC" "24/7 Emergency HVAC Service";
    row "24[\s\/]*7|after\s*hours" "Emergency HVAC Service" "HVAC" "24/7 Emergency HVAC Service";
    row "hvac\s*repair" "HVAC Repair" "HVAC" "HVAC Repair Service";
    row "hvac\s*install" "HVAC Installation" "HVAC" "HVAC Installation Service";
    row "hvac\s*maintenance" "HVAC Maintenance" "HVAC" "HVAC Maintenance Service";
    row "refrigerant|freon" "Refrigerant Service" "HVAC" "Refrigerant Recharge Service";
    row "compressor" "Compressor Service" "HVAC" "AC Compressor Service";
    row "evaporator\s*coil" "Evaporator Coil Service" "HVAC" "Evaporator Coil Service";
    row "condenser" "Condenser Service" "HVAC" "Condenser Service";
    row "plumb(ing|er)" "Plumbing Service" "Home Services" "Plumbing Service";
    row "electric(al|ian)" "Electrical Service" "Home Services" "Electrical Service";
    row "roof(ing)?" "Roofing Service" "Home Services" "Roofing Service";
    row "water\s*heater" "Water Heater Service" "Home Services" "Water Heater Service";
    row "insulation" "Insulation Service" "Home Services" "Insulation Service";
    row "commercial\s*(hvac|ac|heat)" "Commercial HVAC Service" "Commercial HVAC" "Commercial HVAC Service";
    row "hvac|heating|cooling|air\s*condition" "HVAC Service" "HVAC" "HVAC Service" ].

(** [extractServiceType(pageData)]. *)
Definition extractServiceType (pageData : PageData.t) : ServiceInfo :=
  let title := PageData.title pageData in
  let combinedText :=
    title ++ " " ++ PageData.content pageData ++ " "
    ++ join " " (map Heading.text (PageData.headings pageData)) in
  match find (fun row => test (fst row) combinedText) servicePatterns with
  | Some row => snd row
  | None => mkInfo title "Service" title
  end.

(** [formatLocationName(name)]; [None] is [null]. *)
Definition formatLocationName (name : option string) : option string :=
  match name with
  | None => None
  | Some n =>
      if negb (JsStr.truthy n) then None
      else Some (trim (replace_all (rx "\b\w") toUpperCase
                         (replace_all (rx "-") (fun _ => " ") n)))
  end.

(** The [locationPatterns] table local to [extractLocationFromPage]. *)
Definition locationPatterns : list regexp :=
  [ rxi "(?:in|near|serving)\s+([A-Z][a-z]+(?:\s+[A-Z][a-z]+)?)";
    rxi "([A-Z][a-z]+(?:\s+[A-Z][a-z]+)?)\s+(?:AC|HVAC|Heating|Cooling|Air|Plumbing|Electric)";
    rxi "\/locations?\/([a-z-]+)";
    rxi "\/([a-z-]+)-(?:ac|hvac|heating|cooling|plumbing)";
    rxi "\/(?:ac|hvac|heating|cooling|plumbing)-([a-z-]+)";
    rxi "\/service-area\/([a-z-]+)" ].

(** [Object.values(table).flat()]. *)
Definition all_cities (table : list (string * list string)) : list string :=
  flat_map snd table.

(** First pattern of [locationPatterns] that matches the text, formatted. *)
Definition first_pattern_location (text : string) : option (option string) :=
  match find (fun p => test p text) locationPatterns with
  | Some p => Some (formatLocationName (match_group p 1 text))
  | None => None
  end.

(** [extractLocationFromPage(pageData)]; [None] is [null]. *)
Definition extractLocationFromPage (pageData : PageData.t) : option string :=
  let title := PageData.title pageData in
  let commonCities := (all_cities US_CITIES ++ all_cities CANADIAN_CITIES)%list in
  let combinedText := title ++ " " ++ PageData.content pageData in
  match find (fun city => test (rxi ("\b" ++ city ++ "\b")) combinedText) commonCities with
  | Some city => Some city
  | None =>
      match first_pattern_location title with
      | Some r => r
      | None =>
          match first_pattern_location (PageData.url pageData) with
          | Some r => r
          | None => None
          end
      end
  end.

Definition city (name : string) : json :=
  JObj [ ("@type", JStr "City"); ("name", JStr name) ].

(** The [areaServedArray] of [generate]. *)
Definition areaServedArray (pageData : PageData.t) (options : Options.t) : list string :=
  let fromOptions :=
    if JsStr.truthy (Options.areaServed options)
    then split_trim_filter (Options.areaServed options) else [] in
  match fromOptions with
  | [] =>
      match extractLocationFromPage pageData with
      | Some loc => if JsStr.truthy loc then [loc] else []
      | None => []
      end
  | _ => fromOptions
  end.

(** [parts[1] || detectedRegion], where [parts[1]] may be missing. *)
Definition second_or (parts : list string) (dflt : string) : string :=
  match nth_error parts 1 with
  | Some p => or_else p dflt
  | None => dflt
  end.

(** The three-way derivation of [provider.address]. *)
Definition providerAddress (options : Options.t) (areas : list string)
  (detectedCountry detectedRegion : string) : json :=
  let explicit :=
    match Options.address options with
    | Some a => if JsStr.truthy (Address.addressLocality a) then Some a else None
    | None => None
    end in
  match explicit with
  | Some a =>
      JObj ([ ("@type", JStr "PostalAddress");
              ("addressCountry", JStr (or_else (Address.addressCountry a) detectedCountry)) ]
            ++ opt_field "streetAddress" (Address.streetAddress a)
            ++ opt_field "addressLocality" (Address.addressLocality a)
            ++ (if JsStr.truthy (Address.addressRegion a)
                then [ ("addressRegion", JStr (Address.addressRegion a)) ]
                else opt_field "addressRegion" detectedRegion)
            ++ opt_field "postalCode" (Address.postalCode a))%list
  | None =>
      match areas with
      | primaryArea :: _ =>
          let parts := map trim (split "," primaryArea) in
          JObj [ ("@type", JStr "PostalAddress");
                 ("addressLocality", JStr (hd "" parts));
                 ("addressRegion", JStr (second_or parts detectedRegion));
                 ("addressCountry", JStr detectedCountry) ]
      | [] =>
          JObj ([ ("@type", JStr "PostalAddress");
                  ("addressCountry", JStr detectedCountry) ]
                ++ opt_field "addressRegion" detectedRegion)%list
      end
  end.

(** [schema.areaServed]: one City, a list of them, or nothing. *)
Definition areaServedValue (areas : list string) : option json :=
  match areas with
  | [] => None
  | [a] => Some (city a)
  | _ => Some (arr (map city areas))
  end.

Definition opt_entry (k : string) (v : option json) : fields :=
  match v with Some x => [(k, x)] | None => [] end.

Definition or_undef (v : option json) : json :=
  match v with Some x => x | None => JUndef end.

Definition imageObject (u : string) : json :=
  JObj [ ("@type", JStr "ImageObject"); ("url", JStr u) ].

(** [generate(pageData, orgInfo, options)]. *)
Definition generate (pageData : PageData.t) (orgInfo : OrgInfo.t) (options : Options.t) : json :=
  let serviceInfo := extractServiceType pageData in
  let areas := areaServedArray pageData options in
  let detectedCountry := detectCountryFromAreas (Options.address options) areas in
  let detectedRegion := detectRegionFromAreas (Options.address options) areas detectedCountry in
  let telephone := or_else (Options.phone options) (PageData.phone pageData) in
  let provider :=
    JObj ([ ("@type", JStr (or_else (Options.businessType options) "HVACBusiness"));
            ("@id", JStr (OrgInfo.url orgInfo ++ "#localbusiness"));
            ("name", JStr (OrgInfo.name orgInfo));
            ("url", JStr (OrgInfo.url orgInfo));
            ("address", providerAddress options areas detectedCountry detectedRegion) ]
          ++ (match areas with
              | [] => []
              | _ => [ ("areaServed", arr (map city areas)) ]
              end)
          ++ opt_field "telephone" telephone
          ++ (if JsStr.truthy (OrgInfo.logo orgInfo)
              then [ ("logo", imageObject (OrgInfo.logo orgInfo)) ] else []))%list in
  JObj ([ ("@type", JStr "Service");
          ("@id", JStr (PageData.url pageData ++ "#service"));
          ("name", JStr (or_else (name serviceInfo) (PageData.title pageData)));
          ("description", JStr (truncate (PageData.description pageData) 200));
          ("url", JStr (PageData.url pageData));
          ("serviceType", JStr (type serviceInfo));
          ("provider", provider) ]
        ++ (if JsStr.truthy (PageData.featuredImage pageData)
            then [ ("image", imageObject (PageData.featuredImage pageData)) ] else [])
        ++ opt_entry "areaServed" (areaServedValue areas)
        ++ [ ("brand", JObj [ ("@type", JStr "Brand"); ("name", JStr (OrgInfo.name orgInfo)) ]) ]
        ++ opt_field "category" (category serviceInfo)
        ++ [ ("offers",
              JObj [ ("@type", JStr "Offer");
                     ("availability", JStr "https://schema.org/InStock");
                     ("areaServed", or_undef (areaServedValue areas)) ]);
             ("potentialAction",
              JObj [ ("@type", JStr "ReserveAction");
                     ("target",
                      JObj [ ("@type", JStr "EntryPoint");
                             ("urlTemplate", JStr (OrgInfo.url orgInfo ++ "/contact"));
                             ("actionPlatform",
                              arr [ JStr "https://schema.org/DesktopWebPlatform";
                                    JStr "https://schema.org/MobileWebPlatform" ]) ]);
                     ("result",
                      JObj [ ("@type", JStr "Reservation");
                             ("name", JStr "Service Appointment") ]) ]) ])%list.

End Service.

(* ===================================================================== *)
(** ** LocalBusiness builder ([schemas/localBusiness.js]) *)
(* ===================================================================== *)

Module LocalBusiness.
Import JsStr Regex Json.

(** Province codes and names. *)
Definition CANADIAN_PROVINCES : list (string * string) :=
  [ ("ON", "Ontario"); ("QC", "Quebec"); ("BC", "British Columbia"); ("AB", "Alberta");
    ("MB", "Manitoba"); ("SK", "Saskatchewan"); ("NS", "Nova Scotia"); ("NB", "New Brunswick");
    ("NL", "Newfoundland"); ("PE", "Prince Edward Island"); ("NT", "Northwest Territories");
    ("YT", "Yukon"); ("NU", "Nunavut") ].

Definition US_STATES : list string := Service.US_STATES.

Definition CANADIAN_CITIES : list (string * list string) :=
  [ ("ON", [ "Hamilton"; "Toronto"; "Ottawa"; "Mississauga"; "Brampton"; "Burlington"; "Oakville";
             "Stoney Creek"; "Ancaster"; "Dundas"; "Waterdown"; "Grimsby"; "St. Catharines"; "St Catharines";
             "Niagara Falls"; "Niagara"; "London"; "Kitchener"; "Waterloo"; "Cambridge"; "Guelph";
             "Binbrook"; "Caledonia"; "Brantford"; "Milton"; "Georgetown"; "Markham"; "Vaughan"; "Richmond Hill" ]);
    ("BC", [ "Vancouver"; "Victoria"; "Burnaby"; "Surrey"; "Richmond"; "Kelowna"; "Abbotsford" ]);
    ("AB", [ "Calgary"; "Edmonton"; "Red Deer"; "Lethbridge"; "Medicine Hat" ]);
    ("QC", [ "Montreal"; "Quebec City"; "Laval"; "Gatineau"; "Longueuil" ]) ].

Definition US_CITIES : list (string * list string) :=
  [ ("TX", [ "Houston"; "Dallas"; "Austin"; "San Antonio"; "Fort Worth"; "El Paso"; "Arlington"; "Plano"; "Frisco" ]);
    ("CA", [ "Los Angeles"; "San Diego"; "San Jose"; "San Francisco"; "Fresno"; "Sacramento"; "Long Beach"; "Oakland" ]);
    ("FL", [ "Miami"; "Tampa"; "Orlando"; "Jacksonville"; "Fort Lauderdale"; "St. Petersburg"; "Hialeah" ]);
    ("NY", [ "New York"; "Brooklyn"; "Buffalo"; "Rochester"; "Syracuse"; "Albany"; "Yonkers" ]);
    ("IL", [ "Chicago"; "Aurora"; "Naperville"; "Joliet"; "Rockford"; "Springfield" ]);
    ("PA", [ "Philadelphia"; "Pittsburgh"; "Allentown"; "Erie"; "Reading" ]);
    ("AZ", [ "Phoenix"; "Tucson"; "Mesa"; "Chandler"; "Scottsdale"; "Gilbert"; "Tempe" ]);
    ("GA", [ "Atlanta"; "Augusta"; "Columbus"; "Savannah"; "Athens"; "Macon" ]);
    ("NC", [ "Charlotte"; "Raleigh"; "Greensboro"; "Durham"; "Winston-Salem"; "Fayetteville" ]);
    ("OH", [ "Columbus"; "Cleveland"; "Cincinnati"; "Toledo"; "Akron"; "Dayton" ]);
    ("MI", [ "Detroit"; "Grand Rapids"; "Warren"; "Sterling Heights"; "Ann Arbor"; "Lansing" ]);
    ("TN", [ "Nashville"; "Memphis"; "Knoxville"; "Chattanooga"; "Clarksville" ]);
    ("WA", [ "Seattle"; "Spokane"; "Tacoma"; "Vancouver"; "Bellevue"; "Kent" ]);
    ("CO", [ "Denver"; "Colorado Springs"; "Aurora"; "Fort Collins"; "Lakewood"; "Boulder" ]);
    ("MA", [ "Boston"; "Worcester"; "Springfield"; "Cambridge"; "Lowell" ]);
    ("NV", [ "Las Vegas"; "Henderson"; "Reno"; "North Las Vegas"; "Sparks" ]);
    ("IN", [ "Indianapolis"; "Fort Wayne"; "Evansville"; "South Bend"; "Carmel" ]);
    ("MO", [ "Kansas City"; "St. Louis"; "Springfield"; "Columbia"; "Independence" ]);
    ("MD", [ "Baltimore"; "Frederick"; "Rockville"; "Gaithersburg"; "Bowie" ]);
    ("WI", [ "Milwaukee"; "Madison"; "Green Bay"; "Kenosha"; "Racine" ]);
    ("MN", [ "Minneapolis"; "St. Paul"; "Rochester"; "Duluth"; "Bloomington" ]);
    ("OK", [ "Oklahoma City"; "Tulsa"; "Norman"; "Broken Arrow"; "Edmond" ]);
    ("OR", [ "Portland"; "Salem"; "Eugene"; "Gresham"; "Hillsboro" ]);
    ("NJ", [ "Newark"; "Jersey City"; "Paterson"; "Elizabeth"; "Edison" ]);
    ("VA", [ "Virginia Beach"; "Norfolk"; "Chesapeake"; "Richmond"; "Newport News"; "Alexandria" ]);
    ("LA", [ "New Orleans"; "Baton Rouge"; "Shreveport"; "Lafayette"; "Lake Charles" ]);
    ("KY", [ "Louisville"; "Lexington"; "Bowling Green"; "Owensboro"; "Covington" ]);
    ("SC", [ "Charleston"; "Columbia"; "North Charleston"; "Mount Pleasant"; "Greenville" ]);
    ("AL", [ "Birmingham"; "Montgomery"; "Huntsville"; "Mobile"; "Tuscaloosa" ]);
    ("UT", [ "Salt Lake City"; "West Valley City"; "Provo"; "West Jordan"; "Orem" ]) ].

(** The province test of [detectCountry]: a code of the table or the
    upper-cased name of one of its provinces. *)
Definition is_province (region : string) : bool :=
  existsb (fun e => String.eqb (fst e) region) CANADIAN_PROVINCES
  || existsb (fun e => String.eqb (toUpperCase (snd e)) region) CANADIAN_PROVINCES.

(** [[...serviceAreas, primaryArea || ''].join(' ').toLowerCase()]. *)
Definition allText (serviceAreas : list string) (primaryArea : string) : string :=
  toLowerCase (join " " (serviceAreas ++ [primaryArea])%list).

(** [detectCountry(address, serviceAreas, primaryArea)]. *)
Definition detectCountry (address : option Address.t) (serviceAreas : list string)
  (primaryArea : string) : string :=
  let fromAddress :=
    match address with
    | Some a => Service.country_of_address is_province (fun r => Service.mem r US_STATES) a
    | None => None
    end in
  match fromAddress with
  | Some c => c
  | None => Service.country_of_text CANADIAN_CITIES US_CITIES (allText serviceAreas primaryArea)
  end.

(** [detectRegion(address, serviceAreas, primaryArea, country)]. *)
Definition detectRegion (address : option Address.t) (serviceAreas : list string)
  (primaryArea country : string) : string :=
  let scan := Service.region_of_areas CANADIAN_CITIES US_CITIES
                (allText serviceAreas primaryArea) country in
  match address with
  | Some a => if JsStr.truthy (Address.addressRegion a) then Address.addressRegion a else scan
  | None => scan
  end.

(** [allAreas]: the explicit list if it is not empty, else the parsed
    [areaServed] string. *)
Definition allAreas (options : Options.t) : list string :=
  match Options.serviceAreas options with
  | [] =>
      if JsStr.truthy (Options.areaServed options)
      then split_trim_filter (Options.areaServed options) else []
  | areas => areas
  end.

(** The three-way derivation of [schema.address]. *)
Definition businessAddress (orgInfo : OrgInfo.t) (options : Options.t)
  (primaryArea detectedCountry detectedRegion : string) : json :=
  let explicit :=
    match Options.address options with
    | Some a =>
        if JsStr.truthy (Address.streetAddress a) || JsStr.truthy (Address.addressLocality a)
        then Some a else None
    | None => None
    end in
  match explicit with
  | Some a =>
      JObj ([ ("@type", JStr "PostalAddress");
              ("addressCountry", JStr (or_else (Address.addressCountry a) detectedCountry)) ]
            ++ opt_field "streetAddress" (Address.streetAddress a)
            ++ opt_field "addressLocality" (Address.addressLocality a)
            ++ (if JsStr.truthy (Address.addressRegion a)
                then [ ("addressRegion", JStr (Address.addressRegion a)) ]
                else opt_field "addressRegion" detectedRegion)
            ++ opt_field "postalCode" (Address.postalCode a))%list
  | None =>
      if JsStr.truthy primaryArea then
        let parts := map trim (split "," primaryArea) in
        JObj [ ("@type", JStr "PostalAddress");
               ("addressLocality", JStr (hd "" parts));
               ("addressRegion", JStr (Service.second_or parts (or_else detectedRegion "")));
               ("addressCountry", JStr detectedCountry) ]
      else
        JObj ([ ("@type", JStr "PostalAddress");
                ("addressCountry", JStr detectedCountry) ]
              ++ (if JsStr.truthy (OrgInfo.name orgInfo)
                     && negb (String.eqb (OrgInfo.name orgInfo) "Organization")
                  then [ ("addressLocality", JStr (OrgInfo.name orgInfo)) ] else [])
              ++ opt_field "addressRegion" detectedRegion)%list
  end.

(** [schema.areaServed] of the business. *)
Definition businessAreaServed (areas : list string) (address : json) : fields :=
  match areas with
  | _ :: _ :: _ => [ ("areaServed", arr (map Service.city areas)) ]
  | [a] => [ ("areaServed", Service.city a) ]
  | [] =>
      if Json.truthy (get address "addressLocality")
      then [ ("areaServed",
              JObj [ ("@type", JStr "City"); ("name", get address "addressLocality") ]) ]
      else []
  end.

Definition offer (serviceName : string) : json :=
  JObj [ ("@type", JStr "Offer");
         ("itemOffered", JObj [ ("@type", JStr "Service"); ("name", JStr serviceName) ]) ].

Definition defaultOpeningHours : json :=
  JObj [ ("@type", JStr "OpeningHoursSpecification");
         ("dayOfWeek",
          arr (map JStr [ "Monday"; "Tuesday"; "Wednesday"; "Thursday"; "Friday";
                          "Saturday"; "Sunday" ]));
         ("opens", JStr "00:00");
         ("closes", JStr "23:59") ].

(** [generate(orgInfo, options)]. *)
Definition generate (orgInfo : OrgInfo.t) (options : Options.t) : json :=
  let areas := allAreas options in
  let primaryArea := hd "" areas in
  let detectedCountry := detectCountry (Options.address options) areas primaryArea in
  let detectedRegion := detectRegion (Options.address options) areas primaryArea detectedCountry in
  let address := businessAddress orgInfo options primaryArea detectedCountry detectedRegion in
  let logo :=
    JObj [ ("@type", JStr "ImageObject");
           ("url", JStr (OrgInfo.logo orgInfo));
           ("@id", JStr (OrgInfo.url orgInfo ++ "#logo")) ] in
  JObj ([ ("@type", JStr (or_else (Options.businessType options) "HVACBusiness"));
          ("name", JStr (OrgInfo.name orgInfo));
          ("url", JStr (OrgInfo.url orgInfo));
          ("@id", JStr (OrgInfo.url orgInfo ++ "#localbusiness")) ]
        ++ (if JsStr.truthy (OrgInfo.logo orgInfo)
            then [ ("logo", logo); ("image", logo) ] else [])
        ++ opt_field "telephone" (Options.phone options)
        ++ opt_field "email" (Options.email options)
        ++ [ ("address", address) ]
        ++ businessAreaServed areas address
        ++ [ ("openingHoursSpecification",
              match Options.openingHours options with
              | Some h => if Json.truthy h then h else defaultOpeningHours
              | None => defaultOpeningHours
              end) ]
        ++ opt_field "priceRange" (Options.priceRange options)
        ++ (match Options.sameAs options with
            | [] => []
            | l => [ ("sameAs", arr (map JStr l)) ]
            end)
        ++ (match Options.rating options with
            | Some (value, count) =>
                [ ("aggregateRating",
                   JObj [ ("@type", JStr "AggregateRating");
                          ("ratingValue", value);
                          ("reviewCount", count);
                          ("bestRating", JStr "5");
                          ("worstRating", JStr "1") ]) ]
            | None => []
            end)
        ++ [ ("hasOfferCatalog",
              JObj [ ("@type", JStr "OfferCatalog");
                     ("name", JStr "HVAC Services");
                     ("itemListElement",
                      arr (map offer [ "Air Conditioning Repair"; "AC Installation";
                                       "Heating Repair"; "Furnace Installation";
                                       "HVAC Maintenance" ])) ]) ])%list.

End LocalBusiness.

(* ===================================================================== *)
(** ** Post-processing of AI output ([services/ai/schemaGenerator.js]) *)
(* ===================================================================== *)

(** Outcome of a JavaScript call: a value or a thrown error. *)
Inductive outcome (A : Type) : Type :=
| Returned (a : A)
| Thrown (message : string).
Arguments Returned {A} a.
Arguments Thrown {A} message.

Module AiSchema.
Import JsStr Json.

(** [cleanIdReference(obj)]. *)
Definition cleanIdReference (obj : json) : json :=
  if Json.truthy obj && is_object_type obj && Json.truthy (get obj "@id")
  then JObj [ ("@id", get obj "@id") ]
  else obj.

(** [if (schema[k] && schema[k]['@id']) schema[k] = cleanIdReference(schema[k])]. *)
Definition cleanField (k : string) (schema : json) : json :=
  if Json.truthy (get schema k) && Json.truthy (get (get schema k) "@id")
  then set schema k (cleanIdReference (get schema k))
  else schema.

Definition canadianCities : list string :=
  [ "Hamilton"; "Toronto"; "Ottawa"; "Burlington"; "Oakville"; "Mississauga";
    "Brampton"; "Ancaster"; "Dundas"; "Stoney Creek"; "Waterdown"; "Grimsby"; "Vancouver";
    "Calgary"; "Edmonton"; "Montreal"; "Kitchener"; "Waterloo"; "London"; "Guelph"; "Cambridge" ].

Definition regionOfCity (city : string) : string :=
  if Service.mem city [ "Vancouver" ] then "BC"
  else if Service.mem city [ "Calgary"; "Edmonton" ] then "AB"
  else if Service.mem city [ "Montreal" ] then "QC"
  else "ON".

Record Detected : Type := mkDetected {
  detectedCountry : string;
  detectedRegion : string;
  detectedCity : string
}.

(** The detection that precedes the [map]. *)
Definition detect (orgInfo : OrgInfo.t) (pageData : PageData.t) : Detected :=
  let areaServed := OrgInfo.areaServed orgInfo in
  let allAreas :=
    if JsStr.truthy areaServed then split_trim_filter areaServed
    else PageData.serviceAreas pageData in
  let allText := toLowerCase (join " " allAreas) in
  match find (fun city => includes allText (toLowerCase city)) canadianCities with
  | Some city => mkDetected "CA" (regionOfCity city) city
  | None => mkDetected "CA" "ON" (hd "" allAreas)
  end.

Definition is_business (schema : json) : bool :=
  is_str (get schema "@type") "HVACBusiness" || is_str (get schema "@type") "LocalBusiness".

(** [if (!o[k]) o[k] = v]. *)
Definition fill (k : string) (v : json) (o : json) : json :=
  if Json.truthy (get o k) then o else set o k v.

(** The address completion of a standalone business entity. *)
Definition completeAddress (d : Detected) (orgInfo : OrgInfo.t) (schema : json) : json :=
  let locality := JStr (or_else (detectedCity d) (OrgInfo.name orgInfo)) in
  let address := get schema "address" in
  if negb (Json.truthy address) then
    set schema "address"
      (JObj [ ("@type", JStr "PostalAddress");
              ("addressLocality", locality);
              ("addressRegion", JStr (detectedRegion d));
              ("addressCountry", JStr (detectedCountry d)) ])
  else if negb (Json.truthy (get address "addressLocality"))
          && negb (Json.truthy (get address "streetAddress")) then
    set schema "address"
      (fill "addressCountry" (JStr (detectedCountry d))
         (fill "addressRegion" (JStr (detectedRegion d))
            (set address "addressLocality" locality)))
  else schema.

Definition completeTelephone (orgInfo : OrgInfo.t) (pageData : PageData.t) (schema : json)
  : json :=
  let phone := or_else (OrgInfo.phone orgInfo) (PageData.phone pageData) in
  if negb (Json.truthy (get schema "telephone")) && JsStr.truthy phone
  then set schema "telephone" (JStr phone)
  else schema.

Definition when_type (t : string) (f : json -> json) (schema : json) : json :=
  if is_str (get schema "@type") t then f schema else schema.

(** What the body of the [map] callback does to [item.schema]. *)
Definition repairSchema (d : Detected) (orgInfo : OrgInfo.t) (pageData : PageData.t)
  (schema : json) : json :=
  let s1 := when_type "Service" (cleanField "provider") schema in
  let s2 := when_type "Article" (cleanField "publisher") s1 in
  let s3 := when_type "WebPage" (fun s => cleanField "about" (cleanField "isPartOf" s)) s2 in
  let s4 := when_type "FAQPage" (cleanField "isPartOf") s3 in
  if is_business s4
  then completeTelephone orgInfo pageData (completeAddress d orgInfo s4)
  else s4.

(** The [map] callback: reading [item.schema] of [null] or [undefined]
    throws; the schema object is updated in place, so the item returned
    is the item with its [schema] property as repaired. *)
Definition repairItem (d : Detected) (orgInfo : OrgInfo.t) (pageData : PageData.t)
  (item : json) : outcome json :=
  match item with
  | JUndef | JNull => Thrown "TypeError: Cannot read properties of null"
  | _ =>
      let schema := get item "schema" in
      if negb (Json.truthy schema) then Returned item
      else Returned (set item "schema" (repairSchema d orgInfo pageData schema))
  end.

Fixpoint mapM {A B : Type} (f : A -> outcome B) (l : list A) : outcome (list B) :=
  match l with
  | [] => Returned []
  | x :: l' =>
      match f x with
      | Returned y =>
          match mapM f l' with
          | Returned ys => Returned (y :: ys)
          | Thrown m => Thrown m
          end
      | Thrown m => Thrown m
      end
  end.

(** [ensureProviderAddresses(schemas, orgInfo, pageData)]. *)
Definition ensureProviderAddresses (schemas : list json) (orgInfo : OrgInfo.t)
  (pageData : PageData.t) : outcome (list json) :=
  mapM (repairItem (detect orgInfo pageData) orgInfo pageData) schemas.

End AiSchema.

(* ===================================================================== *)
(** ** Database client ([services/databaseClient.js]) *)
(* ===================================================================== *)

Module Db.
Import JsStr Json.

(** *** Pure helpers *)

Definition dquote : string := String (ascii_of_nat 34) EmptyString.

(** [String(v)], as in template literals and property keys. *)
Fixpoint toString (v : json) : string :=
  match v with
  | JUndef => "undefined"
  | JNull => "null"
  | JBool true => "true"
  | JBool false => "false"
  | JNum z => of_Z z
  | JStr s => s
  | JArr es _ =>
      join ","
        (map (fun e => match e with
                       | JUndef | JNull => ""
                       | _ => toString e
                       end) es)
  | JObj _ => "[object Object]"
  end.

(** Index keys ["0"], ["1"], ... paired with the elements. *)
Fixpoint indexed (i : nat) (l : list json) : fields :=
  match l with
  | [] => []
  | x :: l' => (of_nat i, x) :: indexed (S i) l'
  end.

(** Own enumerable properties, as seen by [{...v}] and [Object.keys(v)]. *)
Definition ownProps (v : json) : fields :=
  match v with
  | JObj ps => ps
  | JArr es ps => (indexed 0 es ++ ps)%list
  | JStr s => indexed 0 (map (fun c => JStr (String c EmptyString)) (chars s))
  | _ => []
  end.

(** [Buffer.byteLength(s, 'utf8')]: one byte for a code unit below 128,
    two for the others below 256. *)
Definition byteLength (s : string) : nat :=
  list_sum (map (fun c => if Nat.ltb (code c) 128 then 1 else 2) (chars s)).

Definition php_string (s : string) : string :=
  "s:" ++ of_nat (byteLength s) ++ ":" ++ dquote ++ s ++ dquote ++ ";".

(** [phpSerialize(value)]. *)
Fixpoint phpSerialize (value : json) : string :=
  match value with
  | JUndef | JNull => "N;"
  | JBool b => "b:" ++ (if b then "1" else "0") ++ ";"
  | JNum z => "i:" ++ of_Z z ++ ";"
  | JStr s => php_string s
  | JArr es _ =>
      "a:" ++ of_nat (List.length es) ++ ":{"
      ++ (fix items (i : nat) (l : list json) {struct l} : string :=
            match l with
            | [] => ""
            | x :: l' => "i:" ++ of_nat i ++ ";" ++ phpSerialize x ++ items (S i) l'
            end) 0 es
      ++ "}"
  | JObj ps =>
      "a:" ++ of_nat (List.length ps) ++ ":{"
      ++ (fix entries (l : fields) {struct l} : string :=
            match l with
            | [] => ""
            | (k, x) :: l' => php_string k ++ phpSerialize x ++ entries l'
            end) ps
      ++ "}"
  end.

Record TypeConfig : Type := mkType { title : string; canBePrimary : bool }.

Definition SCHEMA_TYPES : list (string * TypeConfig) :=
  let row (t : string) (p : bool) := (t, mkType t p) in
  [ row "Service" true; row "LocalBusiness" true; row "Organization" true;
    row "Article" true; row "NewsArticle" true; row "BlogPosting" true;
    row "FAQPage" false; row "HowTo" true;
    row "Product" true; row "Offer" false;
    row "Event" true;
    row "Person" true;
    row "Review" false; row "AggregateRating" false;
    row "Recipe" true;
    row "VideoObject" true;
    row "Course" true;
    row "JobPosting" true;
    row "SoftwareApplication" true;
    row "Book" true;
    row "Place" false;
    row "BreadcrumbList" false;
    row "WebPage" false;
    row "Custom" true ].

(** Property names every object literal inherits from [Object.prototype];
    looking one of them up in [SCHEMA_TYPES] yields a truthy value that
    has neither [title] nor [canBePrimary]. *)
Definition OBJECT_PROTOTYPE : list string :=
  [ "constructor"; "toString"; "toLocaleString"; "valueOf"; "hasOwnProperty";
    "isPrototypeOf"; "propertyIsEnumerable"; "__proto__"; "__defineGetter__";
    "__defineSetter__"; "__lookupGetter__"; "__lookupSetter__" ].

Inductive TypeLookup : Type :=
| Own (c : TypeConfig)
| Inherited
| Missing.

(** [SCHEMA_TYPES[key]]. *)
Definition schemaTypeOf (key : json) : TypeLookup :=
  let k := toString key in
  match find (fun e => String.eqb (fst e) k) SCHEMA_TYPES with
  | Some e => Own (snd e)
  | None => if Service.mem k OBJECT_PROTOTYPE then Inherited else Missing
  end.

Definition known (key : json) : bool :=
  match schemaTypeOf key with Missing => false | _ => true end.

(** [extractSchemaType(schema)]. *)
Definition extractSchemaType (schema : json) : json :=
  if negb (Json.truthy schema) then JStr "Custom"
  else
    let type := get schema "@type" in
    if negb (Json.truthy type) then JStr "Custom"
    else
      match type with
      | JArr ts _ =>
          match find known ts with
          | Some t => t
          | None => hd JUndef ts
          end
      | _ => type
      end.

(** [a || b] on values. *)
Definition or_value (a b : json) : json := if Json.truthy a then a else b.

(** [{ metadata, ...schemaWithoutContext }]. *)
Definition withMetadata (metadata : json) (schema : json) : json :=
  JObj (fold_left (fun acc e => assign (fst e) (snd e) acc)
          (remove "@context" (ownProps schema))
          [ ("metadata", metadata) ]).

Definition metaKeyOf (detectedType : json) : string :=
  "rank_math_schema_" ++ toString detectedType.

(** *** The world the client runs in *)

Record MetaRow : Type := mkMeta {
  meta_id : nat; post_id : nat; meta_key : string; meta_value : string
}.

Record PostRow : Type := mkPost { ID : nat; post_title : string }.

(** One entry of [getExistingSchemas]. *)
Record SchemaMeta : Type := mkSchemaMeta { metaId : nat; key : string; value : string }.

Record Backup : Type := mkBackup { timestamp : nat; schemas : list SchemaMeta }.

(** Statements sent through [conn.execute]. *)
Inductive statement : Type :=
| SelectPost (postId : nat)
| SelectMetaByKey (postId : nat) (metaKey : string)
| SelectMetaLike (postId : nat) (pattern : string)
| SelectMetaById (metaId : nat)
| InsertMeta (postId : nat) (metaKey metaValue : string)
| UpdateMetaByKey (metaValue : string) (postId : nat) (metaKey : string)
| UpdateMetaById (metaValue : string) (metaId : nat)
| DeleteMetaLike (postId : nat) (pattern : string)
| DeleteMetaById (metaId : nat).

Definition is_write (s : statement) : bool :=
  match s with
  | InsertMeta _ _ _ | UpdateMetaByKey _ _ _ | UpdateMetaById _ _
  | DeleteMetaLike _ _ | DeleteMetaById _ => true
  | _ => false
  end.

Inductive event : Type :=
| Issued (s : statement)
| BackupStored (postId : nat) (b : Backup)
| BackupFileWritten
| BackupFileFailed (message : string).

Definition persisted := list (string * list (nat * Backup)).

Record world : Type := mkWorld {
  posts : list PostRow;
  postmeta : list MetaRow;
  next_meta_id : nat;
  (** character equality of the column collation *)
  collation : ascii -> ascii -> bool;
  connected : bool;
  (** one entry per connection attempt or statement: [Some m] rejects it *)
  db_faults : list (option string);
  (** the client's [backups] Map, in insertion order *)
  backups : list (nat * Backup);
  (** the module-level [persistedBackups] object *)
  persistedBackups : persisted;
  (** what [backups.json] holds; [None] before the first write *)
  backups_file : option persisted;
  (** one entry per [writeFileSync]: [Some m] makes it throw *)
  fs_faults : list (option string);
  (** successive readings of the clock, in milliseconds *)
  clock : list nat;
  (** successive values of [Math.random().toString(16).slice(2, 15)] *)
  random : list string;
  trace : list event;
  console : list string
}.

Definition set_postmeta (rows : list MetaRow) (n : nat) (w : world) : world :=
  mkWorld (posts w) rows n (collation w) (connected w) (db_faults w) (backups w)
    (persistedBackups w) (backups_file w) (fs_faults w) (clock w) (random w)
    (trace w) (console w).

Definition set_connected (w : world) : world :=
  mkWorld (posts w) (postmeta w) (next_meta_id w) (collation w) true (db_faults w)
    (backups w) (persistedBackups w) (backups_file w) (fs_faults w) (clock w)
    (random w) (trace w) (console w).

Definition set_db_faults (f : list (option string)) (w : world) : world :=
  mkWorld (posts w) (postmeta w) (next_meta_id w) (collation w) (connected w) f
    (backups w) (persistedBackups w) (backups_file w) (fs_faults w) (clock w)
    (random w) (trace w) (console w).

Definition set_backups (b : list (nat * Backup)) (w : world) : world :=
  mkWorld (posts w) (postmeta w) (next_meta_id w) (collation w) (connected w)
    (db_faults w) b (persistedBackups w) (backups_file w) (fs_faults w) (clock w)
    (random w) (trace w) (console w).

Definition set_persisted (p : persisted) (w : world) : world :=
  mkWorld (posts w) (postmeta w) (next_meta_id w) (collation w) (connected w)
    (db_faults w) (backups w) p (backups_file w) (fs_faults w) (clock w)
    (random w) (trace w) (console w).

Definition set_file (f : option persisted) (w : world) : world :=
  mkWorld (posts w) (postmeta w) (next_meta_id w) (collation w) (connected w)
    (db_faults w) (backups w) (persistedBackups w) f (fs_faults w) (clock w)
    (random w) (trace w) (console w).

Definition set_fs_faults (f : list (option string)) (w : world) : world :=
  mkWorld (posts w) (postmeta w) (next_meta_id w) (collation w) (connected w)
    (db_faults w) (backups w) (persistedBackups w) (backups_file w) f (clock w)
    (random w) (trace w) (console w).

Definition set_clock (c : list nat) (w : world) : world :=
  mkWorld (posts w) (postmeta w) (next_meta_id w) (collation w) (connected w)
    (db_faults w) (backups w) (persistedBackups w) (backups_file w) (fs_faults w) c
    (random w) (trace w) (console w).

Definition set_random (r : list string) (w : world) : world :=
  mkWorld (posts w) (postmeta w) (next_meta_id w) (collation w) (connected w)
    (db_faults w) (backups w) (persistedBackups w) (backups_file w) (fs_faults w)
    (clock w) r (trace w) (console w).

Definition add_event (e : event) (w : world) : world :=
  mkWorld (posts w) (postmeta w) (next_meta_id w) (collation w) (connected w)
    (db_faults w) (backups w) (persistedBackups w) (backups_file w) (fs_faults w)
    (clock w) (random w) (trace w ++ [e])%list (console w).

Definition add_console (line : string) (w : world) : world :=
  mkWorld (posts w) (postmeta w) (next_meta_id w) (collation w) (connected w)
    (db_faults w) (backups w) (persistedBackups w) (backups_file w) (fs_faults w)
    (clock w) (random w) (trace w) (console w ++ [line])%list.

(** *** The monad: state that survives a throw *)

Definition M (A : Type) : Type := world -> outcome A * world.

Definition ret {A : Type} (a : A) : M A := fun w => (Returned a, w).

Definition throw {A : Type} (message : string) : M A := fun w => (Thrown message, w).

Definition bind {A B : Type} (m : M A) (f : A -> M B) : M B :=
  fun w =>
    match m w with
    | (Returned a, w') => f a w'
    | (Thrown e, w') => (Thrown e, w')
    end.

(** [try { m } catch (error) { h(error.message) }]. *)
Definition try_catch {A : Type} (m : M A) (h : string -> M A) : M A :=
  fun w =>
    match m w with
    | (Returned a, w') => (Returned a, w')
    | (Thrown e, w') => h e w'
    end.

Definition modify (f : world -> world) : M unit := fun w => (Returned tt, f w).

Definition gets {A : Type} (f : world -> A) : M A := fun w => (Returned (f w), w).

Declare Scope db_scope.
Delimit Scope db_scope with db.
Notation "x <- m ;; k" := (bind m (fun x => k))
  (at level 61, m at next level, right associativity) : db_scope.
Notation "m ;;; k" := (bind m (fun _ => k))
  (at level 61, right associativity) : db_scope.
Local Open Scope db_scope.

(** *** The store: statements and their effect *)

(** SQL [LIKE]: [%] matches any run of characters, [_] any one. *)
Fixpoint like (ceq : ascii -> ascii -> bool) (pat : list ascii) {struct pat}
  : list ascii -> bool :=
  match pat with
  | [] => fun s => match s with [] => true | _ :: _ => false end
  | c :: pat' =>
      if Ascii.eqb c "%"%char then
        fix star (s : list ascii) {struct s} : bool :=
          like ceq pat' s || match s with [] => false | _ :: s' => star s' end
      else if Ascii.eqb c "_"%char then
        fun s => match s with [] => false | _ :: s' => like ceq pat' s' end
      else
        fun s => match s with [] => false | x :: s' => ceq c x && like ceq pat' s' end
  end.

(** SQL [=] on a text column. *)
Fixpoint text_eq (ceq : ascii -> ascii -> bool) (a b : list ascii) {struct a} : bool :=
  match a, b with
  | [], [] => true
  | x :: a', y :: b' => ceq x y && text_eq ceq a' b'
  | _, _ => false
  end.

Definition key_like (w : world) (pattern : string) (r : MetaRow) : bool :=
  like (collation w) (chars pattern) (chars (meta_key r)).

Definition key_is (w : world) (k : string) (r : MetaRow) : bool :=
  text_eq (collation w) (chars k) (chars (meta_key r)).

Record QueryResult : Type := mkResult {
  metaRows : list MetaRow;
  postRows : list PostRow;
  insertId : nat
}.

Definition no_rows : QueryResult := mkResult [] [] 0.

Definition with_value (v : string) (r : MetaRow) : MetaRow :=
  mkMeta (meta_id r) (post_id r) (meta_key r) v.

(** What a statement selects: the rows its [WHERE] clause holds of. *)
Definition selects (w : world) (s : statement) (r : MetaRow) : bool :=
  match s with
  | SelectMetaByKey p k | UpdateMetaByKey _ p k => Nat.eqb (post_id r) p && key_is w k r
  | SelectMetaLike p pat | DeleteMetaLike p pat => Nat.eqb (post_id r) p && key_like w pat r
  | SelectMetaById i | UpdateMetaById _ i | DeleteMetaById i => Nat.eqb (meta_id r) i
  | SelectPost _ | InsertMeta _ _ _ => false
  end.

Definition run_statement (s : statement) (w : world) : QueryResult * world :=
  match s with
  | SelectPost p => (mkResult [] (filter (fun r => Nat.eqb (ID r) p) (posts w)) 0, w)
  | SelectMetaByKey _ _ | SelectMetaLike _ _ | SelectMetaById _ =>
      (mkResult (filter (selects w s) (postmeta w)) [] 0, w)
  | InsertMeta p k v =>
      let i := next_meta_id w in
      (mkResult [] [] i, set_postmeta (postmeta w ++ [mkMeta i p k v])%list (S i) w)
  | UpdateMetaByKey v _ _ | UpdateMetaById v _ =>
      (no_rows,
       set_postmeta (map (fun r => if selects w s r then with_value v r else r) (postmeta w))
         (next_meta_id w) w)
  | DeleteMetaLike _ _ | DeleteMetaById _ =>
      (no_rows,
       set_postmeta (filter (fun r => negb (selects w s r)) (postmeta w)) (next_meta_id w) w)
  end.

Definition pop_db_fault : M (option string) :=
  fun w =>
    match db_faults w with
    | [] => (Returned None, w)
    | f :: fs => (Returned f, set_db_faults fs w)
    end.

Definition pop_fs_fault : M (option string) :=
  fun w =>
    match fs_faults w with
    | [] => (Returned None, w)
    | f :: fs => (Returned f, set_fs_faults fs w)
    end.

(** [getConnection()]: connects on first use. *)
Definition getConnection : M unit :=
  fun w =>
    if connected w then (Returned tt, w)
    else
      (f <- pop_db_fault ;;
       match f with
       | Some m => throw m
       | None => modify set_connected
       end) w.

(** [conn.execute(sql, params)]. *)
Definition execute (s : statement) : M QueryResult :=
  modify (add_event (Issued s)) ;;;
  f <- pop_db_fault ;;
  match f with
  | Some m => throw m
  | None => fun w => let '(r, w') := run_statement s w in (Returned r, w')
  end.

(** [new Date()], in milliseconds. *)
Definition now : M nat :=
  fun w =>
    match clock w with
    | [] => (Returned 0, w)
    | t :: ts => (Returned t, set_clock ts w)
    end.

(** [generateShortcodeId()]. *)
Definition generateShortcodeId : M string :=
  fun w =>
    match random w with
    | [] => (Returned "", w)
    | r :: rs => (Returned r, set_random rs w)
    end.

(** *** Maps keyed by post id *)

Fixpoint map_get {A : Type} (k : nat) (m : list (nat * A)) : option A :=
  match m with
  | [] => None
  | (k', v) :: m' => if Nat.eqb k' k then Some v else map_get k m'
  end.

(** [Map.prototype.set]: an existing key keeps its place. *)
Fixpoint map_set {A : Type} (k : nat) (v : A) (m : list (nat * A)) : list (nat * A) :=
  match m with
  | [] => [(k, v)]
  | (k', v') :: m' => if Nat.eqb k' k then (k', v) :: m' else (k', v') :: map_set k v m'
  end.

(** Assignment to an integer-like key of an object: the keys enumerate in
    ascending order. *)
Fixpoint obj_put {A : Type} (k : nat) (v : A) (m : list (nat * A)) : list (nat * A) :=
  match m with
  | [] => [(k, v)]
  | (k', v') :: m' =>
      if Nat.eqb k' k then (k, v) :: m'
      else if Nat.ltb k k' then (k, v) :: (k', v') :: m'
      else (k', v') :: obj_put k v m'
  end.

Definition fromEntries {A : Type} (l : list (nat * A)) : list (nat * A) :=
  fold_left (fun acc e => obj_put (fst e) (snd e) acc) l [].

Fixpoint str_get {A : Type} (k : string) (m : list (string * A)) : option A :=
  match m with
  | [] => None
  | (k', v) :: m' => if String.eqb k' k then Some v else str_get k m'
  end.

Fixpoint str_set {A : Type} (k : string) (v : A) (m : list (string * A)) : list (string * A) :=
  match m with
  | [] => [(k, v)]
  | (k', v') :: m' => if String.eqb k' k then (k', v) :: m' else (k', v') :: str_set k v m'
  end.

(** Stable sort, newest first: [entries.sort((a, b) => new Date(b[1].timestamp) - new Date(a[1].timestamp))]. *)
Fixpoint insert_newest (e : nat * Backup) (l : list (nat * Backup)) : list (nat * Backup) :=
  match l with
  | [] => [e]
  | x :: l' =>
      if Nat.ltb (timestamp (snd e)) (timestamp (snd x)) then x :: insert_newest e l'
      else e :: l
  end.

Definition sort_newest (l : list (nat * Backup)) : list (nat * Backup) :=
  fold_right insert_newest [] l.

Definition MAX_BACKUPS : nat := 50.

(** The pruning step of [saveBackupsToFile]. *)
Definition prune (entries : list (nat * Backup)) : list (nat * Backup) :=
  if Nat.ltb MAX_BACKUPS (List.length entries)
  then fromEntries (firstn MAX_BACKUPS (sort_newest entries))
  else entries.

Definition num (n : nat) : json := JNum (Z.of_nat n).

(** *** Splitting a graph ([insertFromGraph]) *)

Definition REFERENCE_TYPES : list string :=
  [ "WebSite"; "Organization"; "Place"; "ImageObject" ].

Definition PREFERRED_TYPES : list string := [ "Service"; "Article"; "Product" ].

Definition is_one_of (types : list string) (type : json) : bool :=
  existsb (is_str type) types.

(** The [return] that skips an entity of [insertFromGraph]'s loop. *)
Definition skipped (item : json) : bool :=
  is_one_of REFERENCE_TYPES (extractSchemaType item)
  && Nat.leb (List.length (ownProps item)) 3.

(** Strict equality [a === b] of two values that are not one and the same
    object, as the type of an entity and the [primaryType] option are:
    primitives are equal by value, an array or an object equals only
    itself. *)
Definition strict_equals (a b : json) : bool :=
  match a, b with
  | JUndef, JUndef | JNull, JNull => true
  | JBool x, JBool y => Bool.eqb x y
  | JNum x, JNum y => Z.eqb x y
  | JStr x, JStr y => String.eqb x y
  | _, _ => false
  end.

(** Does an entity of this type move [primaryIndex]?
    [primaryType && type === primaryType], else
    [!primaryType && (type === 'Service' || ...)]. *)
Definition claims_primary (primaryType type : json) : bool :=
  if Json.truthy primaryType then strict_equals type primaryType
  else is_one_of PREFERRED_TYPES type.

(** One round of the [forEach] callback on [(schemas, primaryIndex)]. *)
Definition collect (primaryType : json)
  (acc : list (json * json) * nat) (item : json) : list (json * json) * nat :=
  let '(schemas, primaryIndex) := acc in
  if skipped item then acc
  else
    let type := extractSchemaType item in
    let schemas' := (schemas ++ [(item, type)])%list in
    if claims_primary primaryType type
    then (schemas', List.length schemas' - 1)
    else (schemas', primaryIndex).

(** [schemas.splice(primaryIndex, 1)] followed by [unshift]. *)
Definition primaryFirst (schemas : list (json * json)) (primaryIndex : nat)
  : list (json * json) :=
  if Nat.ltb 0 primaryIndex then
    match nth_error schemas primaryIndex with
    | Some primary =>
        (primary :: firstn primaryIndex schemas ++ skipn (S primaryIndex) schemas)%list
    | None => schemas
    end
  else schemas.

(** The list handed to [insertMultipleSchemas]; its head is the entity
    inserted with [isPrimary: true]. *)
Definition splitGraph (graph : list json) (primaryType : json)
  : list (json * json) :=
  let '(schemas, primaryIndex) := fold_left (collect primaryType) graph ([], 0) in
  primaryFirst schemas primaryIndex.

(** *** The client returned by [create(config)] *)

Record Config : Type := mkConfig { host : string; database : string }.

(** The properties of the [options] object that the client reads, each
    with the value it holds, of whatever type; [JUndef] stands for a
    property that is absent. *)
Record InsertOptions : Type := mkOptions {
  dryRun : json;
  backup : json;
  isPrimary : json;
  primaryType : json
}.

(** [options = {}]. *)
Definition defaults : InsertOptions := mkOptions JUndef JUndef JUndef JUndef.

(** A destructuring default, [{ x = d } = options]: the default stands in
    for [undefined] and for nothing else. *)
Definition or_default (d : json) (v : json) : json :=
  match v with JUndef => d | _ => v end.

(** The truth value of an option destructured with a boolean default, as
    [if (x)] sees it. *)
Definition dflt (d : bool) (v : json) : bool := Json.truthy (or_default (JBool d) v).

Section Client.

Variable config : Config.

Definition storageKey : string := host config ++ ":" ++ database config.

(** [saveBackupsToFile(backups, config.host, config.database)]. *)
Definition saveBackupsToFile : M unit :=
  modify (fun w =>
            let old := match str_get storageKey (persistedBackups w) with
                       | Some o => o
                       | None => []
                       end in
            let merged := fold_left (fun acc e => obj_put (fst e) (snd e) acc) (backups w) old in
            set_persisted (str_set storageKey (prune merged) (persistedBackups w)) w) ;;;
  f <- pop_fs_fault ;;
  match f with
  | Some m =>
      modify (fun w => add_event (BackupFileFailed m)
                         (add_console ("Failed to save backups file: " ++ m) w))
  | None =>
      modify (fun w => add_event BackupFileWritten (set_file (Some (persistedBackups w)) w))
  end.

(** [loadBackupFromFile(postId, config.host, config.database)]. *)
Definition loadBackupFromFile (postId : nat) (w : world) : option Backup :=
  match str_get storageKey (persistedBackups w) with
  | Some o => map_get postId o
  | None => None
  end.

(** [getExistingSchemas(postId)]. *)
Definition getExistingSchemas (postId : nat) : M (list SchemaMeta) :=
  getConnection ;;;
  r <- execute (SelectMetaLike postId "rank_math%") ;;
  ret (map (fun row => mkSchemaMeta (meta_id row) (meta_key row) (meta_value row)) (metaRows r)).

(** [convertToRankMathFormat(schema, schemaType, { isPrimary })]. *)
Definition convertToRankMathFormat (schema schemaType : json) (primary : bool) : M json :=
  let typeConfig :=
    match schemaTypeOf schemaType with
    | Missing => Own (mkType "Custom" true)
    | found => found
    end in
  let titleOf := match typeConfig with Own c => JStr (title c) | _ => JUndef end in
  let can := match typeConfig with Own c => canBePrimary c | _ => false end in
  metadata <-
    (if primary && can then
       id <- generateShortcodeId ;;
       ret (JObj [ ("title", titleOf);
                   ("type", JStr "custom");
                   ("shortcode", JStr ("s-" ++ id));
                   ("isPrimary", JStr "1");
                   ("name", JStr "%seo_title%");
                   ("description", JStr "%seo_description%");
                   ("reviewLocationShortcode", JStr "[rank_math_rich_snippet]") ])
     else
       ret (JObj [ ("type", JStr "custom"); ("title", titleOf) ])) ;;
  (match lookup "@graph" (remove "@context" (ownProps schema)) with
   | Some g =>
       if Json.truthy g
       then modify (add_console "Warning: @graph schemas should be split into individual schemas")
       else ret tt
   | None => ret tt
   end) ;;;
  ret (withMetadata metadata schema).

(** [previewInsertion(postId, schema, schemaType, { isPrimary })]. *)
Definition previewInsertion (postId : nat) (schema schemaType : json) (primary : bool)
  : M json :=
  getConnection ;;;
  found <- execute (SelectPost postId) ;;
  match postRows found with
  | [] =>
      ret (JObj [ ("success", JBool false);
                  ("error", JStr ("Post ID " ++ of_nat postId ++ " not found")) ])
  | post :: _ =>
      let detectedType := or_value schemaType (extractSchemaType schema) in
      let metaKey := metaKeyOf detectedType in
      rankMathSchema <- convertToRankMathFormat schema detectedType primary ;;
      let metaValue := phpSerialize rankMathSchema in
      e <- execute (SelectMetaByKey postId metaKey) ;;
      ret (JObj [ ("success", JBool true);
                  ("dryRun", JBool true);
                  ("postId", num postId);
                  ("postTitle", JStr (post_title post));
                  ("schemaType", detectedType);
                  ("metaKey", JStr metaKey);
                  ("metaValueLength", num (String.length metaValue));
                  ("action", JStr (match metaRows e with [] => "INSERT" | _ => "UPDATE" end));
                  ("existingMetaId",
                   match metaRows e with [] => JNull | r :: _ => num (meta_id r) end);
                  ("existingValueLength",
                   match metaRows e with [] => num 0 | r :: _ => num (String.length (meta_value r)) end);
                  ("message",
                   JStr (match metaRows e with
                         | [] => "Would INSERT new meta row"
                         | r :: _ => "Would UPDATE existing meta (ID: " ++ of_nat (meta_id r) ++ ")"
                         end)) ])
  end.

(** [backupMeta(postId)]. *)
Definition backupMeta (postId : nat) : M json :=
  existing <- getExistingSchemas postId ;;
  t <- now ;;
  modify (fun w =>
            let b := mkBackup t existing in
            add_event (BackupStored postId b) (set_backups (map_set postId b (backups w)) w)) ;;;
  saveBackupsToFile ;;;
  ret (JObj [ ("success", JBool true);
              ("postId", num postId);
              ("backedUp", num (List.length existing));
              ("backupId", num postId) ]).

(** [insertSchema(postId, schema, schemaType, options)]. *)
Definition insertSchema (postId : nat) (schema schemaType : json) (options : InsertOptions)
  : M json :=
  let dry := dflt true (dryRun options) in
  let bak := dflt true (backup options) in
  let primary := dflt false (isPrimary options) in
  let detectedType := or_value schemaType (extractSchemaType schema) in
  preview <- previewInsertion postId schema detectedType primary ;;
  if negb (Json.truthy (get preview "success")) then ret preview
  else if dry then
    ret (set preview "message"
           (JStr ("[DRY-RUN] " ++ toString (get preview "message")
                  ++ " - Pass { dryRun: false } to execute")))
  else
    getConnection ;;;
    let metaKey := metaKeyOf detectedType in
    rankMathSchema <- convertToRankMathFormat schema detectedType primary ;;
    let metaValue := phpSerialize rankMathSchema in
    (if bak then backupMeta postId ;;; ret tt else ret tt) ;;;
    try_catch
      (if is_str (get preview "action") "UPDATE" then
         execute (UpdateMetaByKey metaValue postId metaKey) ;;;
         ret (JObj [ ("success", JBool true);
                     ("action", JStr "UPDATE");
                     ("postId", num postId);
                     ("metaKey", JStr metaKey);
                     ("schemaType", detectedType);
                     ("metaId", get preview "existingMetaId");
                     ("message",
                      JStr ("Updated existing " ++ toString detectedType ++ " schema (meta ID: "
                            ++ toString (get preview "existingMetaId") ++ ")"));
                     ("canRollback", or_default (JBool true) (backup options)) ])
       else
         result <- execute (InsertMeta postId metaKey metaValue) ;;
         ret (JObj [ ("success", JBool true);
                     ("action", JStr "INSERT");
                     ("postId", num postId);
                     ("metaKey", JStr metaKey);
                     ("schemaType", detectedType);
                     ("metaId", num (insertId result));
                     ("message",
                      JStr ("Inserted new " ++ toString detectedType ++ " schema (meta ID: "
                            ++ of_nat (insertId result) ++ ")"));
                     ("canRollback", or_default (JBool true) (backup options)) ]))
      (fun message =>
         ret (JObj [ ("success", JBool false);
                     ("error", JStr message);
                     ("canRollback", or_default (JBool true) (backup options)) ])).

(** The [for] loop of [insertMultipleSchemas]; [i] is the loop index. *)
Fixpoint insertEach (postId : nat) (dryRun : json) (i : nat) (schemas : list (json * json))
  : M (list json) :=
  match schemas with
  | [] => ret []
  | (schema, type) :: rest =>
      result <- insertSchema postId schema type
                  (mkOptions dryRun (JBool false) (JBool (Nat.eqb i 0)) JUndef) ;;
      results <- insertEach postId dryRun (S i) rest ;;
      ret (result :: results)
  end.

(** [insertMultipleSchemas(postId, schemas, options)]; an element of
    [schemas] is the pair of its [schema] and [type] properties. *)
Definition insertMultipleSchemas (postId : nat) (schemas : list (json * json))
  (options : InsertOptions) : M json :=
  let dry := dflt true (dryRun options) in
  let bak := dflt true (backup options) in
  (if bak && negb dry then backupMeta postId ;;; ret tt else ret tt) ;;;
  results <- insertEach postId (or_default (JBool true) (dryRun options)) 0 schemas ;;
  ret (JObj [ ("success", JBool (forallb (fun r => Json.truthy (get r "success")) results));
              ("results", arr results);
              ("canRollback",
               if bak then JBool (negb dry) else or_default (JBool true) (backup options)) ]).

(** [insertFromGraph(postId, graphSchema, options)]. *)
Definition insertFromGraph (postId : nat) (graphSchema : json) (options : InsertOptions)
  : M json :=
  match graphSchema with
  | JUndef | JNull => throw "TypeError: Cannot read properties of null"
  | _ =>
      match get graphSchema "@graph" with
      | JArr graph _ =>
          insertMultipleSchemas postId
            (splitGraph graph (or_default JNull (primaryType options)))
            (mkOptions (or_default (JBool true) (dryRun options))
               (or_default (JBool true) (backup options)) JUndef JUndef)
      | _ =>
          ret (JObj [ ("success", JBool false);
                      ("error", JStr "Schema does not contain @graph array") ])
      end
  end.

(** [setRichSnippetType(postId, snippetType, options)]. *)
Definition setRichSnippetType (postId : nat) (snippetType : string) (options : InsertOptions)
  : M json :=
  let dry := dflt true (dryRun options) in
  let metaKey := "rank_math_rich_snippet" in
  getConnection ;;;
  e <- execute (SelectMetaByKey postId metaKey) ;;
  let action := JStr (match metaRows e with [] => "INSERT" | _ => "UPDATE" end) in
  if dry then
    ret (JObj [ ("success", JBool true);
                ("dryRun", JBool true);
                ("postId", num postId);
                ("metaKey", JStr metaKey);
                ("newValue", JStr snippetType);
                ("action", action);
                ("message", JStr ("[DRY-RUN] Would set rich snippet type to '" ++ snippetType ++ "'")) ])
  else
    (match metaRows e with
     | r :: _ => execute (UpdateMetaById snippetType (meta_id r))
     | [] => execute (InsertMeta postId metaKey snippetType)
     end) ;;;
    ret (JObj [ ("success", JBool true);
                ("action", action);
                ("message", JStr ("Set rich snippet type to '" ++ snippetType ++ "'")) ]).

(** The restoring loop of [rollback]. *)
Fixpoint restore (postId : nat) (metas : list SchemaMeta) : M unit :=
  match metas with
  | [] => ret tt
  | meta :: rest =>
      (if startsWith (key meta) "rank_math_schema_"
       then execute (InsertMeta postId (key meta) (value meta)) ;;; ret tt
       else ret tt) ;;;
      restore postId rest
  end.

(** [rollback(postId)]. *)
Definition rollback (postId : nat) : M json :=
  found <- gets (fun w =>
                   match map_get postId (backups w) with
                   | Some b => Some b
                   | None => loadBackupFromFile postId w
                   end) ;;
  match found with
  | None =>
      ret (JObj [ ("success", JBool false);
                  ("error", JStr ("No backup found for post ID " ++ of_nat postId)) ])
  | Some b =>
      getConnection ;;;
      execute (DeleteMetaLike postId "rank_math_schema_%") ;;;
      restore postId (schemas b) ;;;
      ret (JObj [ ("success", JBool true);
                  ("postId", num postId);
                  ("restored",
                   num (List.length
                          (filter (fun m => startsWith (key m) "rank_math_schema_") (schemas b))));
                  ("backupTimestamp", num (timestamp b));
                  ("message", JStr "Rolled back to previous state") ])
  end.

(** [deleteMeta(metaId, options)]. *)
Definition deleteMeta (metaId : nat) (options : InsertOptions) : M json :=
  let dry := dflt true (dryRun options) in
  getConnection ;;;
  e <- execute (SelectMetaById metaId) ;;
  match metaRows e with
  | [] =>
      ret (JObj [ ("success", JBool false);
                  ("error", JStr ("Meta ID " ++ of_nat metaId ++ " not found")) ])
  | r :: _ =>
      if dry then
        ret (JObj [ ("success", JBool true);
                    ("dryRun", JBool true);
                    ("metaId", num metaId);
                    ("postId", num (post_id r));
                    ("metaKey", JStr (meta_key r));
                    ("message",
                     JStr ("[DRY-RUN] Would delete meta ID " ++ of_nat metaId
                           ++ " (" ++ meta_key r ++ ")")) ])
      else
        execute (DeleteMetaById metaId) ;;;
        ret (JObj [ ("success", JBool true);
                    ("deleted",
                     JObj [ ("metaId", num metaId);
                            ("postId", num (post_id r));
                            ("metaKey", JStr (meta_key r)) ]);
                    ("message", JStr ("Deleted meta ID " ++ of_nat metaId)) ])
  end.

(** [deleteAllSchemas(postId, options)]. *)
Definition deleteAllSchemas (postId : nat) (options : InsertOptions) : M json :=
  let dry := dflt true (dryRun options) in
  let bak := dflt true (backup options) in
  getConnection ;;;
  e <- execute (SelectMetaLike postId "rank_math_schema_%") ;;
  let count := of_nat (List.length (metaRows e)) in
  if dry then
    ret (JObj [ ("success", JBool true);
                ("dryRun", JBool true);
                ("postId", num postId);
                ("schemasToDelete", num (List.length (metaRows e)));
                ("schemas", arr (map (fun r => JStr (meta_key r)) (metaRows e)));
                ("message", JStr ("[DRY-RUN] Would delete " ++ count ++ " schema(s)")) ])
  else
    (if bak then backupMeta postId ;;; ret tt else ret tt) ;;;
    execute (DeleteMetaLike postId "rank_math_schema_%") ;;;
    ret (JObj [ ("success", JBool true);
                ("postId", num postId);
                ("deleted", num (List.length (metaRows e)));
                ("canRollback", or_default (JBool true) (backup options));
                ("message", JStr ("Deleted " ++ count ++ " schema(s)")) ]).

End Client.

End Db.

(* ===================================================================== *)
(** ** Pooled database client ([createPool] of [services/databaseClient.js]) *)
(* ===================================================================== *)

Module DbPool.
Import JsStr Json Db.
Local Open Scope db_scope.

(** The table prefix both clients work with:
    [(config.tablePrefix || 'wp_').replace(/[^a-zA-Z0-9_]/g, '')]. *)
Definition tablePrefix (configured : string) : string :=
  Regex.replace_all (Regex.rx "[^a-zA-Z0-9_]") (fun _ => "") (or_else configured "wp_").

(** [execute(sql, params)]: [promisePool.execute]. *)
Definition execute (s : statement) : M QueryResult := Db.execute s.

Section Client.

Variable config : Config.

(** [getExistingSchemas(postId)]. *)
Definition getExistingSchemas (postId : nat) : M (list SchemaMeta) :=
  r <- execute (SelectMetaLike postId "rank_math%") ;;
  ret (map (fun row => mkSchemaMeta (meta_id row) (meta_key row) (meta_value row)) (metaRows r)).

(** [previewInsertion(postId, schema, schemaType, { isPrimary })]. *)
Definition previewInsertion (postId : nat) (schema schemaType : json) (primary : bool)
  : M json :=
  found <- execute (SelectPost postId) ;;
  match postRows found with
  | [] =>
      ret (JObj [ ("success", JBool false);
                  ("error", JStr ("Post ID " ++ of_nat postId ++ " not found")) ])
  | post :: _ =>
      let detectedType := or_value schemaType (extractSchemaType schema) in
      let metaKey := metaKeyOf detectedType in
      rankMathSchema <- convertToRankMathFormat schema detectedType primary ;;
      let metaValue := phpSerialize rankMathSchema in
      e <- execute (SelectMetaByKey postId metaKey) ;;
      ret (JObj [ ("success", JBool true);
                  ("dryRun", JBool true);
                  ("postId", num postId);
                  ("postTitle", JStr (post_title post));
                  ("schemaType", detectedType);
                  ("metaKey", JStr metaKey);
                  ("metaValueLength", num (String.length metaValue));
                  ("action", JStr (match metaRows e with [] => "INSERT" | _ => "UPDATE" end));
                  ("existingMetaId",
                   match metaRows e with [] => JNull | r :: _ => num (meta_id r) end);
                  ("existingValueLength",
                   match metaRows e with [] => num 0 | r :: _ => num (String.length (meta_value r)) end);
                  ("message",
                   JStr (match metaRows e with
                         | [] => "Would INSERT new meta row"
                         | r :: _ => "Would UPDATE existing meta (ID: " ++ of_nat (meta_id r) ++ ")"
                         end)) ])
  end.

(** [backupMeta(postId)]. *)
Definition backupMeta (postId : nat) : M json :=
  existing <- getExistingSchemas postId ;;
  t <- now ;;
  modify (fun w =>
            let b := mkBackup t existing in
            add_event (BackupStored postId b) (set_backups (map_set postId b (backups w)) w)) ;;;
  saveBackupsToFile config ;;;
  ret (JObj [ ("success", JBool true);
              ("postId", num postId);
              ("backedUp", num (List.length existing));
              ("backupId", num postId) ]).

(** [insertSchema(postId, schema, schemaType, options)]. *)
Definition insertSchema (postId : nat) (schema schemaType : json) (options : InsertOptions)
  : M json :=
  let dry := dflt true (dryRun options) in
  let bak := dflt true (backup options) in
  let primary := dflt false (isPrimary options) in
  let detectedType := or_value schemaType (extractSchemaType schema) in
  preview <- previewInsertion postId schema detectedType primary ;;
  if negb (Json.truthy (get preview "success")) then ret preview
  else if dry then
    ret (set preview "message"
           (JStr ("[DRY-RUN] " ++ toString (get preview "message")
                  ++ " - Pass { dryRun: false } to execute")))
  else
    let metaKey := metaKeyOf detectedType in
    rankMathSchema <- convertToRankMathFormat schema detectedType primary ;;
    let metaValue := phpSerialize rankMathSchema in
    (if bak then backupMeta postId ;;; ret tt else ret tt) ;;;
    try_catch
      (if is_str (get preview "action") "UPDATE" then
         execute (UpdateMetaByKey metaValue postId metaKey) ;;;
         ret (JObj [ ("success", JBool true);
                     ("action", JStr "UPDATE");
                     ("postId", num postId);
                     ("metaKey", JStr metaKey);
                     ("schemaType", detectedType);
                     ("metaId", get preview "existingMetaId");
                     ("message",
                      JStr ("Updated existing " ++ toString detectedType ++ " schema (meta ID: "
                            ++ toString (get preview "existingMetaId") ++ ")"));
                     ("canRollback", or_default (JBool true) (backup options)) ])
       else
         result <- execute (InsertMeta postId metaKey metaValue) ;;
         ret (JObj [ ("success", JBool true);
                     ("action", JStr "INSERT");
                     ("postId", num postId);
                     ("metaKey", JStr metaKey);
                     ("schemaType", detectedType);
                     ("metaId", num (insertId result));
                     ("message",
                      JStr ("Inserted new " ++ toString detectedType ++ " schema (meta ID: "
                            ++ of_nat (insertId result) ++ ")"));
                     ("canRollback", or_default (JBool true) (backup options)) ]))
      (fun message =>
         ret (JObj [ ("success", JBool false);
                     ("error", JStr message);
                     ("canRollback", or_default (JBool true) (backup options)) ])).

(** The [for] loop of [insertMultipleSchemas]; [i] is the loop index. *)
Fixpoint insertEach (postId : nat) (dryRun : json) (i : nat) (schemas : list (json * json))
  : M (list json) :=
  match schemas with
  | [] => ret []
  | (schema, type) :: rest =>
      result <- insertSchema postId schema type
                  (mkOptions dryRun (JBool false) (JBool (Nat.eqb i 0)) JUndef) ;;
      results <- insertEach postId dryRun (S i) rest ;;
      ret (result :: results)
  end.

(** [insertMultipleSchemas(postId, schemas, options)]. *)
Definition insertMultipleSchemas (postId : nat) (schemas : list (json * json))
  (options : InsertOptions) : M json :=
  let dry := dflt true (dryRun options) in
  let bak := dflt true (backup options) in
  (if bak && negb dry then backupMeta postId ;;; ret tt else ret tt) ;;;
  results <- insertEach postId (or_default (JBool true) (dryRun options)) 0 schemas ;;
  ret (JObj [ ("success", JBool (forallb (fun r => Json.truthy (get r "success")) results));
              ("results", arr results);
              ("canRollback",
               if bak then JBool (negb dry) else or_default (JBool true) (backup options)) ]).

(** [insertFromGraph(postId, graphSchema, options)]; the loop over the
    graph is the one of the direct client, [splitGraph]. *)
Definition insertFromGraph (postId : nat) (graphSchema : json) (options : InsertOptions)
  : M json :=
  match graphSchema with
  | JUndef | JNull => throw "TypeError: Cannot read properties of null"
  | _ =>
      match get graphSchema "@graph" with
      | JArr graph _ =>
          insertMultipleSchemas postId
            (splitGraph graph (or_default JNull (primaryType options)))
            (mkOptions (or_default (JBool true) (dryRun options))
               (or_default (JBool true) (backup options)) JUndef JUndef)
      | _ =>
          ret (JObj [ ("success", JBool false);
                      ("error", JStr "Schema does not contain @graph array") ])
      end
  end.

(** [setRichSnippetType(postId, snippetType, options)]. *)
Definition setRichSnippetType (postId : nat) (snippetType : string) (options : InsertOptions)
  : M json :=
  let dry := dflt true (dryRun options) in
  let metaKey := "rank_math_rich_snippet" in
  e <- execute (SelectMetaByKey postId metaKey) ;;
  let action := JStr (match metaRows e with [] => "INSERT" | _ => "UPDATE" end) in
  if dry then
    ret (JObj [ ("success", JBool true);
                ("dryRun", JBool true);
                ("postId", num postId);
                ("metaKey", JStr metaKey);
                ("newValue", JStr snippetType);
                ("action", action);
                ("message", JStr ("[DRY-RUN] Would set rich snippet type to '" ++ snippetType ++ "'")) ])
  else
    (match metaRows e with
     | r :: _ => execute (UpdateMetaById snippetType (meta_id r))
     | [] => execute (InsertMeta postId metaKey snippetType)
     end) ;;;
    ret (JObj [ ("success", JBool true);
                ("action", action);
                ("message", JStr ("Set rich snippet type to '" ++ snippetType ++ "'")) ]).

(** The restoring loop of [rollback]. *)
Fixpoint restore (postId : nat) (metas : list SchemaMeta) : M unit :=
  match metas with
  | [] => ret tt
  | meta :: rest =>
      (if startsWith (key meta) "rank_math_schema_"
       then execute (InsertMeta postId (key meta) (value meta)) ;;; ret tt
       else ret tt) ;;;
      restore postId rest
  end.

(** [rollback(postId)]. *)
Definition rollback (postId : nat) : M json :=
  found <- gets (fun w =>
                   match map_get postId (backups w) with
                   | Some b => Some b
                   | None => loadBackupFromFile config postId w
                   end) ;;
  match found with
  | None =>
      ret (JObj [ ("success", JBool false);
                  ("error", JStr ("No backup found for post ID " ++ of_nat postId)) ])
  | Some b =>
      execute (DeleteMetaLike postId "rank_math_schema_%") ;;;
      restore postId (schemas b) ;;;
      ret (JObj [ ("success", JBool true);
                  ("postId", num postId);
                  ("restored",
                   num (List.length
                          (filter (fun m => startsWith (key m) "rank_math_schema_") (schemas b))));
                  ("backupTimestamp", num (timestamp b));
                  ("message", JStr "Rolled back to previous state") ])
  end.

(** [deleteMeta(metaId, options)]. *)
Definition deleteMeta (metaId : nat) (options : InsertOptions) : M json :=
  let dry := dflt true (dryRun options) in
  e <- execute (SelectMetaById metaId) ;;
  match metaRows e with
  | [] =>
      ret (JObj [ ("success", JBool false);
                  ("error", JStr ("Meta ID " ++ of_nat metaId ++ " not found")) ])
  | r :: _ =>
      if dry then
        ret (JObj [ ("success", JBool true);
                    ("dryRun", JBool true);
                    ("metaId", num metaId);
                    ("postId", num (post_id r));
                    ("metaKey", JStr (meta_key r));
                    ("message",
                     JStr ("[DRY-RUN] Would delete meta ID " ++ of_nat metaId
                           ++ " (" ++ meta_key r ++ ")")) ])
      else
        execute (DeleteMetaById metaId) ;;;
        ret (JObj [ ("success", JBool true);
                    ("deleted",
                     JObj [ ("metaId", num metaId);
                            ("postId", num (post_id r));
                            ("metaKey", JStr (meta_key r)) ]);
                    ("message", JStr ("Deleted meta ID " ++ of_nat metaId)) ])
  end.

(** [deleteAllSchemas(postId, options)]. *)
Definition deleteAllSchemas (postId : nat) (options : InsertOptions) : M json :=
  let dry := dflt true (dryRun options) in
  let bak := dflt true (backup options) in
  e <- execute (SelectMetaLike postId "rank_math_schema_%") ;;
  let count := of_nat (List.length (metaRows e)) in
  if dry then
    ret (JObj [ ("success", JBool true);
                ("dryRun", JBool true);
                ("postId", num postId);
                ("schemasToDelete", num (List.length (metaRows e)));
                ("schemas", arr (map (fun r => JStr (meta_key r)) (metaRows e)));
                ("message", JStr ("[DRY-RUN] Would delete " ++ count ++ " schema(s)")) ])
  else
    (if bak then backupMeta postId ;;; ret tt else ret tt) ;;;
    execute (DeleteMetaLike postId "rank_math_schema_%") ;;;
    ret (JObj [ ("success", JBool true);
                ("postId", num postId);
                ("deleted", num (List.length (metaRows e)));
                ("canRollback", or_default (JBool true) (backup options));
                ("message", JStr ("Deleted " ++ count ++ " schema(s)")) ]).

End Client.
End DbPool.

(* ===================================================================== *)
(** ** Text helpers around the AI call ([services/ai/schemaGenerator.js]) *)
(* ===================================================================== *)

Module AiText.
Import JsStr.
Local Open Scope char_scope.

(** The scan behind [s.indexOf(needle)], from index [i] on. *)
Fixpoint index_from (needle l : list ascii) (i : nat) {struct l} : option nat :=
  if prefix_chars needle l then Some i
  else match l with
       | [] => None
       | _ :: l' => index_from needle l' (S i)
       end.

(** [s.indexOf(needle)]; [None] is [-1]. *)
Definition indexOf (s needle : string) : option nat :=
  index_from (chars needle) (chars s) 0.

(** [safeReplace(str, search, replacement)]. *)
Definition safeReplace (s search replacement : string) : string :=
  match indexOf s search with
  | None => s
  | Some idx =>
      (substring0 idx s ++ replacement
       ++ str (skipn (idx + String.length search) (chars s)))%string
  end.

(** The loop of [extractBalancedJSON] over the characters from [text[i]]
    on; the answer is the index after the brace that closes the object. *)
Fixpoint scan (l : list ascii) (depth : Z) (inString escaped : bool) (i : nat) : option nat :=
  match l with
  | [] => None
  | ch :: rest =>
      if escaped then scan rest depth inString false (S i)
      else if Ascii.eqb ch "\" && inString then scan rest depth inString true (S i)
      else if Ascii.eqb ch (ascii_of_nat 34) then scan rest depth (negb inString) false (S i)
      else if negb inString then
        if Ascii.eqb ch "{" then scan rest (depth + 1) inString false (S i)
        else if Ascii.eqb ch "}" then
          if Z.eqb (depth - 1) 0 then Some (S i)
          else scan rest (depth - 1) inString false (S i)
        else scan rest depth inString false (S i)
      else scan rest depth inString false (S i)
  end.

(** [extractBalancedJSON(text)]; [None] is [null]. *)
Definition extractBalancedJSON (text : string) : option string :=
  match index_from [ "{" ] (chars text) 0 with
  | None => None
  | Some start =>
      let fromStart := skipn start (chars text) in
      match scan fromStart 0 false false 0 with
      | Some n => Some (str (firstn n fromStart))
      | None => Some (str fromStart)
      end
  end.

End AiText.

(* ===================================================================== *)
(** ** Article builder ([schemas/article.js]) *)
(* ===================================================================== *)

Module Article.
Import JsStr Regex Json.

(** [url.replace(/\/$/, '')]: the pattern matches at the end of the text
    only, so there is at most one match to replace. *)
Definition withoutTrailingSlash (url : string) : string :=
  replace_all (rx "\/$") (fun _ => "") url.

(** [generate(pageData, orgInfo, options)]. *)
Definition generate (pageData : PageData.t) (orgInfo : OrgInfo.t) (options : Options.t) : json :=
  let organization := JStr (OrgInfo.name orgInfo) in
  JObj ([ ("@type", JStr "Article");
          ("@id", JStr (PageData.url pageData ++ "#article"));
          ("headline", JStr (truncate (PageData.title pageData) 110));
          ("description", JStr (truncate (PageData.description pageData) 200));
          ("url", JStr (PageData.url pageData));
          ("mainEntityOfPage",
           JObj [ ("@id", JStr (withoutTrailingSlash (PageData.url pageData) ++ "/#webpage")) ]) ]
        ++ opt_field "image" (PageData.featuredImage pageData)
        ++ [ ("author",
              if JsStr.truthy (PageData.author pageData)
              then JObj [ ("@type", JStr "Person"); ("name", JStr (PageData.author pageData)) ]
              else JObj [ ("@type", JStr "Organization"); ("name", organization) ]);
             ("publisher",
              JObj ([ ("@type", JStr "Organization"); ("name", organization) ]
                    ++ (if JsStr.truthy (OrgInfo.logo orgInfo)
                        then [ ("logo", Service.imageObject (OrgInfo.logo orgInfo)) ] else [])
                    ++ (match Options.sameAs options with
                        | [] => []
                        | l => [ ("sameAs", arr (map JStr l)) ]
                        end))%list) ]
        ++ opt_field "datePublished" (PageData.publishDate pageData)
        ++ (if JsStr.truthy (PageData.modifiedDate pageData)
            then [ ("dateModified", JStr (PageData.modifiedDate pageData)) ]
            else opt_field "dateModified" (PageData.publishDate pageData))
        ++ (match PageData.tags pageData with
            | [] => []
            | tags => [ ("keywords", JStr (join ", " tags)) ]
            end)
        ++ (match PageData.categories pageData with
            | [] => []
            | first :: _ => [ ("articleSection", JStr first) ]
            end))%list.

End Article.

(* ===================================================================== *)
(** ** BreadcrumbList builder ([schemas/breadcrumb.js]) *)
(* ===================================================================== *)

Module Crumb.
Record t : Type := mk { name : string; url : string }.
End Crumb.

Module Breadcrumb.
Import JsStr Json.

(** One element of [itemListElement]; [index] counts from zero. *)
Definition listItem (index : nat) (crumb : Crumb.t) : json :=
  JObj [ ("@type", JStr "ListItem");
         ("position", JNum (Z.of_nat (index + 1)));
         ("name", JStr (Crumb.name crumb));
         ("item", JStr (Crumb.url crumb)) ].

(** [breadcrumbs.map((crumb, index) => ...)], from a given index on. *)
Fixpoint listItems (index : nat) (crumbs : list Crumb.t) : list json :=
  match crumbs with
  | [] => []
  | crumb :: rest => listItem index crumb :: listItems (S index) rest
  end.

(** [generate(breadcrumbs)]; [None] is [null]. *)
Definition generate (breadcrumbs : list Crumb.t) : option json :=
  if Nat.ltb (List.length breadcrumbs) 2 then None
  else Some (JObj [ ("@type", JStr "BreadcrumbList");
                    ("itemListElement", arr (listItems 0 breadcrumbs)) ]).

End Breadcrumb.

(* ===================================================================== *)
(** ** Listing the backups ([listPersistedBackups], [listBackups]) *)
(* ===================================================================== *)

Module BackupList.
Import JsStr Json Db.

(** One element of the listing. *)
Record Summary : Type := mkSummary { postId : nat; timestamp : nat; schemaCount : nat }.

Definition summary (e : nat * Backup) : Summary :=
  mkSummary (fst e) (Db.timestamp (snd e)) (List.length (schemas (snd e))).

Section Client.

Variable config : Config.

(** [listPersistedBackups(config.host, config.database)]. *)
Definition listPersistedBackups (w : world) : list Summary :=
  map summary
    (match str_get (storageKey config) (persistedBackups w) with
     | Some o => o
     | None => []
     end).

(** [listBackups()]: the client's own backups first, then the persisted
    ones of posts not seen yet. *)
Definition listBackups (w : world) : list Summary :=
  let seen := map fst (backups w) in
  map summary (backups w)
  ++ filter (fun fb => negb (existsb (Nat.eqb (postId fb)) seen)) (listPersistedBackups w).

End Client.
End BackupList.

(* ===================================================================== *)
(** ** Vocabulary of the properties *)
(* ===================================================================== *)

Module DetectorVocabulary.
Import PageTypeDetector.

(** The location score is the largest of the three and reaches the floor. *)
Definition location_wins (s : Scores) : Prop :=
  article s <= location s /\ service s <= location s /\ LOCATION_FLOOR <= location s.
End DetectorVocabulary.

Module Vocabulary.
Import JsStr Json.
(** Objects and arrays: the values that hold properties. *)
Definition objlike (v : json) : bool :=
  match v with JObj _ | JArr _ _ => true | _ => false end.

(** White space: tab, line feed, vertical tab, form feed, carriage return,
    space and no-break space. *)
Definition white_space (c : ascii) : bool :=
  existsb (Nat.eqb (code c)) [ 9; 10; 11; 12; 13; 32; 160 ].

(** A string with a character that is not white space. *)
Definition non_blank (s : string) : bool :=
  existsb (fun c => negb (white_space c)) (chars s).

(** Every run of white space replaced by one space; [in_run] says that the
    character before was white space. *)
Fixpoint squeeze (in_run : bool) (l : list ascii) : list ascii :=
  match l with
  | [] => []
  | c :: l' =>
      if white_space c then (if in_run then squeeze true l' else " "%char :: squeeze true l')
      else c :: squeeze false l'
  end.

(** A text with its runs of white space replaced by one space each and
    none left at either end. *)
Definition tidy (s : string) : string := trim (str (squeeze false (chars s))).

(** A pair whose question and answer are both non-blank. *)
Definition survives (faq : FaqPair.t) : bool :=
  non_blank (FaqPair.question faq) && non_blank (FaqPair.answer faq).

(** The pairs a FAQ entity is built from: the survivors, ten at most. *)
Definition kept (faqs : list FaqPair.t) : list FaqPair.t :=
  firstn 10 (filter survives faqs).

(** A Question with its accepted Answer. *)
Definition question_item (name text : string) : json :=
  JObj [ ("@type", JStr "Question");
         ("name", JStr name);
         ("acceptedAnswer", JObj [ ("@type", JStr "Answer"); ("text", JStr text) ]) ].

(** The FAQPage entity over given pairs: one Question per pair, in order,
    with the tidied question as its name and the tidied answer as the text
    of its accepted Answer. *)
Definition faq_page (pairs : list FaqPair.t) : json :=
  JObj [ ("@type", JStr "FAQPage");
         ("mainEntity",
          arr (map (fun faq => question_item (tidy (FaqPair.question faq))
                                 (tidy (FaqPair.answer faq))) pairs)) ].

(** A list does not start with white space. *)
Definition tight (l : list ascii) : Prop :=
  match l with
  | c :: _ => is_space c = false
  | [] => True
  end.

(** The options with [areaServed] set to the two cities and no address. *)
Definition houston_dallas (options : Options.t) : Options.t :=
  Options.mk "Houston, Dallas" (Options.businessType options) (Options.phone options)
    (Options.email options) None (Options.serviceAreas options) (Options.sameAs options)
    (Options.priceRange options) (Options.openingHours options) (Options.rating options).
End Vocabulary.

Module ClassVocabulary.
Import JsStr Regex.

(** The position after the longest run of characters of a class. *)
Fixpoint span (P : ascii -> bool) (bef aft : list ascii) : pos :=
  match aft with
  | x :: xs => if P x then span P (x :: bef) xs else mkPos bef aft
  | [] => mkPos bef []
  end.

(** The rest of a text after its leading characters of a class. *)
Fixpoint skip (P : ascii -> bool) (l : list ascii) : list ascii :=
  match l with
  | x :: xs => if P x then skip P xs else l
  | [] => []
  end.

(** A pattern [c+] for a class [c]. *)
Definition plus_of (rs : list (nat * nat)) : re := Seq (Cls false rs) (Star (Cls false rs)).


(** Every run of characters of the class replaced by [rep]. *)
Fixpoint squeeze_class (P : ascii -> bool) (rep : list ascii) (in_run : bool) (l : list ascii)
  : list ascii :=
  match l with
  | [] => []
  | c :: l' =>
      if P c then (if in_run then squeeze_class P rep true l'
                   else rep ++ squeeze_class P rep true l')
      else c :: squeeze_class P rep false l'
  end.
End ClassVocabulary.


Module AddressVocabulary.
Import JsStr Json.

(** The postal-address requirement: an address object in which the street
    or the locality is populated. *)
Definition address_populated (address : json) : bool :=
  Json.truthy address
  && (Json.truthy (get address "streetAddress") || Json.truthy (get address "addressLocality")).

Definition provider_address (service : json) : json :=
  get (get service "provider") "address".

Definition is_nil {A : Type} (l : list A) : bool :=
  match l with [] => true | _ :: _ => false end.










End AddressVocabulary.

Module ReferenceVocabulary.
Import JsStr Json Vocabulary AiSchema.

(** Own-property lookup of an object or array. *)
Definition prop (v : json) (k : string) : option json :=
  match v with
  | JObj ps | JArr _ ps => lookup k ps
  | _ => None
  end.

(** A pure reference: an object whose only key is [@id]. *)
Definition pure_reference (v : json) : bool :=
  match v with
  | JObj [ (k, _) ] => String.eqb k "@id"
  | _ => false
  end.

(** A value that points at an entity: it carries a truthy [@id]. *)
Definition carries_id (v : json) : bool :=
  Json.truthy v && Json.truthy (get v "@id").

Definition reference_clean (v : json) : bool :=
  implb (carries_id v) (pure_reference v).

(** The reference fields the post-processing pass looks after, by type. *)
Definition references_clean (schema : json) : bool :=
  let t := get schema "@type" in
  implb (is_str t "Service") (reference_clean (get schema "provider"))
  && implb (is_str t "Article") (reference_clean (get schema "publisher"))
  && implb (is_str t "WebPage")
       (reference_clean (get schema "isPartOf") && reference_clean (get schema "about"))
  && implb (is_str t "FAQPage") (reference_clean (get schema "isPartOf")).

(** The identity a value points at. *)
Definition id_of (v : json) : option string :=
  match get v "@id" with
  | JStr s => if JsStr.truthy s then Some s else None
  | _ => None
  end.

(** The value points at an entity of the graph. *)
Definition names_entity (graph : list json) (v : json) : bool :=
  match id_of v with
  | Some i => existsb (fun e => is_str (get e "@id") i) graph
  | None => false
  end.

(** Every field that points at an entity of the graph is a pure reference. *)
Definition graph_references_pure (graph : list json) : bool :=
  forallb
    (fun e => forallb (fun kv => implb (names_entity graph (snd kv)) (pure_reference (snd kv)))
                (Db.ownProps e))
    graph.

(** Running a pass on its own output. *)
Definition and_then {A B : Type} (o : outcome A) (f : A -> outcome B) : outcome B :=
  match o with
  | Returned a => f a
  | Thrown m => Thrown m
  end.

Definition not_nullish (v : json) : bool :=
  match v with JUndef | JNull => false | _ => true end.

(** The key of a value will not be filled again. *)
Definition filled (o : json) (k : string) (v : json) : Prop :=
  Json.truthy (get o k) = true \/ prop o k = Some v \/ objlike o = false.

(** The three assignments made to an address that lacks street and
    locality. *)
Definition complete (locality region country : json) (address : json) : json :=
  fill "addressCountry" country (fill "addressRegion" region (set address "addressLocality" locality)).

(** What the pass does to a business entity. *)
Definition business_pass (d : Detected) (orgInfo : OrgInfo.t) (pageData : PageData.t)
  (s : json) : json :=
  completeTelephone orgInfo pageData (completeAddress d orgInfo s).

(** What [repairSchema] does, by the type of the schema. *)
Definition pass_for (d : Detected) (orgInfo : OrgInfo.t) (pageData : PageData.t)
  (t : json) (s : json) : json :=
  if is_str t "Service" then cleanField "provider" s
  else if is_str t "Article" then cleanField "publisher" s
  else if is_str t "WebPage" then cleanField "about" (cleanField "isPartOf" s)
  else if is_str t "FAQPage" then cleanField "isPartOf" s
  else if is_str t "HVACBusiness" || is_str t "LocalBusiness" then business_pass d orgInfo pageData s
  else s.
End ReferenceVocabulary.

Module StoreVocabulary.
Import Json Db.

(** An event that is not a writing statement. *)
Definition not_a_write (e : event) : Prop :=
  match e with
  | Issued s => is_write s = false
  | _ => True
  end.

(** From [w] to [w'] no INSERT, UPDATE or DELETE was issued and the rows
    are the same. *)
Definition no_db_write (w w' : world) : Prop :=
  postmeta w' = postmeta w
  /\ next_meta_id w' = next_meta_id w
  /\ posts w' = posts w
  /\ collation w' = collation w
  /\ exists evs, trace w' = (trace w ++ evs)%list /\ Forall not_a_write evs.

(** A relation between the world before and after holds of every run. *)
Definition always {A : Type} (R : world -> world -> Prop) (m : M A) : Prop :=
  forall w, R w (snd (m w)).

(** The caller left [dryRun] out, or passed a value that JavaScript takes
    for true. *)
Definition dry (o : InsertOptions) : Prop :=
  dryRun o = JUndef \/ Json.truthy (dryRun o) = true.

(** The caller did not pass [dryRun: false]. *)
Definition not_false (o : InsertOptions) : Prop := dryRun o <> JBool false.

(** A result that, when it reports success, is marked as a dry run. *)
Definition describes (r : json) : Prop :=
  Json.truthy (get r "success") = true -> get r "dryRun" = JBool true.

(** The elements of an array; no elements for any other value. *)
Definition elements (v : json) : list json :=
  match v with JArr l _ => l | _ => [] end.

(** The per-schema results of an aggregate result are descriptions. *)
Definition describes_each (r : json) : Prop :=
  Forall describes (elements (get r "results")).

(** Whatever the state, a result that is returned satisfies [P]. *)
Definition yields {A : Type} (m : M A) (P : A -> Prop) : Prop :=
  forall w, match fst (m w) with Returned a => P a | Thrown _ => True end.
End StoreVocabulary.

Module BackupVocabulary.
Import Json Db StoreVocabulary.

(** What [getExistingSchemas] reads in a given state of the store: every
    [rank_math] row of the post. *)
Definition snapshot (postId : nat) (w : world) : list SchemaMeta :=
  map (fun row => mkSchemaMeta (meta_id row) (meta_key row) (meta_value row))
    (filter (selects w (SelectMetaLike postId "rank_math%")) (postmeta w)).






(** Outcome-aware postcondition of one run. *)
Definition hoare {A : Type} (m : M A) (w : world) (Q : outcome A -> world -> Prop) : Prop :=
  Q (fst (m w)) (snd (m w)).

(** What a call of [backupMeta] leaves behind. *)
Definition stored (postId : nat) (w : world) (o : outcome json) (w' : world) : Prop :=
  postmeta w' = postmeta w
  /\ collation w' = collation w
  /\ exists evs,
      trace w' = (trace w ++ evs)%list
      /\ Forall not_a_write evs
      /\ (forall r, o = Returned r ->
            exists b, In (BackupStored postId b) evs
                      /\ schemas b = snapshot postId w
                      /\ map_get postId (backups w') = Some b).
End BackupVocabulary.

Module RollbackVocabulary.
Import Json Db StoreVocabulary BackupVocabulary.

(** The store answers every statement. *)
Definition calm (w : world) : Prop := db_faults w = [].

(** A character equals itself under the collation. *)
Definition reflexive_collation (w : world) : Prop := forall c, collation w c c = true.

(** A schema row of a post: its key starts with [rank_math_schema_]. *)
Definition is_schema_row (postId : nat) (r : MetaRow) : bool :=
  Nat.eqb (post_id r) postId && JsStr.startsWith (meta_key r) "rank_math_schema_".

(** The schema rows of a post: keys and serialized values, in table order. *)
Definition schema_rows (postId : nat) (w : world) : list (string * string) :=
  map (fun r => (meta_key r, meta_value r)) (filter (is_schema_row postId) (postmeta w)).

(** The run returns and [Q] holds of its result. *)
Definition runs {A : Type} (m : M A) (w : world) (Q : A -> world -> Prop) : Prop :=
  exists a w', m w = (Returned a, w') /\ Q a w'.

(** Nothing the rollback law depends on has changed. *)
Definition kept (w w' : world) : Prop :=
  db_faults w' = db_faults w
  /\ postmeta w' = postmeta w
  /\ next_meta_id w' = next_meta_id w
  /\ collation w' = collation w
  /\ backups w' = backups w.

(** Rows inserted one after the other from a given id on. *)
Fixpoint inserted (n postId : nat) (metas : list SchemaMeta) : list MetaRow :=
  match metas with
  | [] => []
  | m :: rest => mkMeta n postId (key m) (value m) :: inserted (S n) postId rest
  end.

Definition schema_meta (m : SchemaMeta) : bool :=
  JsStr.startsWith (key m) "rank_math_schema_".

(** Backup, write, roll back: each step returns and the schema rows of the
    post are those of the start. *)
Definition rollback_restores (config : Config) (postId : nat) (schema schemaType : json)
  (o : InsertOptions) (w : world) : Prop :=
  exists r1 w1 r2 w2 r3 w3,
    backupMeta config postId w = (Returned r1, w1)
    /\ insertSchema config postId schema schemaType o w1 = (Returned r2, w2)
    /\ rollback config postId w2 = (Returned r3, w3)
    /\ get r3 "success" = JBool true
    /\ schema_rows postId w3 = schema_rows postId w.

(** What a backup leaves in a calm store. *)
Definition holds_snapshot (postId : nat) (origin w' : world) : Prop :=
  calm w'
  /\ postmeta w' = postmeta origin
  /\ next_meta_id w' = next_meta_id origin
  /\ collation w' = collation origin
  /\ exists b, map_get postId (backups w') = Some b /\ schemas b = snapshot postId origin.

(** What a committed write leaves: the backup still holds the rows of the
    origin, whatever happened to the table. *)
Definition holds_backup (postId : nat) (origin w' : world) : Prop :=
  calm w'
  /\ collation w' = collation origin
  /\ exists b, map_get postId (backups w') = Some b /\ schemas b = snapshot postId origin.
End RollbackVocabulary.

Module GraphVocabulary.
Import Json Db.

(** An entity of one of the preferred types. *)
Definition preferred (item : json) : bool :=
  is_one_of PREFERRED_TYPES (extractSchemaType item).

(** The entities of a graph that are stored: those the loop does not skip. *)
Definition stored_entities (graph : list json) : list json :=
  filter (fun item => negb (skipped item)) graph.

(** The entity handed over with [isPrimary: true]: the head of the list
    that [insertMultipleSchemas] receives. *)
Definition primary_of (graph : list json) (primaryType : json) : option json :=
  option_map fst (hd_error (splitGraph graph primaryType)).

(** [primaryIndex] after the loop has pushed [items], the first of them at
    index [start], when it was [current] before. *)
Fixpoint last_claim (start current : nat) (items : list json) : nat :=
  match items with
  | [] => current
  | item :: rest => last_claim (S start) (if preferred item then start else current) rest
  end.

(** The keys of the rows whose serialized metadata marks them primary. *)
Definition primary_keys (w : world) : list string :=
  map meta_key (filter (fun r => JsStr.includes (meta_value r) "isPrimary") (postmeta w)).

Definition example_config : Config := mkConfig "localhost" "wordpress".

(** A store with one post, one schema row and one other Rank Math row. *)
Definition example_store : world :=
  mkWorld [ mkPost 7 "Roof repair" ]
    [ mkMeta 1 7 "rank_math_schema_FAQPage" "a:0:{}"; mkMeta 2 7 "rank_math_title" "Roof repair" ]
    3 Ascii.eqb false [] [] [] None [] [ 1000 ] [ "abc123" ] [] [].

Definition service_entity : json :=
  JObj [ ("@type", JStr "Service"); ("name", JStr "Roof repair") ].

Definition article_entity : json :=
  JObj [ ("@type", JStr "Article"); ("headline", JStr "Roof care") ].

Definition service_then_article : json :=
  JObj [ ("@context", JStr "https://schema.org");
         ("@graph", arr [ service_entity; article_entity ]) ].

Definition commit : InsertOptions := mkOptions (JBool false) JUndef JUndef JUndef.

(** Options as a request body with [dryRun] set to [null], to [0] or to
    the empty string leaves them. *)
Definition dryRun_null : InsertOptions := mkOptions JNull JUndef JUndef JUndef.
Definition dryRun_zero : InsertOptions := mkOptions (JNum 0) JUndef JUndef JUndef.
Definition dryRun_empty : InsertOptions := mkOptions (JStr "") JUndef JUndef JUndef.

(** An entity with the type the loop files it under. *)
Definition tag (item : json) : json * json := (item, extractSchemaType item).


Definition is_write_event (e : event) : bool :=
  match e with Issued s => is_write s | _ => false end.


Definition example_page : PageData.t :=
  PageData.mk "https://example.com/roof-repair" "Roof repair" "We repair roofs." ""
    [] "" "" "" "" [] [] [] "" [] None.

Definition example_org : OrgInfo.t :=
  OrgInfo.mk "Acme Roofing" "https://example.com" "" "" "".

(** A Service entity and the business entity of the same organization,
    as the two builders return them. *)
Definition service_and_business : list json :=
  [ Service.generate example_page example_org Options.none;
    LocalBusiness.generate example_org Options.none ].


(** A list of one generated Service item whose provider repeats the name
    of the business next to its [@id]. *)
Definition generated_service : list json :=
  [ JObj [ ("type", JStr "Service");
           ("schema",
            JObj [ ("@type", JStr "Service");
                   ("provider", JObj [ ("@id", JStr "#business"); ("name", JStr "Acme Roofing") ]) ]) ] ].
End GraphVocabulary.

Module EdgeVocabulary.
Import JsStr Json Db.

(** No post of the table has the id. *)
Definition post_missing (postId : nat) (w : world) : Prop :=
  forall r, In r (posts w) -> ID r <> postId.

(** No row of the meta table has the id. *)
Definition meta_missing (metaId : nat) (w : world) : Prop :=
  forall r, In r (postmeta w) -> meta_id r <> metaId.

(** The rows of the other posts, in table order. *)
Definition other_rows (postId : nat) (w : world) : list MetaRow :=
  filter (fun r => negb (Nat.eqb (post_id r) postId)) (postmeta w).
End EdgeVocabulary.

Module UpsertVocabulary.
Import JsStr Json Db.

(** The posts table has a post with the id. *)
Definition post_exists (postId : nat) (w : world) : bool :=
  existsb (fun r => Nat.eqb (ID r) postId) (posts w).

(** The post has a row under the key, as [WHERE post_id = ? AND meta_key = ?]
    sees it. *)
Definition has_row (postId : nat) (k : string) (w : world) : bool :=
  existsb (selects w (SelectMetaByKey postId k)) (postmeta w).
End UpsertVocabulary.

Module BackupStoreVocabulary.
Import JsStr Json Db RollbackVocabulary.

(** The persisted backups of a storage key; none when the key is absent. *)
Definition persisted_for (k : string) (w : world) : list (nat * Backup) :=
  match str_get k (persistedBackups w) with Some o => o | None => [] end.

(** The backup [rollback] works from: the client's own, else the persisted one. *)
Definition available_backup (config : Config) (postId : nat) (w : world) : option Backup :=
  match map_get postId (backups w) with
  | Some b => Some b
  | None => loadBackupFromFile config postId w
  end.

(** The schema rows a backup holds: keys and values. *)
Definition backup_rows (b : Backup) : list (string * string) :=
  map (fun m => (key m, value m))
    (filter schema_meta (schemas b)).

(** The answer of [rollback] when no backup is found. *)
Definition no_backup (postId : nat) : json :=
  JObj [ ("success", JBool false);
         ("error", JStr ("No backup found for post ID " ++ of_nat postId)) ].

(** The client's and the persisted backups stay as they are. *)
Definition same_backups (w w' : world) : Prop :=
  backups w' = backups w /\ persistedBackups w' = persistedBackups w.
End BackupStoreVocabulary.

Module SnippetVocabulary.
Import JsStr Json Db.

(** The value of the first row the post has under the key. *)
Definition first_value (postId : nat) (k : string) (w : world) : option string :=
  option_map meta_value (hd_error (filter (selects w (SelectMetaByKey postId k)) (postmeta w))).
End SnippetVocabulary.

Module SplitVocabulary.
Import JsStr Json Db GraphVocabulary.

(** An entity whose type moves [primaryIndex] under the given option. *)
Definition claims (primaryType : json) (item : json) : bool :=
  claims_primary primaryType (extractSchemaType item).

(** [primaryIndex] after the loop has pushed [items], the first of them at
    index [start], when it was [current] before. *)
Fixpoint last_claimed (primaryType : json) (start current : nat) (items : list json)
  : nat :=
  match items with
  | [] => current
  | item :: rest =>
      last_claimed primaryType (S start) (if claims primaryType item then start else current) rest
  end.

(** An entity of the given type. *)
Definition of_type (p : string) (item : json) : bool :=
  is_str (extractSchemaType item) p.
End SplitVocabulary.

Module PassVocabulary.
Import JsStr Json AiSchema.

(** The six types the pass looks at. *)
Definition touched_type (t : json) : bool :=
  is_str t "Service" || is_str t "Article" || is_str t "WebPage" || is_str t "FAQPage"
  || is_str t "HVACBusiness" || is_str t "LocalBusiness".

(** An item the pass has nothing to do with: no schema, or a schema of
    another type. *)
Definition out_of_reach (item : json) : bool :=
  negb (Json.truthy (get item "schema"))
  || negb (touched_type (get (get item "schema") "@type")).

(** The locality the pass falls back to. *)
Definition fallback_locality (orgInfo : OrgInfo.t) (pageData : PageData.t) : string :=
  or_else (detectedCity (detect orgInfo pageData)) (OrgInfo.name orgInfo).

(** The telephone the pass falls back to. *)
Definition fallback_phone (orgInfo : OrgInfo.t) (pageData : PageData.t) : string :=
  or_else (OrgInfo.phone orgInfo) (PageData.phone pageData).
End PassVocabulary.

Module FormatVocabulary.
Import JsStr Json Db.

(** [typeConfig.canBePrimary], truthy or not, for a schema type. *)
Definition can_be_primary (schemaType : json) : bool :=
  match schemaTypeOf schemaType with
  | Own c => canBePrimary c
  | Inherited => false
  | Missing => true
  end.

(** The own property of a value under a key; [undefined] when it has none. *)
Definition own (v : json) (k : string) : json :=
  match lookup k (ownProps v) with Some x => x | None => JUndef end.

(** [k in v], for the own keys of [v]. *)
Definition has_own (v : json) (k : string) : bool :=
  existsb (String.eqb k) (keys (ownProps v)).

(** The own keys of the value are distinct, as the keys of an object are. *)
Definition distinct_keys (v : json) : Prop := NoDup (keys (ownProps v)).
End FormatVocabulary.

Module BuilderVocabulary.
Import JsStr Json Vocabulary.

(** The country an explicit address names, when it names one. *)
Definition explicit_country (options : Options.t) : option string :=
  match Options.address options with
  | Some a => if JsStr.truthy (Address.addressCountry a) then Some (Address.addressCountry a) else None
  | None => None
  end.

(** A list of characters that is not empty and does not start with white
    space. *)
Definition starts_with_text (l : list ascii) : bool :=
  match l with
  | c :: _ => negb (white_space c)
  | [] => false
  end.

(** The name of an area as a caller writes it in a list: not empty, with
    no comma, and with no white space at either end. *)
Definition area_name (s : string) : bool :=
  starts_with_text (chars s) && starts_with_text (rev (chars s))
  && negb (existsb (Ascii.eqb ",") (chars s)).

(** The names written as one text: a comma, followed by the white space
    [gap], between each two. *)
Definition listed (gap : string) (names : list string) : string :=
  join ("," ++ gap) names.

(** The [City] object of a name. *)
Definition city_named (name : string) : json :=
  JObj [ ("@type", JStr "City"); ("name", JStr name) ].

(** [areaServed] over the names: one City, or the list of them in order. *)
Definition cities (names : list string) : json :=
  match names with
  | [a] => city_named a
  | _ => arr (map city_named names)
  end.
End BuilderVocabulary.

Module AiTextVocabulary.
Import JsStr AiText.
Local Open Scope char_scope.

(** A text that is one object, closed by its last character. *)
Definition closed_object (body : string) : Prop :=
  prefix_chars [ "{" ] (chars body) = true
  /\ scan (chars body) 0 false false 0 = Some (String.length body).

(** No opening brace in the text. *)
Definition brace_free (s : string) : Prop := ~ In "{" (chars s).
End AiTextVocabulary.

Module ArticleVocabulary.
Import JsStr Json.

(** The string under a key of an entity; [None] when the key holds none. *)
Definition text_of (entity : json) (k : string) : option string :=
  match get entity k with JStr s => Some s | _ => None end.

(** [a || b], [None] when both are empty. *)
Definition first_of (a b : string) : option string :=
  if JsStr.truthy a then Some a else if JsStr.truthy b then Some b else None.

Definition named (type name : string) : json :=
  JObj [ ("@type", JStr type); ("name", JStr name) ].
(** [strip_last l]: [l] without a final slash. *)
Fixpoint strip_last (l : list ascii) : list ascii :=
  match l with
  | [] => []
  | x :: xs =>
      match xs with
      | [] => if Ascii.eqb x "/" then [] else [ x ]
      | _ => x :: strip_last xs
      end
  end.
End ArticleVocabulary.

Module PoolVocabulary.
Import JsStr Json Db.

(** Two computations agree where the direct client holds a connection:
    same outcome, same final state, and the connection is still held. *)
Definition agree {A : Type} (pooled direct : M A) : Prop :=
  forall w, connected w = true ->
    pooled w = direct w /\ connected (snd (direct w)) = true.

(** The connection is neither opened nor closed. *)
Definition same_connection (w w' : world) : Prop := connected w' = connected w.

(** The operations of the pooled client agree with those of the direct one. *)
Definition clients_agree (config : Config) : Prop :=
  (forall postId, agree (DbPool.getExistingSchemas postId) (getExistingSchemas postId))
  /\ (forall postId schema schemaType primary,
        agree (DbPool.previewInsertion postId schema schemaType primary)
          (previewInsertion postId schema schemaType primary))
  /\ (forall postId, agree (DbPool.backupMeta config postId) (backupMeta config postId))
  /\ (forall postId schema schemaType o,
        agree (DbPool.insertSchema config postId schema schemaType o)
          (insertSchema config postId schema schemaType o))
  /\ (forall postId schemas o,
        agree (DbPool.insertMultipleSchemas config postId schemas o)
          (insertMultipleSchemas config postId schemas o))
  /\ (forall postId graphSchema o,
        agree (DbPool.insertFromGraph config postId graphSchema o)
          (insertFromGraph config postId graphSchema o))
  /\ (forall postId snippetType o,
        agree (DbPool.setRichSnippetType postId snippetType o)
          (setRichSnippetType postId snippetType o))
  /\ (forall postId, agree (DbPool.rollback config postId) (rollback config postId))
  /\ (forall metaId o, agree (DbPool.deleteMeta metaId o) (deleteMeta metaId o))
  /\ (forall postId o,
        agree (DbPool.deleteAllSchemas config postId o) (deleteAllSchemas config postId o)).

(** The example store with the connection of the direct client open. *)
Definition connected_store : world := set_connected GraphVocabulary.example_store.
End PoolVocabulary.

Module ExampleVocabulary.
Import JsStr Json Db GraphVocabulary.

(** The backup of an earlier state of post 7. *)
Definition example_backup : Backup :=
  mkBackup 1000 [ mkSchemaMeta 5 "rank_math_schema_FAQPage" "a:0:{}" ].

(** A store whose client holds that backup while the post has a Service row. *)
Definition store_with_backup : world :=
  mkWorld [ mkPost 7 "Roof repair" ]
    [ mkMeta 1 7 "rank_math_schema_Service" "a:0:{}"; mkMeta 2 7 "rank_math_title" "Roof repair" ]
    3 Ascii.eqb false [] [ (7, example_backup) ] [] None [] [ 1000 ] [ "abc123" ] [] [].

(** A list of one generated business item. *)
Definition generated_business : list json :=
  [ JObj [ ("type", JStr "LocalBusiness");
           ("schema", LocalBusiness.generate example_org Options.none) ] ].

(** Options with an address in Canada. *)
Definition canadian_options : Options.t :=
  Options.mk "" "" "" "" (Some (Address.mk "1 Main St" "Toronto" "ON" "M5V 2T6" "CA"))
    [] [] "" None None.
End ExampleVocabulary.


(* ===================================================================== *)
(** ** Properties *)
(* ===================================================================== *)

Module RegexFacts.
Import Regex.
Local Open Scope list_scope.

(** Every pattern of the tables parses. *)
Lemma pattern_tables_well_formed :
  forallb well_formed
    (PageTypeDetector.BLOG_URL_PATTERNS ++ PageTypeDetector.SERVICE_URL_PATTERNS
     ++ PageTypeDetector.LOCATION_URL_PATTERNS ++ PageTypeDetector.locationPatterns
     ++ Service.locationPatterns ++ map fst Service.servicePatterns
     ++ [ Service.CA_POSTAL; Service.US_ZIP; rx "[\r\n]+"; rx "\s+"; rx "\b\w"; rx "-" ])
  = true.
Proof. vm_compute. reflexivity. Qed.

Lemma postal_code_examples :
  test Service.CA_POSTAL "k1a 0b1" = true
  /\ test Service.CA_POSTAL "77001" = false
  /\ test Service.US_ZIP "77001-1234" = true
  /\ test Service.US_ZIP "7700" = false.
Proof. repeat split; vm_compute; reflexivity. Qed.

Lemma location_url_examples :
  existsb (fun p => test p "https://example.com/Locations/houston/")
    PageTypeDetector.LOCATION_URL_PATTERNS = true
  /\ existsb (fun p => test p "https://example.com/blog/2024/05/roof-care/")
       PageTypeDetector.LOCATION_URL_PATTERNS = false
  /\ match_group (rxi "\/locations?\/([a-z-]+)") 1 "https://example.com/locations/fort-worth/"
     = Some "fort-worth".
Proof. repeat split; vm_compute; reflexivity. Qed.
End RegexFacts.

Module DetectorFacts.
Import PageTypeDetector DetectorVocabulary.

Lemma location_test (s : Scores) :
  Nat.leb (Nat.max (Nat.max (article s) (service s)) (location s)) (location s)
  && Nat.leb LOCATION_FLOOR (location s) = true <-> location_wins s.
Proof.
  unfold location_wins.
  rewrite andb_true_iff, !Nat.leb_le. lia.
Qed.

(** C7.  The classifier answers [location] exactly when the location
    score is the largest of the three and reaches the floor; otherwise it
    answers [service] exactly when the service score is strictly above the
    article score and [article] in the remaining cases, ties included; it
    always answers one of the three types. *)
Theorem detect_decision (url : string) (pageData : PageData.t) :
  let s := scores url pageData in
  (detect url pageData = "location" <-> location_wins s)
  /\ (detect url pageData = "service" <-> ~ location_wins s /\ article s < service s)
  /\ (detect url pageData = "article" <-> ~ location_wins s /\ service s <= article s)
  /\ (detect url pageData = "article" \/ detect url pageData = "service"
      \/ detect url pageData = "location").
Proof.
  intros s. unfold detect. fold s.
  pose proof (location_test s) as Hloc.
  destruct (Nat.leb (Nat.max (Nat.max (article s) (service s)) (location s)) (location s)
            && Nat.leb LOCATION_FLOOR (location s)) eqn:Hwin.
  - assert (W : location_wins s) by (apply Hloc; reflexivity).
    split; [ split; auto | ].
    split; [ split; [ discriminate | intros [N _]; contradiction ] | ].
    split; [ split; [ discriminate | intros [N _]; contradiction ] | ].
    right; right; reflexivity.
  - assert (W : ~ location_wins s) by (intro W; apply Hloc in W; discriminate).
    destruct (Nat.ltb (article s) (service s)) eqn:Hlt.
    + apply Nat.ltb_lt in Hlt.
      split; [ split; [ discriminate | contradiction ] | ].
      split; [ split; auto | ].
      split; [ split; [ discriminate | intros [_ Hle]; lia ] | ].
      right; left; reflexivity.
    + apply Nat.ltb_ge in Hlt.
      split; [ split; [ discriminate | contradiction ] | ].
      split; [ split; [ discriminate | intros [_ Hle]; lia ] | ].
      split; [ split; auto | ].
      left; reflexivity.
Qed.
End DetectorFacts.

Module StrFacts.
Import JsStr Vocabulary.
Local Open Scope list_scope.

Lemma str_chars (s : string) : str (chars s) = s.
Proof. apply string_of_list_ascii_of_string. Qed.

Lemma chars_str (l : list ascii) : chars (str l) = l.
Proof. apply list_ascii_of_string_of_list_ascii. Qed.

Lemma truthy_str (l : list ascii) : truthy (str l) = negb (Nat.eqb (List.length l) 0).
Proof. destruct l; reflexivity. Qed.

Lemma truthy_nonempty (s : string) : truthy s = true <-> s <> "".
Proof. destruct s; simpl; split; congruence. Qed.


Lemma or_else_left (a b : string) : truthy a = true -> or_else a b = a.
Proof. unfold or_else. intros ->. reflexivity. Qed.

Lemma drop_space_tight (l : list ascii) : tight (drop_space l).
Proof.
  induction l as [|c l IH]; simpl; auto.
  destruct (is_space c) eqn:E; simpl; auto.
Qed.

Lemma drop_space_id (l : list ascii) : tight l -> drop_space l = l.
Proof. destruct l as [|c l]; simpl; auto. intros ->. reflexivity. Qed.

(** [drop_space] removes a prefix. *)
Lemma drop_space_suffix (l : list ascii) : exists sp, l = sp ++ drop_space l.
Proof.
  induction l as [|c l [sp IH]]; simpl.
  - exists []. reflexivity.
  - destruct (is_space c).
    + exists (c :: sp). simpl. f_equal. exact IH.
    + exists []. reflexivity.
Qed.

Lemma tight_prefix (a b : list ascii) : tight (a ++ b) -> tight a.
Proof. destruct a; simpl; auto. Qed.

Lemma trim_chars_tight (l : list ascii) :
  tight (trim_chars l) /\ tight (rev (trim_chars l)).
Proof.
  unfold trim_chars. rewrite rev_involutive. split.
  - destruct (drop_space_suffix (rev (drop_space l))) as [sp E].
    apply (f_equal (@rev ascii)) in E. rewrite rev_involutive, rev_app_distr in E.
    apply tight_prefix with (b := rev sp). rewrite <- E. apply drop_space_tight.
  - apply drop_space_tight.
Qed.

Lemma trim_chars_idem (l : list ascii) : trim_chars (trim_chars l) = trim_chars l.
Proof.
  destruct (trim_chars_tight l) as [H1 H2].
  unfold trim_chars at 1.
  rewrite (drop_space_id _ H1), (drop_space_id _ H2). apply rev_involutive.
Qed.

Lemma trim_idem (s : string) : trim (trim s) = trim s.
Proof. unfold trim. rewrite chars_str, trim_chars_idem. reflexivity. Qed.

Lemma drop_space_incl (l : list ascii) : incl (drop_space l) l.
Proof.
  destruct (drop_space_suffix l) as [sp E]. rewrite E at 2. apply incl_appr, incl_refl.
Qed.

Lemma trim_chars_incl (l : list ascii) : incl (trim_chars l) l.
Proof.
  unfold trim_chars. intros c Hc. apply in_rev in Hc.
  apply drop_space_incl in Hc. apply in_rev in Hc. apply drop_space_incl in Hc. exact Hc.
Qed.

Lemma trim_empty_of_falsy (s : string) : truthy (trim s) = true -> truthy s = true.
Proof. destruct s; simpl; auto. Qed.

(** No part produced by [split] holds the separator. *)
Lemma split_chars_free (sep : ascii) (l cur : list ascii) :
  ~ In sep cur -> Forall (fun part => ~ In sep part) (split_chars sep cur l).
Proof.
  revert cur. induction l as [|c l IH]; intros cur Hcur; simpl.
  - constructor; [ | constructor ]. intro H. apply in_rev in H. contradiction.
  - destruct (Ascii.eqb c sep) eqn:E.
    + constructor.
      * intro H. apply in_rev in H. contradiction.
      * apply IH. simpl. tauto.
    + apply IH. simpl. intros [H | H]; [ | contradiction ].
      subst c. rewrite Ascii.eqb_refl in E. discriminate.
Qed.

(** Splitting text that has no separator yields the text. *)
Lemma split_chars_whole (sep : ascii) (l cur : list ascii) :
  ~ In sep l -> split_chars sep cur l = [rev cur ++ l].
Proof.
  revert cur. induction l as [|c l IH]; intros cur Hl; simpl.
  - rewrite app_nil_r. reflexivity.
  - destruct (Ascii.eqb c sep) eqn:E.
    + apply Ascii.eqb_eq in E. subst c. exfalso. apply Hl. left. reflexivity.
    + rewrite IH by (intro H; apply Hl; right; exact H).
      simpl. rewrite <- app_assoc. reflexivity.
Qed.

(** An entry of [s.split(',').map(trim).filter(Boolean)] is not empty,
    holds no comma and is its own trimmed form. *)
Lemma split_trim_filter_entry (s a : string) :
  In a (split_trim_filter s) ->
  truthy a = true /\ ~ In ","%char (chars a) /\ trim a = a.
Proof.
  unfold split_trim_filter. rewrite filter_In, in_map_iff.
  intros [[part [Htrim Hin]] Ht]. split; [ exact Ht | ].
  unfold split in Hin. rewrite in_map_iff in Hin. destruct Hin as [p [Hp Hin]].
  subst part a.
  pose proof (split_chars_free ","%char (chars s) [] (fun H => H)) as Hfree.
  rewrite Forall_forall in Hfree. specialize (Hfree p Hin).
  split.
  - unfold trim. rewrite !chars_str. intro H. apply trim_chars_incl in H. contradiction.
  - apply trim_idem.
Qed.


End StrFacts.

Module JsonFacts.
Import Json Vocabulary.

Lemma lookup_assign_same (k : string) (v : json) (ps : fields) :
  lookup k (assign k v ps) = Some v.
Proof.
  induction ps as [|[k' v'] ps IH]; simpl.
  - rewrite String.eqb_refl. reflexivity.
  - destruct (String.eqb k' k) eqn:E; simpl; rewrite E; auto.
Qed.

Lemma lookup_assign_other (k k' : string) (v : json) (ps : fields) :
  String.eqb k k' = false -> lookup k' (assign k v ps) = lookup k' ps.
Proof.
  intros N. induction ps as [|[k0 v0] ps IH]; simpl.
  - rewrite N. reflexivity.
  - destruct (String.eqb k0 k) eqn:E; simpl.
    + apply String.eqb_eq in E. subst k0. rewrite N. reflexivity.
    + destruct (String.eqb k0 k'); auto.
Qed.

Lemma assign_assign (k : string) (v v' : json) (ps : fields) :
  assign k v' (assign k v ps) = assign k v' ps.
Proof.
  induction ps as [|[k0 v0] ps IH]; simpl.
  - rewrite String.eqb_refl. reflexivity.
  - destruct (String.eqb k0 k) eqn:E; simpl; rewrite E; congruence.
Qed.

Lemma assign_same (k : string) (v : json) (ps : fields) :
  lookup k ps = Some v -> assign k v ps = ps.
Proof.
  induction ps as [|[k0 v0] ps IH]; simpl; [ discriminate | ].
  destruct (String.eqb k0 k) eqn:E.
  - intros [= ->]. reflexivity.
  - intros H. rewrite IH; auto.
Qed.

Lemma objlike_set (o : json) (k : string) (v : json) : objlike (set o k v) = objlike o.
Proof. destruct o; reflexivity. Qed.

Lemma truthy_objlike (o : json) : objlike o = true -> truthy o = true.
Proof. destruct o; simpl; congruence. Qed.

Lemma get_objlike (o : json) (k : string) : truthy (get o k) = true -> objlike o = true.
Proof. destruct o; simpl; congruence. Qed.

Lemma is_str_objlike (o : json) (k s : string) : is_str (get o k) s = true -> objlike o = true.
Proof. destruct o; simpl; congruence. Qed.

Lemma get_set_same (o : json) (k : string) (v : json) :
  objlike o = true -> get (set o k v) k = v.
Proof. destruct o; simpl; try discriminate; intros _; rewrite lookup_assign_same; reflexivity. Qed.

Lemma get_set_other (o : json) (k k' : string) (v : json) :
  String.eqb k k' = false -> get (set o k v) k' = get o k'.
Proof. intros N. destruct o; simpl; auto; rewrite (lookup_assign_other _ _ _ _ N); reflexivity. Qed.

Lemma set_set (o : json) (k : string) (v v' : json) : set (set o k v) k v' = set o k v'.
Proof. destruct o; simpl; auto; rewrite assign_assign; reflexivity. Qed.

Lemma set_primitive (o : json) (k : string) (v : json) : objlike o = false -> set o k v = o.
Proof. destruct o; simpl; congruence. Qed.

Lemma is_str_eq (v : json) (s : string) : is_str v s = true -> v = JStr s.
Proof. destruct v; simpl; try discriminate. intros H. apply String.eqb_eq in H. congruence. Qed.

Lemma lookup_app (k : string) (a b : fields) :
  lookup k (a ++ b)%list = match lookup k a with Some v => Some v | None => lookup k b end.
Proof.
  induction a as [|[k' v'] a IH]; simpl; auto. destruct (String.eqb k' k); auto.
Qed.

Lemma lookup_opt_field_other (k k' s : string) :
  String.eqb k k' = false -> lookup k' (opt_field k s) = None.
Proof. intros N. unfold opt_field. destruct (JsStr.truthy s); simpl; auto. rewrite N. reflexivity. Qed.

End JsonFacts.

Module ClassFacts.
Import JsStr Regex ClassVocabulary.
Local Open Scope list_scope.

Lemma after_span (P : ascii -> bool) (aft : list ascii) :
  forall bef, after (span P bef aft) = skip P aft.
Proof.
  induction aft as [|x xs IH]; intros bef; simpl; [ reflexivity | ].
  destruct (P x); [ apply IH | reflexivity ].
Qed.

Lemma length_skip (P : ascii -> bool) (l : list ascii) : List.length (skip P l) <= List.length l.
Proof.
  induction l as [|x xs IH]; simpl; [ lia | ]. destruct (P x); simpl; lia.
Qed.

(** The greedy star over a class runs to the end of the run. *)
Lemma star_of_class (rs : list (nat * nat)) :
  forall n bef aft c,
    List.length aft <= n ->
    (fix loop (n : nat) (p : pos) (c : captures) {struct n} : result :=
       match n with
       | 0 => Some (p, c)
       | S n' =>
           match run false (Cls false rs) p c
                   (fun p' c' =>
                      if Nat.ltb (List.length (after p')) (List.length (after p))
                      then loop n' p' c' else None) with
           | Some x => Some x
           | None => Some (p, c)
           end
       end) n (mkPos bef aft) c
    = Some (span (in_class false false rs) bef aft, c).
Proof.
  induction n as [|n IH]; intros bef aft c L.
  - destruct aft; [ reflexivity | simpl in L; lia ].
  - destruct aft as [|x xs]; [ reflexivity | ].
    cbn [run after before span].
    destruct (in_class false false rs x); [ | reflexivity ].
    replace (Nat.ltb (List.length xs) (List.length (x :: xs))) with true
      by (symmetry; apply Nat.ltb_lt; simpl; lia).
    rewrite IH by (simpl in L; lia). reflexivity.
Qed.

Lemma run_plus (r : regexp) (rs : list (nat * nat)) (bef aft : list ascii) :
  ignoreCase r = false -> ast r = plus_of rs ->
  run_at r (mkPos bef aft)
  = match aft with
    | x :: xs =>
        if in_class false false rs x
        then Some (span (in_class false false rs) (x :: bef) xs, [])
        else None
    | [] => None
    end.
Proof.
  intros I A. unfold run_at. rewrite I, A. unfold plus_of.
  destruct aft as [|x xs]; [ reflexivity | ].
  cbn [run after before].
  destruct (in_class false false rs x); [ | reflexivity ].
  apply (star_of_class rs (List.length xs) (x :: bef) xs []). lia.
Qed.

Lemma squeeze_class_skip (P : ascii -> bool) (rep l : list ascii) :
  squeeze_class P rep true l = squeeze_class P rep false (skip P l).
Proof.
  induction l as [|x xs IH]; simpl; [ reflexivity | ].
  destruct (P x) eqn:E; [ exact IH | ]. simpl. rewrite E. reflexivity.
Qed.

Lemma replace_plus (r : regexp) (rs : list (nat * nat)) (rep : list ascii) :
  ignoreCase r = false -> ast r = plus_of rs ->
  forall fuel aft bef,
    List.length aft < fuel ->
    replace_from fuel r (fun _ => rep) bef aft
    = squeeze_class (in_class false false rs) rep false aft.
Proof.
  intros I A. induction fuel as [|fuel IH]; intros aft bef L; [ lia | ].
  cbn [replace_from]. rewrite (run_plus r rs bef aft I A).
  destruct aft as [|x xs]; [ reflexivity | ].
  cbn [squeeze_class]. destruct (in_class false false rs x) eqn:E.
  - rewrite after_span.
    pose proof (length_skip (in_class false false rs) xs) as K.
    replace (Nat.eqb (List.length (x :: xs) - List.length (skip (in_class false false rs) xs)) 0)
      with false by (symmetry; apply Nat.eqb_neq; cbn [List.length]; lia).
    rewrite IH by (simpl in L; lia).
    rewrite squeeze_class_skip. reflexivity.
  - rewrite IH by (simpl in L; lia). reflexivity.
Qed.

Lemma squeeze_class_none (P : ascii -> bool) (rep : list ascii) (l : list ascii) :
  Forall (fun c => P c = false) l -> forall b, squeeze_class P rep b l = l.
Proof.
  induction 1 as [|x xs Hx _ IH]; intros b; simpl; [ reflexivity | ].
  rewrite Hx, IH. reflexivity.
Qed.

End ClassFacts.

Module FaqFacts.
Import JsStr Json Vocabulary ClassVocabulary Faq ClassFacts StrFacts.
Local Open Scope list_scope.

Lemma is_space_white (c : ascii) : is_space c = white_space c.
Proof. destruct c as [[] [] [] [] [] [] [] []]; vm_compute; reflexivity. Qed.

Lemma space_class (c : ascii) :
  Regex.in_class false false [(32, 32); (9, 13); (160, 160)] c = white_space c.
Proof. destruct c as [[] [] [] [] [] [] [] []]; vm_compute; reflexivity. Qed.

Lemma line_class_white (c : ascii) :
  Regex.in_class false false [(13, 13); (10, 10)] c = true -> white_space c = true.
Proof. destruct c as [[] [] [] [] [] [] [] []]; vm_compute; auto. Qed.

Lemma squeeze_class_ext (P Q : ascii -> bool) (rep l : list ascii) :
  (forall c, P c = Q c) -> forall b, squeeze_class P rep b l = squeeze_class Q rep b l.
Proof.
  intros H. induction l as [|x xs IH]; intros b; simpl; [ reflexivity | ].
  rewrite H, !IH. reflexivity.
Qed.

Lemma squeeze_as_class (l : list ascii) :
  forall b, squeeze_class white_space [ " "%char ] b l = squeeze b l.
Proof.
  induction l as [|x xs IH]; intros b; simpl; [ reflexivity | ].
  rewrite !IH. reflexivity.
Qed.

(** No line break is left once the runs of white space are single spaces. *)
Lemma squeeze_no_line_break (l : list ascii) :
  forall b,
    Forall (fun c => Regex.in_class false false [(13, 13); (10, 10)] c = false) (squeeze b l).
Proof.
  induction l as [|x xs IH]; intros b; cbn [squeeze]; [ constructor | ].
  destruct (white_space x) eqn:W.
  - destruct b; [ apply IH | constructor; [ reflexivity | apply IH ] ].
  - constructor; [ | apply IH ].
    destruct (Regex.in_class false false [(13, 13); (10, 10)] x) eqn:E; [ | reflexivity ].
    apply line_class_white in E. congruence.
Qed.

Lemma length_squeeze (l : list ascii) : forall b, List.length (squeeze b l) <= List.length l.
Proof.
  induction l as [|x xs IH]; intros b; simpl; [ lia | ].
  destruct (white_space x); [ destruct b | ]; simpl;
    [ specialize (IH true) | specialize (IH true) | specialize (IH false) ]; lia.
Qed.

Lemma str_length (l : list ascii) : String.length (str l) = List.length l.
Proof. unfold str. induction l as [|c l IH]; simpl; [ reflexivity | rewrite IH; reflexivity ]. Qed.

Lemma chars_length (s : string) : List.length (chars s) = String.length s.
Proof. rewrite <- (str_chars s) at 2. rewrite str_length. reflexivity. Qed.

(** [cleanText] is [tidy]. *)
Lemma cleanText_tidy (text : string) : cleanText text = tidy text.
Proof.
  unfold cleanText, tidy. destruct text as [|a s]; [ reflexivity | ].
  cbn [JsStr.truthy negb]. f_equal.
  unfold Regex.replace_all.
  change (fun l : list ascii => chars ((fun _ : string => " "%string) (str l)))
    with (fun _ : list ascii => [ " "%char ]).
  rewrite (replace_plus (Regex.rx "\s+") [(32, 32); (9, 13); (160, 160)] [ " "%char ]
             eq_refl eq_refl) by (rewrite chars_length; lia).
  rewrite (squeeze_class_ext _ white_space _ _ space_class), squeeze_as_class.
  rewrite !chars_str.
  rewrite (replace_plus (Regex.rx "[\r\n]+") [(13, 13); (10, 10)] [ " "%char ]
             eq_refl eq_refl).
  - rewrite squeeze_class_none by apply squeeze_no_line_break. reflexivity.
  - rewrite str_length.
    pose proof (length_squeeze (chars (String a s)) false) as K.
    rewrite chars_length in K. lia.
Qed.

(** Nothing is left of a text by [trim] exactly when it is blank. *)
Lemma drop_space_nil (l : list ascii) :
  drop_space l = [] <-> existsb (fun c => negb (white_space c)) l = false.
Proof.
  induction l as [|x xs IH]; simpl; [ tauto | ].
  rewrite is_space_white. destruct (white_space x); simpl; [ exact IH | ].
  split; discriminate.
Qed.

Lemma existsb_rev {A : Type} (P : A -> bool) (l : list A) : existsb P (rev l) = existsb P l.
Proof.
  induction l as [|x xs IH]; simpl; [ reflexivity | ].
  rewrite existsb_app, IH. simpl. rewrite orb_false_r. apply orb_comm.
Qed.

Lemma existsb_drop_space (l : list ascii) :
  existsb (fun c => negb (white_space c)) (drop_space l)
  = existsb (fun c => negb (white_space c)) l.
Proof.
  induction l as [|x xs IH]; simpl; [ reflexivity | ].
  rewrite is_space_white. destruct (white_space x) eqn:W; simpl; [ exact IH | ].
  rewrite W. reflexivity.
Qed.

Lemma trim_non_blank (s : string) : JsStr.truthy (trim s) = non_blank s.
Proof.
  unfold trim, non_blank, trim_chars. rewrite truthy_str.
  destruct (existsb (fun c => negb (white_space c)) (chars s)) eqn:E.
  - destruct (rev (drop_space (rev (drop_space (chars s))))) as [|y ys] eqn:R; [ | reflexivity ].
    exfalso.
    assert (D : drop_space (rev (drop_space (chars s))) = [])
      by (apply (f_equal (@rev ascii)) in R; rewrite rev_involutive in R; exact R).
    apply drop_space_nil in D.
    rewrite existsb_rev, existsb_drop_space, E in D. discriminate D.
  - assert (D : drop_space (chars s) = []) by (apply drop_space_nil; exact E).
    rewrite D. reflexivity.
Qed.

Lemma valid_survives (faq : FaqPair.t) : valid faq = survives faq.
Proof.
  unfold valid, survives. rewrite !trim_non_blank.
  destruct (non_blank (FaqPair.question faq)) eqn:Q;
  destruct (non_blank (FaqPair.answer faq)) eqn:A;
  rewrite ?andb_false_r; try reflexivity.
  rewrite <- trim_non_blank in Q, A.
  apply trim_empty_of_falsy in Q. apply trim_empty_of_falsy in A. rewrite Q, A. reflexivity.
Qed.

Lemma filter_valid (faqs : list FaqPair.t) : filter valid faqs = filter survives faqs.
Proof. apply filter_ext. exact valid_survives. Qed.

Lemma question_entity_item (faq : FaqPair.t) :
  question_entity faq
  = question_item (tidy (FaqPair.question faq)) (tidy (FaqPair.answer faq)).
Proof. unfold question_entity, question_item. rewrite !cleanText_tidy. reflexivity. Qed.

Lemma generate_kept (faqs : list FaqPair.t) :
  generate faqs = match kept faqs with [] => None | _ :: _ => Some (faq_page (kept faqs)) end.
Proof.
  unfold generate, kept, faq_page, MAX_FAQS. rewrite filter_valid.
  destruct faqs as [|f faqs]; [ reflexivity | ].
  destruct (firstn 10 (filter survives (f :: faqs))) as [|g l]; [ reflexivity | ].
  f_equal. f_equal. f_equal. f_equal. f_equal. unfold arr. f_equal.
  apply map_ext. exact question_entity_item.
Qed.

(** C8.  The FAQ builder keeps exactly the pairs whose question and answer
    both have a character that is not white space, in their order and ten
    at most, and answers [null] exactly when no pair survives; the entity
    has one Question per kept pair, named by the tidied question and
    answered by the tidied answer; the two scenarios of the specification
    evaluate as stated. *)
Theorem faq_builder_keeps_non_blank_pairs :
  (forall faqs,
      generate faqs =
      match kept faqs with [] => None | _ :: _ => Some (faq_page (kept faqs)) end)
  /\ (forall faqs, List.length (kept faqs) <= 10)
  /\ (forall faqs, generate faqs = None <-> filter survives faqs = [])
  /\ generate [ FaqPair.mk "" "x"; FaqPair.mk "Q?" "A." ]
     = Some (JObj [ ("@type", JStr "FAQPage");
                    ("mainEntity",
                     arr [ JObj [ ("@type", JStr "Question");
                                  ("name", JStr "Q?");
                                  ("acceptedAnswer",
                                   JObj [ ("@type", JStr "Answer");
                                          ("text", JStr "A.") ]) ] ]) ])
  /\ generate [] = None.
Proof.
  split; [ exact generate_kept | ].
  split; [ intros faqs; unfold kept; apply firstn_le_length | ].
  split.
  - intros faqs. rewrite generate_kept. unfold kept.
    destruct (filter survives faqs) as [|f l] eqn:E; simpl.
    + split; reflexivity.
    + split; discriminate.
  - split; reflexivity.
Qed.
End FaqFacts.

Module ServiceFacts.
Import JsStr Json Vocabulary Service.

Lemma areas_houston_dallas (pageData : PageData.t) (options : Options.t) :
  areaServedArray pageData (houston_dallas options) = [ "Houston"; "Dallas" ].
Proof. reflexivity. Qed.

(** C9.  With [areaServed] set to the string [Houston, Dallas] and no
    address in the options, the provider address of the Service entity has
    the country [US] and [areaServed] is the list of exactly two objects of
    type [City], named [Houston] and [Dallas] in this order. *)
Theorem service_houston_dallas (pageData : PageData.t) (orgInfo : OrgInfo.t)
  (options : Options.t) :
  let entity := generate pageData orgInfo (houston_dallas options) in
  get (get (get entity "provider") "address") "addressCountry" = JStr "US"
  /\ get entity "areaServed"
     = arr [ JObj [ ("@type", JStr "City"); ("name", JStr "Houston") ];
             JObj [ ("@type", JStr "City"); ("name", JStr "Dallas") ] ].
Proof.
  intros entity. subst entity. unfold generate.
  rewrite areas_houston_dallas.
  split.
  - reflexivity.
  - cbn [get]. rewrite !JsonFacts.lookup_app. cbn [lookup String.eqb Ascii.eqb Bool.eqb].
    destruct (JsStr.truthy (PageData.featuredImage pageData)); reflexivity.
Qed.
End ServiceFacts.

Module AddressFacts.
Local Open Scope list_scope.
Import JsStr Json Vocabulary AddressVocabulary.







Lemma nonempty_head_entry (s : string) :
  is_nil (split_trim_filter s) = false ->
  exists a rest, split_trim_filter s = a :: rest /\ JsStr.truthy a = true
                 /\ ~ In ","%char (chars a) /\ trim a = a.
Proof.
  destruct (split_trim_filter s) as [|a rest] eqn:E; [ discriminate | ].
  intros _. exists a, rest. split; [ reflexivity | ].
  apply (StrFacts.split_trim_filter_entry s). rewrite E. left. reflexivity.
Qed.

Lemma split_trim_filter_empty : split_trim_filter "" = [].
Proof. reflexivity. Qed.

Lemma service_areas_of_options (pageData : PageData.t) (options : Options.t) :
  is_nil (split_trim_filter (Options.areaServed options)) = false ->
  Service.areaServedArray pageData options = split_trim_filter (Options.areaServed options).
Proof.
  intros H. unfold Service.areaServedArray.
  destruct (JsStr.truthy (Options.areaServed options)) eqn:T.
  - destruct (split_trim_filter (Options.areaServed options)); [ discriminate | reflexivity ].
  - destruct (Options.areaServed options); [ discriminate | discriminate ].
Qed.

Lemma service_provider_address (pageData : PageData.t) (orgInfo : OrgInfo.t) (options : Options.t) :
  provider_address (Service.generate pageData orgInfo options)
  = let areas := Service.areaServedArray pageData options in
    let country := Service.detectCountryFromAreas (Options.address options) areas in
    Service.providerAddress options areas country
      (Service.detectRegionFromAreas (Options.address options) areas country).
Proof. reflexivity. Qed.

Lemma business_address (orgInfo : OrgInfo.t) (options : Options.t) :
  get (LocalBusiness.generate orgInfo options) "address"
  = let areas := LocalBusiness.allAreas options in
    let primaryArea := hd "" areas in
    let country := LocalBusiness.detectCountry (Options.address options) areas primaryArea in
    LocalBusiness.businessAddress orgInfo options primaryArea country
      (LocalBusiness.detectRegion (Options.address options) areas primaryArea country).
Proof.
  unfold LocalBusiness.generate. cbn [get]. rewrite !JsonFacts.lookup_app.
  cbn [lookup String.eqb Ascii.eqb Bool.eqb].
  destruct (JsStr.truthy (OrgInfo.logo orgInfo));
    cbn [lookup String.eqb Ascii.eqb Bool.eqb];
    rewrite !JsonFacts.lookup_opt_field_other by reflexivity; reflexivity.
Qed.


Import StrFacts JsonFacts.













End AddressFacts.

Module FieldFacts.
Import JsStr Json Vocabulary ReferenceVocabulary AiSchema JsonFacts.
Local Open Scope list_scope.

Lemma prop_get (o : json) (k : string) (v : json) : prop o k = Some v -> get o k = v.
Proof. destruct o; simpl; try discriminate; intros ->; reflexivity. Qed.

Lemma truthy_get_prop (o : json) (k : string) :
  Json.truthy (get o k) = true -> prop o k = Some (get o k).
Proof. destruct o; simpl; try discriminate; destruct (lookup k _); simpl; congruence. Qed.

Lemma prop_set_same (o : json) (k : string) (v : json) :
  objlike o = true -> prop (set o k v) k = Some v.
Proof. destruct o; simpl; try discriminate; intros _; apply lookup_assign_same. Qed.

Lemma prop_set_other (o : json) (k k' : string) (v : json) :
  String.eqb k k' = false -> prop (set o k v) k' = prop o k'.
Proof. intros N. destruct o; simpl; auto; apply lookup_assign_other; exact N. Qed.

Lemma set_fixed (o : json) (k : string) (v : json) : prop o k = Some v -> set o k v = o.
Proof. destruct o; simpl; try discriminate; intros H; rewrite assign_same; auto. Qed.

Lemma truthy_set (o : json) (k : string) (v : json) :
  Json.truthy (set o k v) = Json.truthy o.
Proof. destruct o; reflexivity. Qed.

(** *** [cleanField] *)

Lemma cleanIdReference_hit (p : json) :
  carries_id p = true -> cleanIdReference p = JObj [ ("@id", get p "@id") ].
Proof.
  unfold carries_id, cleanIdReference. intros H. apply andb_true_iff in H. destruct H as [H1 H2].
  rewrite H1, H2. assert (O : objlike p = true) by (eapply get_objlike; eauto).
  destruct p; try discriminate; reflexivity.
Qed.

Lemma cleanField_cases (k : string) (s : json) :
  (carries_id (get s k) = false /\ cleanField k s = s)
  \/ (carries_id (get s k) = true /\ objlike s = true
      /\ cleanField k s = set s k (JObj [ ("@id", get (get s k) "@id") ])).
Proof.
  unfold cleanField. fold (carries_id (get s k)).
  destruct (carries_id (get s k)) eqn:E.
  - right. split; [ reflexivity | ]. split.
    + unfold carries_id in E. apply andb_true_iff in E. destruct E as [E _].
      eapply get_objlike; eauto.
    + rewrite cleanIdReference_hit by exact E. reflexivity.
  - left. auto.
Qed.

Lemma cleanField_other (k k' : string) (s : json) :
  String.eqb k k' = false -> get (cleanField k s) k' = get s k'.
Proof.
  intros N. destruct (cleanField_cases k s) as [[_ ->] | [_ [_ ->]]]; auto.
  apply get_set_other. exact N.
Qed.

Lemma cleanField_clean (k : string) (s : json) :
  reference_clean (get (cleanField k s) k) = true.
Proof.
  unfold reference_clean.
  destruct (cleanField_cases k s) as [[E ->] | [E [O ->]]].
  - rewrite E. reflexivity.
  - rewrite get_set_same by exact O. simpl. apply implb_true_r || (destruct (carries_id _); reflexivity).
Qed.

Lemma cleanField_idem (k : string) (s : json) : cleanField k (cleanField k s) = cleanField k s.
Proof.
  destruct (cleanField_cases k s) as [[E H] | [E [O H]]].
  - rewrite !H. reflexivity.
  - rewrite H. unfold cleanField at 1. rewrite get_set_same by exact O.
    unfold carries_id in E. apply andb_true_iff in E. destruct E as [_ E].
    cbn [Json.truthy get lookup String.eqb Ascii.eqb Bool.eqb andb]. rewrite E.
    unfold cleanIdReference. cbn [Json.truthy is_object_type get lookup String.eqb Ascii.eqb Bool.eqb andb].
    rewrite E. apply set_set.
Qed.

Lemma cleanField_truthy (k : string) (s : json) :
  Json.truthy (cleanField k s) = Json.truthy s.
Proof.
  destruct (cleanField_cases k s) as [[_ ->] | [_ [_ ->]]]; auto. apply truthy_set.
Qed.

(** *** [fill] and the address completion *)

Lemma fill_filled (k : string) (v o : json) : filled (fill k v o) k v.
Proof.
  unfold fill, filled. destruct (Json.truthy (get o k)) eqn:E; [ left; exact E | ].
  destruct (objlike o) eqn:O.
  - right. left. apply prop_set_same. exact O.
  - right. right. rewrite objlike_set. exact O.
Qed.

Lemma fill_fixed (k : string) (v o : json) : filled o k v -> fill k v o = o.
Proof.
  unfold fill, filled. intros [H | [H | H]].
  - rewrite H. reflexivity.
  - destruct (Json.truthy (get o k)); [ reflexivity | apply set_fixed; exact H ].
  - destruct (Json.truthy (get o k)); [ reflexivity | apply set_primitive; exact H ].
Qed.

Lemma filled_set_other (o : json) (k k' : string) (v v' : json) :
  String.eqb k' k = false -> filled o k v -> filled (set o k' v') k v.
Proof.
  intros N [H | [H | H]].
  - left. rewrite get_set_other by exact N. exact H.
  - right. left. rewrite prop_set_other by exact N. exact H.
  - right. right. rewrite objlike_set. exact H.
Qed.

Lemma filled_fill_other (o : json) (k k' : string) (v v' : json) :
  String.eqb k' k = false -> filled o k v -> filled (fill k' v' o) k v.
Proof.
  intros N H. unfold fill. destruct (Json.truthy (get o k')); [ exact H | ].
  apply filled_set_other; assumption.
Qed.

Lemma set_filled (o : json) (k : string) (v : json) : filled (set o k v) k v.
Proof.
  destruct (objlike o) eqn:O.
  - right. left. apply prop_set_same. exact O.
  - right. right. rewrite objlike_set. exact O.
Qed.

Lemma set_fixed_filled (o : json) (k : string) (v : json) :
  prop o k = Some v \/ objlike o = false -> set o k v = o.
Proof. intros [H | H]; [ apply set_fixed | apply set_primitive ]; exact H. Qed.

Lemma complete_idem (l r c a : json) : complete l r c (complete l r c a) = complete l r c a.
Proof.
  unfold complete.
  set (a1 := set a "addressLocality" l).
  set (a2 := fill "addressRegion" r a1).
  set (a3 := fill "addressCountry" c a2).
  assert (L3 : prop a3 "addressLocality" = Some l \/ objlike a3 = false).
  { destruct (objlike a) eqn:O.
    - left. subst a3 a2 a1. unfold fill.
      repeat match goal with |- context [if ?b then _ else _] => destruct b end;
        rewrite ?prop_set_other by reflexivity; apply prop_set_same; exact O.
    - right. subst a3 a2 a1. unfold fill.
      repeat match goal with |- context [if ?b then _ else _] => destruct b end;
        rewrite ?objlike_set; exact O. }
  rewrite (set_fixed_filled a3 _ _ L3).
  assert (R3 : filled a3 "addressRegion" r).
  { subst a3. apply filled_fill_other; [ reflexivity | ]. subst a2. apply fill_filled. }
  rewrite (fill_fixed _ _ _ R3).
  apply fill_fixed. subst a3. apply fill_filled.
Qed.

Lemma complete_truthy (l r c a : json) : Json.truthy (complete l r c a) = Json.truthy a.
Proof.
  unfold complete, fill.
  repeat match goal with |- context [if ?b then _ else _] => destruct b end;
    rewrite ?truthy_set; reflexivity.
Qed.

Lemma completeAddress_cases (d : Detected) (orgInfo : OrgInfo.t) (s : json) :
  let locality := JStr (or_else (detectedCity d) (OrgInfo.name orgInfo)) in
  let region := JStr (detectedRegion d) in
  let country := JStr (detectedCountry d) in
  let fresh := JObj [ ("@type", JStr "PostalAddress"); ("addressLocality", locality);
                      ("addressRegion", region); ("addressCountry", country) ] in
  completeAddress d orgInfo s =
  if negb (Json.truthy (get s "address")) then set s "address" fresh
  else if negb (Json.truthy (get (get s "address") "addressLocality"))
          && negb (Json.truthy (get (get s "address") "streetAddress"))
       then set s "address" (complete locality region country (get s "address"))
       else s.
Proof. reflexivity. Qed.

Lemma fresh_complete (l r c : string) :
  complete (JStr l) (JStr r) (JStr c)
    (JObj [ ("@type", JStr "PostalAddress"); ("addressLocality", JStr l);
            ("addressRegion", JStr r); ("addressCountry", JStr c) ])
  = JObj [ ("@type", JStr "PostalAddress"); ("addressLocality", JStr l);
           ("addressRegion", JStr r); ("addressCountry", JStr c) ].
Proof.
  unfold complete, fill. cbn [set assign get lookup String.eqb Ascii.eqb Bool.eqb Json.truthy].
  destruct (JsStr.truthy r);
    cbn [set assign get lookup String.eqb Ascii.eqb Bool.eqb Json.truthy];
    destruct (JsStr.truthy c); reflexivity.
Qed.

Lemma completeAddress_idem (d : Detected) (orgInfo : OrgInfo.t) (s : json) :
  objlike s = true ->
  completeAddress d orgInfo (completeAddress d orgInfo s) = completeAddress d orgInfo s.
Proof.
  intros O. rewrite (completeAddress_cases d orgInfo s). cbv zeta.
  destruct (Json.truthy (get s "address")) eqn:A; cbn [negb].
  - destruct (negb (Json.truthy (get (get s "address") "addressLocality"))
              && negb (Json.truthy (get (get s "address") "streetAddress"))) eqn:C.
    + rewrite completeAddress_cases. cbv zeta.
      rewrite !get_set_same by exact O. rewrite complete_truthy, A. cbn [negb].
      match goal with |- context [if ?b then _ else _] => destruct b end; [ | reflexivity ].
      rewrite complete_idem. apply set_set.
    + rewrite completeAddress_cases. cbv zeta. rewrite A, C. reflexivity.
  - rewrite completeAddress_cases. cbv zeta.
    rewrite !get_set_same by exact O. cbn [Json.truthy negb].
    match goal with |- context [if ?b then _ else _] => destruct b end; [ | reflexivity ].
    rewrite fresh_complete. apply set_set.
Qed.

Lemma completeAddress_other (d : Detected) (orgInfo : OrgInfo.t) (s : json) (k : string) :
  String.eqb "address" k = false -> get (completeAddress d orgInfo s) k = get s k.
Proof.
  intros N. rewrite completeAddress_cases. cbv zeta.
  repeat match goal with |- context [if ?b then _ else _] => destruct b end;
    rewrite ?get_set_other by exact N; reflexivity.
Qed.

Lemma completeAddress_objlike (d : Detected) (orgInfo : OrgInfo.t) (s : json) :
  objlike (completeAddress d orgInfo s) = objlike s.
Proof.
  rewrite completeAddress_cases. cbv zeta.
  repeat match goal with |- context [if ?b then _ else _] => destruct b end;
    rewrite ?objlike_set; reflexivity.
Qed.

(** A settled address stays settled when another key is assigned. *)
Lemma completeAddress_fixed_set (d : Detected) (orgInfo : OrgInfo.t) (s : json) (k : string) (v : json) :
  String.eqb k "address" = false -> objlike s = true ->
  completeAddress d orgInfo s = s ->
  completeAddress d orgInfo (set s k v) = set s k v.
Proof.
  intros N O F. rewrite completeAddress_cases in F |- *. cbv zeta in F |- *.
  rewrite !get_set_other by exact N.
  destruct (negb (Json.truthy (get s "address"))).
  - apply set_fixed. rewrite prop_set_other by exact N.
    rewrite <- F at 1. apply prop_set_same. exact O.
  - destruct (negb _ && negb _); [ | reflexivity ].
    apply set_fixed. rewrite prop_set_other by exact N.
    rewrite <- F at 1. apply prop_set_same. exact O.
Qed.

Lemma completeTelephone_cases (orgInfo : OrgInfo.t) (pageData : PageData.t) (s : json) :
  completeTelephone orgInfo pageData s = s
  \/ (JsStr.truthy (or_else (OrgInfo.phone orgInfo) (PageData.phone pageData)) = true
      /\ completeTelephone orgInfo pageData s
         = set s "telephone" (JStr (or_else (OrgInfo.phone orgInfo) (PageData.phone pageData)))).
Proof.
  unfold completeTelephone.
  destruct (negb (Json.truthy (get s "telephone"))); cbn [andb]; auto.
  destruct (JsStr.truthy _) eqn:E; auto.
Qed.

Lemma completeTelephone_idem (orgInfo : OrgInfo.t) (pageData : PageData.t) (s : json) :
  objlike s = true ->
  completeTelephone orgInfo pageData (completeTelephone orgInfo pageData s)
  = completeTelephone orgInfo pageData s.
Proof.
  intros O. destruct (completeTelephone_cases orgInfo pageData s) as [H | [T H]].
  - rewrite !H. reflexivity.
  - rewrite H. unfold completeTelephone at 1. rewrite get_set_same by exact O.
    cbn [Json.truthy]. rewrite T. reflexivity.
Qed.

Lemma business_pass_idem (d : Detected) (orgInfo : OrgInfo.t) (pageData : PageData.t) (s : json) :
  objlike s = true ->
  business_pass d orgInfo pageData (business_pass d orgInfo pageData s)
  = business_pass d orgInfo pageData s.
Proof.
  intros O. unfold business_pass.
  set (s1 := completeAddress d orgInfo s).
  assert (O1 : objlike s1 = true) by (subst s1; rewrite completeAddress_objlike; exact O).
  assert (F1 : completeAddress d orgInfo s1 = s1) by (apply completeAddress_idem; exact O).
  assert (F2 : completeAddress d orgInfo (completeTelephone orgInfo pageData s1)
               = completeTelephone orgInfo pageData s1).
  { destruct (completeTelephone_cases orgInfo pageData s1) as [H | [_ H]]; rewrite H.
    - exact F1.
    - apply completeAddress_fixed_set; auto. }
  rewrite F2. apply completeTelephone_idem. exact O1.
Qed.

End FieldFacts.

Module RepairFacts.
Import JsStr Json Vocabulary ReferenceVocabulary AiSchema JsonFacts FieldFacts.
Local Open Scope list_scope.

Lemma is_str_cases (t : json) (a : string) :
  (is_str t a = true /\ t = JStr a) \/ is_str t a = false.
Proof. destruct (is_str t a) eqn:E; auto. left. split; auto. apply is_str_eq. exact E. Qed.

Lemma when_type_type (t : string) (f : json -> json) (s : json) :
  (forall x, get (f x) "@type" = get x "@type") ->
  get (when_type t f s) "@type" = get s "@type".
Proof. intros H. unfold when_type. destruct (is_str _ t); auto. Qed.

Lemma is_str_other (t : json) (a b : string) :
  String.eqb a b = false -> is_str t a = true -> is_str t b = false.
Proof. intros N H. apply is_str_eq in H. subst t. exact N. Qed.

Lemma when_type_hit (t : string) (f : json -> json) (s : json) :
  is_str (get s "@type") t = true -> when_type t f s = f s.
Proof. unfold when_type. intros ->. reflexivity. Qed.

Lemma when_type_miss (t : string) (f : json -> json) (s : json) :
  is_str (get s "@type") t = false -> when_type t f s = s.
Proof. unfold when_type. intros ->. reflexivity. Qed.

Lemma repairSchema_by_type (d : Detected) (orgInfo : OrgInfo.t) (pageData : PageData.t) (s : json) :
  repairSchema d orgInfo pageData s = pass_for d orgInfo pageData (get s "@type") s.
Proof.
  unfold repairSchema. cbv zeta.
  set (s1 := when_type "Service" (cleanField "provider") s).
  set (s2 := when_type "Article" (cleanField "publisher") s1).
  set (s3 := when_type "WebPage" (fun x => cleanField "about" (cleanField "isPartOf" x)) s2).
  set (s4 := when_type "FAQPage" (cleanField "isPartOf") s3).
  assert (T1 : get s1 "@type" = get s "@type")
    by (apply when_type_type; intros x; apply cleanField_other; reflexivity).
  assert (T2 : get s2 "@type" = get s "@type")
    by (rewrite <- T1; apply when_type_type; intros x; apply cleanField_other; reflexivity).
  assert (T3 : get s3 "@type" = get s "@type")
    by (rewrite <- T2; apply when_type_type; intros x;
        rewrite !cleanField_other by reflexivity; reflexivity).
  assert (T4 : get s4 "@type" = get s "@type")
    by (rewrite <- T3; apply when_type_type; intros x; apply cleanField_other; reflexivity).
  unfold is_business. rewrite T4. unfold pass_for. fold (business_pass d orgInfo pageData s4).
  assert (R1 : s1 = if is_str (get s "@type") "Service" then cleanField "provider" s else s)
    by reflexivity.
  assert (R2 : s2 = if is_str (get s "@type") "Article" then cleanField "publisher" s1 else s1)
    by (subst s2; unfold when_type; rewrite T1; reflexivity).
  assert (R3 : s3 = if is_str (get s "@type") "WebPage"
                    then cleanField "about" (cleanField "isPartOf" s2) else s2)
    by (subst s3; unfold when_type; rewrite T2; reflexivity).
  assert (R4 : s4 = if is_str (get s "@type") "FAQPage" then cleanField "isPartOf" s3 else s3)
    by (subst s4; unfold when_type; rewrite T3; reflexivity).
  clearbody s1 s2 s3 s4.
  destruct (is_str_cases (get s "@type") "Service") as [[E T] | E].
  { rewrite T in *. cbn in R1, R2, R3, R4 |- *. subst. reflexivity. }
  rewrite E in *.
  destruct (is_str_cases (get s "@type") "Article") as [[E1 T] | E1].
  { rewrite T in *. cbn in R1, R2, R3, R4 |- *. subst. reflexivity. }
  rewrite E1 in *.
  destruct (is_str_cases (get s "@type") "WebPage") as [[E2 T] | E2].
  { rewrite T in *. cbn in R1, R2, R3, R4 |- *. subst. reflexivity. }
  rewrite E2 in *.
  destruct (is_str_cases (get s "@type") "FAQPage") as [[E3 T] | E3].
  { rewrite T in *. cbn in R1, R2, R3, R4 |- *. subst. reflexivity. }
  rewrite E3 in *. subst. reflexivity.
Qed.

Lemma pass_for_type (d : Detected) (orgInfo : OrgInfo.t) (pageData : PageData.t) (t s : json) :
  get (pass_for d orgInfo pageData t s) "@type" = get s "@type".
Proof.
  unfold pass_for, business_pass.
  repeat match goal with |- context [if ?b then _ else _] => destruct b end;
    rewrite ?cleanField_other by reflexivity; auto.
  destruct (completeTelephone_cases orgInfo pageData (completeAddress d orgInfo s)) as [H | [_ H]];
    rewrite H; rewrite ?get_set_other by reflexivity; apply completeAddress_other; reflexivity.
Qed.

Lemma pass_for_idem (d : Detected) (orgInfo : OrgInfo.t) (pageData : PageData.t) (s : json) :
  let t := get s "@type" in
  pass_for d orgInfo pageData t (pass_for d orgInfo pageData t s) = pass_for d orgInfo pageData t s.
Proof.
  intros t. unfold pass_for.
  destruct (is_str t "Service"); [ apply cleanField_idem | ].
  destruct (is_str t "Article"); [ apply cleanField_idem | ].
  destruct (is_str t "WebPage").
  { set (s1 := cleanField "isPartOf" s). set (s2 := cleanField "about" s1).
    assert (F : cleanField "isPartOf" s2 = s2).
    { destruct (cleanField_cases "about" s1) as [[_ H] | [_ [O H]]]; subst s2; rewrite H.
      - apply cleanField_idem.
      - unfold cleanField at 1. rewrite !get_set_other by reflexivity.
        destruct (cleanField_cases "isPartOf" s) as [[E H1] | [E [O1 H1]]].
        + subst s1. rewrite H1 in *. unfold carries_id in E. rewrite E. reflexivity.
        + assert (G : get s1 "isPartOf" = JObj [ ("@id", get (get s "isPartOf") "@id") ]).
          { subst s1. rewrite H1. apply get_set_same. exact O1. }
          rewrite G. unfold carries_id in E. apply andb_true_iff in E. destruct E as [_ E].
          cbn [Json.truthy get lookup String.eqb Ascii.eqb Bool.eqb andb]. rewrite E.
          unfold cleanIdReference.
          cbn [Json.truthy is_object_type get lookup String.eqb Ascii.eqb Bool.eqb andb]. rewrite E.
          apply FieldFacts.set_fixed. rewrite prop_set_other by reflexivity.
          apply truthy_get_prop in G' || idtac.
          rewrite <- G. apply truthy_get_prop. rewrite G. reflexivity. }
    rewrite F. apply cleanField_idem. }
  destruct (is_str t "FAQPage"); [ apply cleanField_idem | ].
  destruct (is_str t "HVACBusiness" || is_str t "LocalBusiness") eqn:B; [ | reflexivity ].
  apply business_pass_idem.
  apply orb_true_iff in B. destruct B as [B | B]; eapply is_str_objlike; exact B.
Qed.

Lemma repairSchema_idem (d : Detected) (orgInfo : OrgInfo.t) (pageData : PageData.t) (s : json) :
  repairSchema d orgInfo pageData (repairSchema d orgInfo pageData s)
  = repairSchema d orgInfo pageData s.
Proof.
  rewrite !repairSchema_by_type. rewrite pass_for_type. apply pass_for_idem.
Qed.

Lemma pass_for_truthy (d : Detected) (orgInfo : OrgInfo.t) (pageData : PageData.t) (t s : json) :
  Json.truthy (pass_for d orgInfo pageData t s) = Json.truthy s.
Proof.
  unfold pass_for, business_pass.
  repeat match goal with |- context [if ?b then _ else _] => destruct b end;
    rewrite ?cleanField_truthy; auto.
  destruct (completeTelephone_cases orgInfo pageData (completeAddress d orgInfo s)) as [H | [_ H]];
    rewrite H; rewrite ?truthy_set; rewrite completeAddress_cases; cbv zeta;
    repeat match goal with |- context [if ?b then _ else _] => destruct b eqn:? end;
    rewrite ?truthy_set; reflexivity.
Qed.

Lemma repairItem_cases (d : Detected) (orgInfo : OrgInfo.t) (pageData : PageData.t) (item : json) :
  repairItem d orgInfo pageData item =
  if not_nullish item then
    Returned (if Json.truthy (get item "schema")
              then set item "schema" (repairSchema d orgInfo pageData (get item "schema"))
              else item)
  else Thrown "TypeError: Cannot read properties of null".
Proof.
  unfold repairItem.
  destruct item; try reflexivity;
    match goal with |- context [negb ?b] => destruct b end; reflexivity.
Qed.

Lemma repairItem_idem (d : Detected) (orgInfo : OrgInfo.t) (pageData : PageData.t) (item out : json) :
  repairItem d orgInfo pageData item = Returned out ->
  repairItem d orgInfo pageData out = Returned out.
Proof.
  rewrite repairItem_cases.
  destruct (not_nullish item) eqn:N; [ | discriminate ].
  destruct (Json.truthy (get item "schema")) eqn:T; intros [= <-].
  - assert (O : objlike item = true) by (eapply get_objlike; eauto).
    rewrite repairItem_cases. rewrite get_set_same by exact O.
    rewrite repairSchema_idem, set_set.
    rewrite repairSchema_by_type, pass_for_truthy, T.
    destruct item; try discriminate; reflexivity.
  - rewrite repairItem_cases, N, T. reflexivity.
Qed.

Lemma mapM_idem {A : Type} (f : A -> outcome A) :
  (forall x y, f x = Returned y -> f y = Returned y) ->
  forall l out, mapM f l = Returned out -> mapM f out = Returned out.
Proof.
  intros Hf. induction l as [|x l IH]; simpl; intros out.
  - intros [= <-]. reflexivity.
  - destruct (f x) as [y|] eqn:Fx; [ | discriminate ].
    destruct (mapM f l) as [ys|] eqn:Fl; [ | discriminate ].
    intros [= <-]. simpl. rewrite (Hf _ _ Fx), (IH _ eq_refl). reflexivity.
Qed.

Lemma mapM_total {A B : Type} (f : A -> outcome B) (ok : A -> bool) :
  (forall x, ok x = true -> exists y, f x = Returned y) ->
  forall l, forallb ok l = true -> exists out, mapM f l = Returned out.
Proof.
  intros Hf. induction l as [|x l IH]; simpl; intros H.
  - eexists; reflexivity.
  - apply andb_true_iff in H. destruct H as [Hx Hl].
    destruct (Hf _ Hx) as [y ->]. destruct (IH Hl) as [ys ->]. eexists; reflexivity.
Qed.

Lemma repairItem_total (d : Detected) (orgInfo : OrgInfo.t) (pageData : PageData.t) (item : json) :
  not_nullish item = true -> exists out, repairItem d orgInfo pageData item = Returned out.
Proof. intros N. rewrite repairItem_cases, N. eexists; reflexivity. Qed.

(** C10.  The repair pass is idempotent: run on its own output it returns
    that output; it returns for every list without a [null] entry. *)
Theorem ensureProviderAddresses_idempotent (schemas : list json) (orgInfo : OrgInfo.t)
  (pageData : PageData.t) :
  and_then (ensureProviderAddresses schemas orgInfo pageData)
    (fun once => ensureProviderAddresses once orgInfo pageData)
  = ensureProviderAddresses schemas orgInfo pageData
  /\ (forallb not_nullish schemas = true ->
      exists once, ensureProviderAddresses schemas orgInfo pageData = Returned once).
Proof.
  split.
  - unfold ensureProviderAddresses, and_then.
    destruct (mapM _ schemas) as [once|] eqn:E; [ | reflexivity ].
    eapply mapM_idem; [ | exact E ].
    intros x y. apply repairItem_idem.
  - apply mapM_total. intros x. apply repairItem_total.
Qed.

(** *** Pure references after the pass *)

Lemma pass_for_clean (d : Detected) (orgInfo : OrgInfo.t) (pageData : PageData.t) (s : json) :
  references_clean (pass_for d orgInfo pageData (get s "@type") s) = true.
Proof.
  unfold references_clean. rewrite pass_for_type. unfold pass_for.
  destruct (is_str_cases (get s "@type") "Service") as [[E T] | E]; rewrite E.
  { rewrite ?T. cbn [is_str String.eqb Ascii.eqb Bool.eqb implb andb].
    rewrite cleanField_clean. reflexivity. }
  destruct (is_str_cases (get s "@type") "Article") as [[E1 T] | E1]; rewrite E1.
  { rewrite ?T. cbn [is_str String.eqb Ascii.eqb Bool.eqb implb andb].
    rewrite cleanField_clean. reflexivity. }
  destruct (is_str_cases (get s "@type") "WebPage") as [[E2 T] | E2]; rewrite E2.
  { rewrite ?T. cbn [is_str String.eqb Ascii.eqb Bool.eqb implb andb].
    rewrite cleanField_clean. rewrite cleanField_other by reflexivity.
    rewrite cleanField_clean. reflexivity. }
  destruct (is_str_cases (get s "@type") "FAQPage") as [[E3 T] | E3]; rewrite E3.
  { rewrite ?T. cbn [is_str String.eqb Ascii.eqb Bool.eqb implb andb].
    rewrite cleanField_clean. reflexivity. }
  reflexivity.
Qed.

Lemma references_clean_falsy (s : json) : Json.truthy s = false -> references_clean s = true.
Proof. destruct s; try discriminate; intros _; reflexivity. Qed.

Lemma repairItem_clean (d : Detected) (orgInfo : OrgInfo.t) (pageData : PageData.t) (item out : json) :
  repairItem d orgInfo pageData item = Returned out ->
  references_clean (get out "schema") = true.
Proof.
  rewrite repairItem_cases.
  destruct (not_nullish item) eqn:N; [ | discriminate ].
  destruct (Json.truthy (get item "schema")) eqn:T; intros [= <-].
  - assert (O : objlike item = true) by (eapply get_objlike; eauto).
    rewrite get_set_same by exact O. rewrite repairSchema_by_type. apply pass_for_clean.
  - apply references_clean_falsy. exact T.
Qed.

Lemma mapM_forall {A B : Type} (f : A -> outcome B) (P : B -> bool) :
  (forall x y, f x = Returned y -> P y = true) ->
  forall l out, mapM f l = Returned out -> forallb P out = true.
Proof.
  intros Hf. induction l as [|x l IH]; simpl; intros out.
  - intros [= <-]. reflexivity.
  - destruct (f x) as [y|] eqn:Fx; [ | discriminate ].
    destruct (mapM f l) as [ys|] eqn:Fl; [ | discriminate ].
    intros [= <-]. simpl. rewrite (Hf _ _ Fx), (IH _ eq_refl). reflexivity.
Qed.

End RepairFacts.

Module StoreFacts.
Import Json Db StoreVocabulary.
Local Open Scope list_scope.
Local Open Scope db_scope.

Lemma bind_cases {A B : Type} (m : M A) (f : A -> M B) (w : world) :
  (exists a w1, m w = (Returned a, w1) /\ bind m f w = f a w1)
  \/ (exists e w1, m w = (Thrown e, w1) /\ bind m f w = (Thrown e, w1)).
Proof.
  unfold bind. destruct (m w) as [[a|e] w1].
  - left. exists a, w1. auto.
  - right. exists e, w1. auto.
Qed.

Lemma always_ret {A : Type} (R : world -> world -> Prop) (a : A) :
  (forall w, R w w) -> always R (ret a).
Proof. intros Hr w. apply Hr. Qed.

Lemma always_throw {A : Type} (R : world -> world -> Prop) (e : string) :
  (forall w, R w w) -> always R (@throw A e).
Proof. intros Hr w. apply Hr. Qed.

Lemma always_bind {A B : Type} (R : world -> world -> Prop) (m : M A) (f : A -> M B) :
  (forall a b c, R a b -> R b c -> R a c) ->
  always R m -> (forall a, always R (f a)) -> always R (bind m f).
Proof.
  intros Ht Hm Hf w. specialize (Hm w).
  destruct (bind_cases m f w) as [(a & w1 & E & ->) | (e & w1 & E & ->)]; rewrite E in Hm.
  - eapply Ht; [ exact Hm | apply Hf ].
  - exact Hm.
Qed.


Lemma no_db_write_refl (w : world) : no_db_write w w.
Proof.
  repeat split. exists []. split; [ symmetry; apply app_nil_r | constructor ].
Qed.

Lemma no_db_write_trans (a b c : world) : no_db_write a b -> no_db_write b c -> no_db_write a c.
Proof.
  intros (P1 & N1 & Q1 & C1 & e1 & T1 & F1) (P2 & N2 & Q2 & C2 & e2 & T2 & F2).
  repeat split; try congruence.
  exists (e1 ++ e2). split.
  - rewrite T2, T1. symmetry. apply app_assoc.
  - apply Forall_app. auto.
Qed.

Lemma no_db_write_same (w w' : world) :
  postmeta w' = postmeta w -> next_meta_id w' = next_meta_id w -> posts w' = posts w ->
  collation w' = collation w -> trace w' = trace w -> no_db_write w w'.
Proof.
  intros P N Q C T. repeat split; auto. exists []. split; [ | constructor ].
  rewrite app_nil_r. exact T.
Qed.

Ltac quiet_same := apply no_db_write_same; reflexivity.

Ltac quiet_bind := apply always_bind; [ exact no_db_write_trans | | intros ? ].
Ltac quiet_ret := apply always_ret; exact no_db_write_refl.

Lemma quiet_event (e : event) : not_a_write e -> always no_db_write (modify (add_event e)).
Proof.
  intros H w. repeat split. exists [e]. split; [ reflexivity | repeat constructor; exact H ].
Qed.

Lemma quiet_pop_db_fault : always no_db_write pop_db_fault.
Proof. intros w. unfold pop_db_fault. destruct (db_faults w); quiet_same. Qed.

Lemma quiet_pop_fs_fault : always no_db_write pop_fs_fault.
Proof. intros w. unfold pop_fs_fault. destruct (fs_faults w); quiet_same. Qed.

Lemma quiet_getConnection : always no_db_write getConnection.
Proof.
  intros w. unfold getConnection. destruct (connected w); [ apply no_db_write_refl | ].
  revert w. quiet_bind; [ exact quiet_pop_db_fault | ].
  destruct a; [ apply always_throw; exact no_db_write_refl | ].
  intros w. quiet_same.
Qed.

Lemma quiet_execute (s : statement) : is_write s = false -> always no_db_write (execute s).
Proof.
  intros H. unfold execute. quiet_bind; [ apply quiet_event; exact H | ].
  quiet_bind; [ exact quiet_pop_db_fault | ].
  destruct a0; [ apply always_throw; exact no_db_write_refl | ].
  intros w. destruct s; try discriminate; quiet_same.
Qed.

Lemma quiet_generateShortcodeId : always no_db_write generateShortcodeId.
Proof. intros w. unfold generateShortcodeId. destruct (random w); quiet_same. Qed.

Lemma quiet_now : always no_db_write now.
Proof. intros w. unfold now. destruct (clock w); quiet_same. Qed.

Lemma quiet_console (line : string) : always no_db_write (modify (add_console line)).
Proof. intros w. quiet_same. Qed.

Lemma quiet_convert (schema schemaType : json) (primary : bool) :
  always no_db_write (convertToRankMathFormat schema schemaType primary).
Proof.
  unfold convertToRankMathFormat. quiet_bind.
  - destruct (primary && _); [ | quiet_ret ].
    quiet_bind; [ exact quiet_generateShortcodeId | quiet_ret ].
  - quiet_bind; [ | quiet_ret ].
    destruct (lookup "@graph" _) as [g|]; [ | quiet_ret ].
    destruct (Json.truthy g); [ apply quiet_console | quiet_ret ].
Qed.

Lemma quiet_previewInsertion (postId : nat) (schema schemaType : json) (primary : bool) :
  always no_db_write (previewInsertion postId schema schemaType primary).
Proof.
  unfold previewInsertion.
  quiet_bind; [ exact quiet_getConnection | ].
  quiet_bind; [ apply quiet_execute; reflexivity | ].
  destruct (postRows a0); [ quiet_ret | ].
  quiet_bind; [ apply quiet_convert | ].
  quiet_bind; [ apply quiet_execute; reflexivity | quiet_ret ].
Qed.

Lemma dry_default (o : InsertOptions) : dry o -> dflt true (dryRun o) = true.
Proof.
  unfold dry, dflt, or_default. intros [E | T]; [ rewrite E; reflexivity | ].
  destruct (dryRun o); try exact T. discriminate T.
Qed.

(** A value read as true is passed on as a dry run. *)
Lemma dry_passed (v b p t : json) : Json.truthy v = true -> dry (mkOptions v b p t).
Proof. intros T. right. exact T. Qed.

Section Client.
Variable config : Config.

Lemma quiet_insertSchema (postId : nat) (schema schemaType : json) (o : InsertOptions) :
  dry o -> always no_db_write (insertSchema config postId schema schemaType o).
Proof.
  intros D. unfold insertSchema. rewrite (dry_default o D).
  quiet_bind; [ apply quiet_previewInsertion | ].
  destruct (negb _); quiet_ret.
Qed.

Lemma quiet_insertEach (postId : nat) (v : json) (schemas : list (json * json)) :
  Json.truthy v = true ->
  forall i, always no_db_write (insertEach config postId v i schemas).
Proof.
  intros T.
  induction schemas as [|[schema type] rest IH]; intros i; simpl; [ quiet_ret | ].
  quiet_bind; [ apply quiet_insertSchema, dry_passed; exact T | ].
  quiet_bind; [ apply IH | quiet_ret ].
Qed.

Lemma quiet_insertMultipleSchemas (postId : nat) (schemas : list (json * json)) (o : InsertOptions) :
  dry o -> always no_db_write (insertMultipleSchemas config postId schemas o).
Proof.
  intros D. unfold insertMultipleSchemas. rewrite (dry_default o D).
  rewrite andb_false_r.
  quiet_bind; [ quiet_ret | ].
  quiet_bind; [ apply quiet_insertEach; exact (dry_default o D) | quiet_ret ].
Qed.

Lemma quiet_insertFromGraph (postId : nat) (graphSchema : json) (o : InsertOptions) :
  dry o -> always no_db_write (insertFromGraph config postId graphSchema o).
Proof.
  intros D. unfold insertFromGraph.
  assert (Q : forall g,
    always no_db_write
      (match get g "@graph" with
       | JArr graph _ =>
           insertMultipleSchemas config postId
             (splitGraph graph (or_default JNull (primaryType o)))
             (mkOptions (or_default (JBool true) (dryRun o))
                (or_default (JBool true) (backup o)) JUndef JUndef)
       | _ => ret (JObj [ ("success", JBool false);
                          ("error", JStr "Schema does not contain @graph array") ])
       end)).
  { intros g. destruct (get g "@graph"); try quiet_ret.
    apply quiet_insertMultipleSchemas, dry_passed. exact (dry_default o D). }
  destruct graphSchema; try apply Q; apply always_throw; exact no_db_write_refl.
Qed.

Lemma quiet_setRichSnippetType (postId : nat) (snippetType : string) (o : InsertOptions) :
  dry o -> always no_db_write (setRichSnippetType postId snippetType o).
Proof.
  intros D. unfold setRichSnippetType. rewrite (dry_default o D).
  quiet_bind; [ exact quiet_getConnection | ].
  quiet_bind; [ apply quiet_execute; reflexivity | quiet_ret ].
Qed.

Lemma quiet_deleteMeta (metaId : nat) (o : InsertOptions) :
  dry o -> always no_db_write (deleteMeta metaId o).
Proof.
  intros D. unfold deleteMeta. rewrite (dry_default o D).
  quiet_bind; [ exact quiet_getConnection | ].
  quiet_bind; [ apply quiet_execute; reflexivity | ].
  destruct (metaRows a0); quiet_ret.
Qed.

Lemma quiet_deleteAllSchemas (postId : nat) (o : InsertOptions) :
  dry o -> always no_db_write (deleteAllSchemas config postId o).
Proof.
  intros D. unfold deleteAllSchemas. rewrite (dry_default o D).
  quiet_bind; [ exact quiet_getConnection | ].
  quiet_bind; [ apply quiet_execute; reflexivity | quiet_ret ].
Qed.

End Client.
End StoreFacts.

Module DryFacts.
Import Json Db StoreVocabulary StoreFacts JsonFacts.
Local Open Scope list_scope.
Local Open Scope db_scope.

Lemma yields_ret {A : Type} (a : A) (P : A -> Prop) : P a -> yields (ret a) P.
Proof. intros H w. exact H. Qed.

Lemma yields_bind {A B : Type} (m : M A) (f : A -> M B) (Q : A -> Prop) (P : B -> Prop) :
  yields m Q -> (forall a, Q a -> yields (f a) P) -> yields (bind m f) P.
Proof.
  intros Hm Hf w. specialize (Hm w).
  destruct (bind_cases m f w) as [(a & w1 & E & ->) | (e & w1 & E & ->)]; rewrite E in Hm.
  - apply Hf. exact Hm.
  - exact I.
Qed.

Lemma yields_any {A : Type} (m : M A) : yields m (fun _ => True).
Proof. intros w. destruct (fst (m w)); exact I. Qed.

Lemma yields_then {A B : Type} (m : M A) (f : A -> M B) (P : B -> Prop) :
  (forall a, yields (f a) P) -> yields (bind m f) P.
Proof. intros Hf. eapply yields_bind; [ apply yields_any | intros a _; apply Hf ]. Qed.

Lemma describes_failure (ps : fields) : describes (JObj (("success", JBool false) :: ps)).
Proof. intros H. discriminate. Qed.

Lemma describes_previewInsertion (postId : nat) (schema schemaType : json) (primary : bool) :
  yields (previewInsertion postId schema schemaType primary) describes.
Proof.
  unfold previewInsertion.
  apply yields_then. intros _. apply yields_then. intros found.
  destruct (postRows found); [ apply yields_ret, describes_failure | ].
  apply yields_then. intros rm. apply yields_then. intros e.
  apply yields_ret. intros _. reflexivity.
Qed.

Section Client.
Variable config : Config.

Lemma describes_insertSchema (postId : nat) (schema schemaType : json) (o : InsertOptions) :
  dry o -> yields (insertSchema config postId schema schemaType o) describes.
Proof.
  intros D. unfold insertSchema. rewrite (dry_default o D).
  eapply yields_bind; [ apply describes_previewInsertion | ].
  intros preview H.
  destruct (negb _); apply yields_ret; [ exact H | ].
  unfold describes in *. rewrite !get_set_other by reflexivity. exact H.
Qed.

Lemma describes_insertEach (postId : nat) (v : json) (schemas : list (json * json)) :
  Json.truthy v = true ->
  forall i, yields (insertEach config postId v i schemas) (Forall describes).
Proof.
  intros T.
  induction schemas as [|[schema type] rest IH]; intros i; simpl.
  - apply yields_ret. constructor.
  - eapply yields_bind; [ apply describes_insertSchema, dry_passed; exact T | ].
    intros r Hr. eapply yields_bind; [ apply IH | ].
    intros rs Hrs. apply yields_ret. constructor; assumption.
Qed.

Lemma describes_insertMultipleSchemas (postId : nat) (schemas : list (json * json))
  (o : InsertOptions) :
  dry o -> yields (insertMultipleSchemas config postId schemas o) describes_each.
Proof.
  intros D. unfold insertMultipleSchemas. rewrite (dry_default o D).
  apply yields_then. intros _.
  eapply yields_bind; [ apply describes_insertEach; exact (dry_default o D) | ].
  intros rs Hrs. apply yields_ret. exact Hrs.
Qed.

Lemma describes_insertFromGraph (postId : nat) (graphSchema : json) (o : InsertOptions) :
  dry o -> yields (insertFromGraph config postId graphSchema o) describes_each.
Proof.
  intros D. unfold insertFromGraph.
  assert (Q : forall g,
    yields
      (match get g "@graph" with
       | JArr graph _ =>
           insertMultipleSchemas config postId
             (splitGraph graph (or_default JNull (primaryType o)))
             (mkOptions (or_default (JBool true) (dryRun o))
                (or_default (JBool true) (backup o)) JUndef JUndef)
       | _ => ret (JObj [ ("success", JBool false);
                          ("error", JStr "Schema does not contain @graph array") ])
       end) describes_each).
  { intros g. destruct (get g "@graph");
      try (apply yields_ret; constructor).
    apply describes_insertMultipleSchemas, dry_passed. exact (dry_default o D). }
  destruct graphSchema; try apply Q; intros w; exact I.
Qed.

Lemma describes_deleteAllSchemas (postId : nat) (o : InsertOptions) :
  dry o -> yields (deleteAllSchemas config postId o) describes.
Proof.
  intros D. unfold deleteAllSchemas. rewrite (dry_default o D).
  apply yields_then. intros _. apply yields_then. intros e.
  apply yields_ret. intros _. reflexivity.
Qed.
End Client.

Lemma describes_setRichSnippetType (postId : nat) (snippetType : string) (o : InsertOptions) :
  dry o -> yields (setRichSnippetType postId snippetType o) describes.
Proof.
  intros D. unfold setRichSnippetType. rewrite (dry_default o D).
  apply yields_then. intros _. apply yields_then. intros e.
  apply yields_ret. intros _. reflexivity.
Qed.

Lemma describes_deleteMeta (metaId : nat) (o : InsertOptions) :
  dry o -> yields (deleteMeta metaId o) describes.
Proof.
  intros D. unfold deleteMeta. rewrite (dry_default o D).
  apply yields_then. intros _. apply yields_then. intros e.
  destruct (metaRows e); apply yields_ret; [ apply describes_failure | intros _; reflexivity ].
Qed.
End DryFacts.

Module BackupFacts.
Import Json Db StoreVocabulary BackupVocabulary StoreFacts.
Local Open Scope list_scope.
Local Open Scope db_scope.

Lemma hoare_bind {A B : Type} (m : M A) (f : A -> M B) (w : world)
  (Q1 : outcome A -> world -> Prop) (Q : outcome B -> world -> Prop) :
  hoare m w Q1 ->
  (forall a w1, Q1 (Returned a) w1 -> hoare (f a) w1 Q) ->
  (forall e w1, Q1 (Thrown e) w1 -> Q (Thrown e) w1) ->
  hoare (bind m f) w Q.
Proof.
  unfold hoare. intros H Hf He.
  destruct (bind_cases m f w) as [(a & w1 & E & ->) | (e & w1 & E & ->)]; rewrite E in H; simpl in *.
  - apply Hf. exact H.
  - apply He. exact H.
Qed.

Lemma hoare_always {A : Type} (R : world -> world -> Prop) (m : M A) (w : world) :
  always R m -> hoare m w (fun _ w' => R w w').
Proof. intros H. apply H. Qed.







(** *** Reading the snapshot and storing it *)

Lemma selects_collation (w w' : world) (s : statement) (r : MetaRow) :
  collation w' = collation w -> selects w' s r = selects w s r.
Proof.
  intros C. unfold selects, key_like, key_is. rewrite C. reflexivity.
Qed.

Lemma snapshot_same (postId : nat) (w w' : world) :
  postmeta w' = postmeta w -> collation w' = collation w ->
  snapshot postId w' = snapshot postId w.
Proof.
  intros P C. unfold snapshot. rewrite P. f_equal.
  apply filter_ext. intros r. apply selects_collation. exact C.
Qed.

Lemma no_db_write_snapshot (postId : nat) (w w' : world) :
  no_db_write w w' -> snapshot postId w' = snapshot postId w.
Proof. intros (P & _ & _ & C & _). apply snapshot_same; assumption. Qed.

Lemma execute_read (s : statement) (w : world) :
  is_write s = false ->
  hoare (execute s) w
    (fun o w' => no_db_write w w'
                 /\ forall res, o = Returned res ->
                      metaRows res = match s with
                                     | SelectPost _ => []
                                     | _ => filter (selects w s) (postmeta w)
                                     end).
Proof.
  intros R. unfold hoare. split; [ apply (quiet_execute s R) | ].
  unfold execute, bind, modify, pop_db_fault. simpl.
  destruct (db_faults w) as [|[m|] fs]; simpl; intros res;
    destruct s; try discriminate; simpl; intros [= <-]; reflexivity.
Qed.

Section Client.
Variable config : Config.

Lemma getExistingSchemas_spec (postId : nat) (w : world) :
  hoare (getExistingSchemas postId) w
    (fun o w' => no_db_write w w'
                 /\ forall existing, o = Returned existing -> existing = snapshot postId w).
Proof.
  unfold getExistingSchemas.
  eapply hoare_bind; [ apply (hoare_always _ _ _ quiet_getConnection) | | ].
  - intros [] w1 Q1. cbv beta in Q1.
    eapply hoare_bind; [ apply execute_read; reflexivity | | ].
    + intros res w2 [Q2 Hres]. unfold hoare, ret. simpl. split.
      * eapply no_db_write_trans; eauto.
      * intros existing [= <-]. rewrite (Hres _ eq_refl).
        rewrite <- (no_db_write_snapshot postId w w1 Q1). reflexivity.
    + intros e w2 [Q2 _]. split; [ eapply no_db_write_trans; eauto | discriminate ].
  - intros e w1 Q1. split; [ exact Q1 | discriminate ].
Qed.

Lemma quiet_saveBackupsToFile : always no_db_write (saveBackupsToFile config).
Proof.
  unfold saveBackupsToFile.
  quiet_bind; [ intros w; quiet_same | ].
  quiet_bind; [ exact quiet_pop_fs_fault | ].
  destruct a0.
  - intros w. repeat split. eexists [_]. split; [ reflexivity | repeat constructor ].
  - intros w. repeat split. eexists [_]. split; [ reflexivity | repeat constructor ].
Qed.

Lemma saveBackupsToFile_backups (w : world) :
  backups (snd (saveBackupsToFile config w)) = backups w.
Proof.
  unfold saveBackupsToFile, bind, modify, pop_fs_fault. simpl.
  destruct (fs_faults w) as [|[m|] fs]; reflexivity.
Qed.

Lemma map_get_set {A : Type} (k : nat) (v : A) (m : list (nat * A)) :
  map_get k (map_set k v m) = Some v.
Proof.
  induction m as [|[k' v'] m IH]; simpl.
  - rewrite Nat.eqb_refl. reflexivity.
  - destruct (Nat.eqb k' k) eqn:E; simpl; rewrite E; auto.
Qed.

Lemma backupMeta_spec (postId : nat) (w : world) :
  hoare (backupMeta config postId) w (stored postId w).
Proof.
  unfold backupMeta.
  eapply hoare_bind; [ apply getExistingSchemas_spec | | ].
  - intros existing w1 [Q1 Hex]. specialize (Hex _ eq_refl). subst existing.
    eapply hoare_bind; [ apply (hoare_always _ _ _ quiet_now) | | ].
    + intros t w2 Q2. cbv beta in Q2.
      unfold hoare, bind, modify. simpl.
      set (b := mkBackup t (snapshot postId w)).
      set (w3 := add_event (BackupStored postId b) (set_backups (map_set postId b (backups w2)) w2)).
      pose proof (quiet_saveBackupsToFile w3) as Q4.
      pose proof (saveBackupsToFile_backups w3) as B4.
      destruct (saveBackupsToFile config w3) as [[[]|e] w4]; simpl in *.
      * destruct Q1 as (P1 & _ & _ & C1 & e1 & T1 & F1).
        destruct Q2 as (P2 & _ & _ & C2 & e2 & T2 & F2).
        destruct Q4 as (P4 & _ & _ & C4 & e4 & T4 & F4).
        split; [ rewrite P4; simpl; congruence | ].
        split; [ rewrite C4; simpl; congruence | ].
        exists (e1 ++ e2 ++ BackupStored postId b :: e4). split; [ | split ].
        -- rewrite T4. subst w3. simpl. rewrite T2, T1. rewrite <- !app_assoc. reflexivity.
        -- repeat (apply Forall_app; split); auto. constructor; [ exact I | exact F4 ].
        -- intros r _. exists b. split; [ | split ].
           ++ apply in_or_app. right. apply in_or_app. right. left. reflexivity.
           ++ reflexivity.
           ++ rewrite B4. subst w3. simpl. apply map_get_set.
      * destruct Q1 as (P1 & _ & _ & C1 & e1 & T1 & F1).
        destruct Q2 as (P2 & _ & _ & C2 & e2 & T2 & F2).
        destruct Q4 as (P4 & _ & _ & C4 & e4 & T4 & F4).
        split; [ rewrite P4; simpl; congruence | ].
        split; [ rewrite C4; simpl; congruence | ].
        exists (e1 ++ e2 ++ BackupStored postId b :: e4). split; [ | split ].
        -- rewrite T4. subst w3. simpl. rewrite T2, T1. rewrite <- !app_assoc. reflexivity.
        -- repeat (apply Forall_app; split); auto. constructor; [ exact I | exact F4 ].
        -- discriminate.
    + intros e w2 Q2. cbv beta in Q2.
      destruct (no_db_write_trans _ _ _ Q1 Q2) as (P & _ & _ & C & evs & T & F).
      split; [ exact P | ]. split; [ exact C | ].
      exists evs. split; [ exact T | ]. split; [ exact F | discriminate ].
  - intros e w1 [Q1 _]. destruct Q1 as (P & _ & _ & C & evs & T & F).
    split; [ exact P | ]. split; [ exact C | ].
    exists evs. split; [ exact T | ]. split; [ exact F | discriminate ].
Qed.

End Client.
End BackupFacts.

Module CoverFacts.
Import Json Db StoreVocabulary BackupVocabulary StoreFacts BackupFacts.
Local Open Scope list_scope.
Local Open Scope db_scope.




Section Client.
Variable config : Config.













End Client.
End CoverFacts.

Module RollbackFacts.
Import Json Db StoreVocabulary BackupVocabulary RollbackVocabulary StoreFacts BackupFacts.
Local Open Scope list_scope.
Local Open Scope db_scope.

Lemma runs_bind {A B : Type} (m : M A) (f : A -> M B) (w : world)
  (Q1 : A -> world -> Prop) (Q : B -> world -> Prop) :
  runs m w Q1 -> (forall a w1, Q1 a w1 -> runs (f a) w1 Q) -> runs (bind m f) w Q.
Proof.
  intros (a & w1 & E & H1) Hf. destruct (Hf a w1 H1) as (b & w2 & E2 & H2).
  exists b, w2. split; [ | exact H2 ]. unfold bind. rewrite E. exact E2.
Qed.

Lemma runs_ret {A : Type} (a : A) (w : world) (Q : A -> world -> Prop) :
  Q a w -> runs (ret a) w Q.
Proof. intros H. exists a, w. split; [ reflexivity | exact H ]. Qed.

Lemma runs_weaken {A : Type} (m : M A) (w : world) (Q Q' : A -> world -> Prop) :
  runs m w Q -> (forall a w', Q a w' -> Q' a w') -> runs m w Q'.
Proof. intros (a & w' & E & H) Hq. exists a, w'. auto. Qed.

Lemma runs_try_catch {A : Type} (m : M A) (h : string -> M A) (w : world)
  (Q : A -> world -> Prop) :
  runs m w Q -> runs (try_catch m h) w Q.
Proof.
  intros (a & w' & E & H). exists a, w'. split; [ | exact H ].
  unfold try_catch. rewrite E. reflexivity.
Qed.

Lemma kept_refl (w : world) : kept w w.
Proof. repeat split. Qed.

Lemma kept_trans (a b c : world) : kept a b -> kept b c -> kept a c.
Proof. unfold kept. intuition congruence. Qed.

Lemma kept_calm (w w' : world) : kept w w' -> calm w -> calm w'.
Proof. unfold kept, calm. intuition congruence. Qed.

Lemma runs_getConnection (w : world) :
  calm w -> runs getConnection w (fun _ w' => kept w w').
Proof.
  intros Hc. unfold runs, getConnection. destruct (connected w) eqn:E.
  - exists tt, w. split; [ reflexivity | apply kept_refl ].
  - unfold bind, pop_db_fault. rewrite Hc. simpl.
    eexists tt, _. split; [ reflexivity | ]. repeat split.
Qed.

Lemma execute_calm (s : statement) (w : world) :
  calm w ->
  execute s w = (Returned (fst (run_statement s (add_event (Issued s) w))),
                 snd (run_statement s (add_event (Issued s) w))).
Proof.
  intros Hc. unfold execute, bind, modify, pop_db_fault. simpl. rewrite Hc.
  destruct (run_statement s (add_event (Issued s) w)). reflexivity.
Qed.

Lemma runs_execute_read (s : statement) (w : world) :
  calm w -> is_write s = false -> runs (execute s) w (fun _ w' => kept w w').
Proof.
  intros Hc R. eexists _, _. split; [ apply execute_calm; exact Hc | ].
  destruct s; try discriminate; repeat split.
Qed.

Lemma runs_generateShortcodeId (w : world) :
  runs generateShortcodeId w (fun _ w' => kept w w').
Proof.
  unfold runs, generateShortcodeId. destruct (random w); eexists _, _;
    (split; [ reflexivity | repeat split ]).
Qed.

Lemma runs_convert (schema schemaType : json) (primary : bool) (w : world) :
  runs (convertToRankMathFormat schema schemaType primary) w (fun _ w' => kept w w').
Proof.
  unfold convertToRankMathFormat.
  eapply runs_bind with (Q1 := fun _ w' => kept w w').
  - destruct (primary && _); [ | apply runs_ret, kept_refl ].
    eapply runs_bind; [ apply runs_generateShortcodeId | ].
    intros a w1 K. apply runs_ret. exact K.
  - intros metadata w1 K1.
    eapply runs_bind with (Q1 := fun _ w' => kept w w').
    + destruct (lookup "@graph" _) as [g|]; [ | apply runs_ret; exact K1 ].
      destruct (Json.truthy g); [ | apply runs_ret; exact K1 ].
      eexists tt, _. split; [ reflexivity | ].
      eapply kept_trans; [ exact K1 | repeat split ].
    + intros [] w2 K2. apply runs_ret. exact K2.
Qed.

Lemma runs_previewInsertion (postId : nat) (schema schemaType : json) (primary : bool)
  (w : world) :
  calm w -> runs (previewInsertion postId schema schemaType primary) w (fun _ w' => kept w w').
Proof.
  intros Hc. unfold previewInsertion.
  eapply runs_bind; [ apply runs_getConnection; exact Hc | ].
  intros [] w1 K1.
  eapply runs_bind; [ apply runs_execute_read; [ eapply kept_calm; eauto | reflexivity ] | ].
  intros found w2 K2. cbv beta in K2.
  assert (K : kept w w2) by (eapply kept_trans; eauto).
  destruct (postRows found); [ apply runs_ret; exact K | ].
  eapply runs_bind; [ apply runs_convert | ].
  intros rm w3 K3. cbv beta in K3.
  assert (K' : kept w w3) by (eapply kept_trans; eauto).
  eapply runs_bind; [ apply runs_execute_read; [ eapply kept_calm; eauto | reflexivity ] | ].
  intros e w4 K4. apply runs_ret. eapply kept_trans; eauto.
Qed.

Section Client.
Variable config : Config.

Lemma runs_getExistingSchemas (postId : nat) (w : world) :
  calm w -> runs (getExistingSchemas postId) w (fun _ w' => kept w w').
Proof.
  intros Hc. unfold getExistingSchemas.
  eapply runs_bind; [ apply runs_getConnection; exact Hc | ].
  intros [] w1 K1.
  eapply runs_bind; [ apply runs_execute_read; [ eapply kept_calm; eauto | reflexivity ] | ].
  intros res w2 K2. apply runs_ret. eapply kept_trans; eauto.
Qed.

Lemma runs_saveBackupsToFile (w : world) :
  runs (saveBackupsToFile config) w (fun _ w' => kept w w').
Proof.
  unfold runs, saveBackupsToFile, bind, modify, pop_fs_fault. simpl.
  destruct (fs_faults w) as [|[m|] fs]; eexists tt, _; (split; [ reflexivity | repeat split ]).
Qed.

Lemma runs_backupMeta (postId : nat) (w : world) :
  calm w -> runs (backupMeta config postId) w (fun _ w' => holds_snapshot postId w w').
Proof.
  intros Hc.
  assert (R : runs (backupMeta config postId) w
                (fun _ w' => calm w' /\ next_meta_id w' = next_meta_id w)).
  { unfold backupMeta.
    eapply runs_bind; [ apply runs_getExistingSchemas; exact Hc | ].
    intros existing w1 K1. cbv beta in K1.
    eapply runs_bind with (Q1 := fun _ w' => kept w w').
    { unfold runs, now. destruct (clock w1); eexists _, _;
        (split; [ reflexivity | eapply kept_trans; [ exact K1 | repeat split ] ]). }
    intros t w2 K2.
    eapply runs_bind with (Q1 := fun _ w' => calm w' /\ next_meta_id w' = next_meta_id w).
    { eexists tt, _. split; [ reflexivity | ].
      destruct K2 as (F & _ & N & _). split; [ unfold calm; simpl; congruence | exact N ]. }
    intros [] w3 [C3 N3].
    eapply runs_bind; [ apply runs_saveBackupsToFile | ].
    intros [] w4 K4. apply runs_ret.
    destruct K4 as (F & _ & N & _). split; [ unfold calm in *; congruence | congruence ]. }
  destruct R as (r & w' & E & C & N).
  pose proof (backupMeta_spec config postId w) as S. unfold hoare in S. rewrite E in S.
  destruct S as (P & Co & evs & _ & _ & B). destruct (B r eq_refl) as (b & _ & Hs & Hg).
  exists r, w'. split; [ exact E | ].
  repeat split; auto. exists b. auto.
Qed.

Lemma holds_snapshot_step (postId : nat) (origin w w' : world) :
  holds_snapshot postId origin w -> kept w w' -> holds_snapshot postId origin w'.
Proof.
  intros (C & P & N & Co & b & G & S) (F' & P' & N' & Co' & B').
  unfold holds_snapshot, calm in *.
  split; [ congruence | ]. split; [ congruence | ]. split; [ congruence | ].
  split; [ congruence | ]. exists b. split; [ congruence | exact S ].
Qed.

Lemma holds_snapshot_backup (postId : nat) (origin w : world) :
  holds_snapshot postId origin w -> holds_backup postId origin w.
Proof. intros (C & _ & _ & Co & B). repeat split; auto. Qed.

Lemma runs_write (postId : nat) (origin w : world) (s : statement) :
  holds_backup postId origin w ->
  runs (execute s) w (fun _ w' => holds_backup postId origin w').
Proof.
  intros (C & Co & b & G & S).
  eexists _, _. split; [ apply execute_calm; exact C | ].
  destruct s; simpl; repeat split; auto; try (exists b; auto).
Qed.

Lemma runs_insertSchema (postId : nat) (schema schemaType : json) (o : InsertOptions)
  (origin w : world) :
  holds_snapshot postId origin w ->
  runs (insertSchema config postId schema schemaType o) w
    (fun _ w' => holds_backup postId origin w').
Proof.
  intros H. unfold insertSchema.
  eapply runs_bind; [ apply runs_previewInsertion; apply H | ].
  intros preview w1 K1. cbv beta in K1.
  pose proof (holds_snapshot_step _ _ _ _ H K1) as H1.
  destruct (negb _); [ apply runs_ret, holds_snapshot_backup; exact H1 | ].
  destruct (dflt true (dryRun o)); [ apply runs_ret, holds_snapshot_backup; exact H1 | ].
  eapply runs_bind; [ apply runs_getConnection; apply H1 | ].
  intros [] w2 K2. pose proof (holds_snapshot_step _ _ _ _ H1 K2) as H2.
  eapply runs_bind; [ apply runs_convert | ].
  intros rm w3 K3. cbv beta in K3. pose proof (holds_snapshot_step _ _ _ _ H2 K3) as H3.
  eapply runs_bind with (Q1 := fun _ w' => holds_backup postId origin w').
  - destruct (dflt true (backup o)); [ | apply runs_ret, holds_snapshot_backup; exact H3 ].
    eapply runs_bind; [ apply runs_backupMeta; apply H3 | ].
    intros r w4 (C4 & P4 & N4 & Co4 & b & G & S). apply runs_ret.
    destruct H3 as (C3 & P3 & N3 & Co3 & _).
    repeat split; [ exact C4 | congruence | ].
    exists b. split; [ exact G | ]. rewrite S. apply snapshot_same; assumption.
  - intros [] w4 H4. apply runs_try_catch.
    destruct (is_str _ _).
    + eapply runs_bind; [ apply runs_write; exact H4 | ].
      intros res w5 H5. apply runs_ret. exact H5.
    + eapply runs_bind; [ apply runs_write; exact H4 | ].
      intros res w5 H5. apply runs_ret. exact H5.
Qed.

(** *** The restoring loop *)

Lemma runs_restore (postId : nat) (metas : list SchemaMeta) :
  forall w, calm w ->
  runs (restore postId metas) w
    (fun _ w' => calm w' /\ collation w' = collation w
                 /\ postmeta w' = postmeta w
                                  ++ inserted (next_meta_id w) postId (filter schema_meta metas)).
Proof.
  induction metas as [|m rest IH]; intros w Hc; simpl.
  - apply runs_ret. repeat split; auto. symmetry. apply app_nil_r.
  - unfold schema_meta at 1.
    destruct (JsStr.startsWith (key m) "rank_math_schema_") eqn:E.
    + eapply runs_bind with
        (Q1 := fun _ w' => calm w' /\ collation w' = collation w
                           /\ postmeta w' = postmeta w ++ [mkMeta (next_meta_id w) postId (key m) (value m)]
                           /\ next_meta_id w' = S (next_meta_id w)).
      * eapply runs_bind.
        -- eexists _, _. split; [ apply execute_calm; exact Hc | ].
           simpl. instantiate (1 := fun _ w' => calm w' /\ collation w' = collation w
                           /\ postmeta w' = postmeta w ++ [mkMeta (next_meta_id w) postId (key m) (value m)]
                           /\ next_meta_id w' = S (next_meta_id w)).
           repeat split; auto.
        -- intros res w1 H1. apply runs_ret. exact H1.
      * intros [] w1 (C1 & Co1 & P1 & N1).
        eapply runs_weaken; [ apply IH; exact C1 | ].
        intros [] w2 (C2 & Co2 & P2). repeat split; [ exact C2 | congruence | ].
        rewrite P2, P1, N1. simpl. rewrite <- app_assoc. reflexivity.
    + eapply runs_bind with (Q1 := fun _ w' => w' = w); [ apply runs_ret; reflexivity | ].
      intros [] w1 ->. apply IH. exact Hc.
Qed.

Lemma runs_rollback (postId : nat) (origin w : world) :
  holds_backup postId origin w ->
  runs (rollback config postId) w
    (fun r w' =>
       get r "success" = JBool true
       /\ exists n,
            postmeta w'
            = filter (fun row => negb (selects w (DeleteMetaLike postId "rank_math_schema_%") row))
                (postmeta w)
              ++ inserted n postId (filter schema_meta (snapshot postId origin))).
Proof.
  intros (C & Co & b & G & S). unfold rollback.
  eapply runs_bind with (Q1 := fun found w' => found = Some b /\ w' = w).
  { eexists _, _. split; [ reflexivity | ]. rewrite G. auto. }
  intros found w0 [-> ->].
  eapply runs_bind; [ apply runs_getConnection; exact C | ].
  intros [] w1 K1.
  eapply runs_bind with
    (Q1 := fun _ w' => calm w' /\ collation w' = collation w
             /\ postmeta w'
                = filter (fun row => negb (selects w (DeleteMetaLike postId "rank_math_schema_%") row))
                    (postmeta w)).
  { destruct K1 as (F1 & P1 & N1 & Co1 & B1).
    eexists _, _. split; [ apply execute_calm; unfold calm in *; congruence | ].
    unfold calm in *.
    cbn [run_statement snd fst set_postmeta add_event postmeta collation db_faults].
    split; [ congruence | ]. split; [ exact Co1 | ].
    rewrite P1. apply filter_ext. intros row.
    rewrite (selects_collation w (add_event (Issued (DeleteMetaLike postId "rank_math_schema_%")) w1)
               (DeleteMetaLike postId "rank_math_schema_%") row Co1).
    reflexivity. }
  intros res w2 (C2 & Co2 & P2).
  eapply runs_bind; [ apply runs_restore; exact C2 | ].
  intros [] w3 (C3 & Co3 & P3). apply runs_ret.
  split; [ reflexivity | ].
  exists (next_meta_id w2). rewrite P3, P2, S. reflexivity.
Qed.

End Client.
End RollbackFacts.

Module RollbackLaw.
Import Json Db StoreVocabulary BackupVocabulary RollbackVocabulary StoreFacts BackupFacts RollbackFacts.
Local Open Scope list_scope.

(** *** LIKE patterns that end in [%] *)

Lemma like_any (ceq : ascii -> ascii -> bool) (s : list ascii) :
  like ceq [ "%"%char ] s = true.
Proof.
  induction s as [|x s IH].
  - reflexivity.
  - change (like ceq [ "%"%char ] (x :: s))
      with (like ceq [] (x :: s) || like ceq [ "%"%char ] s).
    rewrite IH. apply orb_true_r.
Qed.

Lemma like_prefix (ceq : ascii -> ascii -> bool) (p s : list ascii) :
  (forall c, ceq c c = true) ->
  JsStr.prefix_chars p s = true -> like ceq (p ++ [ "%"%char ]) s = true.
Proof.
  intros Hr. revert s. induction p as [|c p IH]; intros s H.
  - apply like_any.
  - destruct s as [|x s]; [ discriminate | ].
    simpl in H. apply andb_true_iff in H. destruct H as [E H].
    apply Ascii.eqb_eq in E. subst x. specialize (IH s H).
    change ((c :: p) ++ [ "%"%char ]) with (c :: (p ++ [ "%"%char ])).
    destruct (Ascii.eqb c "%"%char) eqn:E1.
    + change (like ceq (c :: p ++ [ "%"%char ]) (c :: s))
        with ((if Ascii.eqb c "%"%char
               then fix star (t : list ascii) : bool :=
                      like ceq (p ++ [ "%"%char ]) t
                      || match t with [] => false | _ :: t' => star t' end
               else if Ascii.eqb c "_"%char
                    then fun t => match t with [] => false | _ :: t' => like ceq (p ++ [ "%"%char ]) t' end
                    else fun t => match t with [] => false | y :: t' => ceq c y && like ceq (p ++ [ "%"%char ]) t' end)
              (c :: s)).
      rewrite E1. cbn beta iota. 
      destruct s as [|y s']; cbn beta iota; rewrite IH; rewrite ?orb_true_r; reflexivity.
    + change (like ceq (c :: p ++ [ "%"%char ]) (c :: s))
        with ((if Ascii.eqb c "%"%char
               then fix star (t : list ascii) : bool :=
                      like ceq (p ++ [ "%"%char ]) t
                      || match t with [] => false | _ :: t' => star t' end
               else if Ascii.eqb c "_"%char
                    then fun t => match t with [] => false | _ :: t' => like ceq (p ++ [ "%"%char ]) t' end
                    else fun t => match t with [] => false | y :: t' => ceq c y && like ceq (p ++ [ "%"%char ]) t' end)
              (c :: s)).
      rewrite E1. destruct (Ascii.eqb c "_"%char); cbn beta iota.
      * exact IH.
      * rewrite Hr, IH. reflexivity.
Qed.

Lemma prefix_chars_app (a b s : list ascii) :
  JsStr.prefix_chars (a ++ b) s = true -> JsStr.prefix_chars a s = true.
Proof.
  revert s. induction a as [|c a IH]; intros s H; [ reflexivity | ].
  destruct s as [|x s]; [ discriminate | ].
  simpl in *. apply andb_true_iff in H. destruct H as [E H].
  rewrite E. apply IH. exact H.
Qed.

Lemma schema_row_selected (postId : nat) (w : world) (r : MetaRow) :
  reflexive_collation w -> is_schema_row postId r = true ->
  selects w (DeleteMetaLike postId "rank_math_schema_%") r = true
  /\ selects w (SelectMetaLike postId "rank_math%") r = true.
Proof.
  intros Hr H. unfold is_schema_row in H. apply andb_true_iff in H. destruct H as [Hp Hk].
  unfold JsStr.startsWith in Hk.
  unfold selects, key_like. rewrite Hp. cbn [andb]. split.
  - change (JsStr.chars "rank_math_schema_%")
      with (JsStr.chars "rank_math_schema_" ++ [ "%"%char ]).
    apply like_prefix; [ exact Hr | exact Hk ].
  - change (JsStr.chars "rank_math%") with (JsStr.chars "rank_math" ++ [ "%"%char ]).
    apply like_prefix; [ exact Hr | ].
    apply prefix_chars_app with (b := JsStr.chars "_schema_"). exact Hk.
Qed.

(** *** Rows before and after *)

Lemma filter_none {A : Type} (P Q : A -> bool) (l : list A) :
  (forall x, P x = true -> Q x = false) -> filter P (filter Q l) = [].
Proof.
  intros H. induction l as [|x l IH]; simpl; auto.
  destruct (Q x) eqn:E; simpl; auto.
  destruct (P x) eqn:E1; auto. rewrite (H x E1) in E. discriminate.
Qed.

Lemma filter_filter {A : Type} (P Q : A -> bool) (l : list A) :
  filter P (filter Q l) = filter (fun x => Q x && P x) l.
Proof.
  induction l as [|x l IH]; simpl; auto.
  destruct (Q x); simpl; [ destruct (P x); rewrite IH; reflexivity | exact IH ].
Qed.

Lemma filter_map {A B : Type} (f : A -> B) (P : B -> bool) (l : list A) :
  filter P (map f l) = map f (filter (fun x => P (f x)) l).
Proof.
  induction l as [|x l IH]; simpl; auto. destruct (P (f x)); simpl; rewrite IH; reflexivity.
Qed.

Lemma inserted_rows (n postId : nat) (metas : list SchemaMeta) :
  forallb schema_meta metas = true ->
  map (fun r => (meta_key r, meta_value r)) (filter (is_schema_row postId) (inserted n postId metas))
  = map (fun m => (key m, value m)) metas.
Proof.
  revert n. induction metas as [|m rest IH]; intros n H; simpl; auto.
  simpl in H. apply andb_true_iff in H. destruct H as [Hm Hrest].
  unfold is_schema_row at 1. simpl. rewrite Nat.eqb_refl.
  unfold schema_meta in Hm. rewrite Hm. simpl. rewrite IH; auto.
Qed.

Lemma forallb_filter {A : Type} (P : A -> bool) (l : list A) : forallb P (filter P l) = true.
Proof.
  induction l as [|x l IH]; simpl; auto. destruct (P x) eqn:E; simpl; rewrite ?E; auto.
Qed.

Lemma snapshot_schema_rows (postId : nat) (w : world) :
  reflexive_collation w ->
  map (fun m => (key m, value m)) (filter schema_meta (snapshot postId w))
  = schema_rows postId w.
Proof.
  intros Hr. unfold snapshot, schema_rows.
  rewrite filter_map, map_map, filter_filter.
  rewrite (filter_ext_in _ (is_schema_row postId) (postmeta w)); [ reflexivity | ].
  intros r _.
  destruct (is_schema_row postId r) eqn:E.
  - destruct (schema_row_selected postId w r Hr E) as [_ S]. rewrite S.
    unfold is_schema_row in E. apply andb_true_iff in E. destruct E as [_ E].
    unfold schema_meta. cbn [key andb]. exact E.
  - unfold is_schema_row in E. unfold schema_meta. cbn [key].
    unfold selects. destruct (Nat.eqb (post_id r) postId); cbn [andb] in *.
    + rewrite E. apply andb_false_r.
    + reflexivity.
Qed.

Section Client.
Variable config : Config.

(** C4.  In a store that answers every statement, a backup followed by
    an insert or update and by a rollback returns at each step and leaves
    the post with the schema rows, keys and serialized values, that it had
    before. *)
Theorem rollback_law (postId : nat) (schema schemaType : json) (o : InsertOptions)
  (w : world) :
  calm w -> reflexive_collation w ->
  rollback_restores config postId schema schemaType o w.
Proof.
  intros Hc Hr.
  destruct (runs_backupMeta config postId w Hc) as (r1 & w1 & E1 & H1).
  assert (H1' : holds_snapshot postId w1 w1).
  { destruct H1 as (C1 & P1 & N1 & Co1 & b & G & S).
    repeat split; auto. exists b. split; [ exact G | ].
    rewrite S. symmetry. apply snapshot_same; assumption. }
  destruct (runs_insertSchema config postId schema schemaType o w1 w1 H1')
    as (r2 & w2 & E2 & H2).
  destruct (runs_rollback config postId w1 w2 H2) as (r3 & w3 & E3 & S3 & n & P3).
  exists r1, w1, r2, w2, r3, w3. repeat split; auto.
  destruct H1 as (C1 & P1 & N1 & Co1 & _). destruct H2 as (C2 & Co2 & _).
  assert (Hr2 : reflexive_collation w2) by (intros c; rewrite Co2, Co1; apply Hr).
  assert (Hr1 : reflexive_collation w1) by (intros c; rewrite Co1; apply Hr).
  unfold schema_rows at 1. rewrite P3, filter_app, map_app.
  rewrite filter_none.
  - simpl. rewrite inserted_rows by apply forallb_filter.
    rewrite (snapshot_schema_rows postId w1 Hr1).
    unfold schema_rows. rewrite P1. reflexivity.
  - intros r Hrow. destruct (schema_row_selected postId w2 r Hr2 Hrow) as [S _].
    rewrite S. reflexivity.
Qed.
End Client.

End RollbackLaw.

Module GraphFacts.
Import Json Db GraphVocabulary.
Local Open Scope list_scope.

Lemma fold_collect (graph : list json) :
  forall schemas current,
    fold_left (collect JNull) graph (schemas, current)
    = (schemas ++ map tag (stored_entities graph),
       last_claim (List.length schemas) current (stored_entities graph)).
Proof.
  induction graph as [|item graph IH]; intros schemas current.
  - simpl. rewrite app_nil_r. reflexivity.
  - cbn [fold_left stored_entities filter]. unfold collect at 2.
    destruct (skipped item); cbn [negb].
    + apply IH.
    + fold (stored_entities graph). unfold claims_primary. cbn [Json.truthy].
      fold (preferred item).
      assert (L : List.length (schemas ++ [(item, extractSchemaType item)]) - 1
                  = List.length schemas)
        by (rewrite length_app; simpl; lia).
      rewrite L.
      assert (E : (if preferred item
                   then (schemas ++ [(item, extractSchemaType item)], List.length schemas)
                   else (schemas ++ [(item, extractSchemaType item)], current))
                  = (schemas ++ [tag item], if preferred item then List.length schemas else current))
        by (destruct (preferred item); reflexivity).
      rewrite E, IH. cbn [map last_claim].
      rewrite <- app_assoc, length_app. cbn [app List.length].
      replace (List.length schemas + 1) with (S (List.length schemas)) by lia.
      reflexivity.
Qed.

Lemma last_claim_none (items : list json) :
  forall start current,
    forallb (fun i => negb (preferred i)) items = true ->
    last_claim start current items = current.
Proof.
  induction items as [|i rest IH]; intros start current H; [ reflexivity | ].
  simpl in H. apply andb_true_iff in H. destruct H as [Hi Hr].
  simpl. apply negb_true_iff in Hi. rewrite Hi. apply IH. exact Hr.
Qed.

Lemma last_claim_app (pre items : list json) :
  forall start current,
    last_claim start current (pre ++ items)
    = last_claim (start + List.length pre) (last_claim start current pre) items.
Proof.
  induction pre as [|i pre IH]; intros start current.
  - simpl. rewrite Nat.add_0_r. reflexivity.
  - simpl. rewrite IH. f_equal. lia.
Qed.

Lemma last_claim_last (pre post : list json) (item : json) (start current : nat) :
  preferred item = true ->
  forallb (fun i => negb (preferred i)) post = true ->
  last_claim start current (pre ++ item :: post) = start + List.length pre.
Proof.
  intros P N. rewrite last_claim_app. simpl. rewrite P. apply last_claim_none. exact N.
Qed.

Lemma primaryFirst_head (pre post : list (json * json)) (x : json * json) :
  hd_error (primaryFirst (pre ++ x :: post) (List.length pre)) = Some x.
Proof.
  unfold primaryFirst. destruct pre as [|y pre]; [ reflexivity | ].
  cbn [List.length Nat.ltb Nat.leb].
  change (S (List.length pre)) with (List.length (y :: pre)).
  rewrite nth_error_app2 by lia. rewrite Nat.sub_diag. reflexivity.
Qed.

(** C1.  With no [primaryType], the entity stored as primary is the last
    stored entity of a preferred type, not the first; with no entity of a
    preferred type it is the first stored entity. *)
Theorem primary_is_the_last_preferred_entity (graph : list json) :
  (forall pre item post,
     stored_entities graph = pre ++ item :: post ->
     preferred item = true ->
     forallb (fun i => negb (preferred i)) post = true ->
     primary_of graph JNull = Some item)
  /\ (forallb (fun i => negb (preferred i)) (stored_entities graph) = true ->
      primary_of graph JNull = hd_error (stored_entities graph)).
Proof.
  unfold primary_of, splitGraph. rewrite fold_collect. cbn [app List.length]. split.
  - intros pre item post E P N. rewrite E.
    rewrite (last_claim_last pre post item 0 0 P N). cbn [Nat.add].
    rewrite map_app. cbn [map]. rewrite <- (length_map tag pre).
    rewrite primaryFirst_head. reflexivity.
  - intros N. rewrite (last_claim_none _ 0 0 N). unfold primaryFirst. cbn [Nat.ltb Nat.leb].
    destruct (stored_entities graph); reflexivity.
Qed.

(** C1, at a graph with a Service followed by an Article: the Article,
    the second entity of a preferred type, is handed over as primary, and
    its row is the one stored with the primary metadata. *)
Lemma service_then_article_stores_the_article_as_primary :
  primary_of [ service_entity; article_entity ] JNull = Some article_entity
  /\ primary_keys
       (snd (insertFromGraph example_config 7 service_then_article commit example_store))
     = [ "rank_math_schema_Article" ].
Proof. split; vm_compute; reflexivity. Qed.

End GraphFacts.

Module ReferenceFacts.
Import Json GraphVocabulary ReferenceVocabulary AiSchema RepairFacts.
Local Open Scope list_scope.

(** C3 (as stated) fails: the Service builder embeds the business in
    [provider], with its name and address next to the [@id] under which
    the business builder files the standalone entity. *)
Lemma service_provider_embeds_the_business :
  graph_references_pure service_and_business = false
  /\ names_entity service_and_business (get (Service.generate example_page example_org Options.none) "provider") = true
  /\ pure_reference (get (Service.generate example_page example_org Options.none) "provider") = false
  /\ get (get (Service.generate example_page example_org Options.none) "provider") "name"
     = JStr "Acme Roofing".
Proof. repeat split; vm_compute; reflexivity. Qed.

(** C3 (as amended).  The repair pass returns for every list without a
    [null] entry, and in its output every reference field it looks after
    that carries an [@id] is a pure reference. *)
Theorem references_are_pure_after_repair (schemas : list json) (orgInfo : OrgInfo.t)
  (pageData : PageData.t) :
  forallb not_nullish schemas = true ->
  exists out,
    ensureProviderAddresses schemas orgInfo pageData = Returned out
    /\ forallb (fun item => references_clean (get item "schema")) out = true.
Proof.
  intros N. unfold ensureProviderAddresses.
  match goal with
  | |- context [mapM ?f schemas] =>
      destruct (mapM_total f not_nullish (fun x => repairItem_total _ orgInfo pageData x) schemas N)
        as [out E]
  end.
  exists out. split; [ exact E | ].
  eapply mapM_forall; [ | exact E ].
  intros x y. apply repairItem_clean.
Qed.

(** The amended C3 at a generated Service item whose provider repeats
    the name of the business. *)
Lemma references_are_pure_after_repair_example :
  forallb not_nullish generated_service = true
  /\ exists out,
       ensureProviderAddresses generated_service example_org example_page = Returned out
       /\ forallb (fun item => references_clean (get item "schema")) out = true.
Proof.
  split; [ reflexivity | ].
  apply (references_are_pure_after_repair generated_service example_org example_page).
  reflexivity.
Defined.

End ReferenceFacts.

Module StoreLaws.
Import Json Db GraphVocabulary.
Import StoreVocabulary BackupVocabulary RollbackVocabulary StoreFacts DryFacts BackupFacts.
Import CoverFacts RollbackFacts RollbackLaw.
Local Open Scope list_scope.

(** C4 at the example store, for a committed insert of a Service schema. *)
Lemma rollback_law_example :
  calm example_store
  /\ reflexive_collation example_store
  /\ rollback_restores example_config 7 service_entity JUndef commit example_store.
Proof.
  assert (C : calm example_store) by reflexivity.
  assert (R : reflexive_collation example_store) by (intros c; apply Ascii.eqb_refl).
  split; [ exact C | ]. split; [ exact R | ].
  apply (rollback_law example_config 7 service_entity JUndef commit example_store C R).
Defined.

(** The committed write of the example does change the schema rows of the
    post, so the rollback has something to undo. *)
Lemma committed_write_changes_the_rows :
  schema_rows 7 (snd (insertSchema example_config 7 service_entity JUndef commit example_store))
  <> schema_rows 7 example_store.
Proof. vm_compute. discriminate. Qed.

Section Client.
Variable config : Config.


(** C6, what holds of the code.  When the caller leaves [dryRun] out or
    passes a value that JavaScript takes for true, none of the six
    operations issues an INSERT, UPDATE or DELETE, and the rows stay as
    they are, in every state of the store; a result that reports success
    is marked as a dry run, for the two aggregate operations every
    per-schema result. *)
Theorem dry_run_is_the_default (postId metaId : nat) (schema schemaType : json)
  (schemas : list (json * json)) (graphSchema : json) (snippetType : string)
  (o : InsertOptions) :
  dry o ->
  (always no_db_write (insertSchema config postId schema schemaType o)
   /\ yields (insertSchema config postId schema schemaType o) describes)
  /\ (always no_db_write (insertMultipleSchemas config postId schemas o)
      /\ yields (insertMultipleSchemas config postId schemas o) describes_each)
  /\ (always no_db_write (insertFromGraph config postId graphSchema o)
      /\ yields (insertFromGraph config postId graphSchema o) describes_each)
  /\ (always no_db_write (deleteMeta metaId o)
      /\ yields (deleteMeta metaId o) describes)
  /\ (always no_db_write (deleteAllSchemas config postId o)
      /\ yields (deleteAllSchemas config postId o) describes)
  /\ (always no_db_write (setRichSnippetType postId snippetType o)
      /\ yields (setRichSnippetType postId snippetType o) describes).
Proof.
  intros D.
  split; [ split; [ apply quiet_insertSchema | apply describes_insertSchema ]; exact D | ].
  split; [ split; [ apply quiet_insertMultipleSchemas | apply describes_insertMultipleSchemas ];
           exact D | ].
  split; [ split; [ apply quiet_insertFromGraph | apply describes_insertFromGraph ]; exact D | ].
  split; [ split; [ apply quiet_deleteMeta | apply describes_deleteMeta ]; exact D | ].
  split; [ split; [ apply quiet_deleteAllSchemas | apply describes_deleteAllSchemas ]; exact D | ].
  split; [ apply quiet_setRichSnippetType | apply describes_setRichSnippetType ]; exact D.
Qed.
End Client.



(** C6 (as stated) fails.  The destructuring default [dryRun = true]
    stands in for [undefined] only: a caller who passes [null], [0] or the
    empty string did not pass [dryRun: false], yet [if (dryRun)] fails and
    the operation commits.  At the example store [insertSchema] inserts a
    row and reports success without a dry-run mark, [deleteAllSchemas]
    deletes the schema row of the post, and [setRichSnippetType] inserts
    its row. *)
Lemma falsy_dry_run_commits :
  not_false dryRun_null /\ not_false dryRun_zero /\ not_false dryRun_empty
  /\ (let run := insertSchema example_config 7 service_entity JUndef dryRun_null
                   example_store in
      existsb is_write_event (trace (snd run)) = true
      /\ map meta_key (postmeta (snd run))
         = [ "rank_math_schema_FAQPage"; "rank_math_title"; "rank_math_schema_Service" ]
      /\ match fst run with
         | Returned r =>
             get r "success" = JBool true /\ get r "action" = JStr "INSERT"
             /\ get r "dryRun" = JUndef
         | Thrown _ => False
         end)
  /\ (let run := deleteAllSchemas example_config 7 dryRun_zero example_store in
      existsb is_write_event (trace (snd run)) = true
      /\ map meta_key (postmeta (snd run)) = [ "rank_math_title" ])
  /\ (let run := setRichSnippetType 7 "article" dryRun_empty example_store in
      existsb is_write_event (trace (snd run)) = true
      /\ map meta_key (postmeta (snd run))
         = [ "rank_math_schema_FAQPage"; "rank_math_title"; "rank_math_rich_snippet" ]).
Proof.
  split; [ discriminate | ]. split; [ discriminate | ]. split; [ discriminate | ].
  vm_compute. repeat split; reflexivity.
Qed.

(** C6 at the example store, with no options passed. *)
Lemma dry_run_is_the_default_example :
  dry defaults
  /\ no_db_write example_store
       (snd (insertSchema example_config 7 service_entity JUndef defaults example_store))
  /\ no_db_write example_store
       (snd (deleteAllSchemas example_config 7 defaults example_store)).
Proof.
  assert (D : dry defaults) by (left; reflexivity).
  pose proof (dry_run_is_the_default example_config 7 1 service_entity JUndef []
                service_then_article "Service" defaults D)
    as ((H1 & _) & _ & _ & _ & (H5 & _) & _).
  split; [ exact D | ]. split; [ apply H1 | apply H5 ].
Defined.

End StoreLaws.

Module StoreEdges.
Import JsStr Json Db StoreVocabulary BackupVocabulary RollbackVocabulary EdgeVocabulary.
Import StoreFacts BackupFacts RollbackFacts RollbackLaw.
Local Open Scope list_scope.
Local Open Scope db_scope.

Lemma filter_nothing {A : Type} (P : A -> bool) (l : list A) :
  (forall x, In x l -> P x = false) -> filter P l = [].
Proof.
  induction l as [|x l IH]; intros H; simpl; auto.
  rewrite (H x (or_introl eq_refl)). apply IH. intros y Hy. apply H. right. exact Hy.
Qed.

(** What [execute] answers, when it answers. *)
Lemma execute_answer (s : statement) (w : world) (r : QueryResult) (w' : world) :
  execute s w = (Returned r, w') ->
  exists w0,
    postmeta w0 = postmeta w /\ posts w0 = posts w /\ collation w0 = collation w
    /\ next_meta_id w0 = next_meta_id w
    /\ (r, w') = run_statement s w0.
Proof.
  unfold execute, bind, modify, pop_db_fault. simpl.
  destruct (db_faults w) as [|[m|] fs]; simpl.
  - destruct (run_statement s (add_event (Issued s) w)) as [r0 w0] eqn:E.
    intros [= <- <-]. exists (add_event (Issued s) w). repeat split; auto.
  - discriminate.
  - destruct (run_statement s (set_db_faults fs (add_event (Issued s) w))) as [r0 w0] eqn:E.
    intros [= <- <-]. exists (set_db_faults fs (add_event (Issued s) w)). repeat split; auto.
Qed.

Lemma previewInsertion_post_missing (postId : nat) (schema schemaType : json)
  (primary : bool) (w : world) (r : json) (w' : world) :
  post_missing postId w ->
  previewInsertion postId schema schemaType primary w = (Returned r, w') ->
  r = JObj [ ("success", JBool false);
             ("error", JStr ("Post ID " ++ of_nat postId ++ " not found")) ].
Proof.
  intros Hm. unfold previewInsertion.
  match goal with
  | |- bind ?m ?f w = _ -> _ =>
      destruct (bind_cases m f w) as [(a & w1 & E1 & ->) | (e & w1 & E1 & ->)];
        [ | discriminate ]
  end.
  pose proof (quiet_getConnection w) as Q. rewrite E1 in Q. simpl in Q.
  destruct Q as (_ & _ & P1 & _).
  match goal with
  | |- bind ?m ?f w1 = _ -> _ =>
      destruct (bind_cases m f w1) as [(found & w2 & E2 & ->) | (e & w2 & E2 & ->)];
        [ | discriminate ]
  end.
  destruct (execute_answer _ _ _ _ E2) as (w0 & _ & P0 & _ & _ & R).
  simpl in R. injection R as -> _.
  cbn [postRows]. rewrite filter_nothing.
  - intros [= <- _]. reflexivity.
  - intros x Hx. rewrite P0, P1 in Hx. apply Nat.eqb_neq. apply Hm. exact Hx.
Qed.

Section Client.
Variable config : Config.

(** X1.  When no post has the given ID, [insertSchema] leaves the rows as
    they are and issues no INSERT, UPDATE or DELETE, whatever the options
    say; the result it returns is the failure [Post ID n not found], and
    it does return when the database rejects nothing. *)
Theorem insertSchema_post_not_found (postId : nat) (schema schemaType : json)
  (o : InsertOptions) (w : world) :
  post_missing postId w ->
  no_db_write w (snd (insertSchema config postId schema schemaType o w))
  /\ (forall r w', insertSchema config postId schema schemaType o w = (Returned r, w') ->
        r = JObj [ ("success", JBool false);
                   ("error", JStr ("Post ID " ++ of_nat postId ++ " not found")) ])
  /\ (calm w -> exists r w', insertSchema config postId schema schemaType o w = (Returned r, w')).
Proof.
  intros Hm.
  assert (S : forall preview w1,
             previewInsertion postId schema
               (or_value schemaType (extractSchemaType schema)) (dflt false (isPrimary o)) w
             = (Returned preview, w1) ->
             insertSchema config postId schema schemaType o w = (Returned preview, w1)).
  { intros preview w1 E. unfold insertSchema, bind. rewrite E.
    rewrite (previewInsertion_post_missing _ _ _ _ _ _ _ Hm E). reflexivity. }
  destruct (previewInsertion postId schema
              (or_value schemaType (extractSchemaType schema)) (dflt false (isPrimary o)) w)
    as [[preview|e] w1] eqn:E.
  - rewrite (S _ _ eq_refl). split; [ | split ].
    + pose proof (quiet_previewInsertion postId schema
                    (or_value schemaType (extractSchemaType schema))
                    (dflt false (isPrimary o)) w) as Q.
      rewrite E in Q. exact Q.
    + intros r w' [= <- <-]. eapply previewInsertion_post_missing; eauto.
    + intros _. eexists _, _. reflexivity.
  - assert (T : insertSchema config postId schema schemaType o w = (Thrown e, w1))
      by (unfold insertSchema, bind; rewrite E; reflexivity).
    rewrite T. split; [ | split ].
    + pose proof (quiet_previewInsertion postId schema
                    (or_value schemaType (extractSchemaType schema))
                    (dflt false (isPrimary o)) w) as Q.
      rewrite E in Q. exact Q.
    + discriminate.
    + intros Hc. destruct (runs_previewInsertion postId schema
                    (or_value schemaType (extractSchemaType schema))
                    (dflt false (isPrimary o)) w Hc) as (a & w2 & E2 & _).
      rewrite E in E2. discriminate.
Qed.
End Client.

Lemma deleteMeta_meta_missing (metaId : nat) (o : InsertOptions) (w : world) :
  meta_missing metaId w -> deleteMeta metaId o w = deleteMeta metaId defaults w.
Proof.
  intros Hm. unfold deleteMeta, bind.
  destruct (getConnection w) as [[[] | e] w1] eqn:E1; [ | reflexivity ].
  pose proof (quiet_getConnection w) as Q. rewrite E1 in Q. simpl in Q.
  destruct Q as (P1 & _).
  destruct (execute (SelectMetaById metaId) w1) as [[found | e] w2] eqn:E2; [ | reflexivity ].
  destruct (execute_answer _ _ _ _ E2) as (w0 & P0 & _ & _ & _ & R).
  simpl in R. injection R as -> _. cbn [metaRows].
  rewrite filter_nothing; [ reflexivity | ].
  intros x Hx. rewrite P0, P1 in Hx. apply Nat.eqb_neq. apply Hm. exact Hx.
Qed.

(** X2.  When no meta row has the given ID, [deleteMeta] leaves the rows
    as they are and issues no write, whatever the options say; the result
    it returns is the failure [Meta ID n not found], and it does return
    when the database rejects nothing. *)
Theorem deleteMeta_not_found (metaId : nat) (o : InsertOptions) (w : world) :
  meta_missing metaId w ->
  no_db_write w (snd (deleteMeta metaId o w))
  /\ (forall r w', deleteMeta metaId o w = (Returned r, w') ->
        r = JObj [ ("success", JBool false);
                   ("error", JStr ("Meta ID " ++ of_nat metaId ++ " not found")) ])
  /\ (calm w -> exists r w', deleteMeta metaId o w = (Returned r, w')).
Proof.
  intros Hm. rewrite (deleteMeta_meta_missing metaId o w Hm). split; [ | split ].
  - apply quiet_deleteMeta. left. reflexivity.
  - intros r w'. unfold deleteMeta, bind.
    destruct (getConnection w) as [[[] | e] w1] eqn:E1; [ | discriminate ].
    pose proof (quiet_getConnection w) as Q. rewrite E1 in Q. simpl in Q.
    destruct Q as (P1 & _).
    destruct (execute (SelectMetaById metaId) w1) as [[found | e] w2] eqn:E2; [ | discriminate ].
    destruct (execute_answer _ _ _ _ E2) as (w0 & P0 & _ & _ & _ & R).
    simpl in R. injection R as -> _. cbn [metaRows].
    rewrite filter_nothing.
    + intros [= <- _]. reflexivity.
    + intros x Hx. rewrite P0, P1 in Hx. apply Nat.eqb_neq. apply Hm. exact Hx.
  - intros Hc.
    assert (R : runs (deleteMeta metaId defaults) w (fun _ _ => True)).
    { unfold deleteMeta.
      eapply runs_bind; [ apply runs_getConnection; exact Hc | ].
      intros [] w1 K1.
      eapply runs_bind; [ apply runs_execute_read; [ eapply kept_calm; eauto | reflexivity ] | ].
      intros found w2 K2. destruct (metaRows found); apply runs_ret; exact I. }
    destruct R as (r & w' & E & _). eauto.
Qed.

Lemma other_rows_after_delete (postId : nat) (pattern : string) (w : world) (rows : list MetaRow) :
  filter (fun r => negb (Nat.eqb (post_id r) postId))
    (filter (fun r => negb (selects w (DeleteMetaLike postId pattern) r)) rows)
  = filter (fun r => negb (Nat.eqb (post_id r) postId)) rows.
Proof.
  rewrite filter_filter. apply filter_ext. intros r. unfold selects.
  destruct (Nat.eqb (post_id r) postId); cbn [andb negb]; [ apply andb_false_r | reflexivity ].
Qed.

Section Removal.
Variable config : Config.

(** X3.  With [dryRun: false], on a database that rejects nothing,
    [deleteAllSchemas] returns success, reports [canRollback] as the
    [backup] option (on unless switched off), leaves the post without
    schema rows and the rows of the other posts as they were. *)
Theorem deleteAllSchemas_commit (postId : nat) (o : InsertOptions) (w : world) :
  calm w -> reflexive_collation w -> dryRun o = JBool false ->
  exists r w',
    deleteAllSchemas config postId o w = (Returned r, w')
    /\ get r "success" = JBool true
    /\ get r "canRollback" = or_default (JBool true) (backup o)
    /\ schema_rows postId w' = []
    /\ other_rows postId w' = other_rows postId w.
Proof.
  intros Hc Hr D.
  assert (R : runs (deleteAllSchemas config postId o) w
                (fun r w' =>
                   get r "success" = JBool true
                   /\ get r "canRollback" = or_default (JBool true) (backup o)
                   /\ postmeta w'
                      = filter (fun row => negb (selects w (DeleteMetaLike postId "rank_math_schema_%") row))
                          (postmeta w))).
  { unfold deleteAllSchemas. replace (dflt true (dryRun o)) with false by (rewrite D; reflexivity).
    eapply runs_bind; [ apply runs_getConnection; exact Hc | ].
    intros [] w1 K1.
    eapply runs_bind; [ apply runs_execute_read; [ eapply kept_calm; eauto | reflexivity ] | ].
    intros found w2 K2. cbv beta in K2.
    assert (K : kept w w2) by (eapply kept_trans; eauto).
    eapply runs_bind with
      (Q1 := fun _ w' => calm w' /\ postmeta w' = postmeta w /\ collation w' = collation w).
    - destruct K as (F & P & N & Co & B).
      destruct (dflt true (backup o)).
      + eapply runs_bind; [ apply runs_backupMeta; unfold calm in *; congruence | ].
        intros r w3 (C3 & P3 & N3 & Co3 & _). apply runs_ret.
        split; [ exact C3 | ]. split; congruence.
      + apply runs_ret. unfold calm in *. split; [ congruence | ]. split; congruence.
    - intros [] w3 (C3 & P3 & Co3).
      eapply runs_bind with
        (Q1 := fun _ w' =>
                 postmeta w'
                 = filter (fun row => negb (selects w (DeleteMetaLike postId "rank_math_schema_%") row))
                     (postmeta w)).
      + eexists _, _. split; [ apply execute_calm; exact C3 | ].
        cbn [run_statement snd fst set_postmeta add_event postmeta collation db_faults].
        rewrite P3. apply filter_ext. intros row.
        rewrite (selects_collation w (add_event (Issued (DeleteMetaLike postId "rank_math_schema_%")) w3)
                   (DeleteMetaLike postId "rank_math_schema_%") row Co3).
        reflexivity.
      + intros res w4 P4. apply runs_ret. split; [ reflexivity | ]. split; [ reflexivity | exact P4 ]. }
  destruct R as (r & w' & E & S & CR & P).
  exists r, w'. split; [ exact E | ]. split; [ exact S | ]. split; [ exact CR | ]. split.
  - unfold schema_rows. rewrite P. rewrite filter_none; [ reflexivity | ].
    intros x Hx. destruct (schema_row_selected postId w x Hr Hx) as [Sx _]. rewrite Sx. reflexivity.
  - unfold other_rows. rewrite P. apply other_rows_after_delete.
Qed.
End Removal.

End StoreEdges.

Module UpsertFacts.
Import JsStr Json Db StoreVocabulary BackupVocabulary RollbackVocabulary EdgeVocabulary.
Import UpsertVocabulary StoreFacts BackupFacts RollbackFacts RollbackLaw StoreEdges.
Local Open Scope list_scope.
Local Open Scope db_scope.

Lemma or_value_idem (a b : json) : or_value (or_value a b) b = or_value a b.
Proof. unfold or_value. destruct (Json.truthy a) eqn:E; [ rewrite E | ]; destruct (Json.truthy b); reflexivity. Qed.

Lemma filter_existsb {A B : Type} (P : A -> bool) (l : list A) (a b : B) :
  match filter P l with [] => a | _ :: _ => b end = if existsb P l then b else a.
Proof.
  induction l as [|x l IH]; simpl; auto. destruct (P x); simpl; auto.
Qed.

Lemma text_eq_refl (ceq : ascii -> ascii -> bool) (l : list ascii) :
  (forall c, ceq c c = true) -> text_eq ceq l l = true.
Proof. intros H. induction l as [|c l IH]; simpl; auto. rewrite H, IH. reflexivity. Qed.

Lemma runs_getConnection_posts (w : world) :
  calm w -> runs getConnection w (fun _ w' => kept w w' /\ posts w' = posts w).
Proof.
  intros Hc. unfold runs, getConnection. destruct (connected w) eqn:E.
  - exists tt, w. split; [ reflexivity | ]. split; [ apply kept_refl | reflexivity ].
  - unfold bind, pop_db_fault. rewrite Hc. simpl.
    eexists tt, _. split; [ reflexivity | ]. repeat split.
Qed.

(** The preview of a post that exists, in a store that answers. *)
Lemma runs_preview_found (postId : nat) (schema schemaType : json) (primary : bool)
  (w : world) :
  calm w -> post_exists postId w = true ->
  runs (previewInsertion postId schema schemaType primary) w
    (fun r w' =>
       kept w w'
       /\ get r "success" = JBool true
       /\ get r "action"
          = JStr (if has_row postId (metaKeyOf (or_value schemaType (extractSchemaType schema))) w
                  then "UPDATE" else "INSERT")).
Proof.
  intros Hc Hp. unfold previewInsertion.
  eapply runs_bind; [ apply runs_getConnection_posts; exact Hc | ].
  intros [] w1 [K1 P1].
  eapply runs_bind with
    (Q1 := fun found w' => kept w w'
                           /\ postRows found = filter (fun r => Nat.eqb (ID r) postId) (posts w)).
  { eexists _, _. split; [ apply execute_calm; eapply kept_calm; eauto | ].
    cbn [run_statement snd fst postRows add_event posts].
    split; [ | rewrite P1; reflexivity ].
    eapply kept_trans; [ exact K1 | repeat split ]. }
  intros found w2 [K2 F].
  destruct (postRows found) as [|post rest] eqn:Ef.
  { exfalso. unfold post_exists in Hp.
    assert (X : (if existsb (fun r => Nat.eqb (ID r) postId) (posts w) then true else false) = false).
    { rewrite <- (filter_existsb (fun r => Nat.eqb (ID r) postId) (posts w) false true).
      rewrite <- F. reflexivity. }
    rewrite Hp in X. discriminate. }
  eapply runs_bind; [ apply runs_convert | ].
  intros rm w3 K3. cbv beta in K3.
  assert (K : kept w w3) by (eapply kept_trans; eauto).
  set (k := metaKeyOf (or_value schemaType (extractSchemaType schema))).
  eapply runs_bind with
    (Q1 := fun e w' => kept w w'
                       /\ metaRows e = filter (selects w (SelectMetaByKey postId k)) (postmeta w)).
  { eexists _, _. split; [ apply execute_calm; eapply kept_calm; eauto | ].
    destruct K as (Fk & Pk & Nk & Ck & Bk).
    cbn [run_statement snd fst metaRows add_event postmeta collation].
    split; [ repeat split; assumption | ].
    rewrite Pk. apply filter_ext. intros row.
    apply (selects_collation w (add_event (Issued (SelectMetaByKey postId k)) w3)
             (SelectMetaByKey postId k) row Ck). }
  intros e w4 [K4 Me]. apply runs_ret.
  split; [ exact K4 | ]. split; [ reflexivity | ].
  cbn [get lookup String.eqb Ascii.eqb Bool.eqb]. rewrite Me.
  unfold has_row. f_equal. apply filter_existsb.
Qed.

Lemma selects_by_key_value (w : world) (postId : nat) (k v : string) (r : MetaRow) :
  selects w (SelectMetaByKey postId k) (with_value v r) = selects w (SelectMetaByKey postId k) r.
Proof. reflexivity. Qed.

Lemma existsb_map_same {A : Type} (P : A -> bool) (f : A -> A) (l : list A) :
  (forall x, P (f x) = P x) -> existsb P (map f l) = existsb P l.
Proof. intros H. induction l as [|x l IH]; simpl; auto. rewrite H, IH. reflexivity. Qed.

Lemma existsb_same {A : Type} (P Q : A -> bool) (l : list A) :
  (forall x, P x = Q x) -> existsb P l = existsb Q l.
Proof. intros H. induction l as [|x l IH]; simpl; auto. rewrite H, IH. reflexivity. Qed.

Lemma other_rows_after_update (postId : nat) (P : MetaRow -> bool) (v : string)
  (rows : list MetaRow) :
  (forall r, P r = true -> post_id r = postId) ->
  filter (fun r => negb (Nat.eqb (post_id r) postId))
    (map (fun r => if P r then with_value v r else r) rows)
  = filter (fun r => negb (Nat.eqb (post_id r) postId)) rows.
Proof.
  intros H. induction rows as [|r rows IH]; simpl; auto.
  destruct (P r) eqn:E.
  - cbn [with_value post_id]. rewrite (H r E), Nat.eqb_refl. cbn [negb]. exact IH.
  - destruct (negb (Nat.eqb (post_id r) postId)); rewrite IH; reflexivity.
Qed.

Section Client.
Variable config : Config.

(** X4.  With [dryRun: false], on a database that rejects nothing,
    [insertSchema] on an existing post returns success.  When the post
    already has a row under the key of the schema type it reports UPDATE
    and the table keeps its length; otherwise it reports INSERT and the
    table has one row more.  Afterwards the post has a row under that key,
    and the rows of the other posts are as they were. *)
Theorem insertSchema_upserts (postId : nat) (schema schemaType : json) (o : InsertOptions)
  (w : world) :
  calm w -> reflexive_collation w -> post_exists postId w = true -> dryRun o = JBool false ->
  let k := metaKeyOf (or_value schemaType (extractSchemaType schema)) in
  exists r w',
    insertSchema config postId schema schemaType o w = (Returned r, w')
    /\ get r "success" = JBool true
    /\ get r "action" = JStr (if has_row postId k w then "UPDATE" else "INSERT")
    /\ List.length (postmeta w')
       = List.length (postmeta w) + (if has_row postId k w then 0 else 1)
    /\ has_row postId k w' = true
    /\ other_rows postId w' = other_rows postId w.
Proof.
  intros Hc Hr Hp D k.
  assert (R : runs (insertSchema config postId schema schemaType o) w
                (fun r w' =>
                   get r "success" = JBool true
                   /\ get r "action" = JStr (if has_row postId k w then "UPDATE" else "INSERT")
                   /\ collation w' = collation w
                   /\ (if has_row postId k w
                       then exists v,
                              postmeta w'
                              = map (fun r => if selects w (UpdateMetaByKey v postId k) r
                                              then with_value v r else r) (postmeta w)
                       else exists i v, postmeta w' = postmeta w ++ [mkMeta i postId k v]))).
  { unfold insertSchema. replace (dflt true (dryRun o)) with false by (rewrite D; reflexivity).
    eapply runs_bind; [ apply runs_preview_found; assumption | ].
    intros preview w1 (K1 & S1 & A1). rewrite or_value_idem in A1. fold k in A1.
    rewrite S1. cbn [Json.truthy negb].
    eapply runs_bind; [ apply runs_getConnection; eapply kept_calm; eauto | ].
    intros [] w2 K2.
    eapply runs_bind; [ apply runs_convert | ].
    intros rm w3 K3. cbv beta in K3.
    assert (K : kept w w3) by (eapply kept_trans; [ | exact K3 ]; eapply kept_trans; eauto).
    eapply runs_bind with
      (Q1 := fun _ w' => calm w' /\ postmeta w' = postmeta w /\ collation w' = collation w
                         /\ next_meta_id w' = next_meta_id w).
    - destruct K as (F & P & N & Co & B).
      destruct (dflt true (backup o)).
      + eapply runs_bind; [ apply runs_backupMeta; unfold calm in *; congruence | ].
        intros r w4 (C4 & P4 & N4 & Co4 & _). apply runs_ret.
        split; [ exact C4 | ]. repeat split; congruence.
      + apply runs_ret. unfold calm in *. repeat split; congruence.
    - intros [] w4 (C4 & P4 & Co4 & N4). apply runs_try_catch.
      rewrite A1. fold k.
      destruct (has_row postId k w) eqn:Hk; cbn [is_str String.eqb Ascii.eqb Bool.eqb].
      + eapply runs_bind with
          (Q1 := fun _ w' =>
                   collation w' = collation w
                   /\ postmeta w'
                      = map (fun r => if selects w (UpdateMetaByKey (phpSerialize rm) postId k) r
                                      then with_value (phpSerialize rm) r else r) (postmeta w)).
        * eexists _, _. split; [ apply execute_calm; exact C4 | ].
          cbn [run_statement snd fst set_postmeta add_event postmeta collation].
          split; [ exact Co4 | ]. rewrite P4. apply map_ext. intros row.
          rewrite (selects_collation w
                     (add_event (Issued (UpdateMetaByKey (phpSerialize rm) postId k)) w4)
                     (UpdateMetaByKey (phpSerialize rm) postId k) row Co4).
          reflexivity.
        * intros res w5 [Co5 P5]. apply runs_ret.
          split; [ reflexivity | ]. split; [ reflexivity | ]. split; [ exact Co5 | ].
          exists (phpSerialize rm). exact P5.
      + eapply runs_bind with
          (Q1 := fun _ w' =>
                   collation w' = collation w
                   /\ postmeta w' = postmeta w ++ [mkMeta (next_meta_id w) postId k (phpSerialize rm)]).
        * eexists _, _. split; [ apply execute_calm; exact C4 | ].
          cbn [run_statement snd fst set_postmeta add_event postmeta collation next_meta_id].
          split; [ exact Co4 | ]. rewrite P4, N4. reflexivity.
        * intros res w5 [Co5 P5]. apply runs_ret.
          split; [ reflexivity | ]. split; [ reflexivity | ]. split; [ exact Co5 | ].
          exists (next_meta_id w), (phpSerialize rm). exact P5. }
  destruct R as (r & w' & E & S & A & Co & P).
  exists r, w'. split; [ exact E | ]. split; [ exact S | ]. split; [ exact A | ].
  destruct (has_row postId k w) eqn:Hk.
  - destruct P as [v P]. split; [ rewrite P, length_map; lia | ]. split.
    + unfold has_row in *. rewrite P.
      rewrite existsb_map_same.
      * rewrite (existsb_same _ (selects w (SelectMetaByKey postId k))); [ exact Hk | ].
        intros row. apply selects_collation. exact Co.
      * intros x. destruct (selects w (UpdateMetaByKey v postId k) x); reflexivity.
    + unfold other_rows. rewrite P. apply other_rows_after_update.
      intros x Hx. unfold selects in Hx. apply andb_true_iff in Hx. destruct Hx as [Hx _].
      apply Nat.eqb_eq. exact Hx.
  - destruct P as (i & v & P). split; [ rewrite P, length_app; simpl; lia | ]. split.
    + unfold has_row. rewrite P, existsb_app. cbn [existsb].
      unfold selects at 2. cbn [post_id]. rewrite Nat.eqb_refl. unfold key_is. cbn [meta_key].
      rewrite text_eq_refl; [ apply orb_true_r | ].
      intros c. rewrite Co. apply Hr.
    + unfold other_rows. rewrite P, filter_app. cbn [filter post_id].
      rewrite Nat.eqb_refl. cbn [negb]. apply app_nil_r.
Qed.
End Client.
End UpsertFacts.

Module BackupStoreFacts.
Import JsStr Json Db StoreVocabulary BackupVocabulary RollbackVocabulary EdgeVocabulary.
Import UpsertVocabulary BackupStoreVocabulary.
Import StoreFacts BackupFacts RollbackFacts RollbackLaw StoreEdges UpsertFacts.
Local Open Scope list_scope.
Local Open Scope db_scope.

(** *** The cap on persisted backups *)

Lemma length_obj_put {A : Type} (k : nat) (v : A) (m : list (nat * A)) :
  List.length (obj_put k v m) <= S (List.length m).
Proof.
  induction m as [|[k' v'] m IH]; simpl; [ lia | ].
  destruct (Nat.eqb k' k); simpl; [ lia | ].
  destruct (Nat.ltb k k'); simpl; lia.
Qed.

Lemma length_fold_obj_put {A : Type} (l acc : list (nat * A)) :
  List.length (fold_left (fun a e => obj_put (fst e) (snd e) a) l acc)
  <= List.length acc + List.length l.
Proof.
  revert acc. induction l as [|e l IH]; intros acc; simpl; [ lia | ].
  specialize (IH (obj_put (fst e) (snd e) acc)).
  pose proof (length_obj_put (fst e) (snd e) acc). lia.
Qed.

Lemma length_prune (entries : list (nat * Backup)) :
  List.length (prune entries) <= MAX_BACKUPS.
Proof.
  unfold prune. destruct (Nat.ltb MAX_BACKUPS (List.length entries)) eqn:E.
  - unfold fromEntries.
    pose proof (length_fold_obj_put (firstn MAX_BACKUPS (sort_newest entries)) []) as H.
    pose proof (firstn_le_length MAX_BACKUPS (sort_newest entries)) as H0.
    change (List.length (@nil (nat * Backup))) with 0 in H. lia.
  - apply Nat.ltb_ge in E. exact E.
Qed.

Lemma str_get_set {A : Type} (k : string) (v : A) (m : list (string * A)) :
  str_get k (str_set k v m) = Some v.
Proof.
  induction m as [|[k' v'] m IH]; simpl.
  - rewrite String.eqb_refl. reflexivity.
  - destruct (String.eqb k' k) eqn:E; simpl; rewrite E; auto.
Qed.

Section Client.
Variable config : Config.

Lemma saveBackupsToFile_persisted (w : world) :
  exists merged,
    persistedBackups (snd (saveBackupsToFile config w))
    = str_set (storageKey config) (prune merged) (persistedBackups w).
Proof.
  unfold saveBackupsToFile, bind, modify, pop_fs_fault. simpl.
  destruct (fs_faults w) as [|[m|] fs]; simpl; eexists; reflexivity.
Qed.

(** X5.  After [saveBackupsToFile], and so after every [backupMeta] that
    returns, the persisted backups of the client's storage key number at
    most [MAX_BACKUPS]. *)
Theorem persisted_backups_are_capped (postId : nat) (w : world) :
  List.length (persisted_for (storageKey config) (snd (saveBackupsToFile config w)))
  <= MAX_BACKUPS
  /\ (forall r w', backupMeta config postId w = (Returned r, w') ->
        List.length (persisted_for (storageKey config) w') <= MAX_BACKUPS).
Proof.
  assert (S : forall w0,
             List.length (persisted_for (storageKey config) (snd (saveBackupsToFile config w0)))
             <= MAX_BACKUPS).
  { intros w0. unfold persisted_for.
    destruct (saveBackupsToFile_persisted w0) as [merged ->].
    rewrite str_get_set. apply length_prune. }
  split; [ apply S | ].
  intros r w'. unfold backupMeta, bind.
  destruct (getExistingSchemas postId w) as [[existing|e] w1]; [ | discriminate ].
  destruct (now w1) as [[t|e] w2]; [ | discriminate ].
  unfold modify at 1.
  match goal with
  | |- context [saveBackupsToFile config ?w0] =>
      specialize (S w0); destruct (saveBackupsToFile config w0) as [[[]|e] w3]
  end; [ | discriminate ].
  unfold ret. intros [= _ <-]. exact S.
Qed.

(** *** Rolling back to the backup that is found *)

Lemma other_rows_inserted (n postId : nat) (metas : list SchemaMeta) :
  filter (fun r => negb (Nat.eqb (post_id r) postId)) (inserted n postId metas) = [].
Proof.
  revert n. induction metas as [|m rest IH]; intros n; simpl; auto.
  rewrite Nat.eqb_refl. cbn [negb]. apply IH.
Qed.

Lemma runs_and {A : Type} (m : M A) (w : world) (Q : A -> world -> Prop)
  (R : world -> world -> Prop) :
  runs m w Q -> always R m -> runs m w (fun a w' => Q a w' /\ R w w').
Proof.
  intros (a & w' & E & H) Hr. exists a, w'. split; [ exact E | ]. split; [ exact H | ].
  specialize (Hr w). rewrite E in Hr. exact Hr.
Qed.

Lemma same_backups_refl (w : world) : same_backups w w.
Proof. split; reflexivity. Qed.

Lemma same_backups_trans (a b c : world) :
  same_backups a b -> same_backups b c -> same_backups a c.
Proof. unfold same_backups. intuition congruence. Qed.

Lemma same_backups_getConnection : always same_backups getConnection.
Proof.
  intros w. unfold getConnection. destruct (connected w); [ apply same_backups_refl | ].
  unfold bind, pop_db_fault. destruct (db_faults w) as [|[m|] fs]; split; reflexivity.
Qed.

Lemma same_backups_execute (s : statement) : always same_backups (execute s).
Proof.
  intros w. unfold execute, bind, modify, pop_db_fault. simpl.
  destruct (db_faults w) as [|[m|] fs]; simpl; try (split; reflexivity);
    destruct s; split; reflexivity.
Qed.

Lemma same_backups_restore (postId : nat) (metas : list SchemaMeta) :
  always same_backups (restore postId metas).
Proof.
  induction metas as [|m rest IH]; simpl.
  - apply always_ret. exact same_backups_refl.
  - apply always_bind; [ exact same_backups_trans | | intros _; exact IH ].
    destruct (startsWith (key m) "rank_math_schema_").
    + apply always_bind; [ exact same_backups_trans | apply same_backups_execute | ].
      intros _. apply always_ret. exact same_backups_refl.
    + apply always_ret. exact same_backups_refl.
Qed.

Lemma same_backups_rollback (postId : nat) : always same_backups (rollback config postId).
Proof.
  unfold rollback.
  apply always_bind; [ exact same_backups_trans | intros w; apply same_backups_refl | ].
  intros [b|]; [ | apply always_ret; exact same_backups_refl ].
  apply always_bind; [ exact same_backups_trans | exact same_backups_getConnection | intros _ ].
  apply always_bind; [ exact same_backups_trans | apply same_backups_execute | intros _ ].
  apply always_bind; [ exact same_backups_trans | apply same_backups_restore | intros _ ].
  apply always_ret. exact same_backups_refl.
Qed.

Lemma runs_rollback_found (postId : nat) (b : Backup) (w : world) :
  calm w -> available_backup config postId w = Some b ->
  runs (rollback config postId) w
    (fun r w' =>
       calm w' /\ collation w' = collation w
       /\ get r "success" = JBool true
       /\ get r "restored" = num (List.length (backup_rows b))
       /\ exists n,
            postmeta w'
            = filter (fun row => negb (selects w (DeleteMetaLike postId "rank_math_schema_%") row))
                (postmeta w)
              ++ inserted n postId (filter schema_meta (schemas b))).
Proof.
  intros C G. unfold rollback.
  eapply runs_bind with (Q1 := fun found w' => found = Some b /\ w' = w).
  { eexists _, _. split; [ reflexivity | ]. split; [ exact G | reflexivity ]. }
  intros found w0 [-> ->].
  eapply runs_bind; [ apply runs_getConnection; exact C | ].
  intros [] w1 K1.
  eapply runs_bind with
    (Q1 := fun _ w' => calm w' /\ collation w' = collation w
             /\ postmeta w'
                = filter (fun row => negb (selects w (DeleteMetaLike postId "rank_math_schema_%") row))
                    (postmeta w)).
  { destruct K1 as (F1 & P1 & N1 & Co1 & B1).
    eexists _, _. split; [ apply execute_calm; unfold calm in *; congruence | ].
    unfold calm in *.
    cbn [run_statement snd fst set_postmeta add_event postmeta collation db_faults].
    split; [ congruence | ]. split; [ exact Co1 | ].
    rewrite P1. apply filter_ext. intros row.
    rewrite (selects_collation w (add_event (Issued (DeleteMetaLike postId "rank_math_schema_%")) w1)
               (DeleteMetaLike postId "rank_math_schema_%") row Co1).
    reflexivity. }
  intros res w2 (C2 & Co2 & P2).
  eapply runs_bind; [ apply runs_restore; exact C2 | ].
  intros [] w3 (C3 & Co3 & P3). apply runs_ret.
  split; [ exact C3 | ]. split; [ congruence | ]. split; [ reflexivity | ].
  split; [ unfold backup_rows; rewrite length_map; reflexivity | ].
  exists (next_meta_id w2). rewrite P3, P2. reflexivity.
Qed.

(** What one rollback from a found backup leaves. *)
Lemma rollback_found (postId : nat) (b : Backup) (w : world) :
  calm w -> reflexive_collation w -> available_backup config postId w = Some b ->
  exists r w',
    rollback config postId w = (Returned r, w')
    /\ calm w' /\ reflexive_collation w' /\ available_backup config postId w' = Some b
    /\ get r "success" = JBool true
    /\ get r "restored" = num (List.length (backup_rows b))
    /\ schema_rows postId w' = backup_rows b
    /\ other_rows postId w' = other_rows postId w
    /\ same_backups w w'.
Proof.
  intros C Hr G.
  destruct (runs_and _ _ _ _ (runs_rollback_found postId b w C G) (same_backups_rollback postId))
    as (r & w' & E & (C' & Co & S & N & n & P) & [B1 B2]).
  exists r, w'. split; [ exact E | ]. split; [ exact C' | ].
  split; [ intros c; rewrite Co; apply Hr | ].
  split; [ unfold available_backup, loadBackupFromFile in *; rewrite B1, B2; exact G | ].
  split; [ exact S | ]. split; [ exact N | ]. split; [ | split; [ | split; assumption ] ].
  - unfold schema_rows. rewrite P, filter_app, map_app. rewrite filter_none.
    + simpl. rewrite inserted_rows by apply forallb_filter. reflexivity.
    + intros x Hx. destruct (schema_row_selected postId w x Hr Hx) as [Sx _].
      rewrite Sx. reflexivity.
  - unfold other_rows. rewrite P, filter_app, other_rows_after_delete, other_rows_inserted.
    apply app_nil_r.
Qed.

(** X6.  On a database that rejects nothing, [rollback] of a post with a
    backup (the client's own, else the persisted one) returns success,
    reports the number of schema rows of the backup as restored, and leaves
    the post with exactly the schema rows of the backup; the rows of the
    other posts and the backups stay as they were.  Without a backup it
    returns the failure [No backup found for post ID n] and changes
    nothing. *)
Theorem rollback_installs_the_backup (postId : nat) (w : world) :
  calm w -> reflexive_collation w ->
  match available_backup config postId w with
  | Some b =>
      exists r w',
        rollback config postId w = (Returned r, w')
        /\ get r "success" = JBool true
        /\ get r "restored" = num (List.length (backup_rows b))
        /\ schema_rows postId w' = backup_rows b
        /\ other_rows postId w' = other_rows postId w
        /\ same_backups w w'
  | None => rollback config postId w = (Returned (no_backup postId), w)
  end.
Proof.
  intros C Hr. destruct (available_backup config postId w) as [b|] eqn:G.
  - destruct (rollback_found postId b w C Hr G) as (r & w' & E & _ & _ & _ & H).
    exists r, w'. split; [ exact E | exact H ].
  - unfold rollback, bind, gets. unfold available_backup in G. rewrite G. reflexivity.
Qed.

(** X7.  A rollback keeps the backup it used: on a database that rejects
    nothing a second [rollback] of the same post succeeds as well and
    leaves the schema rows of the post as the first one left them. *)
Theorem rollback_is_repeatable (postId : nat) (b : Backup) (w : world) :
  calm w -> reflexive_collation w -> available_backup config postId w = Some b ->
  exists r1 w1 r2 w2,
    rollback config postId w = (Returned r1, w1)
    /\ rollback config postId w1 = (Returned r2, w2)
    /\ get r2 "success" = JBool true
    /\ schema_rows postId w2 = schema_rows postId w1
    /\ other_rows postId w2 = other_rows postId w.
Proof.
  intros C Hr G.
  destruct (rollback_found postId b w C Hr G)
    as (r1 & w1 & E1 & C1 & Hr1 & G1 & _ & _ & S1 & O1 & _).
  destruct (rollback_found postId b w1 C1 Hr1 G1)
    as (r2 & w2 & E2 & _ & _ & _ & Ok & _ & S2 & O2 & _).
  exists r1, w1, r2, w2. split; [ exact E1 | ]. split; [ exact E2 | ].
  split; [ exact Ok | ]. split; congruence.
Qed.

End Client.
End BackupStoreFacts.

Module SnippetFacts.
Import JsStr Json Db StoreVocabulary BackupVocabulary RollbackVocabulary EdgeVocabulary.
Import UpsertVocabulary SnippetVocabulary.
Import StoreFacts BackupFacts RollbackFacts RollbackLaw StoreEdges UpsertFacts.
Local Open Scope list_scope.
Local Open Scope db_scope.

Lemma hd_filter_map {A : Type} (P : A -> bool) (f : A -> A) (l : list A) (x : A) (rest : list A) :
  (forall y, P (f y) = P y) -> filter P l = x :: rest ->
  hd_error (filter P (map f l)) = Some (f x).
Proof.
  intros H. induction l as [|y l IH]; simpl; [ discriminate | ].
  rewrite H. destruct (P y); [ intros [= -> _]; reflexivity | exact IH ].
Qed.

Lemma filter_existsb_false {A : Type} (P : A -> bool) (l : list A) :
  filter P l = [] -> existsb P l = false.
Proof.
  intros H. pose proof (filter_existsb P l false true) as X. rewrite H in X. 
  destruct (existsb P l); [ discriminate | reflexivity ].
Qed.

Lemma filter_existsb_true {A : Type} (P : A -> bool) (l : list A) (x : A) (rest : list A) :
  filter P l = x :: rest -> existsb P l = true.
Proof.
  intros H. pose proof (filter_existsb P l false true) as X. rewrite H in X.
  destruct (existsb P l); [ reflexivity | discriminate ].
Qed.

(** X8.  With [dryRun: false], on a database that rejects nothing,
    [setRichSnippetType] returns success; it reports UPDATE and keeps the
    length of the table when the post has a [rank_math_rich_snippet] row,
    INSERT with one row more otherwise, and afterwards the first such row
    of the post holds the given snippet type. *)
Theorem setRichSnippetType_commit (postId : nat) (snippetType : string) (o : InsertOptions)
  (w : world) :
  calm w -> reflexive_collation w -> dryRun o = JBool false ->
  exists r w',
    setRichSnippetType postId snippetType o w = (Returned r, w')
    /\ get r "success" = JBool true
    /\ get r "action"
       = JStr (if has_row postId "rank_math_rich_snippet" w then "UPDATE" else "INSERT")
    /\ first_value postId "rank_math_rich_snippet" w' = Some snippetType
    /\ List.length (postmeta w')
       = List.length (postmeta w) + (if has_row postId "rank_math_rich_snippet" w then 0 else 1).
Proof.
  intros Hc Hr D.
  set (k := "rank_math_rich_snippet").
  assert (R : runs (setRichSnippetType postId snippetType o) w
                (fun r w' =>
                   get r "success" = JBool true
                   /\ get r "action" = JStr (if has_row postId k w then "UPDATE" else "INSERT")
                   /\ collation w' = collation w
                   /\ match filter (selects w (SelectMetaByKey postId k)) (postmeta w) with
                      | r0 :: _ =>
                          postmeta w'
                          = map (fun x => if selects w (UpdateMetaById snippetType (meta_id r0)) x
                                          then with_value snippetType x else x) (postmeta w)
                      | [] => exists i, postmeta w' = postmeta w ++ [mkMeta i postId k snippetType]
                      end)).
  { unfold setRichSnippetType. replace (dflt true (dryRun o)) with false by (rewrite D; reflexivity). fold k.
    eapply runs_bind; [ apply runs_getConnection; exact Hc | ].
    intros [] w1 K1.
    eapply runs_bind with
      (Q1 := fun e w' => kept w w'
                         /\ metaRows e = filter (selects w (SelectMetaByKey postId k)) (postmeta w)).
    { destruct K1 as (Fk & Pk & Nk & Ck & Bk).
      eexists _, _. split; [ apply execute_calm; unfold calm in *; congruence | ].
      cbn [run_statement snd fst metaRows add_event postmeta collation].
      split; [ repeat split; assumption | ].
      rewrite Pk. apply filter_ext. intros row.
      apply (selects_collation w (add_event (Issued (SelectMetaByKey postId k)) w1)
               (SelectMetaByKey postId k) row Ck). }
    intros e w2 [K2 Me]. rewrite Me.
    destruct K2 as (F2 & P2 & N2 & Co2 & B2).
    assert (C2 : calm w2) by (unfold calm in *; congruence).
    destruct (filter (selects w (SelectMetaByKey postId k)) (postmeta w)) as [|r0 rest] eqn:Ef.
    - eapply runs_bind with
        (Q1 := fun _ w' => collation w' = collation w
                           /\ postmeta w' = postmeta w ++ [mkMeta (next_meta_id w) postId k snippetType]).
      + eexists _, _. split; [ apply execute_calm; exact C2 | ].
        cbn [run_statement snd fst set_postmeta add_event postmeta collation next_meta_id].
        split; [ exact Co2 | ]. rewrite P2, N2. reflexivity.
      + intros res w3 [Co3 P3]. apply runs_ret.
        split; [ reflexivity | ]. split.
        * unfold has_row. rewrite (filter_existsb_false _ _ Ef). reflexivity.
        * split; [ exact Co3 | ]. exists (next_meta_id w). exact P3.
    - eapply runs_bind with
        (Q1 := fun _ w' =>
                 collation w' = collation w
                 /\ postmeta w'
                    = map (fun x => if selects w (UpdateMetaById snippetType (meta_id r0)) x
                                    then with_value snippetType x else x) (postmeta w)).
      + eexists _, _. split; [ apply execute_calm; exact C2 | ].
        cbn [run_statement snd fst set_postmeta add_event postmeta collation].
        split; [ exact Co2 | ]. rewrite P2. reflexivity.
      + intros res w3 [Co3 P3]. apply runs_ret.
        split; [ reflexivity | ]. split.
        * unfold has_row. rewrite (filter_existsb_true _ _ _ _ Ef). reflexivity.
        * split; [ exact Co3 | exact P3 ]. }
  destruct R as (r & w' & E & S & A & Co & P).
  exists r, w'. split; [ exact E | ]. split; [ exact S | ]. split; [ exact A | ].
  assert (Sel : forall row, selects w' (SelectMetaByKey postId k) row
                            = selects w (SelectMetaByKey postId k) row)
    by (intros row; apply selects_collation; exact Co).
  unfold first_value. fold k. rewrite (filter_ext _ _ Sel).
  destruct (filter (selects w (SelectMetaByKey postId k)) (postmeta w)) as [|r0 rest] eqn:Ef.
  - destruct P as [i P]. unfold has_row. fold k. rewrite (filter_existsb_false _ _ Ef).
    rewrite P, filter_app, Ef, length_app. cbn [app filter List.length].
    unfold selects at 1. cbn [post_id]. rewrite Nat.eqb_refl. unfold key_is. cbn [meta_key].
    rewrite text_eq_refl by exact Hr. cbn [andb hd_error option_map meta_value].
    split; [ reflexivity | lia ].
  - unfold has_row. fold k. rewrite (filter_existsb_true _ _ _ _ Ef).
    rewrite P, length_map. split; [ | lia ].
    rewrite (hd_filter_map _ _ _ r0 rest); [ | | exact Ef ].
    + unfold selects at 1. rewrite Nat.eqb_refl. reflexivity.
    + intros y. destruct (selects w (UpdateMetaById snippetType (meta_id r0)) y); reflexivity.
Qed.

End SnippetFacts.

Module SplitFacts.
Import JsStr Json Db GraphVocabulary SplitVocabulary.
Local Open Scope list_scope.

Lemma fold_collect_any (primaryType : json) (graph : list json) :
  forall schemas current,
    fold_left (collect primaryType) graph (schemas, current)
    = (schemas ++ map tag (stored_entities graph),
       last_claimed primaryType (List.length schemas) current (stored_entities graph)).
Proof.
  induction graph as [|item graph IH]; intros schemas current.
  - simpl. rewrite app_nil_r. reflexivity.
  - cbn [fold_left stored_entities filter]. unfold collect at 2.
    destruct (skipped item); cbn [negb].
    + apply IH.
    + fold (stored_entities graph). fold (claims primaryType item).
      assert (L : List.length (schemas ++ [(item, extractSchemaType item)]) - 1
                  = List.length schemas)
        by (rewrite length_app; simpl; lia).
      rewrite L.
      assert (E : (if claims primaryType item
                   then (schemas ++ [(item, extractSchemaType item)], List.length schemas)
                   else (schemas ++ [(item, extractSchemaType item)], current))
                  = (schemas ++ [tag item],
                     if claims primaryType item then List.length schemas else current))
        by (destruct (claims primaryType item); reflexivity).
      rewrite E, IH. cbn [map last_claimed].
      rewrite <- app_assoc, length_app. cbn [app List.length].
      replace (List.length schemas + 1) with (S (List.length schemas)) by lia.
      reflexivity.
Qed.

Lemma splitGraph_eq (graph : list json) (primaryType : json) :
  splitGraph graph primaryType
  = primaryFirst (map tag (stored_entities graph))
      (last_claimed primaryType 0 0 (stored_entities graph)).
Proof. unfold splitGraph. rewrite fold_collect_any. reflexivity. Qed.

Lemma last_claimed_none (primaryType : json) (items : list json) :
  forall start current,
    forallb (fun i => negb (claims primaryType i)) items = true ->
    last_claimed primaryType start current items = current.
Proof.
  induction items as [|i rest IH]; intros start current H; [ reflexivity | ].
  simpl in H. apply andb_true_iff in H. destruct H as [Hi Hr].
  simpl. apply negb_true_iff in Hi. rewrite Hi. apply IH. exact Hr.
Qed.

Lemma last_claimed_app (primaryType : json) (pre items : list json) :
  forall start current,
    last_claimed primaryType start current (pre ++ items)
    = last_claimed primaryType (start + List.length pre)
        (last_claimed primaryType start current pre) items.
Proof.
  induction pre as [|i pre IH]; intros start current.
  - simpl. rewrite Nat.add_0_r. reflexivity.
  - simpl. rewrite IH. f_equal. lia.
Qed.

Lemma firstn_length_app {A : Type} (pre l : list A) : firstn (List.length pre) (pre ++ l) = pre.
Proof. induction pre as [|y pre IH]; simpl; [ reflexivity | rewrite IH; reflexivity ]. Qed.

Lemma skipn_length_app {A : Type} (pre : list A) (x : A) (post : list A) :
  skipn (S (List.length pre)) (pre ++ x :: post) = post.
Proof. induction pre as [|y pre IH]; simpl; [ reflexivity | exact IH ]. Qed.

Lemma nth_error_length_app {A : Type} (pre : list A) (x : A) (post : list A) :
  nth_error (pre ++ x :: post) (List.length pre) = Some x.
Proof. induction pre as [|y pre IH]; simpl; [ reflexivity | exact IH ]. Qed.

Lemma primaryFirst_at (pre post : list (json * json)) (x : json * json) :
  primaryFirst (pre ++ x :: post) (List.length pre) = x :: pre ++ post.
Proof.
  unfold primaryFirst. destruct (Nat.ltb 0 (List.length pre)) eqn:L.
  - rewrite nth_error_length_app, firstn_length_app, skipn_length_app. reflexivity.
  - destruct pre; [ reflexivity | discriminate ].
Qed.

(** X9.  The list [insertFromGraph] hands to [insertMultipleSchemas] holds
    the entities of the graph that are not skipped, each with its type, in
    graph order, except that at most one of them is moved to the front. *)
Theorem splitGraph_moves_one_entity (graph : list json) (primaryType : json) :
  splitGraph graph primaryType = map tag (stored_entities graph)
  \/ exists pre x post,
       stored_entities graph = pre ++ x :: post
       /\ splitGraph graph primaryType = map tag (x :: pre ++ post).
Proof.
  rewrite splitGraph_eq.
  set (stored := stored_entities graph). set (i := last_claimed primaryType 0 0 stored).
  unfold primaryFirst. destruct (Nat.ltb 0 i); [ | left; reflexivity ].
  destruct (nth_error (map tag stored) i) as [x|] eqn:E; [ | left; reflexivity ].
  right. rewrite nth_error_map in E.
  destruct (nth_error stored i) as [y|] eqn:Ey; [ | discriminate ].
  injection E as <-.
  destruct (nth_error_split stored i Ey) as (pre & post & Hs & Hl).
  exists pre, y, post. split; [ exact Hs | ].
  rewrite Hs, map_app. cbn [map]. rewrite <- Hl, <- (length_map tag pre).
  rewrite firstn_length_app, skipn_length_app, map_app. reflexivity.
Qed.

(** X10.  With a non-empty string as [primaryType], the entity that
    [insertFromGraph] puts at the head of the list it hands to
    [insertMultipleSchemas], the one inserted with [isPrimary: true], is
    the last entity of that type among those not skipped; when none of
    them has that type it is the first entity not skipped.  (Whether the
    row of that entity is marked primary is then up to
    [convertToRankMathFormat], and a later entity of the same type
    overwrites the row.) *)
Theorem explicit_primary_type (graph : list json) (p : string) :
  JsStr.truthy p = true ->
  (forall pre item post,
     stored_entities graph = pre ++ item :: post ->
     of_type p item = true ->
     forallb (fun i => negb (of_type p i)) post = true ->
     primary_of graph (JStr p) = Some item)
  /\ (forallb (fun i => negb (of_type p i)) (stored_entities graph) = true ->
      primary_of graph (JStr p) = hd_error (stored_entities graph)).
Proof.
  intros T.
  assert (C : forall i, claims (JStr p) i = of_type p i).
  { intros i. unfold claims, claims_primary, of_type. cbn [Json.truthy]. rewrite T.
    destruct (extractSchemaType i); reflexivity. }
  assert (F : forall l, forallb (fun i => negb (of_type p i)) l = true ->
                        forallb (fun i => negb (claims (JStr p) i)) l = true).
  { intros l H. induction l as [|i l IH]; simpl in *; [ reflexivity | ].
    apply andb_true_iff in H. destruct H as [Hi Hl]. rewrite C, Hi, IH; auto. }
  unfold primary_of. rewrite splitGraph_eq. split.
  - intros pre item post E P N. rewrite E.
    rewrite last_claimed_app. cbn [last_claimed]. rewrite C, P.
    rewrite (last_claimed_none _ _ _ _ (F _ N)). cbn [Nat.add].
    rewrite map_app. cbn [map]. rewrite <- (length_map tag pre).
    rewrite primaryFirst_at. reflexivity.
  - intros N. rewrite (last_claimed_none _ _ 0 0 (F _ N)). unfold primaryFirst.
    cbn [Nat.ltb Nat.leb]. destruct (stored_entities graph); reflexivity.
Qed.

End SplitFacts.

Module PassFacts.
Import JsStr Json Vocabulary AddressVocabulary ReferenceVocabulary AiSchema PassVocabulary.
Import JsonFacts FieldFacts RepairFacts.
Local Open Scope list_scope.

Lemma mapM_Forall2 {A B : Type} (f : A -> outcome B) (R : A -> B -> Prop) :
  (forall x y, f x = Returned y -> R x y) ->
  forall l out, mapM f l = Returned out -> Forall2 R l out.
Proof.
  intros Hf. induction l as [|x l IH]; simpl; intros out.
  - intros [= <-]. constructor.
  - destruct (f x) as [y|] eqn:Fx; [ | discriminate ].
    destruct (mapM f l) as [ys|] eqn:Fl; [ | discriminate ].
    intros [= <-]. constructor; [ apply Hf; exact Fx | apply IH; reflexivity ].
Qed.

Lemma pass_for_out_of_reach (d : Detected) (orgInfo : OrgInfo.t) (pageData : PageData.t)
  (t s : json) :
  touched_type t = false -> pass_for d orgInfo pageData t s = s.
Proof.
  unfold touched_type, pass_for. intros H.
  repeat (apply orb_false_iff in H; destruct H as [H ?]).
  repeat match goal with E : is_str _ _ = false |- _ => rewrite E; clear E end.
  reflexivity.
Qed.

(** X11.  [ensureProviderAddresses] returns one item per item it was
    given, in the same order; an item without a schema, or with a schema
    of a type other than the six it looks at, comes back unchanged, and no
    item changes the [@type] of its schema. *)
Theorem pass_keeps_other_items (schemas : list json) (orgInfo : OrgInfo.t)
  (pageData : PageData.t) (out : list json) :
  ensureProviderAddresses schemas orgInfo pageData = Returned out ->
  Forall2 (fun item item' =>
             (out_of_reach item = true -> item' = item)
             /\ get (get item' "schema") "@type" = get (get item "schema") "@type")
    schemas out.
Proof.
  unfold ensureProviderAddresses. apply mapM_Forall2.
  intros item item'. rewrite repairItem_cases.
  destruct (not_nullish item); [ | discriminate ].
  destruct (Json.truthy (get item "schema")) eqn:T; intros [= <-].
  - assert (O : objlike item = true) by (eapply get_objlike; exact T).
    rewrite get_set_same by exact O. rewrite repairSchema_by_type. split.
    + unfold out_of_reach. rewrite T. cbn [negb orb]. intros H.
      apply negb_true_iff in H. rewrite pass_for_out_of_reach by exact H.
      apply set_fixed. apply truthy_get_prop. exact T.
    + apply pass_for_type.
  - split; [ reflexivity | reflexivity ].
Qed.

Lemma completeTelephone_other (orgInfo : OrgInfo.t) (pageData : PageData.t) (s : json)
  (k : string) :
  String.eqb "telephone" k = false -> get (completeTelephone orgInfo pageData s) k = get s k.
Proof.
  intros N. destruct (completeTelephone_cases orgInfo pageData s) as [-> | [_ ->]]; auto.
  apply get_set_other. exact N.
Qed.

Lemma pass_for_business (d : Detected) (orgInfo : OrgInfo.t) (pageData : PageData.t) (s : json) :
  is_business s = true ->
  pass_for d orgInfo pageData (get s "@type") s = business_pass d orgInfo pageData s.
Proof.
  unfold is_business, pass_for. intros H.
  destruct (is_str_cases (get s "@type") "HVACBusiness") as [[E T] | E].
  - rewrite T. reflexivity.
  - rewrite E in H. cbn [orb] in H. apply is_str_eq in H. rewrite H. reflexivity.
Qed.

Lemma complete_locality (l r c a : json) :
  objlike a = true -> get (complete l r c a) "addressLocality" = l.
Proof.
  intros O. unfold complete, fill.
  repeat match goal with |- context [if ?b then _ else _] => destruct b end;
    rewrite ?get_set_other by reflexivity; apply get_set_same; exact O.
Qed.

Lemma complete_objlike (l r c a : json) : objlike (complete l r c a) = objlike a.
Proof.
  unfold complete, fill.
  repeat match goal with |- context [if ?b then _ else _] => destruct b end;
    rewrite ?objlike_set; reflexivity.
Qed.

Lemma business_pass_address (d : Detected) (orgInfo : OrgInfo.t) (pageData : PageData.t) (s : json) :
  objlike s = true ->
  let a := get (business_pass d orgInfo pageData s) "address" in
  Json.truthy a = true
  /\ (objlike a = true ->
      JsStr.truthy (or_else (detectedCity d) (OrgInfo.name orgInfo)) = true ->
      address_populated a = true).
Proof.
  intros O a. subst a. unfold business_pass.
  rewrite completeTelephone_other by reflexivity.
  rewrite completeAddress_cases. cbv zeta.
  destruct (Json.truthy (get s "address")) eqn:T; cbn [negb].
  - destruct (negb (Json.truthy (get (get s "address") "addressLocality"))
              && negb (Json.truthy (get (get s "address") "streetAddress"))) eqn:E.
    + rewrite get_set_same by exact O. split; [ rewrite complete_truthy; exact T | ].
      rewrite complete_objlike. intros Oa L. unfold address_populated.
      rewrite complete_truthy, T, complete_locality by exact Oa.
      cbn [Json.truthy andb]. rewrite L. apply orb_true_r.
    + split; [ exact T | ]. intros _ _. unfold address_populated. rewrite T. cbn [andb].
      apply andb_false_iff in E. destruct E as [E | E]; apply negb_false_iff in E; rewrite E;
        [ apply orb_true_r | reflexivity ].
  - rewrite get_set_same by exact O. split; [ reflexivity | ].
    intros _ L. unfold address_populated.
    cbn [Json.truthy get lookup String.eqb Ascii.eqb Bool.eqb andb orb]. exact L.
Qed.

(** X12.  Every HVACBusiness or LocalBusiness schema leaves
    [ensureProviderAddresses] with an address; when that address is an
    object and the pass has a locality to fall back to (the detected city,
    else the name of the organization), it has a street or a locality. *)
Theorem businesses_get_an_address (schemas : list json) (orgInfo : OrgInfo.t)
  (pageData : PageData.t) (out : list json) :
  ensureProviderAddresses schemas orgInfo pageData = Returned out ->
  Forall (fun item =>
            let s := get item "schema" in
            is_business s = true ->
            Json.truthy (get s "address") = true
            /\ (objlike (get s "address") = true ->
                JsStr.truthy (fallback_locality orgInfo pageData) = true ->
                address_populated (get s "address") = true))
    out.
Proof.
  intros E.
  assert (F : Forall2 (fun (_ : json) item =>
                         let s := get item "schema" in
                         is_business s = true ->
                         Json.truthy (get s "address") = true
                         /\ (objlike (get s "address") = true ->
                             JsStr.truthy (fallback_locality orgInfo pageData) = true ->
                             address_populated (get s "address") = true))
                schemas out).
  { revert E. unfold ensureProviderAddresses. apply mapM_Forall2.
    intros item item'. rewrite repairItem_cases.
    destruct (not_nullish item); [ | discriminate ].
    destruct (Json.truthy (get item "schema")) eqn:T; intros [= <-]; cbv zeta.
    - assert (O : objlike item = true) by (eapply get_objlike; exact T).
      rewrite get_set_same by exact O. rewrite repairSchema_by_type.
      intros B.
      assert (B0 : is_business (get item "schema") = true).
      { unfold is_business in *. rewrite pass_for_type in B. exact B. }
      rewrite pass_for_business by exact B0.
      apply business_pass_address.
      unfold is_business in B0. apply orb_true_iff in B0.
      destruct B0 as [B0 | B0]; eapply is_str_objlike; exact B0.
    - intros B. exfalso. unfold is_business in B.
      destruct (get item "schema"); simpl in T, B; try discriminate. }
  clear E. induction F; constructor; auto.
Qed.

(** X13.  [ensureProviderAddresses] keeps the telephone of a business
    schema that has one; a missing one is filled with the phone of the
    organization, else with the phone found on the page, and stays missing
    when there is neither. *)
Theorem business_telephone (schemas : list json) (orgInfo : OrgInfo.t)
  (pageData : PageData.t) (out : list json) :
  ensureProviderAddresses schemas orgInfo pageData = Returned out ->
  Forall2 (fun item item' =>
             let s := get item "schema" in
             is_business s = true ->
             get (get item' "schema") "telephone"
             = if Json.truthy (get s "telephone") then get s "telephone"
               else if JsStr.truthy (fallback_phone orgInfo pageData)
                    then JStr (fallback_phone orgInfo pageData)
                    else get s "telephone")
    schemas out.
Proof.
  unfold ensureProviderAddresses. apply mapM_Forall2.
  intros item item'. rewrite repairItem_cases.
  destruct (not_nullish item); [ | discriminate ].
  destruct (Json.truthy (get item "schema")) eqn:T; intros [= <-]; cbv zeta; intros B.
  - assert (O : objlike item = true) by (eapply get_objlike; exact T).
    rewrite get_set_same by exact O. rewrite repairSchema_by_type.
    rewrite pass_for_business by exact B. unfold business_pass.
    assert (Os : objlike (get item "schema") = true).
    { unfold is_business in B. apply orb_true_iff in B.
      destruct B as [B | B]; eapply is_str_objlike; exact B. }
    unfold completeTelephone. rewrite completeAddress_other by reflexivity.
    fold (fallback_phone orgInfo pageData).
    destruct (Json.truthy (get (get item "schema") "telephone")) eqn:Tel; cbn [negb andb].
    + apply completeAddress_other. reflexivity.
    + destruct (JsStr.truthy (fallback_phone orgInfo pageData)).
      * apply get_set_same. rewrite completeAddress_objlike. exact Os.
      * apply completeAddress_other. reflexivity.
  - exfalso. unfold is_business in B.
    destruct (get item "schema"); simpl in T, B; discriminate.
Qed.

End PassFacts.

Module FormatFacts.
Import JsStr Json Db Vocabulary FormatVocabulary JsonFacts.
Local Open Scope list_scope.

Lemma lookup_none_keys (k : string) (ps : fields) : ~ In k (keys ps) -> lookup k ps = None.
Proof.
  induction ps as [|[k' v] ps IH]; simpl; intros H; [ reflexivity | ].
  destruct (String.eqb k' k) eqn:E.
  - apply String.eqb_eq in E. exfalso. apply H. left. exact E.
  - apply IH. intros X. apply H. right. exact X.
Qed.

Lemma lookup_fold_assign (k : string) (l : fields) :
  NoDup (keys l) ->
  forall acc,
    lookup k (fold_left (fun a e => assign (fst e) (snd e) a) l acc)
    = match lookup k l with Some v => Some v | None => lookup k acc end.
Proof.
  induction l as [|[k1 v1] l IH]; intros N acc; [ reflexivity | ].
  inversion N as [|? ? Hn Hl]; subst. cbn [fold_left fst snd lookup].
  rewrite (IH Hl). destruct (String.eqb k1 k) eqn:E.
  - apply String.eqb_eq in E. subst k1.
    rewrite (lookup_none_keys k l Hn). apply lookup_assign_same.
  - destruct (lookup k l); [ reflexivity | ]. apply lookup_assign_other. exact E.
Qed.

Lemma keys_remove_incl (k : string) (ps : fields) (x : string) :
  In x (keys (remove k ps)) -> In x (keys ps).
Proof.
  induction ps as [|[k' v] ps IH]; simpl; auto.
  destruct (String.eqb k' k); simpl; intuition.
Qed.

Lemma NoDup_remove (k : string) (ps : fields) : NoDup (keys ps) -> NoDup (keys (remove k ps)).
Proof.
  induction ps as [|[k' v] ps IH]; simpl; intros N; [ constructor | ].
  inversion N as [|? ? Hn Hl]; subst.
  destruct (String.eqb k' k); [ exact Hl | ].
  simpl. constructor; [ | apply IH; exact Hl ].
  intros X. apply Hn. eapply keys_remove_incl. exact X.
Qed.

Lemma lookup_remove (k k' : string) (ps : fields) :
  NoDup (keys ps) ->
  lookup k' (remove k ps) = if String.eqb k k' then None else lookup k' ps.
Proof.
  induction ps as [|[k1 v1] ps IH]; simpl; intros N.
  - destruct (String.eqb k k'); reflexivity.
  - inversion N as [|? ? Hn Hl]; subst.
    destruct (String.eqb k1 k) eqn:E1.
    + apply String.eqb_eq in E1. subst k1.
      destruct (String.eqb k k') eqn:E2; [ | reflexivity ].
      apply String.eqb_eq in E2. subst k'. apply lookup_none_keys. exact Hn.
    + simpl. rewrite (IH Hl). destruct (String.eqb k1 k') eqn:E3; [ | reflexivity ].
      apply String.eqb_eq in E3. subst k'.
      rewrite String.eqb_sym, E1. reflexivity.
Qed.

Lemma withMetadata_get (metadata schema : json) (k : string) :
  distinct_keys schema ->
  get (withMetadata metadata schema) k
  = if String.eqb "@context" k then JUndef
    else match lookup k (ownProps schema) with
         | Some v => v
         | None => if String.eqb "metadata" k then metadata else JUndef
         end.
Proof.
  intros N. unfold withMetadata. cbn [get].
  rewrite lookup_fold_assign by (apply NoDup_remove; exact N).
  rewrite lookup_remove by exact N.
  destruct (String.eqb "@context" k) eqn:E.
  - apply String.eqb_eq in E. subst k. reflexivity.
  - destruct (lookup k (ownProps schema)); [ reflexivity | ].
    cbn [lookup]. destruct (String.eqb "metadata" k); reflexivity.
Qed.

Lemma convert_result (schema schemaType : json) (primary : bool) (w : world) :
  exists metadata w',
    convertToRankMathFormat schema schemaType primary w
    = (Returned (withMetadata metadata schema), w')
    /\ get metadata "type" = JStr "custom"
    /\ get metadata "isPrimary"
       = if primary && can_be_primary schemaType then JStr "1" else JUndef.
Proof.
  unfold convertToRankMathFormat, can_be_primary.
  set (can := match match schemaTypeOf schemaType with
                    | Missing => Own (mkType "Custom" true)
                    | found => found
                    end with
              | Own c => canBePrimary c
              | _ => false
              end).
  assert (C : can = match schemaTypeOf schemaType with
                    | Own c => canBePrimary c
                    | Inherited => false
                    | Missing => true
                    end)
    by (subst can; destruct (schemaTypeOf schemaType); reflexivity).
  rewrite <- C. clearbody can. clear C.
  unfold bind.
  destruct (primary && can).
  - unfold generateShortcodeId, ret.
    destruct (random w) as [|x rs];
      (destruct (lookup "@graph" (remove "@context" (ownProps schema))) as [g|];
       [ destruct (Json.truthy g) | ]);
      unfold modify; eexists _, _; (split; [ reflexivity | split; reflexivity ]).
  - unfold ret.
    destruct (lookup "@graph" (remove "@context" (ownProps schema))) as [g|];
      [ destruct (Json.truthy g) | ];
      unfold modify; eexists _, _; (split; [ reflexivity | split; reflexivity ]).
Qed.

Lemma lookup_has_own (v : json) (k : string) :
  has_own v k = false -> lookup k (ownProps v) = None.
Proof.
  unfold has_own. induction (ownProps v) as [|[k' x] ps IH]; simpl; [ reflexivity | ].
  intros H. apply orb_false_iff in H. destruct H as [H1 H2].
  rewrite String.eqb_sym, H1. apply IH. exact H2.
Qed.

(** X14.  [convertToRankMathFormat] drops [@context] and keeps every other
    property of the schema under its key, [metadata] apart; when the schema
    has no [metadata] of its own the metadata it gets is of type [custom]
    and carries [isPrimary] exactly when the caller asks for a primary and
    the schema type can be one. *)
Theorem rank_math_format (schema schemaType : json) (primary : bool) (w : world) :
  distinct_keys schema ->
  exists r w',
    convertToRankMathFormat schema schemaType primary w = (Returned r, w')
    /\ get r "@context" = JUndef
    /\ (forall k, k <> "@context" -> k <> "metadata" -> get r k = own schema k)
    /\ (has_own schema "metadata" = false ->
        get (get r "metadata") "type" = JStr "custom"
        /\ get (get r "metadata") "isPrimary"
           = if primary && can_be_primary schemaType then JStr "1" else JUndef).
Proof.
  intros N. destruct (convert_result schema schemaType primary w) as (m & w' & E & T & P).
  exists (withMetadata m schema), w'. split; [ exact E | ].
  split; [ rewrite withMetadata_get by exact N; reflexivity | ]. split.
  - intros k H1 H2. rewrite withMetadata_get by exact N. unfold own.
    destruct (String.eqb "@context" k) eqn:E1;
      [ apply String.eqb_eq in E1; congruence | ].
    destruct (lookup k (ownProps schema)); [ reflexivity | ].
    destruct (String.eqb "metadata" k) eqn:E2;
      [ apply String.eqb_eq in E2; congruence | reflexivity ].
  - intros M. rewrite withMetadata_get by exact N.
    rewrite (lookup_has_own schema "metadata" M).
    cbn [String.eqb Ascii.eqb Bool.eqb]. split; assumption.
Qed.
End FormatFacts.

Module BuilderFacts.
Import JsStr Json Vocabulary AddressVocabulary BuilderVocabulary JsonFacts StrFacts AddressFacts.
Local Open Scope list_scope.

Lemma length_str (l : list ascii) : String.length (str l) = List.length l.
Proof. induction l as [|c l IH]; simpl; [ reflexivity | rewrite <- IH; reflexivity ]. Qed.

Lemma length_append (a b : string) : String.length (a ++ b) = String.length a + String.length b.
Proof. induction a as [|c a IH]; simpl; [ reflexivity | rewrite IH; reflexivity ]. Qed.

Lemma truncate_bound (s : string) (n : nat) :
  3 <= n ->
  String.length (truncate s n) <= n
  /\ (String.length s <= n -> truncate s n = s).
Proof.
  intros H. unfold truncate. destruct (JsStr.truthy s) eqn:T; cbn [negb].
  - destruct (Nat.leb (String.length s) n) eqn:L.
    + apply Nat.leb_le in L. split; [ exact L | reflexivity ].
    + apply Nat.leb_gt in L. split; [ | lia ].
      unfold substring0. rewrite length_append, length_str.
      pose proof (firstn_le_length (n - 3) (chars s)). simpl. lia.
  - split; [ simpl; lia | ]. intros _. destruct s; [ reflexivity | discriminate ].
Qed.

(** X15.  The description of a Service entity has at most 200
    characters, and is the description of the page when that has at most
    200. *)
Theorem service_description_is_bounded (pageData : PageData.t) (orgInfo : OrgInfo.t)
  (options : Options.t) :
  exists d,
    get (Service.generate pageData orgInfo options) "description" = JStr d
    /\ String.length d <= 200
    /\ (String.length (PageData.description pageData) <= 200 ->
        d = PageData.description pageData).
Proof.
  exists (truncate (PageData.description pageData) 200).
  split; [ reflexivity | ]. apply truncate_bound. lia.
Qed.

(** X16.  The provider of a Service entity carries the [@id] of the
    business entity that [LocalBusiness.generate] builds for the same
    organization, the URL of the organization followed by
    [#localbusiness], and its type when both are given the same
    [businessType]. *)
Theorem provider_points_at_the_business (pageData : PageData.t) (orgInfo : OrgInfo.t)
  (options options' : Options.t) :
  get (get (Service.generate pageData orgInfo options) "provider") "@id"
  = get (LocalBusiness.generate orgInfo options') "@id"
  /\ get (get (Service.generate pageData orgInfo options) "provider") "@id"
     = JStr (OrgInfo.url orgInfo ++ "#localbusiness")
  /\ (Options.businessType options' = Options.businessType options ->
      get (get (Service.generate pageData orgInfo options) "provider") "@type"
      = get (LocalBusiness.generate orgInfo options') "@type").
Proof.
  split; [ reflexivity | ]. split; [ reflexivity | ].
  intros E. cbn [Service.generate LocalBusiness.generate get lookup app String.eqb Ascii.eqb Bool.eqb].
  rewrite E. reflexivity.
Qed.

Lemma service_country_explicit (options : Options.t) (areas : list string) (c : string) :
  explicit_country options = Some c ->
  Service.detectCountryFromAreas (Options.address options) areas = c.
Proof.
  unfold explicit_country, Service.detectCountryFromAreas, Service.country_of_address.
  destruct (Options.address options) as [a|]; [ | discriminate ].
  destruct (JsStr.truthy (Address.addressCountry a)); [ | discriminate ].
  intros [= <-]. reflexivity.
Qed.

Lemma business_country_explicit (options : Options.t) (areas : list string) (p c : string) :
  explicit_country options = Some c ->
  LocalBusiness.detectCountry (Options.address options) areas p = c.
Proof.
  unfold explicit_country, LocalBusiness.detectCountry, Service.country_of_address.
  destruct (Options.address options) as [a|]; [ | discriminate ].
  destruct (JsStr.truthy (Address.addressCountry a)); [ | discriminate ].
  intros [= <-]. reflexivity.
Qed.

Lemma explicit_country_truthy (options : Options.t) (c : string) :
  explicit_country options = Some c ->
  exists a, Options.address options = Some a /\ Address.addressCountry a = c
            /\ JsStr.truthy c = true.
Proof.
  unfold explicit_country. destruct (Options.address options) as [a|]; [ | discriminate ].
  destruct (JsStr.truthy (Address.addressCountry a)) eqn:T; [ | discriminate ].
  intros [= <-]. exists a. auto.
Qed.

(** X17.  A country given in [options.address] is the country of the
    provider address of the Service entity and of the address of the
    business entity: nothing is detected from the areas then. *)
Theorem explicit_country_wins (pageData : PageData.t) (orgInfo : OrgInfo.t)
  (options : Options.t) (c : string) :
  explicit_country options = Some c ->
  get (provider_address (Service.generate pageData orgInfo options)) "addressCountry" = JStr c
  /\ get (get (LocalBusiness.generate orgInfo options) "address") "addressCountry" = JStr c.
Proof.
  intros E. destruct (explicit_country_truthy options c E) as (a & Ea & Ec & T).
  split.
  - rewrite service_provider_address. cbv zeta.
    rewrite (service_country_explicit options _ c E).
    unfold Service.providerAddress. rewrite Ea.
    destruct (JsStr.truthy (Address.addressLocality a)).
    + cbn [get app lookup String.eqb Ascii.eqb Bool.eqb]. rewrite Ec.
      unfold or_else. rewrite T. reflexivity.
    + destruct (Service.areaServedArray pageData options); reflexivity.
  - rewrite AddressFacts.business_address. cbv zeta.
    rewrite (business_country_explicit options _ _ c E).
    unfold LocalBusiness.businessAddress. rewrite Ea.
    destruct (JsStr.truthy (Address.streetAddress a) || JsStr.truthy (Address.addressLocality a)).
    + cbn [get app lookup String.eqb Ascii.eqb Bool.eqb]. rewrite Ec.
      unfold or_else. rewrite T. reflexivity.
    + destruct (JsStr.truthy (hd "" (LocalBusiness.allAreas options))); reflexivity.
Qed.

Lemma chars_of_append (a b : string) : chars (a ++ b)%string = chars a ++ chars b.
Proof. induction a as [|c a IH]; simpl; [ reflexivity | f_equal; exact IH ]. Qed.

Lemma split_chars_skip (sep : ascii) (a r : list ascii) :
  forall cur, ~ In sep a -> split_chars sep cur (a ++ r) = split_chars sep (rev a ++ cur) r.
Proof.
  induction a as [|c a IH]; intros cur H; simpl; [ reflexivity | ].
  destruct (Ascii.eqb c sep) eqn:E.
  - apply Ascii.eqb_eq in E. subst c. exfalso. apply H. left. reflexivity.
  - rewrite IH by (intro K; apply H; right; exact K).
    rewrite <- app_assoc. reflexivity.
Qed.

Lemma starts_tight (l : list ascii) : starts_with_text l = true -> tight l /\ l <> [].
Proof.
  destruct l as [|c l]; [ discriminate | ]. simpl. intros H. split; [ | discriminate ].
  rewrite FaqFacts.is_space_white. apply negb_true_iff. exact H.
Qed.

Lemma area_name_spec (s : string) :
  area_name s = true ->
  tight (chars s) /\ tight (rev (chars s)) /\ ~ In ","%char (chars s) /\ chars s <> [].
Proof.
  unfold area_name. rewrite !andb_true_iff. intros [[A B] C].
  destruct (starts_tight _ A) as [A1 A2]. destruct (starts_tight _ B) as [B1 _].
  split; [ exact A1 | ]. split; [ exact B1 | ]. split; [ | exact A2 ].
  intro K. apply negb_true_iff in C.
  assert (existsb (Ascii.eqb ",") (chars s) = true); [ | congruence ].
  apply existsb_exists. exists ","%char. split; [ exact K | reflexivity ].
Qed.

Lemma gap_free (gap : list ascii) :
  forallb white_space gap = true -> ~ In ","%char gap.
Proof.
  intros H K. rewrite forallb_forall in H. specialize (H _ K). discriminate H.
Qed.

Lemma drop_gap (gap y : list ascii) :
  forallb white_space gap = true -> tight y -> drop_space (gap ++ y) = y.
Proof.
  induction gap as [|c gap IH]; simpl; intros G T.
  - apply drop_space_id. exact T.
  - apply andb_true_iff in G. destruct G as [G1 G2].
    rewrite FaqFacts.is_space_white, G1. apply IH; assumption.
Qed.

Lemma trim_gap (gap : list ascii) (y : string) :
  forallb white_space gap = true -> area_name y = true ->
  trim (str (gap ++ chars y)) = y.
Proof.
  intros G N. destruct (area_name_spec y N) as [T1 [T2 _]].
  unfold trim, trim_chars. rewrite chars_str, (drop_gap gap _ G T1).
  rewrite (drop_space_id _ T2), rev_involutive. apply str_chars.
Qed.

Lemma split_listed (gap : string) (names : list string) :
  forallb white_space (chars gap) = true ->
  forallb area_name names = true ->
  forall (x : string) (cur : list ascii),
    area_name x = true ->
    split_chars "," cur (chars (listed gap (x :: names)))
    = (rev cur ++ chars x) :: map (fun y => chars gap ++ chars y) names.
Proof.
  intros G. unfold listed.
  induction names as [|y names IH]; intros N x cur X.
  - cbn [join map]. apply split_chars_whole. apply (area_name_spec x X).
  - cbn [forallb] in N. apply andb_true_iff in N. destruct N as [Y N].
    change (join ("," ++ gap)%string (x :: y :: names))
      with (x ++ ("," ++ gap) ++ join ("," ++ gap) (y :: names))%string.
    rewrite !chars_of_append.
    rewrite split_chars_skip by apply (area_name_spec x X).
    change (chars ",") with [ ","%char ]. cbn [app split_chars].
    rewrite Ascii.eqb_refl.
    rewrite split_chars_skip by (apply gap_free; exact G).
    rewrite (IH N y _ Y). rewrite !rev_app_distr, !rev_involutive.
    cbn [rev app map]. reflexivity.
Qed.

(** The entries the builder reads off a list of names are the names. *)
Lemma entries_of_listed (gap : string) (names : list string) :
  forallb white_space (chars gap) = true ->
  forallb area_name names = true ->
  names <> [] ->
  split_trim_filter (listed gap names) = names.
Proof.
  intros G N E. destruct names as [|x names]; [ congruence | ].
  cbn [forallb] in N. apply andb_true_iff in N. destruct N as [X N].
  unfold split_trim_filter, split. rewrite (split_listed gap names G N x [] X).
  cbn [rev app map filter].
  replace (trim (str (chars x))) with x
    by (symmetry; apply (trim_gap [] x); [ reflexivity | exact X ]).
  assert (Tx : forall y, area_name y = true -> JsStr.truthy y = true).
  { intros y Y. destruct (area_name_spec y Y) as [_ [_ [_ K]]].
    destruct y; [ exfalso; apply K; reflexivity | reflexivity ]. }
  rewrite (Tx x X). f_equal.
  clear X E x. induction names as [|y names IH]; [ reflexivity | ].
  cbn [forallb] in N. apply andb_true_iff in N. destruct N as [Y N].
  cbn [map filter]. rewrite (trim_gap _ y G Y), (Tx y Y). f_equal. apply IH. exact N.
Qed.

(** X18.  When [options.areaServed] is a list of area names separated by
    commas (each comma followed by any white space, or none), the names
    being non-empty, free of commas and of white space at either end, the
    Service entity and its offer serve exactly these areas: the one object
    of type [City] with that name, or the list of such objects in the order
    given; and the provider serves the list. *)
Theorem service_lists_the_areas_given (pageData : PageData.t) (orgInfo : OrgInfo.t)
  (options : Options.t) (gap : string) (names : list string) :
  let entity := Service.generate pageData orgInfo options in
  names <> [] ->
  forallb area_name names = true ->
  forallb white_space (chars gap) = true ->
  Options.areaServed options = listed gap names ->
  get entity "areaServed" = cities names
  /\ get (get entity "offers") "areaServed" = cities names
  /\ get (get entity "provider") "areaServed" = arr (map city_named names).
Proof.
  intros entity E N G L. subst entity. unfold Service.generate.
  assert (A : split_trim_filter (Options.areaServed options) = names)
    by (rewrite L; apply entries_of_listed; assumption).
  assert (H : is_nil (split_trim_filter (Options.areaServed options)) = false)
    by (rewrite A; destruct names; [ congruence | reflexivity ]).
  rewrite (service_areas_of_options pageData options H), A.
  assert (V : Service.areaServedValue names = Some (cities names)).
  { unfold Service.areaServedValue, cities. destruct names as [|a [|b rest]];
      [ congruence | reflexivity | reflexivity ]. }
  rewrite V. cbn [Service.opt_entry Service.or_undef].
  split; [ | split ].
  - cbn [get]. rewrite !lookup_app. cbn [lookup String.eqb Ascii.eqb Bool.eqb].
    destruct (JsStr.truthy (PageData.featuredImage pageData)); reflexivity.
  - cbn [get]. rewrite !lookup_app. cbn [lookup String.eqb Ascii.eqb Bool.eqb].
    destruct (JsStr.truthy (PageData.featuredImage pageData));
      cbn [lookup String.eqb Ascii.eqb Bool.eqb];
      unfold opt_field; destruct (JsStr.truthy (Service.category _));
      reflexivity.
  - cbn [get lookup String.eqb Ascii.eqb Bool.eqb]. rewrite !lookup_app.
    cbn [lookup String.eqb Ascii.eqb Bool.eqb].
    destruct names; [ congruence | reflexivity ].
Qed.

End BuilderFacts.

Module AiTextFacts.
Import JsStr AiText AiTextVocabulary StrFacts BuilderFacts.
Local Open Scope list_scope.

Lemma chars_append (a b : string) : chars (a ++ b)%string = chars a ++ chars b.
Proof. induction a as [|c a IH]; simpl; [ reflexivity | unfold chars in *; simpl; rewrite IH; reflexivity ]. Qed.

Lemma str_app (a b : list ascii) : str (a ++ b) = (str a ++ str b)%string.
Proof. induction a as [|c a IH]; simpl; [ reflexivity | unfold str in *; simpl; rewrite IH; reflexivity ]. Qed.

Lemma length_chars (s : string) : List.length (chars s) = String.length s.
Proof. rewrite <- (str_chars s) at 2. rewrite length_str. reflexivity. Qed.

Lemma prefix_chars_split (p l : list ascii) :
  prefix_chars p l = true -> exists post, l = p ++ post.
Proof.
  revert l. induction p as [|a p IH]; intros l H.
  - exists l. reflexivity.
  - destruct l as [|b l]; [ discriminate | ]. simpl in H.
    apply andb_true_iff in H. destruct H as [E H]. apply Ascii.eqb_eq in E. subst b.
    destruct (IH l H) as [post ->]. exists post. reflexivity.
Qed.

Lemma prefix_chars_refl_app (p post : list ascii) : prefix_chars p (p ++ post) = true.
Proof. induction p as [|a p IH]; simpl; [ reflexivity | rewrite Ascii.eqb_refl, IH; reflexivity ]. Qed.

Lemma index_from_some (needle l : list ascii) :
  forall i n,
    index_from needle l i = Some n ->
    exists pre post,
      l = pre ++ needle ++ post /\ n = i + List.length pre
      /\ (forall j, j < List.length pre -> prefix_chars needle (skipn j l) = false).
Proof.
  induction l as [|c l IH]; intros i n; simpl.
  - destruct (prefix_chars needle []) eqn:P; [ | discriminate ].
    intros [= <-]. destruct (prefix_chars_split _ _ P) as [post E].
    exists [], post. split; [ exact E | ]. split; [ simpl; lia | simpl; lia ].
  - destruct (prefix_chars needle (c :: l)) eqn:P.
    + intros [= <-]. destruct (prefix_chars_split _ _ P) as [post E].
      exists [], post. split; [ exact E | ]. split; [ simpl; lia | simpl; lia ].
    + intros H. destruct (IH _ _ H) as (pre & post & E & N & F).
      exists (c :: pre), post. split; [ simpl; rewrite E; reflexivity | ].
      split; [ simpl; lia | ].
      intros j Hj. destruct j as [|j]; [ exact P | ]. simpl. apply F. simpl in Hj. lia.
Qed.

Lemma index_from_none (needle l : list ascii) :
  forall i, index_from needle l i = None -> includes_chars needle l = false.
Proof.
  induction l as [|c l IH]; intros i; simpl.
  - destruct (prefix_chars needle []); [ discriminate | reflexivity ].
  - destruct (prefix_chars needle (c :: l)); [ discriminate | ]. intros H. simpl.
    eapply IH. exact H.
Qed.

(** X19.  [safeReplace] replaces the first occurrence of the search text
    by the replacement, taken literally, and leaves the text before and
    after it as it is; a text without an occurrence is returned
    unchanged. *)
Theorem safeReplace_replaces_the_first_occurrence (s search replacement : string) :
  match indexOf s search with
  | None => includes s search = false /\ safeReplace s search replacement = s
  | Some i =>
      exists pre post,
        s = (pre ++ search ++ post)%string
        /\ String.length pre = i
        /\ (forall j, j < i -> prefix_chars (chars search) (skipn j (chars s)) = false)
        /\ safeReplace s search replacement = (pre ++ replacement ++ post)%string
  end.
Proof.
  unfold safeReplace. destruct (indexOf s search) as [i|] eqn:E; unfold indexOf in E.
  - destruct (index_from_some _ _ _ _ E) as (pre & post & Hs & Hi & F).
    simpl in Hi. subst i.
    exists (str pre), (str post).
    assert (S : s = (str pre ++ search ++ str post)%string).
    { rewrite <- (str_chars s), Hs, !str_app, str_chars. reflexivity. }
    split; [ exact S | ]. split; [ apply length_str | ]. split; [ exact F | ].
    unfold substring0. rewrite <- length_chars, Hs.
    rewrite (SplitFacts.firstn_length_app pre).
    replace (List.length pre + List.length (chars search))
      with (List.length (pre ++ chars search)) by apply length_app.
    rewrite app_assoc, skipn_app, skipn_all, Nat.sub_diag. reflexivity.
  - split; [ eapply index_from_none; exact E | reflexivity ].
Qed.

(** *** The balanced-brace scan *)

Lemma scan_app (post l : list ascii) :
  forall d s e i n, scan l d s e i = Some n -> scan (l ++ post) d s e i = Some n.
Proof.
  induction l as [|ch l IH]; intros d s e i n; simpl; [ discriminate | ].
  repeat match goal with
         | |- context [if ?b then _ else _] => destruct b
         end; try apply IH; auto.
Qed.

Lemma scan_bounds (l : list ascii) :
  forall d s e i n, scan l d s e i = Some n -> i < n /\ n <= i + List.length l.
Proof.
  induction l as [|ch l IH]; intros d s e i n; simpl; [ discriminate | ].
  repeat match goal with
         | |- context [if ?b then _ else _] => destruct b
         end;
    try (intros H; apply IH in H; lia).
  intros [= <-]. lia.
Qed.

Lemma scan_firstn (l : list ascii) :
  forall d s e i n, scan l d s e i = Some n -> scan (firstn (n - i) l) d s e i = Some n.
Proof.
  induction l as [|ch l IH]; intros d s e i n; [ discriminate | ].
  intros H. pose proof (scan_bounds _ _ _ _ _ _ H) as [B1 B2].
  replace (n - i) with (S (n - S i)) by lia. cbn [firstn].
  revert H. cbn [scan].
  repeat match goal with
         | |- context [if ?b then _ else _] => destruct b
         end; try apply IH; auto.
Qed.

Lemma index_from_skip (c : ascii) (pre l : list ascii) :
  ~ In c pre -> forall i, index_from [ c ] (pre ++ l) i = index_from [ c ] l (i + List.length pre).
Proof.
  induction pre as [|x pre IH]; intros N i.
  - simpl. rewrite Nat.add_0_r. reflexivity.
  - cbn [app index_from prefix_chars].
    destruct (Ascii.eqb c x) eqn:E.
    + apply Ascii.eqb_eq in E. exfalso. apply N. left. symmetry. exact E.
    + cbn [andb]. rewrite IH by (intros X; apply N; right; exact X).
      f_equal. simpl. lia.
Qed.

Lemma index_from_brace_free (c : ascii) (l : list ascii) :
  forall i, index_from [ c ] l i = None -> ~ In c l.
Proof.
  induction l as [|x l IH]; intros i; [ intros _ [] | ].
  cbn [index_from prefix_chars]. destruct (Ascii.eqb c x) eqn:E; [ discriminate | ].
  cbn [andb]. intros H [X | X].
  - subst x. rewrite Ascii.eqb_refl in E. discriminate.
  - exact (IH _ H X).
Qed.

Lemma extract_self (r : list ascii) :
  prefix_chars [ "{"%char ] r = true ->
  (scan r 0 false false 0 = Some (List.length r) \/ scan r 0 false false 0 = None) ->
  extractBalancedJSON (str r) = Some (str r).
Proof.
  intros P H. unfold extractBalancedJSON. rewrite chars_str.
  destruct r as [|c r]; [ discriminate | ].
  cbn [index_from]. rewrite P. cbn [skipn].
  destruct H as [-> | ->]; [ rewrite firstn_all | ]; reflexivity.
Qed.

Lemma index_from_char (c : ascii) (l : list ascii) :
  forall i n,
    index_from [ c ] l i = Some n ->
    exists pre rest, l = pre ++ c :: rest /\ n = i + List.length pre /\ ~ In c pre.
Proof.
  induction l as [|x l IH]; intros i n; [ discriminate | ].
  cbn [index_from prefix_chars]. destruct (Ascii.eqb c x) eqn:E; cbn [andb].
  - apply Ascii.eqb_eq in E. subst x. intros [= <-].
    exists [], l. split; [ reflexivity | ]. split; [ simpl; lia | intros [] ].
  - intros H. destruct (IH _ _ H) as (pre & rest & -> & -> & N).
    exists (x :: pre), rest. split; [ reflexivity | ]. split; [ simpl; lia | ].
    intros [X | X]; [ subst x; rewrite Ascii.eqb_refl in E; discriminate | exact (N X) ].
Qed.

Lemma skipn_length_app0 {A : Type} (pre l : list A) : skipn (List.length pre) (pre ++ l) = l.
Proof. induction pre as [|x pre IH]; simpl; [ reflexivity | exact IH ]. Qed.

(** X20.  [extractBalancedJSON] returns nothing exactly when the text has
    no opening brace.  Otherwise the result is a part of the text that
    starts at its first opening brace and either ends with the brace that
    closes it or runs to the end of the text; extracting from the result
    gives the result again. *)
Theorem extractBalancedJSON_result (text : string) :
  match extractBalancedJSON text with
  | None => brace_free text
  | Some r =>
      exists pre post,
        text = (pre ++ r ++ post)%string
        /\ brace_free pre
        /\ prefix_chars [ "{"%char ] (chars r) = true
        /\ (closed_object r \/ post = ""%string)
        /\ extractBalancedJSON r = Some r
  end.
Proof.
  unfold extractBalancedJSON at 1.
  destruct (index_from [ "{"%char ] (chars text) 0) as [start|] eqn:E.
  - destruct (index_from_char _ _ _ _ E) as (pre & rest & Ht & Hs & Bf).
    simpl in Hs. subst start. rewrite Ht, skipn_length_app0.
    set (body := "{"%char :: rest) in *.
    assert (P : prefix_chars [ "{"%char ] body = true) by reflexivity.
    destruct (scan body 0 false false 0) as [n|] eqn:Sc.
    + pose proof (scan_bounds _ _ _ _ _ _ Sc) as [B1 B2]. simpl in B2.
      pose proof (scan_firstn _ _ _ _ _ _ Sc) as Sf. rewrite Nat.sub_0_r in Sf.
      assert (Ln : List.length (firstn n body) = n) by (apply firstn_length_le; exact B2).
      assert (Pn : prefix_chars [ "{"%char ] (firstn n body) = true)
        by (destruct n; [ lia | reflexivity ]).
      exists (str pre), (str (skipn n body)).
      split; [ | split; [ | split; [ | split ] ] ].
      * rewrite <- (str_chars text), Ht. fold body.
        rewrite <- (firstn_skipn n body) at 1. rewrite !str_app. reflexivity.
      * unfold brace_free. rewrite chars_str. exact Bf.
      * rewrite chars_str. exact Pn.
      * left. unfold closed_object. rewrite chars_str, length_str, Ln. split; assumption.
      * apply extract_self; [ exact Pn | left; rewrite Ln; exact Sf ].
    + exists (str pre), ""%string.
      split; [ | split; [ | split; [ | split ] ] ].
      * rewrite <- (str_chars text), Ht. fold body. rewrite str_app.
        f_equal. clear. induction (str body) as [|c t IH]; simpl; [ reflexivity | rewrite <- IH; reflexivity ].
      * unfold brace_free. rewrite chars_str. exact Bf.
      * rewrite chars_str. exact P.
      * right. reflexivity.
      * apply extract_self; [ exact P | right; exact Sc ].
  - unfold brace_free. eapply index_from_brace_free. exact E.
Qed.

(** X21.  An object that is closed by its last character is extracted
    from any text that surrounds it, provided the text before it has no
    opening brace; what follows the object plays no role. *)
Theorem extractBalancedJSON_ignores_what_follows (pre body post : string) :
  brace_free pre -> closed_object body ->
  extractBalancedJSON (pre ++ body ++ post) = Some body.
Proof.
  intros Bf [P Sc]. unfold extractBalancedJSON.
  rewrite !chars_append.
  rewrite (index_from_skip "{"%char (chars pre) _ Bf).
  destruct (chars body) as [|c rest] eqn:Eb; [ discriminate | ].
  cbn [app index_from]. 
  assert (P' : prefix_chars [ "{"%char ] (c :: rest ++ chars post) = true)
    by (simpl in P |- *; exact P).
  rewrite P'. cbn [Nat.add].
  rewrite skipn_length_app0.
  change (c :: rest ++ chars post) with ((c :: rest) ++ chars post).
  rewrite (scan_app (chars post) _ _ _ _ _ _ Sc).
  rewrite <- length_chars, Eb, (SplitFacts.firstn_length_app (c :: rest)).
  rewrite <- Eb, str_chars. reflexivity.
Qed.

End AiTextFacts.

Module ArticleFacts.
Import JsStr Json Vocabulary ArticleVocabulary JsonFacts StrFacts BuilderFacts.
Local Open Scope list_scope.

Lemma lookup_opt_field_same (k s : string) (rest : fields) :
  lookup k (opt_field k s ++ rest)
  = if JsStr.truthy s then Some (JStr s) else lookup k rest.
Proof.
  unfold opt_field. destruct (JsStr.truthy s); [ | reflexivity ].
  simpl. rewrite String.eqb_refl. reflexivity.
Qed.

(** X22.  The headline of an Article entity has at most 110 characters
    and its description at most 200; a title or description of the page
    within its bound is taken as it is. *)
Theorem article_texts_are_bounded (pageData : PageData.t) (orgInfo : OrgInfo.t)
  (options : Options.t) :
  exists headline description,
    get (Article.generate pageData orgInfo options) "headline" = JStr headline
    /\ get (Article.generate pageData orgInfo options) "description" = JStr description
    /\ String.length headline <= 110
    /\ String.length description <= 200
    /\ (String.length (PageData.title pageData) <= 110 -> headline = PageData.title pageData)
    /\ (String.length (PageData.description pageData) <= 200 ->
        description = PageData.description pageData).
Proof.
  exists (truncate (PageData.title pageData) 110), (truncate (PageData.description pageData) 200).
  split; [ reflexivity | ]. split; [ reflexivity | ].
  destruct (truncate_bound (PageData.title pageData) 110) as [H1 H2]; [ lia | ].
  destruct (truncate_bound (PageData.description pageData) 200) as [D1 D2]; [ lia | ].
  auto.
Qed.

(** X23.  The author of an Article entity is the author of the page as a
    Person, and the organization when the page names none; the publisher is
    the organization.  [datePublished] is present exactly when the page has
    a publish date, and [dateModified] is the modified date of the page,
    else its publish date, and absent when the page has neither. *)
Theorem article_author_and_dates (pageData : PageData.t) (orgInfo : OrgInfo.t)
  (options : Options.t) :
  let entity := Article.generate pageData orgInfo options in
  get entity "author"
  = (if JsStr.truthy (PageData.author pageData)
     then named "Person" (PageData.author pageData)
     else named "Organization" (OrgInfo.name orgInfo))
  /\ get (get entity "publisher") "@type" = JStr "Organization"
  /\ get (get entity "publisher") "name" = JStr (OrgInfo.name orgInfo)
  /\ text_of entity "datePublished" = first_of (PageData.publishDate pageData) ""
  /\ text_of entity "dateModified"
     = first_of (PageData.modifiedDate pageData) (PageData.publishDate pageData).
Proof.
  intros entity. subst entity. unfold Article.generate, text_of, first_of, named.
  cbn [get]. rewrite !lookup_app. cbn [lookup String.eqb Ascii.eqb Bool.eqb].
  assert (I : lookup "author" (opt_field "image" (PageData.featuredImage pageData)) = None
              /\ lookup "publisher" (opt_field "image" (PageData.featuredImage pageData)) = None
              /\ lookup "datePublished" (opt_field "image" (PageData.featuredImage pageData)) = None
              /\ lookup "dateModified" (opt_field "image" (PageData.featuredImage pageData)) = None)
    by (unfold opt_field; destruct (JsStr.truthy (PageData.featuredImage pageData));
        repeat split; reflexivity).
  destruct I as (I1 & I2 & I3 & I4). rewrite I1, I2, I3, I4.
  split; [ destruct (JsStr.truthy (PageData.author pageData)); reflexivity | ].
  split; [ reflexivity | ]. split; [ reflexivity | ].
  unfold opt_field.
  destruct (JsStr.truthy (PageData.publishDate pageData)) eqn:P;
    destruct (JsStr.truthy (PageData.modifiedDate pageData)) eqn:M;
    cbn [lookup String.eqb Ascii.eqb Bool.eqb JsStr.truthy];
    split; try reflexivity;
    destruct (PageData.tags pageData); destruct (PageData.categories pageData); reflexivity.
Qed.

Lemma nth_listItems (crumbs : list Crumb.t) :
  forall start i,
    nth_error (Breadcrumb.listItems start crumbs) i
    = option_map (Breadcrumb.listItem (start + i)) (nth_error crumbs i).
Proof.
  induction crumbs as [|c crumbs IH]; intros start i.
  - destruct i; reflexivity.
  - destruct i as [|i]; simpl.
    + rewrite Nat.add_0_r. reflexivity.
    + rewrite IH. replace (S start + i) with (start + S i) by lia. reflexivity.
Qed.

Lemma length_listItems (crumbs : list Crumb.t) :
  forall start, List.length (Breadcrumb.listItems start crumbs) = List.length crumbs.
Proof. induction crumbs as [|c crumbs IH]; intros start; simpl; [ reflexivity | rewrite IH; reflexivity ]. Qed.

(** X25.  [Breadcrumb.generate] returns nothing exactly for fewer than
    two crumbs; otherwise the list has one item per crumb, in order, with
    the name and URL of the crumb and its position counted from 1. *)
Theorem breadcrumb_positions (crumbs : list Crumb.t) :
  match Breadcrumb.generate crumbs with
  | None => List.length crumbs < 2
  | Some entity =>
      2 <= List.length crumbs
      /\ exists items,
           get entity "itemListElement" = arr items
           /\ List.length items = List.length crumbs
           /\ forall i crumb,
                nth_error crumbs i = Some crumb ->
                exists item,
                  nth_error items i = Some item
                  /\ get item "position" = JNum (Z.of_nat (i + 1))
                  /\ get item "name" = JStr (Crumb.name crumb)
                  /\ get item "item" = JStr (Crumb.url crumb)
  end.
Proof.
  unfold Breadcrumb.generate. destruct (Nat.ltb (List.length crumbs) 2) eqn:L.
  - apply Nat.ltb_lt in L. exact L.
  - apply Nat.ltb_ge in L. split; [ exact L | ].
    exists (Breadcrumb.listItems 0 crumbs). split; [ reflexivity | ].
    split; [ apply length_listItems | ].
    intros i crumb H. exists (Breadcrumb.listItem i crumb).
    rewrite nth_listItems, H. repeat split; reflexivity.
Qed.

Lemma code_slash (x : ascii) :
  Regex.in_class false false [(47, 47)] x = Ascii.eqb x "/".
Proof.
  destruct x as [[] [] [] [] [] [] [] []]; vm_compute; reflexivity.
Qed.

Lemma run_at_trailing_slash (bef aft : list ascii) :
  Regex.run_at (Regex.rx "\/$") (Regex.mkPos bef aft)
  = match aft with
    | [ x ] => if Ascii.eqb x "/" then Some (Regex.mkPos (x :: bef) [], []) else None
    | _ => None
    end.
Proof.
  unfold Regex.run_at.
  change (Regex.ast (Regex.rx "\/$")) with (Regex.Seq (Regex.Cls false [(47, 47)]) Regex.Eol).
  cbn [Regex.run Regex.ignoreCase Regex.rx Regex.after Regex.before].
  destruct aft as [|x [|y xs]]; [ reflexivity | | ].
  - rewrite code_slash. destruct (Ascii.eqb x "/"); reflexivity.
  - rewrite code_slash. destruct (Ascii.eqb x "/"); reflexivity.
Qed.

Lemma replace_from_end (fuel : nat) (f : list ascii -> list ascii) (bef : list ascii) :
  Regex.replace_from fuel (Regex.rx "\/$") f bef [] = [].
Proof.
  destruct fuel as [|fuel]; [ reflexivity | ].
  cbn [Regex.replace_from]. rewrite run_at_trailing_slash. reflexivity.
Qed.

Lemma replace_from_trailing_slash (aft : list ascii) :
  forall fuel bef,
    List.length aft < fuel ->
    Regex.replace_from fuel (Regex.rx "\/$") (fun _ => []) bef aft = strip_last aft.
Proof.
  induction aft as [|x xs IH]; intros fuel bef L.
  - apply replace_from_end.
  - destruct fuel as [|fuel]; [ simpl in L; lia | ].
    cbn [Regex.replace_from]. rewrite run_at_trailing_slash.
    destruct xs as [|y xs].
    + destruct (Ascii.eqb x "/") eqn:E.
      * cbn [Regex.after List.length Nat.sub Nat.eqb firstn app strip_last]. rewrite E.
        apply replace_from_end.
      * cbn [strip_last]. rewrite E, replace_from_end. reflexivity.
    + rewrite IH by (simpl in *; lia). reflexivity.
Qed.

Lemma strip_last_spec (l : list ascii) :
  (exists base, l = base ++ [ "/"%char ] /\ strip_last l = base)
  \/ (strip_last l = l /\ forall base, l <> base ++ [ "/"%char ]).
Proof.
  induction l as [|x xs IH].
  - right. split; [ reflexivity | ]. intros [|b base]; discriminate.
  - destruct xs as [|y xs].
    + cbn [strip_last]. destruct (Ascii.eqb x "/") eqn:E.
      * apply Ascii.eqb_eq in E. subst x. left. exists []. split; reflexivity.
      * right. split; [ reflexivity | ]. intros [|b [|b' base]] H; try discriminate.
        injection H as ->. rewrite Ascii.eqb_refl in E. discriminate.
    + destruct IH as [(base & -> & S) | (S & N)].
      * left. exists (x :: base). split; [ reflexivity | ].
        change (strip_last (x :: base ++ [ "/"%char ])) with
          (match base ++ [ "/"%char ] with
           | [] => if Ascii.eqb x "/" then [] else [ x ]
           | _ => x :: strip_last (base ++ [ "/"%char ])
           end).
        rewrite S. destruct base; reflexivity.
      * right. split.
        -- change (strip_last (x :: y :: xs)) with (x :: strip_last (y :: xs)).
           rewrite S. reflexivity.
        -- intros [|b base] H; [ discriminate | ].
           injection H as -> H. exact (N base H).
Qed.

(** X24.  [mainEntityOfPage] of an Article entity is the page URL
    without its final slash, if it ends in one, followed by [/#webpage]:
    a URL and the same URL with one slash appended point at the same
    node. *)
Theorem article_points_at_the_webpage (pageData : PageData.t) (orgInfo : OrgInfo.t)
  (options : Options.t) :
  exists base,
    get (get (Article.generate pageData orgInfo options) "mainEntityOfPage") "@id"
    = JStr (base ++ "/#webpage")
    /\ (PageData.url pageData = (base ++ "/")%string
        \/ (PageData.url pageData = base
            /\ forall b, PageData.url pageData <> (b ++ "/")%string)).
Proof.
  exists (Article.withoutTrailingSlash (PageData.url pageData)).
  split; [ reflexivity | ].
  unfold Article.withoutTrailingSlash, Regex.replace_all.
  change (fun l : list ascii => chars ((fun _ : string => ""%string) (str l)))
    with (fun _ : list ascii => @nil ascii).
  rewrite replace_from_trailing_slash
    by (rewrite AiTextFacts.length_chars; lia).
  destruct (strip_last_spec (chars (PageData.url pageData))) as [(base & E & S) | (S & N)].
  - left. rewrite S. rewrite <- (str_chars (PageData.url pageData)), E.
    rewrite AiTextFacts.str_app. reflexivity.
  - right. rewrite S, str_chars. split; [ reflexivity | ].
    intros b H. apply (N (chars b)). rewrite H, AiTextFacts.chars_append. reflexivity.
Qed.

End ArticleFacts.

Module BackupListFacts.
Import JsStr Json Db BackupStoreVocabulary BackupList.
Local Open Scope list_scope.

Lemma map_get_listed {A : Type} (k : nat) (m : list (nat * A)) :
  match map_get k m with
  | Some v => In (k, v) m
  | None => forall e, In e m -> fst e <> k
  end.
Proof.
  induction m as [|[k' v'] m IH]; simpl.
  - intros e [].
  - destruct (Nat.eqb k' k) eqn:E.
    + apply Nat.eqb_eq in E. subst k'. left. reflexivity.
    + destruct (map_get k m) as [v|].
      * right. exact IH.
      * intros e [<- | H]; [ simpl; apply Nat.eqb_neq; exact E | exact (IH e H) ].
Qed.

Lemma map_get_seen {A : Type} (k : nat) (m : list (nat * A)) :
  existsb (Nat.eqb k) (map fst m) = match map_get k m with Some _ => true | None => false end.
Proof.
  induction m as [|[k' v'] m IH]; simpl; [ reflexivity | ].
  rewrite (Nat.eqb_sym k k'). destruct (Nat.eqb k' k); [ reflexivity | exact IH ].
Qed.

(** X26.  [listBackups] lists a post exactly when [rollback] has a backup
    for it, and the entry shown for such a post carries the timestamp and
    the number of rows of the backup [rollback] would use. *)
Theorem listBackups_shows_what_rollback_restores (config : Config) (w : world) (post : nat) :
  match available_backup config post w with
  | Some b =>
      In (mkSummary post (Db.timestamp b) (List.length (schemas b))) (listBackups config w)
  | None => forall e, In e (listBackups config w) -> postId e <> post
  end.
Proof.
  unfold available_backup, listBackups, listPersistedBackups, loadBackupFromFile.
  pose proof (map_get_listed post (backups w)) as M.
  pose proof (map_get_seen post (backups w)) as S.
  destruct (map_get post (backups w)) as [b|].
  - apply in_or_app. left. apply (in_map summary) in M. exact M.
  - destruct (str_get (storageKey config) (persistedBackups w)) as [o|].
    + pose proof (map_get_listed post o) as P.
      destruct (map_get post o) as [b|].
      * apply in_or_app. right. apply filter_In. split.
        -- apply (in_map summary) in P. exact P.
        -- cbn [postId summary fst]. rewrite S. reflexivity.
      * intros e H. apply in_app_or in H. destruct H as [H | H].
        -- apply in_map_iff in H. destruct H as (x & <- & H). exact (M x H).
        -- apply filter_In in H. destruct H as [H _].
           apply in_map_iff in H. destruct H as (x & <- & H). exact (P x H).
    + intros e H. apply in_app_or in H. destruct H as [H | H].
      * apply in_map_iff in H. destruct H as (x & <- & H). exact (M x H).
      * simpl in H. destruct H.
Qed.

End BackupListFacts.

Module PoolFacts.
Import JsStr Json Db StoreVocabulary PoolVocabulary StoreFacts DryFacts.
Local Open Scope list_scope.
Local Open Scope db_scope.

(** *** The connection is kept *)

Lemma same_connection_refl (w : world) : same_connection w w.
Proof. reflexivity. Qed.

Lemma same_connection_trans (a b c : world) :
  same_connection a b -> same_connection b c -> same_connection a c.
Proof. unfold same_connection. congruence. Qed.

Ltac held_bind := apply always_bind; [ exact same_connection_trans | | intros ? ].
Ltac held_ret := apply always_ret; exact same_connection_refl.
Ltac held_same := intros w; reflexivity.

Lemma held_execute (s : statement) : always same_connection (Db.execute s).
Proof.
  unfold Db.execute. held_bind; [ held_same | ].
  held_bind; [ intros w; unfold pop_db_fault; destruct (db_faults w); reflexivity | ].
  destruct a0; [ apply always_throw; exact same_connection_refl | ].
  intros w. destruct s; reflexivity.
Qed.

Lemma held_convert (schema schemaType : json) (primary : bool) :
  always same_connection (convertToRankMathFormat schema schemaType primary).
Proof.
  unfold convertToRankMathFormat. held_bind.
  - destruct (primary && _); [ | held_ret ].
    held_bind; [ intros w; unfold generateShortcodeId; destruct (random w); reflexivity | held_ret ].
  - held_bind; [ | held_ret ].
    destruct (lookup "@graph" _) as [g|]; [ | held_ret ].
    destruct (Json.truthy g); [ held_same | held_ret ].
Qed.

Lemma held_saveBackupsToFile (config : Config) : always same_connection (saveBackupsToFile config).
Proof.
  unfold saveBackupsToFile. held_bind; [ held_same | ].
  held_bind; [ intros w; unfold pop_fs_fault; destruct (fs_faults w); reflexivity | ].
  destruct a0; held_same.
Qed.

(** *** Agreement *)

Lemma agree_same {A : Type} (m : M A) : always same_connection m -> agree m m.
Proof. intros H w C. split; [ reflexivity | ]. rewrite (H w). exact C. Qed.

Lemma agree_bind {A B : Type} (m1 m2 : M A) (f1 f2 : A -> M B) :
  agree m1 m2 -> (forall a, agree (f1 a) (f2 a)) -> agree (bind m1 f1) (bind m2 f2).
Proof.
  intros Hm Hf w C. destruct (Hm w C) as [E K]. unfold bind. rewrite E.
  destruct (m2 w) as [[a|e] w1]; simpl in K.
  - apply Hf. exact K.
  - split; [ reflexivity | exact K ].
Qed.

Lemma agree_try_catch {A : Type} (m1 m2 : M A) (h1 h2 : string -> M A) :
  agree m1 m2 -> (forall e, agree (h1 e) (h2 e)) -> agree (try_catch m1 h1) (try_catch m2 h2).
Proof.
  intros Hm Hh w C. destruct (Hm w C) as [E K]. unfold try_catch. rewrite E.
  destruct (m2 w) as [[a|e] w1]; simpl in K.
  - split; [ reflexivity | exact K ].
  - apply Hh. exact K.
Qed.

Lemma agree_connected {A : Type} (m1 m2 : M A) :
  agree m1 m2 -> agree m1 (getConnection ;;; m2).
Proof.
  intros H w C. unfold bind, getConnection. rewrite C. apply H. exact C.
Qed.

Lemma agree_ret {A : Type} (a : A) : agree (ret a) (ret a).
Proof. intros w C. split; [ reflexivity | exact C ]. Qed.

Lemma agree_throw {A : Type} (e : string) : agree (@throw A e) (throw e).
Proof. intros w C. split; [ reflexivity | exact C ]. Qed.

Lemma agree_execute (s : statement) : agree (DbPool.execute s) (Db.execute s).
Proof. apply agree_same, held_execute. Qed.

Lemma agree_getExistingSchemas (postId : nat) :
  agree (DbPool.getExistingSchemas postId) (getExistingSchemas postId).
Proof.
  unfold DbPool.getExistingSchemas, getExistingSchemas.
  apply agree_connected, agree_bind; [ apply agree_execute | intros r; apply agree_ret ].
Qed.

Lemma agree_previewInsertion (postId : nat) (schema schemaType : json) (primary : bool) :
  agree (DbPool.previewInsertion postId schema schemaType primary)
    (previewInsertion postId schema schemaType primary).
Proof.
  unfold DbPool.previewInsertion, previewInsertion.
  apply agree_connected, agree_bind; [ apply agree_execute | intros found ].
  destruct (postRows found); [ apply agree_ret | ].
  apply agree_bind; [ apply agree_same, held_convert | intros rm ].
  apply agree_bind; [ apply agree_execute | intros e; apply agree_ret ].
Qed.

Section Client.
Variable config : Config.

Lemma agree_backupMeta (postId : nat) :
  agree (DbPool.backupMeta config postId) (backupMeta config postId).
Proof.
  unfold DbPool.backupMeta, backupMeta.
  apply agree_bind; [ apply agree_getExistingSchemas | intros existing ].
  apply agree_same.
  held_bind; [ intros w; unfold now; destruct (clock w); reflexivity | ].
  held_bind; [ held_same | ].
  held_bind; [ apply held_saveBackupsToFile | held_ret ].
Qed.

Lemma agree_backup_step (postId : nat) (bak : bool) :
  agree (if bak then DbPool.backupMeta config postId ;;; ret tt else ret tt)
    (if bak then backupMeta config postId ;;; ret tt else ret tt).
Proof.
  destruct bak; [ | apply agree_ret ].
  apply agree_bind; [ apply agree_backupMeta | intros _; apply agree_ret ].
Qed.

Lemma agree_insertSchema (postId : nat) (schema schemaType : json) (o : InsertOptions) :
  agree (DbPool.insertSchema config postId schema schemaType o)
    (insertSchema config postId schema schemaType o).
Proof.
  unfold DbPool.insertSchema, insertSchema.
  apply agree_bind; [ apply agree_previewInsertion | intros preview ].
  destruct (negb _); [ apply agree_ret | ].
  destruct (dflt true (dryRun o)); [ apply agree_ret | ].
  apply agree_connected.
  apply agree_bind; [ apply agree_same, held_convert | intros rm ].
  apply agree_bind; [ apply agree_backup_step | intros _ ].
  apply agree_try_catch; [ | intros e; apply agree_ret ].
  destruct (is_str _ _).
  - apply agree_bind; [ apply agree_execute | intros _; apply agree_ret ].
  - apply agree_bind; [ apply agree_execute | intros r; apply agree_ret ].
Qed.

Lemma agree_insertEach (postId : nat) (dry : json) (schemas : list (json * json)) :
  forall i, agree (DbPool.insertEach config postId dry i schemas)
              (insertEach config postId dry i schemas).
Proof.
  induction schemas as [|[schema type] rest IH]; intros i; simpl; [ apply agree_ret | ].
  apply agree_bind; [ apply agree_insertSchema | intros r ].
  apply agree_bind; [ apply IH | intros rs; apply agree_ret ].
Qed.

Lemma agree_insertMultipleSchemas (postId : nat) (schemas : list (json * json))
  (o : InsertOptions) :
  agree (DbPool.insertMultipleSchemas config postId schemas o)
    (insertMultipleSchemas config postId schemas o).
Proof.
  unfold DbPool.insertMultipleSchemas, insertMultipleSchemas.
  apply agree_bind; [ apply agree_backup_step | intros _ ].
  apply agree_bind; [ apply agree_insertEach | intros rs; apply agree_ret ].
Qed.

Lemma agree_insertFromGraph (postId : nat) (graphSchema : json) (o : InsertOptions) :
  agree (DbPool.insertFromGraph config postId graphSchema o)
    (insertFromGraph config postId graphSchema o).
Proof.
  unfold DbPool.insertFromGraph, insertFromGraph.
  destruct graphSchema; try apply agree_throw;
    (destruct (get _ "@graph"); try apply agree_ret; apply agree_insertMultipleSchemas).
Qed.

Lemma agree_restore (postId : nat) (metas : list SchemaMeta) :
  agree (DbPool.restore postId metas) (restore postId metas).
Proof.
  induction metas as [|meta rest IH]; simpl; [ apply agree_ret | ].
  apply agree_bind; [ | intros _; exact IH ].
  destruct (startsWith _ _); [ | apply agree_ret ].
  apply agree_bind; [ apply agree_execute | intros _; apply agree_ret ].
Qed.

Lemma agree_rollback (postId : nat) :
  agree (DbPool.rollback config postId) (rollback config postId).
Proof.
  unfold DbPool.rollback, rollback.
  apply agree_bind; [ apply agree_same; intros w; reflexivity | intros found ].
  destruct found as [b|]; [ | apply agree_ret ].
  apply agree_connected.
  apply agree_bind; [ apply agree_execute | intros _ ].
  apply agree_bind; [ apply agree_restore | intros _; apply agree_ret ].
Qed.

Lemma agree_deleteAllSchemas (postId : nat) (o : InsertOptions) :
  agree (DbPool.deleteAllSchemas config postId o) (deleteAllSchemas config postId o).
Proof.
  unfold DbPool.deleteAllSchemas, deleteAllSchemas.
  apply agree_connected, agree_bind; [ apply agree_execute | intros e ].
  destruct (dflt true (dryRun o)); [ apply agree_ret | ].
  apply agree_bind; [ apply agree_backup_step | intros _ ].
  apply agree_bind; [ apply agree_execute | intros _; apply agree_ret ].
Qed.
End Client.

Lemma agree_setRichSnippetType (postId : nat) (snippetType : string) (o : InsertOptions) :
  agree (DbPool.setRichSnippetType postId snippetType o)
    (setRichSnippetType postId snippetType o).
Proof.
  unfold DbPool.setRichSnippetType, setRichSnippetType.
  apply agree_connected, agree_bind; [ apply agree_execute | intros e ].
  destruct (dflt true (dryRun o)); [ apply agree_ret | ].
  apply agree_bind; [ | intros _; apply agree_ret ].
  destruct (metaRows e); apply agree_execute.
Qed.

Lemma agree_deleteMeta (metaId : nat) (o : InsertOptions) :
  agree (DbPool.deleteMeta metaId o) (deleteMeta metaId o).
Proof.
  unfold DbPool.deleteMeta, deleteMeta.
  apply agree_connected, agree_bind; [ apply agree_execute | intros e ].
  destruct (metaRows e); [ apply agree_ret | ].
  destruct (dflt true (dryRun o)); [ apply agree_ret | ].
  apply agree_bind; [ apply agree_execute | intros _; apply agree_ret ].
Qed.

(** X27.  Where the direct client holds its connection, every operation
    of the pooled client ([createPool]) returns what the same operation of
    the direct client ([create]) returns and leaves the same state behind:
    rows, backups, backup file, statements issued and console. *)
Theorem pooled_client_agrees_with_the_direct_client (config : Config) : clients_agree config.
Proof.
  unfold clients_agree.
  split; [ exact agree_getExistingSchemas | ].
  split; [ exact agree_previewInsertion | ].
  split; [ exact (agree_backupMeta config) | ].
  split; [ exact (agree_insertSchema config) | ].
  split; [ exact (agree_insertMultipleSchemas config) | ].
  split; [ exact (agree_insertFromGraph config) | ].
  split; [ exact agree_setRichSnippetType | ].
  split; [ exact (agree_rollback config) | ].
  split; [ exact agree_deleteMeta | exact (agree_deleteAllSchemas config) ].
Qed.

End PoolFacts.

Module PoolDryFacts.
Import JsStr Json Db StoreVocabulary PoolVocabulary StoreFacts DryFacts.
Local Open Scope list_scope.
Local Open Scope db_scope.

Lemma quiet_pool_execute (s : statement) :
  is_write s = false -> always no_db_write (DbPool.execute s).
Proof. exact (quiet_execute s). Qed.

Lemma quiet_pool_previewInsertion (postId : nat) (schema schemaType : json) (primary : bool) :
  always no_db_write (DbPool.previewInsertion postId schema schemaType primary).
Proof.
  unfold DbPool.previewInsertion.
  quiet_bind; [ apply quiet_pool_execute; reflexivity | ].
  destruct (postRows a); [ quiet_ret | ].
  quiet_bind; [ apply quiet_convert | ].
  quiet_bind; [ apply quiet_pool_execute; reflexivity | quiet_ret ].
Qed.

Lemma describes_pool_previewInsertion (postId : nat) (schema schemaType : json)
  (primary : bool) :
  yields (DbPool.previewInsertion postId schema schemaType primary) describes.
Proof.
  unfold DbPool.previewInsertion.
  apply yields_then. intros found.
  destruct (postRows found); [ apply yields_ret, describes_failure | ].
  apply yields_then. intros rm. apply yields_then. intros e.
  apply yields_ret. intros _. reflexivity.
Qed.

Section Client.
Variable config : Config.

Lemma quiet_pool_insertSchema (postId : nat) (schema schemaType : json) (o : InsertOptions) :
  dry o ->
  always no_db_write (DbPool.insertSchema config postId schema schemaType o)
  /\ yields (DbPool.insertSchema config postId schema schemaType o) describes.
Proof.
  intros D. unfold DbPool.insertSchema. rewrite (dry_default o D). split.
  - quiet_bind; [ apply quiet_pool_previewInsertion | ].
    destruct (negb _); quiet_ret.
  - eapply yields_bind; [ apply describes_pool_previewInsertion | ].
    intros preview H.
    destruct (negb _); apply yields_ret; [ exact H | ].
    unfold describes in *. rewrite !JsonFacts.get_set_other by reflexivity. exact H.
Qed.

Lemma quiet_pool_insertEach (postId : nat) (v : json) (schemas : list (json * json)) :
  Json.truthy v = true ->
  forall i,
    always no_db_write (DbPool.insertEach config postId v i schemas)
    /\ yields (DbPool.insertEach config postId v i schemas) (Forall describes).
Proof.
  intros T.
  induction schemas as [|[schema type] rest IH]; intros i; simpl.
  - split; [ quiet_ret | apply yields_ret; constructor ].
  - assert (D : dry (mkOptions v (JBool false) (JBool (Nat.eqb i 0)) JUndef))
      by (apply dry_passed; exact T).
    destruct (quiet_pool_insertSchema postId schema type _ D) as [Q Y].
    destruct (IH (S i)) as [Q' Y']. split.
    + quiet_bind; [ exact Q | ]. quiet_bind; [ exact Q' | quiet_ret ].
    + eapply yields_bind; [ exact Y | ]. intros r Hr.
      eapply yields_bind; [ exact Y' | ]. intros rs Hrs.
      apply yields_ret. constructor; assumption.
Qed.

Lemma quiet_pool_insertMultipleSchemas (postId : nat) (schemas : list (json * json))
  (o : InsertOptions) :
  dry o ->
  always no_db_write (DbPool.insertMultipleSchemas config postId schemas o)
  /\ yields (DbPool.insertMultipleSchemas config postId schemas o) describes_each.
Proof.
  intros D. unfold DbPool.insertMultipleSchemas. rewrite (dry_default o D).
  rewrite andb_false_r.
  destruct (quiet_pool_insertEach postId _ schemas (dry_default o D) 0) as [Q Y]. split.
  - quiet_bind; [ quiet_ret | ]. quiet_bind; [ exact Q | quiet_ret ].
  - apply yields_then. intros _. eapply yields_bind; [ exact Y | ].
    intros rs Hrs. apply yields_ret. exact Hrs.
Qed.

Lemma quiet_pool_insertFromGraph (postId : nat) (graphSchema : json) (o : InsertOptions) :
  dry o ->
  always no_db_write (DbPool.insertFromGraph config postId graphSchema o)
  /\ yields (DbPool.insertFromGraph config postId graphSchema o) describes_each.
Proof.
  intros D. unfold DbPool.insertFromGraph.
  assert (Q : forall g,
    always no_db_write
      (match get g "@graph" with
       | JArr graph _ =>
           DbPool.insertMultipleSchemas config postId
             (splitGraph graph (or_default JNull (primaryType o)))
             (mkOptions (or_default (JBool true) (dryRun o))
                (or_default (JBool true) (backup o)) JUndef JUndef)
       | _ => ret (JObj [ ("success", JBool false);
                          ("error", JStr "Schema does not contain @graph array") ])
       end)
    /\ yields
      (match get g "@graph" with
       | JArr graph _ =>
           DbPool.insertMultipleSchemas config postId
             (splitGraph graph (or_default JNull (primaryType o)))
             (mkOptions (or_default (JBool true) (dryRun o))
                (or_default (JBool true) (backup o)) JUndef JUndef)
       | _ => ret (JObj [ ("success", JBool false);
                          ("error", JStr "Schema does not contain @graph array") ])
       end) describes_each).
  { intros g. destruct (get g "@graph");
      try (split; [ quiet_ret | apply yields_ret; constructor ]).
    apply quiet_pool_insertMultipleSchemas, dry_passed. exact (dry_default o D). }
  destruct graphSchema; try apply Q;
    (split; [ apply always_throw; exact no_db_write_refl | intros w; exact I ]).
Qed.

Lemma quiet_pool_deleteAllSchemas (postId : nat) (o : InsertOptions) :
  dry o ->
  always no_db_write (DbPool.deleteAllSchemas config postId o)
  /\ yields (DbPool.deleteAllSchemas config postId o) describes.
Proof.
  intros D. unfold DbPool.deleteAllSchemas. rewrite (dry_default o D). split.
  - quiet_bind; [ apply quiet_pool_execute; reflexivity | quiet_ret ].
  - apply yields_then. intros e. apply yields_ret. intros _. reflexivity.
Qed.
End Client.

Lemma quiet_pool_setRichSnippetType (postId : nat) (snippetType : string) (o : InsertOptions) :
  dry o ->
  always no_db_write (DbPool.setRichSnippetType postId snippetType o)
  /\ yields (DbPool.setRichSnippetType postId snippetType o) describes.
Proof.
  intros D. unfold DbPool.setRichSnippetType. rewrite (dry_default o D). split.
  - quiet_bind; [ apply quiet_pool_execute; reflexivity | quiet_ret ].
  - apply yields_then. intros e. apply yields_ret. intros _. reflexivity.
Qed.

Lemma quiet_pool_deleteMeta (metaId : nat) (o : InsertOptions) :
  dry o ->
  always no_db_write (DbPool.deleteMeta metaId o)
  /\ yields (DbPool.deleteMeta metaId o) describes.
Proof.
  intros D. unfold DbPool.deleteMeta. rewrite (dry_default o D). split.
  - quiet_bind; [ apply quiet_pool_execute; reflexivity | ].
    destruct (metaRows a); quiet_ret.
  - apply yields_then. intros e.
    destruct (metaRows e); apply yields_ret; [ apply describes_failure | intros _; reflexivity ].
Qed.

(** X28.  When the caller leaves [dryRun] out or passes a value that
    JavaScript takes for true, none of the six writing operations of the
    pooled client issues an INSERT, UPDATE or DELETE, and the rows stay as
    they are, in every state of the store; a result that reports success
    is marked as a dry run, for the two aggregate operations every
    per-schema result.  (A [dryRun] of [null], [0] or the empty string is
    none of these, and the pooled client commits on it:
    [pooled_client_commits_on_null].) *)
Theorem pooled_client_is_dry_by_default (config : Config) (postId metaId : nat)
  (schema schemaType : json) (schemas : list (json * json)) (graphSchema : json)
  (snippetType : string) (o : InsertOptions) :
  dry o ->
  (always no_db_write (DbPool.insertSchema config postId schema schemaType o)
   /\ yields (DbPool.insertSchema config postId schema schemaType o) describes)
  /\ (always no_db_write (DbPool.insertMultipleSchemas config postId schemas o)
      /\ yields (DbPool.insertMultipleSchemas config postId schemas o) describes_each)
  /\ (always no_db_write (DbPool.insertFromGraph config postId graphSchema o)
      /\ yields (DbPool.insertFromGraph config postId graphSchema o) describes_each)
  /\ (always no_db_write (DbPool.deleteMeta metaId o)
      /\ yields (DbPool.deleteMeta metaId o) describes)
  /\ (always no_db_write (DbPool.deleteAllSchemas config postId o)
      /\ yields (DbPool.deleteAllSchemas config postId o) describes)
  /\ (always no_db_write (DbPool.setRichSnippetType postId snippetType o)
      /\ yields (DbPool.setRichSnippetType postId snippetType o) describes).
Proof.
  intros D.
  split; [ apply quiet_pool_insertSchema; exact D | ].
  split; [ apply quiet_pool_insertMultipleSchemas; exact D | ].
  split; [ apply quiet_pool_insertFromGraph; exact D | ].
  split; [ apply quiet_pool_deleteMeta; exact D | ].
  split; [ apply quiet_pool_deleteAllSchemas; exact D | ].
  apply quiet_pool_setRichSnippetType; exact D.
Qed.

End PoolDryFacts.

Module PrefixFacts.
Import JsStr Json Db.
Local Open Scope list_scope.

Lemma outside_the_class (x : ascii) :
  Regex.in_class false true [(97, 122); (65, 90); (48, 57); (95, 95)] x = negb (is_word x).
Proof. destruct x as [[] [] [] [] [] [] [] []]; vm_compute; reflexivity. Qed.

Lemma run_at_unsafe (bef aft : list ascii) :
  Regex.run_at (Regex.rx "[^a-zA-Z0-9_]") (Regex.mkPos bef aft)
  = match aft with
    | x :: xs => if is_word x then None else Some (Regex.mkPos (x :: bef) xs, [])
    | [] => None
    end.
Proof.
  unfold Regex.run_at.
  change (Regex.ast (Regex.rx "[^a-zA-Z0-9_]"))
    with (Regex.Cls true [(97, 122); (65, 90); (48, 57); (95, 95)]).
  cbn [Regex.run Regex.ignoreCase Regex.rx Regex.after Regex.before].
  destruct aft as [|x xs]; [ reflexivity | ].
  rewrite outside_the_class. destruct (is_word x); reflexivity.
Qed.

Lemma replace_from_unsafe (aft : list ascii) :
  forall fuel bef,
    List.length aft < fuel ->
    Regex.replace_from fuel (Regex.rx "[^a-zA-Z0-9_]") (fun _ => []) bef aft
    = filter is_word aft.
Proof.
  induction aft as [|x xs IH]; intros fuel bef L.
  - destruct fuel as [|fuel]; [ reflexivity | ].
    cbn [Regex.replace_from]. rewrite run_at_unsafe. reflexivity.
  - destruct fuel as [|fuel]; [ simpl in L; lia | ].
    cbn [Regex.replace_from]. rewrite run_at_unsafe. cbn [filter].
    destruct (is_word x).
    + rewrite IH by (simpl in L; lia). reflexivity.
    + cbn [Regex.after Regex.before].
      replace (List.length (x :: xs) - List.length xs) with 1 by (cbn [List.length]; lia).
      cbn [Nat.eqb app]. apply IH. simpl in L. lia.
Qed.

Lemma filter_all {A : Type} (P : A -> bool) (l : list A) :
  forallb P l = true -> filter P l = l.
Proof.
  induction l as [|x l IH]; simpl; [ reflexivity | ].
  destruct (P x); simpl; [ intros H; rewrite IH by exact H; reflexivity | discriminate ].
Qed.

(** X29.  The table prefix the clients put into their statements holds
    letters, digits and underscores only: it is the configured prefix
    ([wp_] when none is configured) with every other character removed,
    and a configured prefix of such characters is used as it is. *)
Theorem table_prefix_is_sanitized (configured : string) :
  let prefix := DbPool.tablePrefix configured in
  (forall c, In c (chars prefix) -> is_word c = true)
  /\ prefix = str (filter is_word (chars (or_else configured "wp_")))
  /\ (configured = "" -> prefix = "wp_")
  /\ (configured <> "" -> forallb is_word (chars configured) = true -> prefix = configured).
Proof.
  intros prefix.
  assert (E : prefix = str (filter is_word (chars (or_else configured "wp_")))).
  { subst prefix. unfold DbPool.tablePrefix, Regex.replace_all.
    change (fun l : list ascii => chars ((fun _ : string => ""%string) (str l)))
      with (fun _ : list ascii => @nil ascii).
    rewrite replace_from_unsafe by (rewrite AiTextFacts.length_chars; lia).
    reflexivity. }
  split; [ | split; [ exact E | split ] ].
  - intros c H. rewrite E, StrFacts.chars_str in H. apply filter_In in H. apply H.
  - intros ->. rewrite E. reflexivity.
  - intros N F. rewrite E. unfold or_else.
    destruct configured as [|a s]; [ contradiction | ].
    cbn [truthy]. rewrite filter_all by exact F. apply StrFacts.str_chars.
Qed.

End PrefixFacts.

Module Examples.
Import JsStr Json Db AiSchema AiText GraphVocabulary Vocabulary AddressVocabulary.
Import StoreVocabulary BackupVocabulary RollbackVocabulary.
Import EdgeVocabulary UpsertVocabulary BackupStoreVocabulary SnippetVocabulary SplitVocabulary.
Import PassVocabulary FormatVocabulary BuilderVocabulary AiTextVocabulary ExampleVocabulary.
Local Open Scope list_scope.

Lemma insertSchema_post_not_found_example :
  post_missing 8 example_store
  /\ no_db_write example_store
       (snd (insertSchema example_config 8 service_entity JUndef commit example_store)).
Proof.
  assert (H : post_missing 8 example_store)
    by (intros r [<- | []]; simpl; discriminate).
  split; [ exact H | ].
  exact (proj1 (StoreEdges.insertSchema_post_not_found example_config 8 service_entity JUndef
                  commit example_store H)).
Defined.

Lemma deleteMeta_not_found_example :
  meta_missing 9 example_store
  /\ no_db_write example_store (snd (deleteMeta 9 commit example_store)).
Proof.
  assert (H : meta_missing 9 example_store)
    by (intros r [<- | [<- | []]]; simpl; discriminate).
  split; [ exact H | ].
  exact (proj1 (StoreEdges.deleteMeta_not_found 9 commit example_store H)).
Defined.

Lemma deleteAllSchemas_commit_example :
  calm example_store
  /\ reflexive_collation example_store
  /\ exists r w',
       deleteAllSchemas example_config 7 commit example_store = (Returned r, w')
       /\ get r "success" = JBool true
       /\ get r "canRollback" = JBool true
       /\ schema_rows 7 w' = []
       /\ other_rows 7 w' = other_rows 7 example_store.
Proof.
  assert (C : calm example_store) by reflexivity.
  assert (R : reflexive_collation example_store) by (intros c; apply Ascii.eqb_refl).
  split; [ exact C | ]. split; [ exact R | ].
  apply (StoreEdges.deleteAllSchemas_commit example_config 7 commit example_store C R).
  reflexivity.
Defined.

Lemma insertSchema_upserts_example :
  calm example_store
  /\ reflexive_collation example_store
  /\ post_exists 7 example_store = true
  /\ exists r w',
       insertSchema example_config 7 service_entity JUndef commit example_store = (Returned r, w')
       /\ get r "success" = JBool true
       /\ get r "action" = JStr "INSERT"
       /\ List.length (postmeta w') = 3
       /\ has_row 7 "rank_math_schema_Service" w' = true
       /\ other_rows 7 w' = other_rows 7 example_store.
Proof.
  assert (C : calm example_store) by reflexivity.
  assert (R : reflexive_collation example_store) by (intros c; apply Ascii.eqb_refl).
  split; [ exact C | ]. split; [ exact R | ]. split; [ reflexivity | ].
  apply (UpsertFacts.insertSchema_upserts example_config 7 service_entity JUndef commit
           example_store C R); reflexivity.
Defined.

Lemma rollback_installs_the_backup_example :
  calm store_with_backup
  /\ reflexive_collation store_with_backup
  /\ exists r w',
       rollback example_config 7 store_with_backup = (Returned r, w')
       /\ get r "success" = JBool true
       /\ get r "restored" = num 1
       /\ schema_rows 7 w' = [ ("rank_math_schema_FAQPage", "a:0:{}") ]
       /\ other_rows 7 w' = other_rows 7 store_with_backup
       /\ same_backups store_with_backup w'.
Proof.
  assert (C : calm store_with_backup) by reflexivity.
  assert (R : reflexive_collation store_with_backup) by (intros c; apply Ascii.eqb_refl).
  split; [ exact C | ]. split; [ exact R | ].
  exact (BackupStoreFacts.rollback_installs_the_backup example_config 7 store_with_backup C R).
Defined.

Lemma rollback_is_repeatable_example :
  calm store_with_backup
  /\ reflexive_collation store_with_backup
  /\ available_backup example_config 7 store_with_backup = Some example_backup
  /\ exists r1 w1 r2 w2,
       rollback example_config 7 store_with_backup = (Returned r1, w1)
       /\ rollback example_config 7 w1 = (Returned r2, w2)
       /\ get r2 "success" = JBool true
       /\ schema_rows 7 w2 = schema_rows 7 w1
       /\ other_rows 7 w2 = other_rows 7 store_with_backup.
Proof.
  assert (C : calm store_with_backup) by reflexivity.
  assert (R : reflexive_collation store_with_backup) by (intros c; apply Ascii.eqb_refl).
  split; [ exact C | ]. split; [ exact R | ]. split; [ reflexivity | ].
  apply (BackupStoreFacts.rollback_is_repeatable example_config 7 example_backup
           store_with_backup C R).
  reflexivity.
Defined.

Lemma setRichSnippetType_commit_example :
  calm example_store
  /\ reflexive_collation example_store
  /\ exists r w',
       setRichSnippetType 7 "article" commit example_store = (Returned r, w')
       /\ get r "success" = JBool true
       /\ get r "action" = JStr "INSERT"
       /\ first_value 7 "rank_math_rich_snippet" w' = Some "article"
       /\ List.length (postmeta w') = 3.
Proof.
  assert (C : calm example_store) by reflexivity.
  assert (R : reflexive_collation example_store) by (intros c; apply Ascii.eqb_refl).
  split; [ exact C | ]. split; [ exact R | ].
  apply (SnippetFacts.setRichSnippetType_commit 7 "article" commit example_store C R).
  reflexivity.
Defined.

Lemma explicit_primary_type_example :
  JsStr.truthy "Service" = true
  /\ primary_of [ service_entity; article_entity ] (JStr "Service") = Some service_entity.
Proof.
  split; [ reflexivity | ].
  apply (proj1 (SplitFacts.explicit_primary_type [ service_entity; article_entity ] "Service"
                  eq_refl) [] service_entity [ article_entity ]); reflexivity.
Defined.

Lemma pass_keeps_other_items_example :
  exists out,
    ensureProviderAddresses generated_service example_org example_page = Returned out
    /\ Forall2 (fun item item' =>
                  (out_of_reach item = true -> item' = item)
                  /\ get (get item' "schema") "@type" = get (get item "schema") "@type")
         generated_service out.
Proof.
  destruct (ensureProviderAddresses generated_service example_org example_page)
    as [out | e] eqn:E; [ | vm_compute in E; discriminate E ].
  exists out. split; [ reflexivity | ].
  exact (PassFacts.pass_keeps_other_items generated_service example_org example_page out E).
Defined.

Lemma businesses_get_an_address_example :
  exists out,
    ensureProviderAddresses generated_business example_org example_page = Returned out
    /\ Forall (fun item =>
                 let s := get item "schema" in
                 is_business s = true ->
                 Json.truthy (get s "address") = true
                 /\ (objlike (get s "address") = true ->
                     JsStr.truthy (fallback_locality example_org example_page) = true ->
                     address_populated (get s "address") = true))
         out.
Proof.
  destruct (ensureProviderAddresses generated_business example_org example_page)
    as [out | e] eqn:E; [ | vm_compute in E; discriminate E ].
  exists out. split; [ reflexivity | ].
  exact (PassFacts.businesses_get_an_address generated_business example_org example_page out E).
Defined.

Lemma business_telephone_example :
  exists out,
    ensureProviderAddresses generated_business example_org example_page = Returned out
    /\ Forall2 (fun item item' =>
                  let s := get item "schema" in
                  is_business s = true ->
                  get (get item' "schema") "telephone"
                  = if Json.truthy (get s "telephone") then get s "telephone"
                    else if JsStr.truthy (fallback_phone example_org example_page)
                         then JStr (fallback_phone example_org example_page)
                         else get s "telephone")
         generated_business out.
Proof.
  destruct (ensureProviderAddresses generated_business example_org example_page)
    as [out | e] eqn:E; [ | vm_compute in E; discriminate E ].
  exists out. split; [ reflexivity | ].
  exact (PassFacts.business_telephone generated_business example_org example_page out E).
Defined.

Lemma rank_math_format_example :
  distinct_keys service_entity
  /\ exists r w',
       convertToRankMathFormat service_entity JUndef true example_store = (Returned r, w')
       /\ get r "@context" = JUndef
       /\ (forall k, k <> "@context" -> k <> "metadata" -> get r k = own service_entity k)
       /\ (has_own service_entity "metadata" = false ->
           get (get r "metadata") "type" = JStr "custom"
           /\ get (get r "metadata") "isPrimary"
              = if true && can_be_primary JUndef then JStr "1" else JUndef).
Proof.
  assert (D : distinct_keys service_entity).
  { unfold distinct_keys. simpl. repeat constructor; simpl; intuition discriminate. }
  split; [ exact D | ].
  exact (FormatFacts.rank_math_format service_entity JUndef true example_store D).
Defined.

Lemma explicit_country_wins_example :
  explicit_country canadian_options = Some "CA"
  /\ get (provider_address (Service.generate example_page example_org canadian_options))
       "addressCountry" = JStr "CA"
  /\ get (get (LocalBusiness.generate example_org canadian_options) "address")
       "addressCountry" = JStr "CA".
Proof.
  split; [ reflexivity | ].
  exact (BuilderFacts.explicit_country_wins example_page example_org canadian_options "CA"
           eq_refl).
Defined.

Lemma service_lists_the_areas_given_example :
  [ "Houston"; "Dallas" ] <> []
  /\ forallb area_name [ "Houston"; "Dallas" ] = true
  /\ forallb white_space (chars " ") = true
  /\ Options.areaServed (houston_dallas Options.none) = listed " " [ "Houston"; "Dallas" ]
  /\ get (Service.generate example_page example_org (houston_dallas Options.none)) "areaServed"
     = arr [ JObj [ ("@type", JStr "City"); ("name", JStr "Houston") ];
             JObj [ ("@type", JStr "City"); ("name", JStr "Dallas") ] ].
Proof.
  split; [ discriminate | ]. split; [ reflexivity | ]. split; [ reflexivity | ].
  split; [ reflexivity | ].
  exact (proj1 (BuilderFacts.service_lists_the_areas_given example_page example_org
                  (houston_dallas Options.none) " " [ "Houston"; "Dallas" ]
                  ltac:(discriminate) eq_refl eq_refl eq_refl)).
Defined.

Lemma extractBalancedJSON_ignores_what_follows_example :
  brace_free "Here it is: "
  /\ closed_object "{a{b}}"
  /\ extractBalancedJSON ("Here it is: " ++ "{a{b}}" ++ " and } more { text")
     = Some "{a{b}}".
Proof.
  assert (B : brace_free "Here it is: ").
  { unfold brace_free. simpl. intuition discriminate. }
  assert (C : closed_object "{a{b}}") by (split; reflexivity).
  split; [ exact B | ]. split; [ exact C | ].
  exact (AiTextFacts.extractBalancedJSON_ignores_what_follows _ _ _ B C).
Defined.

End Examples.

Module PoolExamples.
Import JsStr Json Db GraphVocabulary StoreVocabulary PoolVocabulary.
Local Open Scope list_scope.

Lemma pooled_client_agrees_with_the_direct_client_example :
  connected connected_store = true
  /\ DbPool.insertSchema example_config 7 service_entity JUndef commit connected_store
     = insertSchema example_config 7 service_entity JUndef commit connected_store.
Proof.
  destruct (PoolFacts.pooled_client_agrees_with_the_direct_client example_config)
    as (_ & _ & _ & H & _).
  split; [ reflexivity | ].
  exact (proj1 (H 7 service_entity JUndef commit connected_store eq_refl)).
Defined.

(** The pooled client on a [dryRun] of [null]: the INSERT is issued. *)
Lemma pooled_client_commits_on_null :
  let run := DbPool.insertSchema example_config 7 service_entity JUndef dryRun_null
               example_store in
  existsb is_write_event (trace (snd run)) = true
  /\ map meta_key (postmeta (snd run))
     = [ "rank_math_schema_FAQPage"; "rank_math_title"; "rank_math_schema_Service" ].
Proof. vm_compute. split; reflexivity. Qed.

Lemma pooled_client_is_dry_by_default_example :
  dry defaults
  /\ no_db_write example_store
       (snd (DbPool.insertSchema example_config 7 service_entity JUndef defaults example_store))
  /\ no_db_write example_store
       (snd (DbPool.deleteAllSchemas example_config 7 defaults example_store)).
Proof.
  assert (D : dry defaults) by (left; reflexivity).
  destruct (PoolDryFacts.pooled_client_is_dry_by_default example_config 7 1 service_entity JUndef
              [] service_then_article "article" defaults D)
    as ((H1 & _) & _ & _ & _ & (H5 & _) & _).
  split; [ exact D | ]. split; [ apply H1 | apply H5 ].
Defined.

End PoolExamples.
